(** * ConvNetJS core: tensors, dot-product layers, max-pooling, network, trainer

    A shallow embedding of the JavaScript sources
      - [convnet_vol.js]                 (module [Vol]),
      - [convnet_layers_dotproducts.js]  (modules [ConvLayer], [FullyConnLayer]),
      - [convnet_layers_pool.js]         (module [PoolLayer]),
      - [convnet_net.js]                 (module [Net]),
      - [convnet_trainers.js]            (module [Trainer]),
      - [convnet_util.js]                (module [JS]),
    followed by the properties established about them.

    Modelling conventions.
    - A JavaScript number is an exact rational ([Q]); rounding, NaN and the
      infinities of IEEE doubles are not represented.  Sizes, coordinates and
      counters are integers ([Z]).
    - A numeric buffer ([Float64Array]) is a [list]; a write outside the
      buffer is dropped, as typed arrays do.  A read outside the buffer
      yields [undefined] in JavaScript and the default element here; the
      theorems carry the shape hypotheses under which every read is in range.
    - A [for] loop is a left fold over its index range, threading the
      variables the loop body assigns.
    - Exceptions, the console, the Gaussian generator and [Math.sqrt] live in
      a state-and-exception monad [JS.js] over the host [JS.World]. *)

From Stdlib Require Import ZArith QArith Qround Qabs List String Bool Lia Lqa.
Import ListNotations.

Local Open Scope Z_scope.

(* ================================================================== *)
(** ** Host environment and utilities ([convnet_util.js]) *)

Module JS.

Inductive error : Type :=
| AssertionError (message : string)
| TypeError
| RangeError.

(** The host: [Math.sqrt], the successive draws of [gaussRandom], how many
    of them were consumed, and what was printed with [console.log]. *)
Record World : Type := mkWorld {
  Math_sqrt : Q -> Q;
  gauss : nat -> Q;
  rng_pos : nat;
  console : list string
}.

Inductive outcome (A : Type) : Type :=
| Ok (a : A) (s : World)
| Throw (e : error).
Arguments Ok {A} a s.
Arguments Throw {A} e.

Definition js (A : Type) : Type := World -> outcome A.

Definition ret {A} (a : A) : js A := fun s => Ok a s.

Definition bind {A B} (m : js A) (k : A -> js B) : js B :=
  fun s => match m s with
           | Ok a s' => k a s'
           | Throw e => Throw e
           end.

Definition throw {A} (e : error) : js A := fun _ => Throw e.

(** The host after one more line on the console. *)
Definition logged (s : World) (line : string) : World :=
  mkWorld (Math_sqrt s) (gauss s) (rng_pos s) (console s ++ [line]).

Definition console_log (line : string) : js unit := fun s => Ok tt (logged s line).

Definition sqrt (x : Q) : js Q := fun s => Ok (Math_sqrt s x) s.

Definition gaussRandom : js Q :=
  fun s => Ok (gauss s (rng_pos s))
              (mkWorld (Math_sqrt s) (gauss s) (S (rng_pos s)) (console s)).

(** [randn(mu, std)] *)
Definition randn (mu std : Q) : js Q :=
  bind gaussRandom (fun r => ret (mu + r * std)%Q).

(** [assert(condition, message)] *)
Definition assert (condition : bool) (message : string) : js unit :=
  if condition then ret tt else throw (AssertionError message).

(** Indices [lo, lo+1, ..., hi-1] of a counting loop. *)
Definition range (lo hi : Z) : list Z :=
  map (fun k => lo + Z.of_nat k) (seq 0 (Z.to_nat (hi - lo))).

(** [for(var i=lo; i<hi; i++) body], on the assigned variables [S]. *)
Definition for_range {S} (lo hi : Z) (body : Z -> S -> S) (s : S) : S :=
  fold_left (fun acc i => body i acc) (range lo hi) s.

Definition for_ {S} (n : Z) (body : Z -> S -> S) (s : S) : S :=
  for_range 0 n body s.

(** The same loop when the body may throw or touch the host. *)
Definition for_js {S} (n : Z) (body : Z -> S -> js S) (s : S) : js S :=
  fold_left (fun acc i => bind acc (body i)) (range 0 n) (ret s).

Definition for_range_js {S} (lo hi : Z) (body : Z -> S -> js S) (s : S) : js S :=
  fold_left (fun acc i => bind acc (body i)) (range lo hi) (ret s).

(** [for(var i=hi; i>=0; i--) body] *)
Definition for_down_js {S} (hi : Z) (body : Z -> S -> js S) (s : S) : js S :=
  fold_left (fun acc i => bind acc (body i)) (rev (range 0 (hi + 1))) (ret s).

(** [l[i]] when a property of the element is read next: an [undefined]
    element makes that read a [TypeError]. *)
Definition item {A} (l : list A) (i : Z) : js A :=
  if i <? 0 then throw TypeError
  else match nth_error l (Z.to_nat i) with
       | Some a => ret a
       | None => throw TypeError
       end.

(** The host's [Math.sqrt] as a function. *)
Definition the_sqrt : js (Q -> Q) := fun s => Ok (Math_sqrt s) s.

(** Typed-array element read [l[i]]. *)
Definition rd {A} (dflt : A) (l : list A) (i : Z) : A :=
  if i <? 0 then dflt else nth (Z.to_nat i) l dflt.

Fixpoint upd {A} (l : list A) (n : nat) (v : A) : list A :=
  match l, n with
  | [], _ => []
  | _ :: t, O => v :: t
  | h :: t, S n' => h :: upd t n' v
  end.

(** Typed-array element write [l[i] = v]: dropped outside the buffer. *)
Definition wr {A} (l : list A) (i : Z) (v : A) : list A :=
  if i <? 0 then l else upd l (Z.to_nat i) v.

Definition len {A} (l : list A) : Z := Z.of_nat (List.length l).

(** [zeros(n)]: [new Float64Array(n)], which refuses a negative length. *)
Definition zeros_of {A} (zero : A) (n : Z) : js (list A) :=
  if n <? 0 then throw RangeError else ret (repeat zero (Z.to_nat n)).

Definition zeros (n : Z) : js (list Q) := zeros_of 0%Q n.

(** [v | 0]: conversion to a signed 32-bit integer. *)
Definition toInt32 (v : Z) : Z := (v + 2^31) mod 2^32 - 2^31.

(** [a > b] on numbers. *)
Definition gt (a b : Q) : bool := negb (Qle_bool a b).

End JS.

Import JS.

Declare Scope js_scope.
Delimit Scope js_scope with js.
Notation "x <- c ;; k" := (JS.bind c (fun x => k))
  (at level 61, c at next level, right associativity) : js_scope.
Notation "c ;;; k" := (JS.bind c (fun _ => k))
  (at level 61, right associativity) : js_scope.
Local Open Scope js_scope.

(* ================================================================== *)
(** ** Array and option utilities ([convnet_util.js]) *)

Module Util.

(** [l[i]], with [None] for [undefined]. *)
Definition elem {A} (l : list A) (i : Z) : option A :=
  if i <? 0 then None else nth_error l (Z.to_nat i).

Section Arrays.

Context {A : Type}.

(** [a === b] on the elements. *)
Variable eqb : A -> A -> bool.

(** [arrContains(arr, elt)]; the flag stands for the early [return true]. *)
Definition arrContains (arr : list A) (elt : A) : bool :=
  for_ (len arr) (fun i (found : bool) =>
    if found then true
    else match elem arr i with
         | Some a => eqb a elt
         | None => false
         end) false.

(** [arrUnique(arr)] *)
Definition arrUnique (arr : list A) : list A :=
  for_ (len arr) (fun i b =>
    match elem arr i with
    | Some a => if arrContains b a then b else b ++ [a]
    | None => b
    end) [].

End Arrays.

(** The object [maxmin] returns for a non-empty list. *)
Record extremes : Type := mkExtremes {
  maxi : Z;
  maxv : Q;
  mini : Z;
  minv : Q;
  dv : Q
}.

(** [maxmin(w)]; [None] is the empty object returned for an empty list. *)
Definition maxmin (w : list Q) : option extremes :=
  if len w =? 0 then None
  else
    let '(maxv, maxi, minv, mini) :=
      for_range 1 (len w) (fun i '(maxv, maxi, minv, mini) =>
        let '(maxv, maxi) :=
          if gt (rd 0%Q w i) maxv then (rd 0%Q w i, i) else (maxv, maxi) in
        let '(minv, mini) :=
          if gt minv (rd 0%Q w i) then (rd 0%Q w i, i) else (minv, mini) in
        (maxv, maxi, minv, mini))
        (rd 0%Q w 0, 0, rd 0%Q w 0, 0) in
    Some (mkExtremes maxi maxv mini minv (maxv - minv)%Q).

(** The second argument of [getopt]: one field name or a list of them. *)
Inductive field_name : Type :=
| Single (f : string)
| Several (fs : list string).

(** [getopt(opt, field_name, default_value)]; [opt f] is [opt[f]], with
    [None] for [undefined]. *)
Definition getopt {A} (opt : string -> option A) (field_name : field_name)
           (default_value : A) : A :=
  match field_name with
  | Single f =>
      match opt f with Some v => v | None => default_value end
  | Several fs =>
      for_ (len fs) (fun i ret =>
        match elem fs i with
        | Some f => match opt f with Some v => v | None => ret end
        | None => ret
        end) default_value
  end.

End Util.

(* ================================================================== *)
(** ** Tensors ([convnet_vol.js]) *)

Module Vol.

Record t : Type := mk {
  sx : Z;
  sy : Z;
  depth : Z;
  w : list Q;
  dw : list Q
}.

(** [V.dw = g] *)
Definition with_dw (V : t) (g : list Q) : t := mk (sx V) (sy V) (depth V) (w V) g.

(** [new Vol(sx, sy, depth, c)] with the constant [c] given. *)
Definition new_const (sx sy depth : Z) (c : Q) : js t :=
  let n := sx * sy * depth in
  w0 <- zeros n ;;
  dw0 <- zeros n ;;
  ret (mk sx sy depth (for_ n (fun i w => wr w i c) w0) dw0).

(** [new Vol(sx, sy, depth)]: variance-scaled Gaussian fill. *)
Definition new_random (sx sy depth : Z) : js t :=
  let n := sx * sy * depth in
  w0 <- zeros n ;;
  dw0 <- zeros n ;;
  scale <- JS.sqrt (1 / inject_Z (sx * sy * depth))%Q ;;
  w1 <- for_js n (fun i w => r <- randn 0 scale ;; ret (wr w i r)) w0 ;;
  ret (mk sx sy depth w1 dw0).

(** [new Vol(list)]: a 1 x 1 x length volume holding the list. *)
Definition new_array (l : list Q) : js t :=
  let depth := len l in
  w0 <- zeros depth ;;
  dw0 <- zeros depth ;;
  ret (mk 1 1 depth (for_ depth (fun i w => wr w i (rd 0%Q l i)) w0) dw0).

Definition ix (V : t) (x y d : Z) : Z := ((sx V * y) + x) * depth V + d.

Definition get (V : t) (x y d : Z) : Q := rd 0%Q (w V) (ix V x y d).

Definition set (V : t) (x y d : Z) (v : Q) : t :=
  mk (sx V) (sy V) (depth V) (wr (w V) (ix V x y d) v) (dw V).

Definition add (V : t) (x y d : Z) (v : Q) : t :=
  let i := ix V x y d in
  mk (sx V) (sy V) (depth V) (wr (w V) i (rd 0%Q (w V) i + v)%Q) (dw V).

Definition get_grad (V : t) (x y d : Z) : Q := rd 0%Q (dw V) (ix V x y d).

Definition set_grad (V : t) (x y d : Z) (v : Q) : t :=
  mk (sx V) (sy V) (depth V) (w V) (wr (dw V) (ix V x y d) v).

Definition add_grad (V : t) (x y d : Z) (v : Q) : t :=
  let i := ix V x y d in
  mk (sx V) (sy V) (depth V) (w V) (wr (dw V) i (rd 0%Q (dw V) i + v)%Q).

Definition cloneAndZero (V : t) : js t := new_const (sx V) (sy V) (depth V) 0.

Definition clone (V : t) : js t :=
  V' <- new_const (sx V) (sy V) (depth V) 0 ;;
  ret (mk (sx V') (sy V') (depth V')
          (for_ (len (w V)) (fun i w' => wr w' i (rd 0%Q (w V) i)) (w V'))
          (dw V')).




(** The object built by [toJSON]: exactly four fields. *)
Record json : Type := mkJson {
  json_sx : Z;
  json_sy : Z;
  json_depth : Z;
  json_w : list Q
}.

Definition toJSON (V : t) : json := mkJson (sx V) (sy V) (depth V) (w V).

(** [V.fromJSON(j)]: every field of [V] is overwritten. *)
Definition fromJSON (V : t) (j : json) : js t :=
  let n := json_sx j * json_sy j * json_depth j in
  w0 <- zeros n ;;
  dw0 <- zeros n ;;
  ret (mk (json_sx j) (json_sy j) (json_depth j)
          (for_ n (fun i w => wr w i (rd 0%Q (json_w j) i)) w0) dw0).

(** The data-model invariant of a tensor. *)
Definition wf (V : t) : Prop :=
  0 <= sx V /\ 0 <= sy V /\ 0 <= depth V /\
  len (w V) = sx V * sy V * depth V /\
  len (dw V) = sx V * sy V * depth V.

End Vol.

(* ================================================================== *)
(** ** Layer definitions: the [opt] / [def] objects handed to constructors *)

Module Opt.

(** Fields the sources mark as required are plain values; the others are
    optional and tested with [typeof ... !== 'undefined']. *)
Record t : Type := mk {
  type : string;
  filters : Z;
  sx : Z;
  in_depth : Z;
  in_sx : Z;
  in_sy : Z;
  sy : option Z;
  stride : option Z;
  pad : option Z;
  l1_decay_mul : option Q;
  l2_decay_mul : option Q;
  bias_pref : option Q;
  num_neurons : option Z;
  num_classes : option Z;
  activation : option string;
  drop_prob : option Q;
  group_size : option Z;
  out_sx : option Z;
  out_sy : option Z;
  out_depth : option Z
}.

(** An object literal [{type: ty}] with nothing else set. *)
Definition literal (ty : string) : t :=
  mk ty 0 0 0 0 0 None None None None None None None None None None None
     None None None.

(** [def.bias_pref = b] *)
Definition set_bias_pref (o : t) (b : Q) : t :=
  mk (type o) (filters o) (sx o) (in_depth o) (in_sx o) (in_sy o) (sy o)
     (stride o) (pad o) (l1_decay_mul o) (l2_decay_mul o) (Some b)
     (num_neurons o) (num_classes o) (activation o) (drop_prob o)
     (group_size o) (out_sx o) (out_sy o) (out_depth o).

(** [def.in_sx = x; def.in_sy = y; def.in_depth = d] *)
Definition set_in (o : t) (x y d : Z) : t :=
  mk (type o) (filters o) (sx o) d x y (sy o)
     (stride o) (pad o) (l1_decay_mul o) (l2_decay_mul o) (bias_pref o)
     (num_neurons o) (num_classes o) (activation o) (drop_prob o)
     (group_size o) (out_sx o) (out_sy o) (out_depth o).

(** [{type: 'fc', num_neurons: n}] *)
Definition fc_literal (n : option Z) : t :=
  mk "fc" 0 0 0 0 0 None None None None None None n None None None None
     None None None.

(** [{type: 'maxout', group_size: gs}] *)
Definition maxout_literal (gs : option Z) : t :=
  mk "maxout" 0 0 0 0 0 None None None None None None None None None None gs
     None None None.

(** [{type: 'dropout', drop_prob: p}] *)
Definition dropout_literal (p : option Q) : t :=
  mk "dropout" 0 0 0 0 0 None None None None None None None None None p None
     None None None.

(** [typeof v !== 'undefined' ? v : dflt] *)
Definition or_default {A} (v : option A) (dflt : A) : A :=
  match v with Some a => a | None => dflt end.

End Opt.

(** One entry of [getParamsAndGrads()]. *)
Module ParamGroup.

Record t : Type := mk {
  params : list Q;
  grads : list Q;
  l1_decay_mul : option Q;
  l2_decay_mul : option Q
}.

End ParamGroup.

(* ================================================================== *)
(** ** Convolution layer ([convnet_layers_dotproducts.js]) *)

Module ConvLayer.

Record t : Type := mk {
  out_depth : Z;
  sx : Z;
  in_depth : Z;
  in_sx : Z;
  in_sy : Z;
  sy : Z;
  stride : Z;
  pad : Z;
  l1_decay_mul : Q;
  l2_decay_mul : Q;
  out_sx : Z;
  out_sy : Z;
  filters : list Vol.t;
  biases : Vol.t;
  in_act : option Vol.t;
  out_act : option Vol.t
}.

Definition layer_type : string := "conv".

(** [Math.floor((in + pad * 2 - f) / stride + 1)] *)
Definition out_size (inp pad f stride : Z) : Z :=
  Qfloor (inject_Z (inp + pad * 2 - f) / inject_Z stride + 1)%Q.

(** [new ConvLayer(opt)] *)
Definition new (opt : Opt.t) : js t :=
  let out_depth := Opt.filters opt in
  let sx := Opt.sx opt in
  let in_depth := Opt.in_depth opt in
  let in_sx := Opt.in_sx opt in
  let in_sy := Opt.in_sy opt in
  let sy := Opt.or_default (Opt.sy opt) sx in
  let stride := Opt.or_default (Opt.stride opt) 1 in
  let pad := Opt.or_default (Opt.pad opt) 0 in
  let l1_decay_mul := Opt.or_default (Opt.l1_decay_mul opt) 0%Q in
  let l2_decay_mul := Opt.or_default (Opt.l2_decay_mul opt) 1%Q in
  let out_sx := out_size in_sx pad sx stride in
  let out_sy := out_size in_sy pad sy stride in
  let bias := Opt.or_default (Opt.bias_pref opt) 0%Q in
  filters <- for_js out_depth
               (fun i fs => f <- Vol.new_random sx sy in_depth ;; ret (fs ++ [f]))
               [] ;;
  biases <- Vol.new_const 1 1 out_depth bias ;;
  ret (mk out_depth sx in_depth in_sx in_sy sy stride pad
          l1_decay_mul l2_decay_mul out_sx out_sy filters biases None None).

Definition no_filter : Vol.t := Vol.mk 0 0 0 [] [].

(** [this.filters[d]] *)
Definition filter (L : t) (d : Z) : Vol.t := rd no_filter (filters L) d.

Definition inside (V_sx V_sy ox oy : Z) : bool :=
  (0 <=? oy) && (oy <? V_sy) && (0 <=? ox) && (ox <? V_sx).

(** The three inner loops of [forward]: the accumulator [a] after the
    filter [f] was applied with its corner at [(x, y)]. *)
Definition accumulate (f V : Vol.t) (V_sx V_sy x y : Z) (a : Q) : Q :=
  for_ (Vol.sy f) (fun fy a =>
    let oy := y + fy in
    for_ (Vol.sx f) (fun fx a =>
      let ox := x + fx in
      if inside V_sx V_sy ox oy then
        for_ (Vol.depth f) (fun fd a =>
          (a + rd 0%Q (Vol.w f) (((Vol.sx f * fy) + fx) * Vol.depth f + fd)
               * rd 0%Q (Vol.w V) (((V_sx * oy) + ox) * Vol.depth V + fd))%Q) a
      else a) a) a.

Definition with_acts (L : t) (i o : option Vol.t) : t :=
  mk (out_depth L) (sx L) (in_depth L) (in_sx L) (in_sy L) (sy L) (stride L)
     (pad L) (l1_decay_mul L) (l2_decay_mul L) (out_sx L) (out_sy L)
     (filters L) (biases L) i o.

(** [forward(V, is_training)]: the layer afterwards and the returned [A]. *)
Definition forward (L : t) (V : Vol.t) (is_training : bool) : js (t * Vol.t) :=
  A0 <- Vol.new_const (toInt32 (out_sx L)) (toInt32 (out_sy L))
                      (toInt32 (out_depth L)) 0 ;;
  let V_sx := toInt32 (Vol.sx V) in
  let V_sy := toInt32 (Vol.sy V) in
  let xy_stride := toInt32 (stride L) in
  let A :=
    for_ (out_depth L) (fun d A =>
      let f := filter L d in
      let y := toInt32 (- pad L) in
      snd (for_ (out_sy L) (fun ay '(y, A) =>
        let x := toInt32 (- pad L) in
        let A' :=
          snd (for_ (out_sx L) (fun ax '(x, A) =>
            let a := accumulate f V V_sx V_sy x y 0%Q in
            let a := (a + rd 0%Q (Vol.w (biases L)) d)%Q in
            (x + xy_stride, Vol.set A ax ay d a)) (x, A)) in
        (y + xy_stride, A')) (y, A))) A0 in
  ret (with_acts L (Some V) (Some A), A).

(** The three inner loops of [backward] on the gradient buffers
    [(f.dw, V.dw)]. *)
Definition scatter (f V : Vol.t) (V_sx V_sy x y : Z) (chain_grad : Q)
           (g : list Q * list Q) : list Q * list Q :=
  for_ (Vol.sy f) (fun fy g =>
    let oy := y + fy in
    for_ (Vol.sx f) (fun fx g =>
      let ox := x + fx in
      if inside V_sx V_sy ox oy then
        for_ (Vol.depth f) (fun fd '(fdw, Vdw) =>
          let ix1 := ((V_sx * oy) + ox) * Vol.depth V + fd in
          let ix2 := ((Vol.sx f * fy) + fx) * Vol.depth f + fd in
          let fdw' := wr fdw ix2 (rd 0%Q fdw ix2 + rd 0%Q (Vol.w V) ix1 * chain_grad)%Q in
          let Vdw' := wr Vdw ix1 (rd 0%Q Vdw ix1 + rd 0%Q (Vol.w f) ix2 * chain_grad)%Q in
          (fdw', Vdw')) g
      else g) g) g.

Definition with_params (L : t) (fs : list Vol.t) (b : Vol.t) (i : option Vol.t) : t :=
  mk (out_depth L) (sx L) (in_depth L) (in_sx L) (in_sy L) (sy L) (stride L)
     (pad L) (l1_decay_mul L) (l2_decay_mul L) (out_sx L) (out_sy L)
     fs b i (out_act L).

(** The loops of [backward] once [V = in_act] and [out_act] are known:
    the state is the filter list, [V.dw] and [biases.dw]. *)
Definition backward_loops (L : t) (V A : Vol.t) (Vdw0 : list Q)
  : list Vol.t * list Q * list Q :=
  let V_sx := toInt32 (Vol.sx V) in
  let V_sy := toInt32 (Vol.sy V) in
  let xy_stride := toInt32 (stride L) in
  for_ (out_depth L) (fun d '(fs, Vdw, bdw) =>
    let f := rd no_filter fs d in
    let y := toInt32 (- pad L) in
    let '(_, (fdw, Vdw, bdw)) :=
      for_ (out_sy L) (fun ay '(y, st) =>
        let x := toInt32 (- pad L) in
        let '(_, st') :=
          for_ (out_sx L) (fun ax '(x, (fdw, Vdw, bdw)) =>
            let chain_grad := Vol.get_grad A ax ay d in
            let '(fdw', Vdw') := scatter f V V_sx V_sy x y chain_grad (fdw, Vdw) in
            let bdw' := wr bdw d (rd 0%Q bdw d + chain_grad)%Q in
            (x + xy_stride, (fdw', Vdw', bdw'))) (x, st) in
        (y + xy_stride, st')) (y, (Vol.dw f, Vdw, bdw)) in
    (wr fs d (Vol.with_dw f fdw), Vdw, bdw)) (filters L, Vdw0, Vol.dw (biases L)).

Definition nonempty_output (L : t) : bool :=
  (0 <? out_depth L) && (0 <? out_sy L) && (0 <? out_sx L).

(** [backward()]: [in_act] and [out_act] are [undefined] until [forward]
    ran; touching a property of [undefined] is a [TypeError]. *)
Definition backward (L : t) : js t :=
  match in_act L with
  | None => throw TypeError
  | Some V =>
      Vdw0 <- zeros (len (Vol.w V)) ;;
      match out_act L with
      | None =>
          if nonempty_output L then throw TypeError
          else ret (with_params L (filters L) (biases L) (Some (Vol.with_dw V Vdw0)))
      | Some A =>
          let '(fs, Vdw, bdw) := backward_loops L V A Vdw0 in
          ret (with_params L fs (Vol.with_dw (biases L) bdw) (Some (Vol.with_dw V Vdw)))
      end
  end.

Definition getParamsAndGrads (L : t) : list ParamGroup.t :=
  let response :=
    for_ (out_depth L) (fun i response =>
      response ++ [ParamGroup.mk (Vol.w (filter L i)) (Vol.dw (filter L i))
                                 (Some (l1_decay_mul L)) (Some (l2_decay_mul L))])
      [] in
  response ++ [ParamGroup.mk (Vol.w (biases L)) (Vol.dw (biases L))
                             (Some 0%Q) (Some 0%Q)].

(** Shapes the constructor establishes. *)
Definition wf (L : t) : Prop :=
  0 <= out_depth L /\ len (filters L) = out_depth L /\
  (forall f, In f (filters L) ->
     Vol.wf f /\ Vol.sx f = sx L /\ Vol.sy f = sy L /\ Vol.depth f = in_depth L) /\
  Vol.wf (biases L) /\ Vol.sx (biases L) = 1 /\ Vol.sy (biases L) = 1 /\
  Vol.depth (biases L) = out_depth L.

(** What [forward] expects of its input: a tensor of the declared depth, and
    sizes that the 32-bit conversions ([| 0]) leave as they are. *)
Definition accepts (L : t) (V : Vol.t) : Prop :=
  Vol.wf V /\ Vol.depth V = in_depth L /\
  Vol.sx V < 2 ^ 31 /\ Vol.sy V < 2 ^ 31 /\
  0 <= out_sx L < 2 ^ 31 /\ 0 <= out_sy L < 2 ^ 31 /\ out_depth L < 2 ^ 31 /\
  - 2 ^ 31 < pad L <= 2 ^ 31 /\ - 2 ^ 31 <= stride L < 2 ^ 31.

(** The object built by [toJSON]; the fields [fromJSON] tests with
    [typeof ... !== 'undefined'] are optional. *)
Record json : Type := mkJson {
  json_sx : Z;
  json_sy : Z;
  json_stride : Z;
  json_in_depth : Z;
  json_out_depth : Z;
  json_out_sx : Z;
  json_out_sy : Z;
  json_layer_type : string;
  json_l1_decay_mul : option Q;
  json_l2_decay_mul : option Q;
  json_pad : option Z;
  json_filters : list Vol.json;
  json_biases : Vol.json
}.

Definition no_json : Vol.json := Vol.mkJson 0 0 0 [].

Definition toJSON (L : t) : json :=
  mkJson (sx L) (sy L) (stride L) (in_depth L) (out_depth L) (out_sx L) (out_sy L)
         layer_type (Some (l1_decay_mul L)) (Some (l2_decay_mul L)) (Some (pad L))
         (for_ (len (filters L))
               (fun i fs => fs ++ [Vol.toJSON (rd no_filter (filters L) i)]) [])
         (Vol.toJSON (biases L)).

(** [fromJSON(json)]: the layer afterwards and its [layer_type], which is
    an assigned property there and a constant of this record.  [in_sx],
    [in_sy] and the activations are not assigned. *)
Definition fromJSON (L : t) (j : json) : js (t * string) :=
  fs <- for_js (len (json_filters j))
          (fun i fs =>
             v <- Vol.new_const 0 0 0 0 ;;
             v <- Vol.fromJSON v (rd no_json (json_filters j) i) ;;
             ret (fs ++ [v])) [] ;;
  b <- Vol.new_const 0 0 0 0 ;;
  b <- Vol.fromJSON b (json_biases j) ;;
  ret (mk (json_out_depth j) (json_sx j) (json_in_depth j) (in_sx L) (in_sy L)
          (json_sy j) (json_stride j) (Opt.or_default (json_pad j) 0)
          (Opt.or_default (json_l1_decay_mul j) 1%Q)
          (Opt.or_default (json_l2_decay_mul j) 1%Q)
          (json_out_sx j) (json_out_sy j) fs b (in_act L) (out_act L),
       json_layer_type j).

End ConvLayer.

(* ================================================================== *)
(** ** Fully-connected layer ([convnet_layers_dotproducts.js]) *)

Module FullyConnLayer.

Record t : Type := mk {
  out_depth : Z;
  l1_decay_mul : Q;
  l2_decay_mul : Q;
  num_inputs : Z;
  out_sx : Z;
  out_sy : Z;
  filters : list Vol.t;
  biases : Vol.t;
  in_act : option Vol.t;
  out_act : option Vol.t
}.

Definition layer_type : string := "fc".

(** [new FullyConnLayer(opt)] *)
Definition new (opt : Opt.t) : js t :=
  let out_depth := Opt.or_default (Opt.num_neurons opt) (Opt.filters opt) in
  let l1_decay_mul := Opt.or_default (Opt.l1_decay_mul opt) 0%Q in
  let l2_decay_mul := Opt.or_default (Opt.l2_decay_mul opt) 1%Q in
  let num_inputs := Opt.in_sx opt * Opt.in_sy opt * Opt.in_depth opt in
  let bias := Opt.or_default (Opt.bias_pref opt) 0%Q in
  filters <- for_js out_depth
               (fun i fs => f <- Vol.new_random 1 1 num_inputs ;; ret (fs ++ [f]))
               [] ;;
  biases <- Vol.new_const 1 1 out_depth bias ;;
  ret (mk out_depth l1_decay_mul l2_decay_mul num_inputs 1 1 filters biases
          None None).

Definition filter (L : t) (i : Z) : Vol.t :=
  rd ConvLayer.no_filter (filters L) i.

Definition with_acts (L : t) (i o : option Vol.t) : t :=
  mk (out_depth L) (l1_decay_mul L) (l2_decay_mul L) (num_inputs L)
     (out_sx L) (out_sy L) (filters L) (biases L) i o.

Definition forward (L : t) (V : Vol.t) (is_training : bool) : js (t * Vol.t) :=
  A0 <- Vol.new_const 1 1 (out_depth L) 0 ;;
  let Vw := Vol.w V in
  let Aw :=
    for_ (out_depth L) (fun i Aw =>
      let wi := Vol.w (filter L i) in
      let a := for_ (num_inputs L)
                 (fun d a => (a + rd 0%Q Vw d * rd 0%Q wi d)%Q) 0%Q in
      let a := (a + rd 0%Q (Vol.w (biases L)) i)%Q in
      wr Aw i a) (Vol.w A0) in
  let A := Vol.mk (Vol.sx A0) (Vol.sy A0) (Vol.depth A0) Aw (Vol.dw A0) in
  ret (with_acts L (Some V) (Some A), A).

Definition with_params (L : t) (fs : list Vol.t) (b : Vol.t) (i : option Vol.t) : t :=
  mk (out_depth L) (l1_decay_mul L) (l2_decay_mul L) (num_inputs L)
     (out_sx L) (out_sy L) fs b i (out_act L).

Definition backward_loops (L : t) (V A : Vol.t) (Vdw0 : list Q)
  : list Vol.t * list Q * list Q :=
  for_ (out_depth L) (fun i '(fs, Vdw, bdw) =>
    let tfi := rd ConvLayer.no_filter fs i in
    let chain_grad := rd 0%Q (Vol.dw A) i in
    let '(Vdw', tdw) :=
      for_ (num_inputs L) (fun d '(Vdw, tdw) =>
        let Vdw' := wr Vdw d (rd 0%Q Vdw d + rd 0%Q (Vol.w tfi) d * chain_grad)%Q in
        let tdw' := wr tdw d (rd 0%Q tdw d + rd 0%Q (Vol.w V) d * chain_grad)%Q in
        (Vdw', tdw')) (Vdw, Vol.dw tfi) in
    let bdw' := wr bdw i (rd 0%Q bdw i + chain_grad)%Q in
    (wr fs i (Vol.with_dw tfi tdw), Vdw', bdw'))
    (filters L, Vdw0, Vol.dw (biases L)).

Definition backward (L : t) : js t :=
  match in_act L with
  | None => throw TypeError
  | Some V =>
      Vdw0 <- zeros (len (Vol.w V)) ;;
      match out_act L with
      | None =>
          if 0 <? out_depth L then throw TypeError
          else ret (with_params L (filters L) (biases L)
                      (Some (Vol.with_dw V Vdw0)))
      | Some A =>
          let '(fs, Vdw, bdw) := backward_loops L V A Vdw0 in
          ret (with_params L fs (Vol.with_dw (biases L) bdw)
                 (Some (Vol.with_dw V Vdw)))
      end
  end.

Definition getParamsAndGrads (L : t) : list ParamGroup.t :=
  let response :=
    for_ (out_depth L) (fun i response =>
      response ++ [ParamGroup.mk (Vol.w (filter L i)) (Vol.dw (filter L i))
                                 (Some (l1_decay_mul L)) (Some (l2_decay_mul L))])
      [] in
  response ++ [ParamGroup.mk (Vol.w (biases L)) (Vol.dw (biases L))
                             (Some 0%Q) (Some 0%Q)].

(** Shapes the constructor establishes. *)
Definition wf (L : t) : Prop :=
  0 <= out_depth L /\ 0 <= num_inputs L /\ len (filters L) = out_depth L /\
  (forall f, In f (filters L) ->
     Vol.wf f /\ Vol.sx f = 1 /\ Vol.sy f = 1 /\ Vol.depth f = num_inputs L) /\
  Vol.wf (biases L) /\ Vol.sx (biases L) = 1 /\ Vol.sy (biases L) = 1 /\
  Vol.depth (biases L) = out_depth L.

(** The object built by [toJSON]. *)
Record json : Type := mkJson {
  json_out_depth : Z;
  json_out_sx : Z;
  json_out_sy : Z;
  json_layer_type : string;
  json_num_inputs : Z;
  json_l1_decay_mul : option Q;
  json_l2_decay_mul : option Q;
  json_filters : list Vol.json;
  json_biases : Vol.json
}.

Definition toJSON (L : t) : json :=
  mkJson (out_depth L) (out_sx L) (out_sy L) layer_type (num_inputs L)
         (Some (l1_decay_mul L)) (Some (l2_decay_mul L))
         (for_ (len (filters L))
               (fun i fs => fs ++ [Vol.toJSON (rd ConvLayer.no_filter (filters L) i)]) [])
         (Vol.toJSON (biases L)).

(** [fromJSON(json)]: the layer afterwards and its [layer_type]. *)
Definition fromJSON (L : t) (j : json) : js (t * string) :=
  fs <- for_js (len (json_filters j))
          (fun i fs =>
             v <- Vol.new_const 0 0 0 0 ;;
             v <- Vol.fromJSON v (rd ConvLayer.no_json (json_filters j) i) ;;
             ret (fs ++ [v])) [] ;;
  b <- Vol.new_const 0 0 0 0 ;;
  b <- Vol.fromJSON b (json_biases j) ;;
  ret (mk (json_out_depth j)
          (Opt.or_default (json_l1_decay_mul j) 1%Q)
          (Opt.or_default (json_l2_decay_mul j) 1%Q)
          (json_num_inputs j) (json_out_sx j) (json_out_sy j) fs b
          (in_act L) (out_act L),
       json_layer_type j).

End FullyConnLayer.

(* ================================================================== *)
(** ** Max-pooling layer ([convnet_layers_pool.js]) *)

Module PoolLayer.

Record t : Type := mk {
  sx : Z;
  in_depth : Z;
  in_sx : Z;
  in_sy : Z;
  sy : Z;
  stride : Z;
  pad : Z;
  out_depth : Z;
  out_sx : Z;
  out_sy : Z;
  switchx : list Z;
  switchy : list Z;
  in_act : option Vol.t;
  out_act : option Vol.t
}.

Definition layer_type : string := "pool".

(** [new PoolLayer(opt)] *)
Definition new (opt : Opt.t) : js t :=
  let sx := Opt.sx opt in
  let in_depth := Opt.in_depth opt in
  let in_sx := Opt.in_sx opt in
  let in_sy := Opt.in_sy opt in
  let sy := Opt.or_default (Opt.sy opt) sx in
  let stride := Opt.or_default (Opt.stride opt) 2 in
  let pad := Opt.or_default (Opt.pad opt) 0 in
  let out_depth := in_depth in
  let out_sx := ConvLayer.out_size in_sx pad sx stride in
  let out_sy := ConvLayer.out_size in_sy pad sy stride in
  switchx <- zeros_of 0 (out_sx * out_sy * out_depth) ;;
  switchy <- zeros_of 0 (out_sx * out_sy * out_depth) ;;
  ret (mk sx in_depth in_sx in_sy sy stride pad out_depth out_sx out_sy
          switchx switchy None None).

(** [oy>=0 && oy<V.sy && ox>=0 && ox<V.sx] *)
Definition inside (V : Vol.t) (ox oy : Z) : bool :=
  (0 <=? oy) && (oy <? Vol.sy V) && (0 <=? ox) && (ox <? Vol.sx V).

(** The initial value of the running maximum. *)
Definition sentinel : Q := (-99999)%Q.

(** The two inner loops of [forward]: [(a, winx, winy)] after scanning the
    window whose corner is [(x, y)], at depth [d]. *)
Definition scan (L : t) (V : Vol.t) (x y d : Z) : Q * Z * Z :=
  for_ (sx L) (fun fx st =>
    for_ (sy L) (fun fy '(a, winx, winy) =>
      let oy := y + fy in
      let ox := x + fx in
      if inside V ox oy then
        let v := Vol.get V ox oy d in
        if gt v a then (v, ox, oy) else (a, winx, winy)
      else (a, winx, winy)) st) (sentinel, -1, -1).

Definition with_state (L : t) (swx swy : list Z) (i o : option Vol.t) : t :=
  mk (sx L) (in_depth L) (in_sx L) (in_sy L) (sy L) (stride L) (pad L)
     (out_depth L) (out_sx L) (out_sy L) swx swy i o.

(** The three outer loops of [forward] on [(n, A, switchx, switchy)]. *)
Definition forward_loops (L : t) (V A0 : Vol.t) : Z * Vol.t * list Z * list Z :=
  for_ (out_depth L) (fun d st =>
    let x := - pad L in
    snd (for_ (out_sx L) (fun ax '(x, st) =>
      let y := - pad L in
      let st' :=
        snd (for_ (out_sy L) (fun ay '(y, (n, A, swx, swy)) =>
          let '(a, winx, winy) := scan L V x y d in
          (y + stride L,
           (n + 1, Vol.set A ax ay d a, wr swx n winx, wr swy n winy)))
          (y, st)) in
      (x + stride L, st')) (x, st)))
    (0, A0, switchx L, switchy L).

Definition forward (L : t) (V : Vol.t) (is_training : bool) : js (t * Vol.t) :=
  A0 <- Vol.new_const (out_sx L) (out_sy L) (out_depth L) 0 ;;
  let '(_, A, swx, swy) := forward_loops L V A0 in
  ret (with_state L swx swy (Some V) (Some A), A).

(** The loops of [backward] on [(n, V)]; the loop variables [x] and [y]
    of the source are never read there. *)
Definition backward_loops (L : t) (A V0 : Vol.t) : Z * Vol.t :=
  for_ (out_depth L) (fun d st =>
    for_ (out_sx L) (fun ax st =>
      for_ (out_sy L) (fun ay '(n, V) =>
        let chain_grad := Vol.get_grad A ax ay d in
        (n + 1, Vol.add_grad V (rd 0 (switchx L) n) (rd 0 (switchy L) n) d chain_grad))
        st) st) (0, V0).

Definition nonempty_output (L : t) : bool :=
  (0 <? out_depth L) && (0 <? out_sx L) && (0 <? out_sy L).

Definition backward (L : t) : js t :=
  match in_act L with
  | None => throw TypeError
  | Some V =>
      Vdw0 <- zeros (len (Vol.w V)) ;;
      let V0 := Vol.with_dw V Vdw0 in
      match out_act L with
      | None =>
          if nonempty_output L then throw TypeError
          else ret (with_state L (switchx L) (switchy L) (Some V0) None)
      | Some A =>
          ret (with_state L (switchx L) (switchy L)
                 (Some (snd (backward_loops L A V0))) (Some A))
      end
  end.

Definition getParamsAndGrads (L : t) : list ParamGroup.t := [].

(** The counter [n] when the loops reach output cell [(ax, ay)] of depth [d]. *)
Definition cell (L : t) (ax ay d : Z) : Z :=
  (d * out_sx L + ax) * out_sy L + ay.

(** Shapes the constructor establishes. *)
Definition wf (L : t) : Prop :=
  0 <= sx L /\ 0 <= sy L /\
  0 <= out_sx L /\ 0 <= out_sy L /\ 0 <= out_depth L /\
  out_depth L = in_depth L /\
  len (switchx L) = out_sx L * out_sy L * out_depth L /\
  len (switchy L) = out_sx L * out_sy L * out_depth L.

(** What [forward] expects of its input: a tensor of the declared depth. *)
Definition accepts (L : t) (V : Vol.t) : Prop :=
  Vol.wf V /\ Vol.depth V = in_depth L.

(** The corner of the window of output column (or row) [a]. *)
Definition corner (L : t) (a : Z) : Z := a * stride L - pad L.

(** The object built by [toJSON]. *)
Record json : Type := mkJson {
  json_sx : Z;
  json_sy : Z;
  json_stride : Z;
  json_in_depth : Z;
  json_out_depth : Z;
  json_out_sx : Z;
  json_out_sy : Z;
  json_layer_type : string;
  json_pad : option Z
}.

Definition toJSON (L : t) : json :=
  mkJson (sx L) (sy L) (stride L) (in_depth L) (out_depth L) (out_sx L) (out_sy L)
         layer_type (Some (pad L)).

(** [fromJSON(json)]: the layer afterwards and its [layer_type].  [in_sx],
    [in_sy] and the activations are not assigned. *)
Definition fromJSON (L : t) (j : json) : js (t * string) :=
  let n := json_out_sx j * json_out_sy j * json_out_depth j in
  switchx <- zeros_of 0 n ;;
  switchy <- zeros_of 0 n ;;
  ret (mk (json_sx j) (json_in_depth j) (in_sx L) (in_sy L) (json_sy j)
          (json_stride j) (Opt.or_default (json_pad j) 0) (json_out_depth j)
          (json_out_sx j) (json_out_sy j) switchx switchy (in_act L) (out_act L),
       json_layer_type j).

End PoolLayer.

(* ================================================================== *)
(** ** Layers outside the core *)

Module ExtLayer.

(** Modelled from the spec: the input, nonlinearity, loss, dropout and
    normalisation layers are not part of these sources.  They are external
    collaborators that satisfy the layer contract: each has a
    [layer_type], an output shape, the [in_act] / [out_act] pair and
    whatever [private] state it keeps. *)
Record t : Type := mk {
  layer_type : string;
  out_sx : Z;
  out_sy : Z;
  out_depth : Z;
  in_act : option Vol.t;
  out_act : option Vol.t;
  private : list Q
}.

(** The label or value handed to the loss layer. *)
Definition target : Type := list Q.

(** Modelled from the spec: the constructors and the forward and backward
    passes of the external layers are parameters of the network. *)
Record impl : Type := mkImpl {
  new : Opt.t -> js t;
  forward : t -> Vol.t -> bool -> js (t * Vol.t);
  backward : t -> option target -> js (t * option Q)
}.

(** Modelled from the spec: the external layers are parameter-free, so
    their parameter-group list is empty. *)
Definition getParamsAndGrads (L : t) : list ParamGroup.t := [].

Definition with_out_act (L : t) (o : option Vol.t) : t :=
  mk (layer_type L) (out_sx L) (out_sy L) (out_depth L) (in_act L) o (private L).

End ExtLayer.

(** The objects stored in [net.layers], with the methods [Net] calls. *)
Module Layer.

Inductive t : Type :=
| Conv (L : ConvLayer.t)
| FullyConn (L : FullyConnLayer.t)
| Pool (L : PoolLayer.t)
| Ext (L : ExtLayer.t).

Definition layer_type (l : t) : string :=
  match l with
  | Conv _ => ConvLayer.layer_type
  | FullyConn _ => FullyConnLayer.layer_type
  | Pool _ => PoolLayer.layer_type
  | Ext L => ExtLayer.layer_type L
  end.

Definition out_sx (l : t) : Z :=
  match l with
  | Conv L => ConvLayer.out_sx L
  | FullyConn L => FullyConnLayer.out_sx L
  | Pool L => PoolLayer.out_sx L
  | Ext L => ExtLayer.out_sx L
  end.

Definition out_sy (l : t) : Z :=
  match l with
  | Conv L => ConvLayer.out_sy L
  | FullyConn L => FullyConnLayer.out_sy L
  | Pool L => PoolLayer.out_sy L
  | Ext L => ExtLayer.out_sy L
  end.

Definition out_depth (l : t) : Z :=
  match l with
  | Conv L => ConvLayer.out_depth L
  | FullyConn L => FullyConnLayer.out_depth L
  | Pool L => PoolLayer.out_depth L
  | Ext L => ExtLayer.out_depth L
  end.

Definition in_act (l : t) : option Vol.t :=
  match l with
  | Conv L => ConvLayer.in_act L
  | FullyConn L => FullyConnLayer.in_act L
  | Pool L => PoolLayer.in_act L
  | Ext L => ExtLayer.in_act L
  end.

Definition out_act (l : t) : option Vol.t :=
  match l with
  | Conv L => ConvLayer.out_act L
  | FullyConn L => FullyConnLayer.out_act L
  | Pool L => PoolLayer.out_act L
  | Ext L => ExtLayer.out_act L
  end.

Definition with_out_act (l : t) (o : option Vol.t) : t :=
  match l with
  | Conv L => Conv (ConvLayer.with_acts L (ConvLayer.in_act L) o)
  | FullyConn L => FullyConn (FullyConnLayer.with_acts L (FullyConnLayer.in_act L) o)
  | Pool L =>
      Pool (PoolLayer.with_state L (PoolLayer.switchx L) (PoolLayer.switchy L)
              (PoolLayer.in_act L) o)
  | Ext L => Ext (ExtLayer.with_out_act L o)
  end.

Definition forward (E : ExtLayer.impl) (l : t) (V : Vol.t) (is_training : bool)
  : js (t * Vol.t) :=
  match l with
  | Conv L => r <- ConvLayer.forward L V is_training ;; ret (Conv (fst r), snd r)
  | FullyConn L =>
      r <- FullyConnLayer.forward L V is_training ;; ret (FullyConn (fst r), snd r)
  | Pool L => r <- PoolLayer.forward L V is_training ;; ret (Pool (fst r), snd r)
  | Ext L => r <- ExtLayer.forward E L V is_training ;; ret (Ext (fst r), snd r)
  end.

(** [backward(y)]; the layers of this core ignore the argument and return
    nothing ([undefined], here [None]). *)
Definition backward (E : ExtLayer.impl) (l : t) (y : option ExtLayer.target)
  : js (t * option Q) :=
  match l with
  | Conv L => L' <- ConvLayer.backward L ;; ret (Conv L', None)
  | FullyConn L => L' <- FullyConnLayer.backward L ;; ret (FullyConn L', None)
  | Pool L => L' <- PoolLayer.backward L ;; ret (Pool L', None)
  | Ext L => r <- ExtLayer.backward E L y ;; ret (Ext (fst r), snd r)
  end.

Definition getParamsAndGrads (l : t) : list ParamGroup.t :=
  match l with
  | Conv L => ConvLayer.getParamsAndGrads L
  | FullyConn L => FullyConnLayer.getParamsAndGrads L
  | Pool L => PoolLayer.getParamsAndGrads L
  | Ext L => ExtLayer.getParamsAndGrads L
  end.

(** The buffers in a parameter-group list are the layer's own arrays: what
    the trainer writes into them is seen by the layer.  [store l gs] puts
    the groups [gs], in the order of [getParamsAndGrads], back into [l]. *)
Definition store_vol (V : Vol.t) (g : ParamGroup.t) : Vol.t :=
  Vol.mk (Vol.sx V) (Vol.sy V) (Vol.depth V) (ParamGroup.params g) (ParamGroup.grads g).

Definition no_group : ParamGroup.t := ParamGroup.mk [] [] None None.

Definition store_filters (n : Z) (fs : list Vol.t) (gs : list ParamGroup.t)
  : list Vol.t :=
  for_ n (fun i fs =>
    wr fs i (store_vol (rd ConvLayer.no_filter fs i) (rd no_group gs i))) fs.

Definition store (l : t) (gs : list ParamGroup.t) : t :=
  match l with
  | Conv L =>
      let n := ConvLayer.out_depth L in
      Conv (ConvLayer.with_params L
              (store_filters n (ConvLayer.filters L) gs)
              (store_vol (ConvLayer.biases L) (rd no_group gs n))
              (ConvLayer.in_act L))
  | FullyConn L =>
      let n := FullyConnLayer.out_depth L in
      FullyConn (FullyConnLayer.with_params L
              (store_filters n (FullyConnLayer.filters L) gs)
              (store_vol (FullyConnLayer.biases L) (rd no_group gs n))
              (FullyConnLayer.in_act L))
  | Pool L => l
  | Ext L => l
  end.

(** The parameter buffers of a layer, in group order. *)
Definition parameters (l : t) : list (list Q) :=
  map ParamGroup.params (getParamsAndGrads l).

End Layer.

(* ================================================================== *)
(** ** Network ([convnet_net.js]) *)

Module Net.

Record t : Type := mk { layers : list Layer.t }.

(** [a === b] on strings. *)
Definition streq (a b : string) : bool := String.eqb a b.

Definition defined {A} (v : option A) : bool :=
  match v with Some _ => true | None => false end.

Definition no_def : Opt.t := Opt.literal "".

(** The layer types [makeLayers] knows, and the activations [desugar] knows. *)
Definition known_types : list string :=
  ["fc"; "lrn"; "dropout"; "input"; "softmax"; "regression"; "conv"; "pool";
   "relu"; "sigmoid"; "tanh"; "maxout"; "svm"]%string.

Definition known_activations : list string :=
  ["relu"; "sigmoid"; "tanh"; "maxout"]%string.

(** One iteration of the loop of [desugar]. *)
Definition desugar_def (def : Opt.t) (new_defs : list Opt.t) : js (list Opt.t) :=
  let ty := Opt.type def in
  let new_defs :=
    if streq ty "softmax" || streq ty "svm"
    then new_defs ++ [Opt.fc_literal (Opt.num_classes def)] else new_defs in
  let new_defs :=
    if streq ty "regression"
    then new_defs ++ [Opt.fc_literal (Opt.num_neurons def)] else new_defs in
  let def :=
    if (streq ty "fc" || streq ty "conv") && negb (defined (Opt.bias_pref def))
    then match Opt.activation def with
         | Some a => if streq a "relu" then Opt.set_bias_pref def (1 # 10)
                     else Opt.set_bias_pref def 0
         | None => Opt.set_bias_pref def 0
         end
    else def in
  let new_defs := new_defs ++ [def] in
  new_defs <-
    match Opt.activation def with
    | Some a =>
        if streq a "relu" then ret (new_defs ++ [Opt.literal "relu"])
        else if streq a "sigmoid" then ret (new_defs ++ [Opt.literal "sigmoid"])
        else if streq a "tanh" then ret (new_defs ++ [Opt.literal "tanh"])
        else if streq a "maxout"
             then ret (new_defs ++ [Opt.maxout_literal (Opt.group_size def)])
        else console_log (String.append "ERROR unsupported activation " a) ;;;
             ret new_defs
    | None => ret new_defs
    end ;;
  ret (if defined (Opt.drop_prob def) && negb (streq ty "dropout")
       then new_defs ++ [Opt.dropout_literal (Opt.drop_prob def)]
       else new_defs).

Definition desugar (defs : list Opt.t) : js (list Opt.t) :=
  for_js (len defs) (fun i new_defs => desugar_def (rd no_def defs i) new_defs) [].

Section WithExternalLayers.

Variable E : ExtLayer.impl.

Definition push_ext (def : Opt.t) (layers : list Layer.t) : js (list Layer.t) :=
  L <- ExtLayer.new E def ;; ret (layers ++ [Layer.Ext L]).

(** One iteration of the loop that creates the layers. *)
Definition create (defs : list Opt.t) (i : Z) (layers : list Layer.t)
  : js (list Layer.t) :=
  let def := rd no_def defs i in
  def <- (if 0 <? i
          then prev <- item layers (i - 1) ;;
               ret (Opt.set_in def (Layer.out_sx prev) (Layer.out_sy prev)
                               (Layer.out_depth prev))
          else ret def) ;;
  let ty := Opt.type def in
  if streq ty "fc" then L <- FullyConnLayer.new def ;; ret (layers ++ [Layer.FullyConn L])
  else if streq ty "lrn" then push_ext def layers
  else if streq ty "dropout" then push_ext def layers
  else if streq ty "input" then push_ext def layers
  else if streq ty "softmax" then push_ext def layers
  else if streq ty "regression" then push_ext def layers
  else if streq ty "conv" then L <- ConvLayer.new def ;; ret (layers ++ [Layer.Conv L])
  else if streq ty "pool" then L <- PoolLayer.new def ;; ret (layers ++ [Layer.Pool L])
  else if streq ty "relu" then push_ext def layers
  else if streq ty "sigmoid" then push_ext def layers
  else if streq ty "tanh" then push_ext def layers
  else if streq ty "maxout" then push_ext def layers
  else if streq ty "svm" then push_ext def layers
  else console_log (String.append "ERROR: UNRECOGNIZED LAYER TYPE: " ty) ;;;
       ret layers.

(** [makeLayers(defs)]: the layers the network had are discarded. *)
Definition makeLayers (defs : list Opt.t) : js t :=
  assert (2 <=? len defs)
    "Error! At least one input layer and one loss layer are required." ;;;
  assert (streq (Opt.type (rd no_def defs 0)) "input")
    "Error! First layer must be the input layer, to declare size of inputs" ;;;
  defs <- desugar defs ;;
  layers <- for_js (len defs) (create defs) [] ;;
  ret (mk layers).

(** [forward(V, is_training)] *)
Definition forward (N : t) (V : Vol.t) (is_training : option bool)
  : js (t * Vol.t) :=
  let is_training := Opt.or_default is_training false in
  l0 <- item (layers N) 0 ;;
  r <- Layer.forward E l0 V is_training ;;
  st <- for_range_js 1 (len (layers N))
          (fun i '(ls, act) =>
             l <- item ls i ;;
             r <- Layer.forward E l act is_training ;;
             ret (wr ls i (fst r), snd r))
          (wr (layers N) 0 (fst r), snd r) ;;
  ret (mk (fst st), snd st).

(** [getCostLoss(V, y)] *)
Definition getCostLoss (N : t) (V : Vol.t) (y : option ExtLayer.target)
  : js (t * option Q) :=
  r <- forward N V (Some false) ;;
  let ls := layers (fst r) in
  let n := len ls in
  last <- item ls (n - 1) ;;
  b <- Layer.backward E last y ;;
  ret (mk (wr ls (n - 1) (fst b)), snd b).

(** [Net.forward] made the output tensor of a layer and the input tensor
    of the next layer one object: the gradient the upper layer wrote
    into its [in_act] is what the lower layer reads in its [out_act]. *)
Definition share (lower upper : Layer.t) : Layer.t :=
  match Layer.in_act upper with
  | Some V => Layer.with_out_act lower (Some V)
  | None => lower
  end.

(** [backward(y)] *)
Definition backward (N : t) (y : option ExtLayer.target) : js (t * option Q) :=
  let n := len (layers N) in
  last <- item (layers N) (n - 1) ;;
  r <- Layer.backward E last y ;;
  let loss := snd r in
  ls <- for_down_js (n - 2)
          (fun i ls =>
             l <- item ls i ;;
             upper <- item ls (i + 1) ;;
             b <- Layer.backward E (share l upper) None ;;
             ret (wr ls i (fst b)))
          (wr (layers N) (n - 1) (fst r)) ;;
  ret (mk ls, loss).

(** [getPrediction()] *)
Definition getPrediction (N : t) : js Z :=
  S <- item (layers N) (len (layers N) - 1) ;;
  assert (streq (Layer.layer_type S) "softmax")
    "getPrediction function assumes softmax as last layer of the net!" ;;;
  match Layer.out_act S with
  | None => throw TypeError
  | Some A =>
      let p := Vol.w A in
      ret (snd (for_range 1 (len p)
                  (fun i '(maxv, maxi) =>
                     if gt (rd 0%Q p i) maxv then (rd 0%Q p i, i)
                     else (maxv, maxi))
                  (rd 0%Q p 0, 0)))
  end.

End WithExternalLayers.

(** [getParamsAndGrads()] *)
Definition getParamsAndGrads (N : t) : list ParamGroup.t :=
  for_ (len (layers N)) (fun i response =>
    match nth_error (layers N) (Z.to_nat i) with
    | Some l =>
        let layer_reponse := Layer.getParamsAndGrads l in
        for_ (len layer_reponse)
          (fun j response => response ++ [rd Layer.no_group layer_reponse j])
          response
    | None => response
    end) [].

(** The groups of a whole-network list, put back layer by layer. *)
Fixpoint store_layers (ls : list Layer.t) (gs : list ParamGroup.t) : list Layer.t :=
  match ls with
  | [] => []
  | l :: rest =>
      let n := List.length (Layer.getParamsAndGrads l) in
      Layer.store l (firstn n gs) :: store_layers rest (skipn n gs)
  end.

Definition store (N : t) (gs : list ParamGroup.t) : t := mk (store_layers (layers N) gs).

End Net.

(* ================================================================== *)
(** ** Trainer ([convnet_trainers.js]) *)

Module Trainer.

Record options : Type := mkOptions {
  opt_learning_rate : option Q;
  opt_l1_decay : option Q;
  opt_l2_decay : option Q;
  opt_batch_size : option Z;
  opt_method : option string;
  opt_momentum : option Q;
  opt_ro : option Q;
  opt_eps : option Q
}.

Record t : Type := mk {
  net : Net.t;
  learning_rate : Q;
  l1_decay : Q;
  l2_decay : Q;
  batch_size : Z;
  method : string;
  momentum : Q;
  ro : Q;
  eps : Q;
  k : Z;
  gsum : list (list Q);
  xsum : list (list Q)
}.

(** [new Trainer(net, options)] *)
Definition new (net : Net.t) (o : options) : t :=
  mk net
     (Opt.or_default (opt_learning_rate o) (1 # 100))
     (Opt.or_default (opt_l1_decay o) 0%Q)
     (Opt.or_default (opt_l2_decay o) 0%Q)
     (Opt.or_default (opt_batch_size o) 1)
     (Opt.or_default (opt_method o) "sgd"%string)
     (Opt.or_default (opt_momentum o) (9 # 10))
     (Opt.or_default (opt_ro o) (95 # 100))
     (Opt.or_default (opt_eps o) (1 # 1000000))
     0 [] [].

(** What [train] returns; the two wall-clock timings are left out. *)
Record stats : Type := mkStats {
  l2_decay_loss : Q;
  l1_decay_loss : Q;
  cost_loss : option Q;
  softmax_loss : option Q;
  loss : option Q
}.

(** [l1_decay * (p[j] > 0 ? 1 : -1)] *)
Definition l1grad (l1_decay p : Q) : Q :=
  (l1_decay * (if gt p 0 then 1 else -1))%Q.

(** [l2_decay * (p[j])] *)
Definition l2grad (l2_decay p : Q) : Q := (l2_decay * p)%Q.

(** [(l2grad + l1grad + g[j]) / this.batch_size] *)
Definition gij (l1_decay l2_decay : Q) (batch_size : Z) (p g : Q) : Q :=
  ((l2grad l2_decay p + l1grad l1_decay p + g) / inject_Z batch_size)%Q.

(** The decay rates of a group: the trainer's rates times the group's
    multipliers, [1.0] standing for a missing multiplier. *)
Definition group_l2_decay (T : t) (pg : ParamGroup.t) : Q :=
  (l2_decay T * Opt.or_default (ParamGroup.l2_decay_mul pg) 1)%Q.

Definition group_l1_decay (T : t) (pg : ParamGroup.t) : Q :=
  (l1_decay T * Opt.or_default (ParamGroup.l1_decay_mul pg) 1)%Q.

(** The variables the loop over [j] assigns. *)
Record acc : Type := mkAcc {
  acc_l2_decay_loss : Q;
  acc_l1_decay_loss : Q;
  acc_p : list Q;
  acc_g : list Q;
  acc_gsumi : list Q;
  acc_xsumi : list Q
}.

(** The body of the loop over [j]. *)
Definition step (T : t) (sqrt : Q -> Q) (l1_decay l2_decay : Q) (j : Z) (a : acc)
  : acc :=
  let p := acc_p a in
  let g := acc_g a in
  let gsumi := acc_gsumi a in
  let xsumi := acc_xsumi a in
  let l2_decay_loss := (acc_l2_decay_loss a + l2_decay * rd 0 p j * rd 0 p j / 2)%Q in
  let l1_decay_loss := (acc_l1_decay_loss a + l1_decay * Qabs (rd 0 p j))%Q in
  let gij := gij l1_decay l2_decay (batch_size T) (rd 0%Q p j) (rd 0%Q g j) in
  let '(p, gsumi, xsumi) :=
    if Net.streq (method T) "adagrad" then
      let gsumi := wr gsumi j (rd 0 gsumi j + gij * gij)%Q in
      let dx := (- learning_rate T / sqrt (rd 0 gsumi j + eps T) * gij)%Q in
      (wr p j (rd 0 p j + dx)%Q, gsumi, xsumi)
    else if Net.streq (method T) "windowgrad" then
      let gsumi := wr gsumi j (ro T * rd 0 gsumi j + (1 - ro T) * gij * gij)%Q in
      let dx := (- learning_rate T / sqrt (rd 0 gsumi j + eps T) * gij)%Q in
      (wr p j (rd 0 p j + dx)%Q, gsumi, xsumi)
    else if Net.streq (method T) "adadelta" then
      let gsumi := wr gsumi j (ro T * rd 0 gsumi j + (1 - ro T) * gij * gij)%Q in
      let dx := (- sqrt ((rd 0 xsumi j + eps T) / (rd 0 gsumi j + eps T)) * gij)%Q in
      let xsumi := wr xsumi j (ro T * rd 0 xsumi j + (1 - ro T) * dx * dx)%Q in
      (wr p j (rd 0 p j + dx)%Q, gsumi, xsumi)
    else if Net.streq (method T) "nesterov" then
      let dx := rd 0%Q gsumi j in
      let gsumi := wr gsumi j (rd 0 gsumi j * momentum T + learning_rate T * gij)%Q in
      let dx := (momentum T * dx - (1 + momentum T) * rd 0 gsumi j)%Q in
      (wr p j (rd 0 p j + dx)%Q, gsumi, xsumi)
    else if gt (momentum T) 0 then
      let dx := (momentum T * rd 0 gsumi j - learning_rate T * gij)%Q in
      let gsumi := wr gsumi j dx in
      (wr p j (rd 0 p j + dx)%Q, gsumi, xsumi)
    else
      (wr p j (rd 0 p j + - learning_rate T * gij)%Q, gsumi, xsumi) in
  mkAcc l2_decay_loss l1_decay_loss p (wr g j 0%Q) gsumi xsumi.

(** Does the update rule in force read [gsumi[j]] / [xsumi[j]]? *)
Definition reads_gsum (T : t) : bool :=
  Net.streq (method T) "adagrad" || Net.streq (method T) "windowgrad" ||
  Net.streq (method T) "adadelta" || Net.streq (method T) "nesterov" ||
  gt (momentum T) 0.

Definition reads_xsum (T : t) : bool := Net.streq (method T) "adadelta".

(** [this.gsum[i]], a [TypeError] when it is [undefined] and an element
    of it is read. *)
Definition accumulator (s : list (list Q)) (i : Z) (read : bool) : js (list Q) :=
  match nth_error s (Z.to_nat i) with
  | Some b => ret b
  | None => if read then throw TypeError else ret []
  end.

(** The variables the loop over [i] assigns. *)
Record upd_state : Type := mkUpd {
  u_l2_decay_loss : Q;
  u_l1_decay_loss : Q;
  u_pglist : list ParamGroup.t;
  u_gsum : list (list Q);
  u_xsum : list (list Q)
}.

(** The body of the loop over [i]: the update of one parameter group. *)
Definition update_group (T : t) (sqrt : Q -> Q) (i : Z) (u : upd_state)
  : js upd_state :=
  let pg := rd Layer.no_group (u_pglist u) i in
  let p := ParamGroup.params pg in
  let g := ParamGroup.grads pg in
  let l2_decay := group_l2_decay T pg in
  let l1_decay := group_l1_decay T pg in
  let plen := len p in
  gsumi <- accumulator (u_gsum u) i (reads_gsum T && (0 <? plen)) ;;
  xsumi <- accumulator (u_xsum u) i (reads_xsum T && (0 <? plen)) ;;
  let a := for_ plen (step T sqrt l1_decay l2_decay)
             (mkAcc (u_l2_decay_loss u) (u_l1_decay_loss u) p g gsumi xsumi) in
  ret (mkUpd (acc_l2_decay_loss a) (acc_l1_decay_loss a)
             (wr (u_pglist u) i
                 (ParamGroup.mk (acc_p a) (acc_g a)
                    (ParamGroup.l1_decay_mul pg) (ParamGroup.l2_decay_mul pg)))
             (wr (u_gsum u) i (acc_gsumi a))
             (wr (u_xsum u) i (acc_xsumi a))).

(** The lazy allocation of [gsum] and [xsum]. *)
Definition allocate (T : t) (pglist : list ParamGroup.t)
  : js (list (list Q) * list (list Q)) :=
  if (len (gsum T) =? 0) && (negb (Net.streq (method T) "sgd") || gt (momentum T) 0)
  then
    for_js (len pglist) (fun i '(gs, xs) =>
      z <- zeros (len (ParamGroup.params (rd Layer.no_group pglist i))) ;;
      if Net.streq (method T) "adadelta"
      then z' <- zeros (len (ParamGroup.params (rd Layer.no_group pglist i))) ;;
           ret (gs ++ [z], xs ++ [z'])
      else ret (gs ++ [z], xs ++ [[]])) (gsum T, xsum T)
  else ret (gsum T, xsum T).

(** [this.k % this.batch_size === 0], with [k % 0] being [NaN]. *)
Definition batch_complete (k batch_size : Z) : bool :=
  negb (batch_size =? 0) && (Z.rem k batch_size =? 0).

Definition add_loss (c : option Q) (l1 l2 : Q) : option Q :=
  match c with Some c => Some (c + l1 + l2)%Q | None => None end.

Section WithExternalLayers.

Variable E : ExtLayer.impl.

(** [train(x, y)]: the trainer afterwards and the returned record. *)
Definition train (T : t) (x : Vol.t) (y : option ExtLayer.target)
  : js (t * stats) :=
  f <- Net.forward E (net T) x (Some true) ;;
  b <- Net.backward E (fst f) y ;;
  let net1 := fst b in
  let cost_loss := snd b in
  let k' := k T + 1 in
  if batch_complete k' (batch_size T) then
    let pglist := Net.getParamsAndGrads net1 in
    s <- allocate T pglist ;;
    sqrt <- the_sqrt ;;
    u <- for_js (len pglist) (update_group T sqrt)
           (mkUpd 0 0 pglist (fst s) (snd s)) ;;
    ret (mk (Net.store net1 (u_pglist u)) (learning_rate T) (l1_decay T)
            (l2_decay T) (batch_size T) (method T) (momentum T) (ro T)
            (eps T) k' (u_gsum u) (u_xsum u),
         mkStats (u_l2_decay_loss u) (u_l1_decay_loss u) cost_loss cost_loss
                 (add_loss cost_loss (u_l1_decay_loss u) (u_l2_decay_loss u)))
  else
    ret (mk net1 (learning_rate T) (l1_decay T) (l2_decay T) (batch_size T)
            (method T) (momentum T) (ro T) (eps T) k' (gsum T) (xsum T),
         mkStats 0 0 cost_loss cost_loss (add_loss cost_loss 0 0)).

End WithExternalLayers.

(** The parameter buffers of the network, in group order. *)
Definition parameters (T : t) : list (list Q) :=
  map ParamGroup.params (Net.getParamsAndGrads (net T)).

End Trainer.

(* ================================================================== *)
(** ** The specification's formulas *)

Module Spec.

(** [f 0 + f 1 + ... + f (n-1)] *)
Fixpoint sum_n (n : nat) (f : Z -> Q) : Q :=
  match n with
  | O => 0%Q
  | Datatypes.S m => (sum_n m f + f (Z.of_nat m))%Q
  end.

Definition sum_upto (n : Z) (f : Z -> Q) : Q := sum_n (Z.to_nat n) f.

(** A tensor of the given dimensions with a value buffer of their size. *)
Definition shaped (A : Vol.t) (sx sy depth : Z) : Prop :=
  Vol.sx A = sx /\ Vol.sy A = sy /\ Vol.depth A = depth /\
  len (Vol.w A) = sx * sy * depth.

(** [V] is [V0] up to the contents of its gradient buffer. *)
Definition framed (V0 V : Vol.t) : Prop :=
  Vol.sx V = Vol.sx V0 /\ Vol.sy V = Vol.sy V0 /\ Vol.depth V = Vol.depth V0 /\
  Vol.w V = Vol.w V0 /\
  len (Vol.dw V) = Vol.sx V0 * Vol.sy V0 * Vol.depth V0.

(** What the inner loops of the convolution add for the filter position
    [(fx, fy)] when the filter's corner is at [(x, y)]. *)
Definition conv_term (f V : Vol.t) (V_sx V_sy x y : Z) (fy fx : Z) : Q :=
  if ConvLayer.inside V_sx V_sy (x + fx) (y + fy)
  then sum_upto (Vol.depth f) (fun fd =>
         rd 0%Q (Vol.w f) (((Vol.sx f * fy) + fx) * Vol.depth f + fd)
         * rd 0%Q (Vol.w V) (((V_sx * (y + fy)) + (x + fx)) * Vol.depth V + fd))%Q
  else 0%Q.

(** The specification's convolution: the bias plus, over the filter
    coordinates [(fx, fy)] whose input coordinate
    [(ox, oy) = (ax*stride - pad + fx, ay*stride - pad + fy)] lies inside the
    input, the sum over [fd] of [filter[fx,fy,fd] * input[ox,oy,fd]]. *)
Definition conv_output (L : ConvLayer.t) (V : Vol.t) (ax ay d : Z) : Q :=
  let f := ConvLayer.filter L d in
  (rd 0%Q (Vol.w (ConvLayer.biases L)) d +
   sum_upto (ConvLayer.sy L) (fun fy =>
     sum_upto (ConvLayer.sx L) (fun fx =>
       let ox := (ax * ConvLayer.stride L - ConvLayer.pad L + fx)%Z in
       let oy := (ay * ConvLayer.stride L - ConvLayer.pad L + fy)%Z in
       if ((0 <=? ox) && (ox <? Vol.sx V) && (0 <=? oy) && (oy <? Vol.sy V))%Z
       then sum_upto (ConvLayer.in_depth L) (fun fd =>
              Vol.get f fx fy fd * Vol.get V ox oy fd)
       else 0)))%Q.

(** The window offset [(fx, fy)] of the window with corner [(x, y)] falls on
    a cell of the input. *)
Definition in_window (L : PoolLayer.t) (V : Vol.t) (x y fx fy : Z) : Prop :=
  0 <= fx < PoolLayer.sx L /\ 0 <= fy < PoolLayer.sy L /\
  0 <= x + fx < Vol.sx V /\ 0 <= y + fy < Vol.sy V.

(** The scan visits the offsets column by column. *)
Definition scanned_before (fx' fy' fx fy : Z) : Prop :=
  fx' < fx \/ (fx' = fx /\ fy' < fy).

(** [m] is the maximum of the in-range values of the window at depth [d],
    and [(wx, wy)] is the first-scanned coordinate that holds it. *)
Definition first_max (L : PoolLayer.t) (V : Vol.t) (x y d : Z)
           (m : Q) (wx wy : Z) : Prop :=
  exists fx fy,
    in_window L V x y fx fy /\ wx = x + fx /\ wy = y + fy /\
    m = Vol.get V wx wy d /\
    (forall fx' fy', in_window L V x y fx' fy' ->
       (Vol.get V (x + fx') (y + fy') d <= m)%Q) /\
    (forall fx' fy', in_window L V x y fx' fy' -> scanned_before fx' fy' fx fy ->
       (Vol.get V (x + fx') (y + fy') d < m)%Q).

(** The chain gradient of output cell [(ax, ay, d)] when its recorded
    switch is the input coordinate [(x, y)], and zero otherwise. *)
Definition routed (L : PoolLayer.t) (A : Vol.t) (x y d ax ay : Z) : Q :=
  if (rd 0 (PoolLayer.switchx L) (PoolLayer.cell L ax ay d) =? x)
     && (rd 0 (PoolLayer.switchy L) (PoolLayer.cell L ax ay d) =? y)
  then Vol.get_grad A ax ay d else 0%Q.

(** The specification's [sign]. *)
Definition sign (p : Q) : Q :=
  if gt p 0 then 1%Q else if gt 0 p then (-1)%Q else 0%Q.

(** The specification's decayed gradient
    [(l2_decay*p + l1_decay*sign(p) + g) / batch_size]. *)
Definition decayed_gradient (l1_decay l2_decay : Q) (batch_size : Z) (p g : Q) : Q :=
  ((l2_decay * p + l1_decay * sign p + g) / inject_Z batch_size)%Q.

(** A parameter group receives no weight decay from the trainer [T]: both
    of its decay rates vanish, the gradient every update rule applies to a
    weight [p] with raw gradient [g] is [g / batch_size], and an iteration of
    the update loop leaves the two decay losses as they were. *)
Definition undecayed (T : Trainer.t) (pg : ParamGroup.t) : Prop :=
  (Trainer.group_l1_decay T pg == 0)%Q /\
  (Trainer.group_l2_decay T pg == 0)%Q /\
  forall (sqrt : Q -> Q) (j : Z) (a : Trainer.acc) (p g : Q),
    (Trainer.gij (Trainer.group_l1_decay T pg) (Trainer.group_l2_decay T pg)
                 (Trainer.batch_size T) p g
     == g / inject_Z (Trainer.batch_size T))%Q /\
    (Trainer.acc_l1_decay_loss
       (Trainer.step T sqrt (Trainer.group_l1_decay T pg)
          (Trainer.group_l2_decay T pg) j a)
     == Trainer.acc_l1_decay_loss a)%Q /\
    (Trainer.acc_l2_decay_loss
       (Trainer.step T sqrt (Trainer.group_l1_decay T pg)
          (Trainer.group_l2_decay T pg) j a)
     == Trainer.acc_l2_decay_loss a)%Q.

(** The layers' forward passes one after the other: each layer is fed the
    output of the one before it. *)
Fixpoint forward_chain (E : ExtLayer.impl) (ls : list Layer.t) (act : Vol.t)
         (is_training : bool) : js (list Layer.t * Vol.t) :=
  match ls with
  | [] => ret ([], act)
  | l :: rest =>
      r <- Layer.forward E l act is_training ;;
      rr <- forward_chain E rest (snd r) is_training ;;
      ret (fst r :: fst rr, snd rr)
  end.

(** The backward passes of the layers [ls], the last of them first, below
    the layers [above] that have had theirs: each layer reads in its
    [out_act] the gradient that the layer after it left in its [in_act]. *)
Fixpoint backward_below (E : ExtLayer.impl) (ls above : list Layer.t)
  : js (list Layer.t) :=
  match ls with
  | [] => ret above
  | l :: rest =>
      above <- backward_below E rest above ;;
      upper <- item above 0 ;;
      b <- Layer.backward E (Net.share l upper) None ;;
      ret (fst b :: above)
  end.

(** The layers' backward passes from the last layer to the first: the last
    layer is handed the target [y] and gives the loss. *)
Definition backward_chain (E : ExtLayer.impl) (ls : list Layer.t)
           (y : option ExtLayer.target) : js (list Layer.t * option Q) :=
  last <- item ls (len ls - 1) ;;
  r <- Layer.backward E last y ;;
  ls' <- backward_below E (removelast ls) [fst r] ;;
  ret (ls', snd r).

(** The layer [l] was built for the output shape of the layer [prev]. *)
Definition fed_by (prev l : Layer.t) : Prop :=
  match l with
  | Layer.Conv L =>
      ConvLayer.in_sx L = Layer.out_sx prev /\
      ConvLayer.in_sy L = Layer.out_sy prev /\
      ConvLayer.in_depth L = Layer.out_depth prev
  | Layer.FullyConn L =>
      FullyConnLayer.num_inputs L
      = Layer.out_sx prev * Layer.out_sy prev * Layer.out_depth prev
  | Layer.Pool L =>
      PoolLayer.in_sx L = Layer.out_sx prev /\
      PoolLayer.in_sy L = Layer.out_sy prev /\
      PoolLayer.in_depth L = Layer.out_depth prev /\
      PoolLayer.out_depth L = Layer.out_depth prev
  | Layer.Ext _ => True
  end.

(** Every layer of the list was built for the layer before it. *)
Definition wired (ls : list Layer.t) : Prop :=
  forall (i : nat) (prev l : Layer.t),
    nth_error ls i = Some prev -> nth_error ls (Datatypes.S i) = Some l ->
    fed_by prev l.

(** The buffer [b'] is the buffer [b] with [F j] added at every index [j]. *)
Definition adds (b b' : list Q) (F : Z -> Q) : Prop :=
  len b' = len b /\
  forall j, 0 <= j < len b -> (rd 0%Q b' j == rd 0%Q b j + F j)%Q.

End Spec.

(* ================================================================== *)
(** ** Sample inputs *)

Module Sample.

Definition host : World := mkWorld (fun x => x) (fun n => inject_Z (Z.of_nat n)) 0 [].

(** Stand-ins for the external layers: the constructor takes the declared
    output shape, or else passes the input shape on; [forward] hands its
    input through; [backward] reports a loss of zero. *)
Definition ext : ExtLayer.impl :=
  ExtLayer.mkImpl
    (fun def =>
       ret (ExtLayer.mk (Opt.type def)
              (Opt.or_default (Opt.out_sx def) (Opt.in_sx def))
              (Opt.or_default (Opt.out_sy def) (Opt.in_sy def))
              (Opt.or_default (Opt.out_depth def) (Opt.in_depth def))
              None None []))
    (fun L V _ =>
       ret (ExtLayer.mk (ExtLayer.layer_type L) (ExtLayer.out_sx L)
              (ExtLayer.out_sy L) (ExtLayer.out_depth L) (Some V) (Some V)
              (ExtLayer.private L), V))
    (fun L _ => ret (L, Some 0%Q)).

(** [{type:'input', out_sx:1, out_sy:1, out_depth:2}] *)
Definition input_def : Opt.t :=
  Opt.mk "input" 0 0 0 0 0 None None None None None None None None None None None
         (Some 1) (Some 1) (Some 2).

(** [{type:'bogus'}] *)
Definition bogus_def : Opt.t := Opt.literal "bogus".

(** [{type:'fc', num_neurons:2, activation:'swish'}] *)
Definition swish_def : Opt.t :=
  Opt.mk "fc" 0 0 0 0 0 None None None None None None (Some 2) None
         (Some "swish"%string) None None None None None.

(** [{type:'softmax', num_classes:2}] *)
Definition softmax_def : Opt.t :=
  Opt.mk "softmax" 0 0 0 0 0 None None None None None None None (Some 2)
         None None None None None None.

(** A 5 x 5 x 1 input met by 2 x 2 filters at stride 2: the stride does not
    divide [5 - 2]. *)
Definition trimmed_opt : Opt.t :=
  Opt.mk "conv" 1 2 1 5 5 None (Some 2) None None None None None None None None
         None None None None.

(** A trainer doing plain gradient descent with L1 decay only:
    [{method:'sgd', momentum:0, learning_rate:0.1, l1_decay:1}]. *)
Definition l1_trainer : Trainer.t :=
  Trainer.new (Net.mk [])
    (Trainer.mkOptions (Some (1 # 10)%Q) (Some 1%Q) None None None (Some 0%Q) None None).

(** A group holding the single weight [0] with raw gradient [0]. *)
Definition zero_group : ParamGroup.t :=
  ParamGroup.mk [0%Q] [0%Q] (Some 1%Q) (Some 1%Q).

(** A rectifier layer and a softmax layer whose output ties at index 1. *)
Definition relu_layer : Layer.t :=
  Layer.Ext (ExtLayer.mk "relu" 1 1 4 None None []).

Definition softmax_out : Vol.t := Vol.mk 1 1 4 [1; 3; 3; 2]%Q [0; 0; 0; 0]%Q.

Definition softmax_layer : Layer.t :=
  Layer.Ext (ExtLayer.mk "softmax" 1 1 4 None (Some softmax_out) []).

(** A 1 x 1 window at stride 1 over a 1 x 1 x 1 input holding [-100000]. *)
Definition unit_pool : PoolLayer.t :=
  PoolLayer.mk 1 1 1 1 1 1 0 1 1 1 [0] [0] None None.

Definition cold_input : Vol.t := Vol.mk 1 1 1 [(-100000)%Q] [0%Q].

(** A 2 x 2 window at stride 2 with padding 1 over a 3 x 3 x 1 input. *)
Definition pool : PoolLayer.t :=
  PoolLayer.mk 2 1 3 3 2 2 1 1 2 2 [0; 0; 0; 0] [0; 0; 0; 0] None None.

Definition image : Vol.t :=
  Vol.mk 3 3 1 [1; 2; 3; 4; 5; 6; 7; 8; 9]%Q [0; 0; 0; 0; 0; 0; 0; 0; 0]%Q.

(** A convolution layer with one 2 x 2 filter, stride 1 and padding 1, for
    the same input. *)
Definition conv : ConvLayer.t :=
  ConvLayer.mk 1 2 1 3 3 2 1 1 0 1 4 4
    [Vol.mk 2 2 1 [1; 2; 3; 4]%Q [0; 0; 0; 0]%Q]
    (Vol.mk 1 1 1 [10%Q] [0%Q]) None None.

(** A network input(1x1x2) -> fc(2) -> softmax, a trainer for it with a
    batch size of two, and one training example. *)
Definition fc_layer : FullyConnLayer.t :=
  FullyConnLayer.mk 2 0 1 2 1 1
    [Vol.mk 1 1 2 [1; 2]%Q [0; 0]%Q; Vol.mk 1 1 2 [3; 4]%Q [0; 0]%Q]
    (Vol.mk 1 1 2 [0; 0]%Q [0; 0]%Q) None None.

Definition net : Net.t :=
  Net.mk [Layer.Ext (ExtLayer.mk "input" 1 1 2 None None []);
          Layer.FullyConn fc_layer;
          Layer.Ext (ExtLayer.mk "softmax" 1 1 2 None None [])].

Definition trainer : Trainer.t :=
  Trainer.new net (Trainer.mkOptions None None None (Some 2) None None None None).

Definition example : Vol.t := Vol.mk 1 1 2 [1; 1]%Q [0; 0]%Q.

End Sample.

(* ================================================================== *)
(** * Properties *)

(** ** Loops, buffers and the monad *)

Section Loops.

Context {S : Type}.

Lemma range_snoc (lo hi : Z) :
  lo <= hi -> range lo (hi + 1) = range lo hi ++ [hi].
Proof.
  intros H. unfold range.
  replace (Z.to_nat (hi + 1 - lo)) with (Datatypes.S (Z.to_nat (hi - lo))) by lia.
  rewrite seq_S, map_app. simpl. f_equal. f_equal. lia.
Qed.

Lemma range_nil (lo hi : Z) : hi <= lo -> range lo hi = [].
Proof.
  intros H. unfold range. replace (Z.to_nat (hi - lo)) with O by lia. reflexivity.
Qed.

Lemma for_range_snoc (lo hi : Z) (body : Z -> S -> S) (s : S) :
  lo <= hi -> for_range lo (hi + 1) body s = body hi (for_range lo hi body s).
Proof.
  intros H. unfold for_range. rewrite range_snoc by assumption.
  rewrite fold_left_app. reflexivity.
Qed.

Lemma for_range_nil (lo hi : Z) (body : Z -> S -> S) (s : S) :
  hi <= lo -> for_range lo hi body s = s.
Proof. intros H. unfold for_range. rewrite range_nil by assumption. reflexivity. Qed.

(** Loop invariants: [P i] holds before iteration [i]. *)
Lemma for_range_ind (P : Z -> S -> Prop) (lo hi : Z) (body : Z -> S -> S) (s : S) :
  lo <= hi ->
  P lo s ->
  (forall i st, lo <= i < hi -> P i st -> P (i + 1) (body i st)) ->
  P hi (for_range lo hi body s).
Proof.
  intros Hle H0 Hstep.
  assert (G : forall n : nat, lo + Z.of_nat n <= hi ->
              P (lo + Z.of_nat n) (for_range lo (lo + Z.of_nat n) body s)).
  { induction n as [|n IH]; intros Hn.
    - rewrite Z.add_0_r. rewrite for_range_nil by lia. exact H0.
    - replace (lo + Z.of_nat (Datatypes.S n)) with (lo + Z.of_nat n + 1) by lia.
      rewrite for_range_snoc by lia. apply Hstep; [lia | apply IH; lia]. }
  specialize (G (Z.to_nat (hi - lo))).
  replace (lo + Z.of_nat (Z.to_nat (hi - lo))) with hi in G by lia.
  apply G. lia.
Qed.

Lemma for_ind (P : Z -> S -> Prop) (n : Z) (body : Z -> S -> S) (s : S) :
  0 <= n ->
  P 0 s ->
  (forall i st, 0 <= i < n -> P i st -> P (i + 1) (body i st)) ->
  P n (for_ n body s).
Proof. intros. unfold for_. apply for_range_ind; assumption. Qed.

Lemma for_nil (n : Z) (body : Z -> S -> S) (s : S) : n <= 0 -> for_ n body s = s.
Proof. intros. unfold for_. apply for_range_nil. assumption. Qed.

(** A property every iteration preserves holds after the loop, whatever
    the bound. *)
Lemma for_preserves (P : S -> Prop) (n : Z) (body : Z -> S -> S) (s : S) :
  P s -> (forall i st, 0 <= i < n -> P st -> P (body i st)) -> P (for_ n body s).
Proof.
  intros H0 Hstep. destruct (Z.le_gt_cases 0 n) as [Hn|Hn].
  - apply (for_ind (fun _ st => P st)); auto.
  - rewrite for_nil by lia. exact H0.
Qed.

Lemma for_js_snoc (n : Z) (body : Z -> S -> js S) (s : S) :
  0 <= n -> for_js (n + 1) body s = bind (for_js n body s) (body n).
Proof.
  intros H. unfold for_js. rewrite range_snoc by assumption.
  rewrite fold_left_app. reflexivity.
Qed.

Lemma for_js_nil (n : Z) (body : Z -> S -> js S) (s : S) :
  n <= 0 -> for_js n body s = ret s.
Proof. intros H. unfold for_js. rewrite range_nil by lia. reflexivity. Qed.

(** A monadic loop whose iterations return, returns; [P] is an invariant
    on the loop variables and [R] one on the host. *)
Lemma for_js_ind (P : Z -> S -> Prop) (R : World -> Prop) (n : Z)
      (body : Z -> S -> js S) (s : S) (h : World) :
  0 <= n ->
  P 0 s -> R h ->
  (forall i st h1, 0 <= i < n -> P i st -> R h1 ->
     exists st' h2, body i st h1 = Ok st' h2 /\ P (i + 1) st' /\ R h2) ->
  exists st' h', for_js n body s h = Ok st' h' /\ P n st' /\ R h'.
Proof.
  intros Hn H0 HR Hstep.
  assert (G : forall m : nat, Z.of_nat m <= n ->
              exists st' h', for_js (Z.of_nat m) body s h = Ok st' h' /\
                             P (Z.of_nat m) st' /\ R h').
  { induction m as [|m IH]; intros Hm.
    - exists s, h. rewrite for_js_nil by lia. repeat split; assumption.
    - destruct IH as (st1 & h1 & E1 & P1 & R1); [lia|].
      destruct (Hstep (Z.of_nat m) st1 h1) as (st2 & h2 & E2 & P2 & R2);
        [lia | assumption | assumption |].
      exists st2, h2.
      replace (Z.of_nat (Datatypes.S m)) with (Z.of_nat m + 1) by lia.
      rewrite for_js_snoc by lia. unfold bind at 1. rewrite E1.
      repeat split; assumption. }
  specialize (G (Z.to_nat n)). rewrite Z2Nat.id in G by assumption.
  apply G. lia.
Qed.

End Loops.

Lemma bind_ok {A B} (m : js A) (k : A -> js B) (h h' : World) (a : A) :
  m h = Ok a h' -> bind m k h = k a h'.
Proof. intros E. unfold bind. rewrite E. reflexivity. Qed.

Lemma bind_throw {A B} (m : js A) (k : A -> js B) (h : World) (e : error) :
  m h = Throw e -> bind m k h = Throw e.
Proof. intros E. unfold bind. rewrite E. reflexivity. Qed.

Lemma bind_inv {A B} (m : js A) (k : A -> js B) (h h' : World) (b : B) :
  bind m k h = Ok b h' -> exists a h1, m h = Ok a h1 /\ k a h1 = Ok b h'.
Proof.
  unfold bind. destruct (m h) as [a h1|e]; [|discriminate].
  intros H. exists a, h1. auto.
Qed.

Lemma ret_inv {A} (a b : A) (h h' : World) : ret a h = Ok b h' -> a = b /\ h = h'.
Proof. unfold ret. intros H. inversion H. auto. Qed.

Lemma item_inv {A} (l : list A) (i : Z) (a : A) (h h' : World) :
  item l i h = Ok a h' -> h' = h /\ 0 <= i /\ forall d, rd d l i = a.
Proof.
  unfold item, rd. destruct (Z.ltb_spec i 0) as [Hlt|Hge]; [discriminate|].
  destruct (nth_error l (Z.to_nat i)) eqn:E; [|discriminate].
  intros H. apply ret_inv in H. destruct H as [-> ->].
  split; [reflexivity|]. split; [assumption|].
  intros d. now apply nth_error_nth.
Qed.

Section Buffers.

Context {A : Type}.

Lemma length_upd (l : list A) (n : nat) (v : A) : List.length (upd l n v) = List.length l.
Proof.
  revert n. induction l as [|h t IH]; intros [|n]; simpl; auto.
Qed.

Lemma nth_upd_same (d : A) (l : list A) (n : nat) (v : A) :
  (n < List.length l)%nat -> nth n (upd l n v) d = v.
Proof.
  revert n. induction l as [|h t IH]; intros [|n] H; simpl in *; try lia; auto.
  apply IH. lia.
Qed.

Lemma nth_upd_other (d : A) (l : list A) (n m : nat) (v : A) :
  n <> m -> nth m (upd l n v) d = nth m l d.
Proof.
  revert n m. induction l as [|h t IH]; intros [|n] [|m] H; simpl; auto; try lia.
Qed.

Lemma len_wr (l : list A) (i : Z) (v : A) : len (wr l i v) = len l.
Proof.
  unfold wr, len. destruct (i <? 0); [reflexivity|]. now rewrite length_upd.
Qed.

Lemma len_nonneg (l : list A) : 0 <= len l.
Proof. unfold len. lia. Qed.

Lemma rd_wr_same (d : A) (l : list A) (i : Z) (v : A) :
  0 <= i < len l -> rd d (wr l i v) i = v.
Proof.
  unfold rd, wr, len. intros H.
  destruct (Z.ltb_spec i 0); [lia|]. apply nth_upd_same. lia.
Qed.

Lemma rd_wr_other (d : A) (l : list A) (i j : Z) (v : A) :
  i <> j -> rd d (wr l i v) j = rd d l j.
Proof.
  unfold rd, wr. intros H.
  destruct (Z.ltb_spec i 0); [reflexivity|].
  destruct (Z.ltb_spec j 0); [reflexivity|].
  apply nth_upd_other. lia.
Qed.

Lemma wr_outside (l : list A) (i : Z) (v : A) :
  i < 0 \/ len l <= i -> wr l i v = l.
Proof.
  unfold wr, len. intros H. destruct (Z.ltb_spec i 0); [reflexivity|].
  assert (G : forall (l : list A) n, (List.length l <= n)%nat -> upd l n v = l).
  { clear. induction l as [|h t IH]; intros [|n] H; simpl in *; auto; try lia.
    f_equal. apply IH. lia. }
  apply G. lia.
Qed.

Lemma len_repeat (a : A) (n : Z) : 0 <= n -> len (repeat a (Z.to_nat n)) = n.
Proof. intros H. unfold len. rewrite repeat_length. lia. Qed.

Lemma rd_repeat (d : A) (n : Z) (i : Z) : rd d (repeat d (Z.to_nat n)) i = d.
Proof.
  unfold rd. destruct (i <? 0); [reflexivity|].
  generalize (Z.to_nat i) as m. generalize (Z.to_nat n) as c.
  induction c as [|c IH]; intros [|m]; simpl; auto.
Qed.

(** Two buffers of one length that read alike are the same list. *)
Lemma buffer_ext (d : A) (l1 l2 : list A) :
  len l1 = len l2 ->
  (forall i, 0 <= i < len l1 -> rd d l1 i = rd d l2 i) ->
  l1 = l2.
Proof.
  unfold len. intros Hlen H. apply (nth_ext l1 l2 d d); [lia|].
  intros n Hn. specialize (H (Z.of_nat n)). unfold rd in H.
  destruct (Z.ltb_spec (Z.of_nat n) 0); [lia|].
  rewrite Nat2Z.id in H. apply H. lia.
Qed.

(** A loop that writes [f i] at index [i], for every [i] below [n]. *)
Lemma for_fill (d : A) (f : Z -> A) (n : Z) (l : list A) :
  len l = n ->
  len (for_ n (fun i b => wr b i (f i)) l) = n /\
  forall j, 0 <= j < n -> rd d (for_ n (fun i b => wr b i (f i)) l) j = f j.
Proof.
  intros Hl.
  assert (Hn : 0 <= n) by (rewrite <- Hl; apply len_nonneg).
  pose (P := fun (i : Z) (b : list A) =>
               len b = n /\ forall j, 0 <= j < i -> rd d b j = f j).
  assert (G : P n (for_ n (fun i b => wr b i (f i)) l)).
  { apply for_ind; [assumption | split; [assumption | intros; lia] |].
    intros i b Hi [Hb Hrd]. split; [now rewrite len_wr|].
    intros j Hj. destruct (Z.eq_dec i j) as [->|Hne].
    - apply rd_wr_same. lia.
    - rewrite rd_wr_other by assumption. apply Hrd. lia. }
  exact G.
Qed.

End Buffers.

Lemma zeros_ok (n : Z) (h : World) :
  0 <= n -> zeros n h = Ok (repeat 0%Q (Z.to_nat n)) h.
Proof.
  intros H. unfold zeros, zeros_of. destruct (Z.ltb_spec n 0); [lia|]. reflexivity.
Qed.

Lemma zeros_of_ok {A} (z : A) (n : Z) (h : World) :
  0 <= n -> zeros_of z n h = Ok (repeat z (Z.to_nat n)) h.
Proof.
  intros H. unfold zeros_of. destruct (Z.ltb_spec n 0); [lia|]. reflexivity.
Qed.

(** ** Tensors *)

Lemma Vol_new_const_ok (sx sy depth : Z) (c : Q) (h : World) :
  0 <= sx * sy * depth ->
  exists A, Vol.new_const sx sy depth c h = Ok A h /\
            Vol.sx A = sx /\ Vol.sy A = sy /\ Vol.depth A = depth /\
            len (Vol.w A) = sx * sy * depth /\
            Vol.dw A = repeat 0%Q (Z.to_nat (sx * sy * depth)) /\
            forall j, 0 <= j < sx * sy * depth -> rd 0%Q (Vol.w A) j = c.
Proof.
  intros H. unfold Vol.new_const, bind. rewrite zeros_ok by assumption.
  rewrite zeros_ok by assumption. unfold ret. eexists. split; [reflexivity|].
  simpl. repeat split; try reflexivity.
  - apply (for_fill 0%Q (fun _ => c)). now apply len_repeat.
  - apply (for_fill 0%Q (fun _ => c)). now apply len_repeat.
Qed.

(** C9. Serialising a tensor with [toJSON] and reading the result back with
    [fromJSON] restores the three dimensions and exactly the values [w];
    the serialised object does not depend on the gradients, and the
    restored gradient buffer is all zero, of length [sx * sy * depth]. *)
Theorem Vol_toJSON_fromJSON_roundtrip (V V0 : Vol.t) (h : World) :
  Vol.wf V ->
  exists V',
    Vol.fromJSON V0 (Vol.toJSON V) h = Ok V' h /\
    Vol.sx V' = Vol.sx V /\ Vol.sy V' = Vol.sy V /\ Vol.depth V' = Vol.depth V /\
    Vol.w V' = Vol.w V /\
    Vol.dw V' = repeat 0%Q (Z.to_nat (Vol.sx V * Vol.sy V * Vol.depth V)) /\
    len (Vol.dw V') = Vol.sx V * Vol.sy V * Vol.depth V /\
    (forall g, Vol.toJSON (Vol.with_dw V g) = Vol.toJSON V).
Proof.
  intros (Hx & Hy & Hd & Hw & Hdw).
  assert (Hn : 0 <= Vol.sx V * Vol.sy V * Vol.depth V) by (rewrite <- Hw; apply len_nonneg).
  unfold Vol.fromJSON, Vol.toJSON, bind. simpl.
  rewrite zeros_ok by assumption. rewrite zeros_ok by assumption.
  eexists. split; [reflexivity|]. simpl.
  repeat split; try reflexivity.
  - destruct (for_fill 0%Q (fun i => rd 0%Q (Vol.w V) i)
                (Vol.sx V * Vol.sy V * Vol.depth V)
                (repeat 0%Q (Z.to_nat (Vol.sx V * Vol.sy V * Vol.depth V))))
      as [Hlen Hrd]; [now apply len_repeat|].
    apply (buffer_ext 0%Q); [congruence|].
    intros i Hi. apply Hrd. lia.
  - now apply len_repeat.
Qed.

Lemma Vol_roundtrip_witness :
  let V := Vol.mk 2 1 2 [1; 2; 3; 4]%Q [5; 6; 7; 8]%Q in
  let V0 := Vol.mk 0 0 0 [] [] in
  let h := mkWorld (fun x => x) (fun _ => 0%Q) 0 [] in
  Vol.wf V /\
  exists V',
    Vol.fromJSON V0 (Vol.toJSON V) h = Ok V' h /\
    Vol.sx V' = Vol.sx V /\ Vol.sy V' = Vol.sy V /\ Vol.depth V' = Vol.depth V /\
    Vol.w V' = Vol.w V /\
    Vol.dw V' = repeat 0%Q (Z.to_nat (Vol.sx V * Vol.sy V * Vol.depth V)) /\
    len (Vol.dw V') = Vol.sx V * Vol.sy V * Vol.depth V /\
    (forall g, Vol.toJSON (Vol.with_dw V g) = Vol.toJSON V).
Proof.
  intros V V0 h.
  assert (W : Vol.wf V) by (unfold Vol.wf; simpl; repeat split; (lia || reflexivity)).
  split; [exact W | exact (Vol_toJSON_fromJSON_roundtrip V V0 h W)].
Defined.

(** ** Output sizes *)

(** [Math.floor(n / s + 1)] on integers [n] and [s > 0] is the integer
    quotient rounded down, plus one. *)
Lemma out_size_div (inp pad f stride : Z) :
  0 < stride ->
  ConvLayer.out_size inp pad f stride = (inp + 2 * pad - f) / stride + 1.
Proof.
  intros Hs. unfold ConvLayer.out_size.
  replace (inp + pad * 2 - f) with (inp + 2 * pad - f) by lia.
  generalize (inp + 2 * pad - f) as n. intros n.
  destruct stride as [|p|p]; try lia.
  unfold Qfloor, Qdiv, Qinv, Qmult, Qplus, inject_Z. simpl.
  rewrite Pos.mul_1_r. rewrite !Z.mul_1_r.
  replace (n + Z.pos p) with (n + 1 * Z.pos p) by lia.
  rewrite Z.div_add by lia. reflexivity.
Qed.

(** The trimming: the last filter application lies within the padded input
    and one more would not. *)
Lemma out_size_trimmed (inp pad f stride : Z) :
  0 < stride ->
  let out := ConvLayer.out_size inp pad f stride in
  (out - 1) * stride + f <= inp + 2 * pad < out * stride + f.
Proof.
  intros Hs out. subst out. rewrite out_size_div by assumption.
  pose proof (Z.div_mod (inp + 2 * pad - f) stride ltac:(lia)) as D.
  pose proof (Z.mod_pos_bound (inp + 2 * pad - f) stride Hs) as B.
  nia.
Qed.

Lemma randn_ok (mu std : Q) (h : World) :
  exists r, randn mu std h = Ok r (mkWorld (Math_sqrt h) (gauss h) (Datatypes.S (rng_pos h)) (console h)).
Proof. eexists. reflexivity. Qed.

(** The random constructor returns whenever the element count is not
    negative; it leaves the console alone. *)
Lemma Vol_new_random_ok (sx sy depth : Z) (h : World) :
  0 <= sx * sy * depth ->
  exists A h', Vol.new_random sx sy depth h = Ok A h' /\
               console h' = console h /\
               Vol.sx A = sx /\ Vol.sy A = sy /\ Vol.depth A = depth /\
               len (Vol.w A) = sx * sy * depth /\
               len (Vol.dw A) = sx * sy * depth.
Proof.
  intros H. unfold Vol.new_random, bind at 1 2 3.
  rewrite zeros_ok by assumption. rewrite zeros_ok by assumption.
  unfold JS.sqrt. unfold bind at 1.
  destruct (for_js_ind
              (fun (_ : Z) (b : list Q) => len b = sx * sy * depth)
              (fun h1 => console h1 = console h)
              (sx * sy * depth)
              (fun (i : Z) (w : list Q) =>
                 r <- randn 0 (Math_sqrt h (1 / inject_Z (sx * sy * depth))) ;;
                 ret (wr w i r))
              (repeat 0%Q (Z.to_nat (sx * sy * depth))) h)
    as (w1 & h1 & E1 & L1 & C1).
  - assumption.
  - now apply len_repeat.
  - reflexivity.
  - intros i st h1 Hi Hst Hc. eexists. eexists. split; [reflexivity|].
    split; [now rewrite len_wr | exact Hc].
  - rewrite E1. exists (Vol.mk sx sy depth w1 (repeat 0%Q (Z.to_nat (sx * sy * depth)))), h1.
    split; [reflexivity|]. simpl. repeat split; try assumption.
    now apply len_repeat.
Qed.

Lemma len_app {A} (l1 l2 : list A) : len (l1 ++ l2) = len l1 + len l2.
Proof. unfold len. rewrite length_app. lia. Qed.

(** The filter bank built by the constructors of the dot-product layers. *)
Lemma filter_bank_ok (n sx sy depth : Z) (h : World) :
  0 <= n -> 0 <= sx * sy * depth ->
  exists fs h',
    for_js n (fun (i : Z) (fs : list Vol.t) =>
                f <- Vol.new_random sx sy depth ;; ret (fs ++ [f])) [] h = Ok fs h' /\
    console h' = console h /\
    len fs = n /\
    forall f, In f fs ->
      Vol.sx f = sx /\ Vol.sy f = sy /\ Vol.depth f = depth /\
      len (Vol.w f) = sx * sy * depth /\ len (Vol.dw f) = sx * sy * depth.
Proof.
  intros Hn Hsz.
  destruct (for_js_ind
              (fun (i : Z) (fs : list Vol.t) =>
                 len fs = i /\
                 forall f, In f fs ->
                   Vol.sx f = sx /\ Vol.sy f = sy /\ Vol.depth f = depth /\
                   len (Vol.w f) = sx * sy * depth /\ len (Vol.dw f) = sx * sy * depth)
              (fun h1 => console h1 = console h)
              n
              (fun (i : Z) (fs : list Vol.t) =>
                 f <- Vol.new_random sx sy depth ;; ret (fs ++ [f]))
              [] h) as (fs & h' & E & [L I] & C).
  - assumption.
  - split; [reflexivity | intros f []].
  - reflexivity.
  - intros i st h1 Hi [Hl Hin] Hc.
    destruct (Vol_new_random_ok sx sy depth h1 Hsz) as (A & h2 & EA & CA & SA).
    exists (st ++ [A]), h2. unfold bind. rewrite EA. split; [reflexivity|].
    split; [|congruence]. split.
    + rewrite len_app. unfold len at 2. simpl. lia.
    + intros f Hf. apply in_app_or in Hf. destruct Hf as [Hf|[<-|[]]]; auto.
  - exists fs, h'. auto.
Qed.

Lemma ConvLayer_new_sizes (opt : Opt.t) (h h' : World) (L : ConvLayer.t) :
  ConvLayer.new opt h = Ok L h' ->
  ConvLayer.out_sx L
  = ConvLayer.out_size (Opt.in_sx opt) (Opt.or_default (Opt.pad opt) 0) (Opt.sx opt)
      (Opt.or_default (Opt.stride opt) 1) /\
  ConvLayer.out_sy L
  = ConvLayer.out_size (Opt.in_sy opt) (Opt.or_default (Opt.pad opt) 0)
      (Opt.or_default (Opt.sy opt) (Opt.sx opt)) (Opt.or_default (Opt.stride opt) 1).
Proof.
  unfold ConvLayer.new. intros H.
  apply bind_inv in H. destruct H as (fs & h1 & _ & H).
  apply bind_inv in H. destruct H as (b & h2 & _ & H).
  apply ret_inv in H. destruct H as [<- _]. split; reflexivity.
Qed.

Lemma PoolLayer_new_sizes (opt : Opt.t) (h h' : World) (L : PoolLayer.t) :
  PoolLayer.new opt h = Ok L h' ->
  PoolLayer.out_sx L
  = ConvLayer.out_size (Opt.in_sx opt) (Opt.or_default (Opt.pad opt) 0) (Opt.sx opt)
      (Opt.or_default (Opt.stride opt) 2) /\
  PoolLayer.out_sy L
  = ConvLayer.out_size (Opt.in_sy opt) (Opt.or_default (Opt.pad opt) 0)
      (Opt.or_default (Opt.sy opt) (Opt.sx opt)) (Opt.or_default (Opt.stride opt) 2).
Proof.
  unfold PoolLayer.new. intros H.
  apply bind_inv in H. destruct H as (swx & h1 & _ & H).
  apply bind_inv in H. destruct H as (swy & h2 & _ & H).
  apply ret_inv in H. destruct H as [<- _]. split; reflexivity.
Qed.

(** C4. With a positive stride, every constructed convolution or pooling
    layer has [out_sx = floor((in_sx + 2*pad - sx) / stride) + 1] and the same
    for [out_sy]; the last filter application fits the padded input and one
    more would not (the output is trimmed).  The constructors return a
    layer, without an error, whether or not the stride divides evenly: the
    convolution's when its sizes are not negative, the pooling's when
    moreover the window fits the padded input. *)
Theorem output_size_floor_formula (opt : Opt.t) (h : World) :
  let sx := Opt.sx opt in
  let sy := Opt.or_default (Opt.sy opt) sx in
  let pad := Opt.or_default (Opt.pad opt) 0 in
  let in_sx := Opt.in_sx opt in
  let in_sy := Opt.in_sy opt in
  (0 < Opt.or_default (Opt.stride opt) 1 ->
   let stride := Opt.or_default (Opt.stride opt) 1 in
   (forall L h', ConvLayer.new opt h = Ok L h' ->
      ConvLayer.out_sx L = (in_sx + 2 * pad - sx) / stride + 1 /\
      ConvLayer.out_sy L = (in_sy + 2 * pad - sy) / stride + 1 /\
      (ConvLayer.out_sx L - 1) * stride + sx <= in_sx + 2 * pad
         < ConvLayer.out_sx L * stride + sx /\
      (ConvLayer.out_sy L - 1) * stride + sy <= in_sy + 2 * pad
         < ConvLayer.out_sy L * stride + sy) /\
   (0 <= Opt.filters opt -> 0 <= sx * sy * Opt.in_depth opt ->
    exists L h', ConvLayer.new opt h = Ok L h')) /\
  (0 < Opt.or_default (Opt.stride opt) 2 ->
   let stride := Opt.or_default (Opt.stride opt) 2 in
   (forall L h', PoolLayer.new opt h = Ok L h' ->
      PoolLayer.out_sx L = (in_sx + 2 * pad - sx) / stride + 1 /\
      PoolLayer.out_sy L = (in_sy + 2 * pad - sy) / stride + 1 /\
      (PoolLayer.out_sx L - 1) * stride + sx <= in_sx + 2 * pad
         < PoolLayer.out_sx L * stride + sx /\
      (PoolLayer.out_sy L - 1) * stride + sy <= in_sy + 2 * pad
         < PoolLayer.out_sy L * stride + sy) /\
   (0 <= Opt.in_depth opt -> sx <= in_sx + 2 * pad -> sy <= in_sy + 2 * pad ->
    exists L h', PoolLayer.new opt h = Ok L h')).
Proof.
  intros sx sy pad in_sx in_sy. subst sx sy pad in_sx in_sy. cbv zeta. split.
  - intros Hs. split.
    + intros L h' H. destruct (ConvLayer_new_sizes opt h h' L H) as [-> ->].
      split; [now apply out_size_div|]. split; [now apply out_size_div|].
      split; now apply out_size_trimmed.
    + intros Hf Hsz.
      destruct (filter_bank_ok _ _ _ _ h Hf Hsz) as (fs & h1 & E1 & _).
      destruct (Vol_new_const_ok 1 1 (Opt.filters opt)
                  (Opt.or_default (Opt.bias_pref opt) 0%Q) h1) as (B & EB & _); [lia|].
      unfold ConvLayer.new.
      rewrite (bind_ok _ _ _ _ _ E1), (bind_ok _ _ _ _ _ EB).
      eexists. eexists. reflexivity.
  - intros Hs. split.
    + intros L h' H. destruct (PoolLayer_new_sizes opt h h' L H) as [-> ->].
      split; [now apply out_size_div|]. split; [now apply out_size_div|].
      split; now apply out_size_trimmed.
    + intros Hd Hx Hy.
      pose proof (out_size_div (Opt.in_sx opt) (Opt.or_default (Opt.pad opt) 0)
                    (Opt.sx opt) _ Hs) as Dx.
      pose proof (out_size_div (Opt.in_sy opt) (Opt.or_default (Opt.pad opt) 0)
                    (Opt.or_default (Opt.sy opt) (Opt.sx opt)) _ Hs) as Dy.
      assert (Px : 0 <= (Opt.in_sx opt + 2 * Opt.or_default (Opt.pad opt) 0
                         - Opt.sx opt)
                        / Opt.or_default (Opt.stride opt) 2) by (apply Z.div_pos; lia).
      assert (Py : 0 <= (Opt.in_sy opt + 2 * Opt.or_default (Opt.pad opt) 0
                         - Opt.or_default (Opt.sy opt) (Opt.sx opt))
                        / Opt.or_default (Opt.stride opt) 2) by (apply Z.div_pos; lia).
      unfold PoolLayer.new, bind.
      rewrite !zeros_of_ok by (rewrite Dx, Dy; nia).
      eexists. eexists. reflexivity.
Qed.

Lemma output_size_witness :
  (exists L h', ConvLayer.new Sample.trimmed_opt Sample.host = Ok L h' /\
     ConvLayer.out_sx L = (5 + 2 * 0 - 2) / 2 + 1 /\
     ConvLayer.out_sy L = (5 + 2 * 0 - 2) / 2 + 1 /\
     (ConvLayer.out_sx L - 1) * 2 + 2 <= 5 + 2 * 0 < ConvLayer.out_sx L * 2 + 2 /\
     (ConvLayer.out_sy L - 1) * 2 + 2 <= 5 + 2 * 0 < ConvLayer.out_sy L * 2 + 2) /\
  (exists L h', PoolLayer.new Sample.trimmed_opt Sample.host = Ok L h' /\
     PoolLayer.out_sx L = (5 + 2 * 0 - 2) / 2 + 1 /\
     PoolLayer.out_sy L = (5 + 2 * 0 - 2) / 2 + 1 /\
     (PoolLayer.out_sx L - 1) * 2 + 2 <= 5 + 2 * 0 < PoolLayer.out_sx L * 2 + 2 /\
     (PoolLayer.out_sy L - 1) * 2 + 2 <= 5 + 2 * 0 < PoolLayer.out_sy L * 2 + 2).
Proof.
  destruct (output_size_floor_formula Sample.trimmed_opt Sample.host) as [C P].
  assert (S1 : 0 < Opt.or_default (Opt.stride Sample.trimmed_opt) 1) by reflexivity.
  assert (S2 : 0 < Opt.or_default (Opt.stride Sample.trimmed_opt) 2) by reflexivity.
  destruct (C S1) as [Cf Ce]. destruct (P S2) as [Pf Pe]. split.
  - destruct Ce as (L & h' & E); [simpl; lia | simpl; lia |].
    exists L, h'. split; [exact E | exact (Cf L h' E)].
  - destruct Pe as (L & h' & E); [simpl; lia | simpl; lia | simpl; lia |].
    exists L, h'. split; [exact E | exact (Pf L h' E)].
Defined.


(** ** Comparisons *)

Lemma gt_true (a b : Q) : gt a b = true <-> (b < a)%Q.
Proof.
  unfold gt. rewrite negb_true_iff. split; intros H.
  - apply Qnot_le_lt. intros C. apply Qle_bool_iff in C. congruence.
  - destruct (Qle_bool a b) eqn:E; [|reflexivity].
    apply Qle_bool_iff in E. exfalso. exact (Qlt_not_le _ _ H E).
Qed.

Lemma gt_false (a b : Q) : gt a b = false <-> (a <= b)%Q.
Proof.
  unfold gt. rewrite negb_false_iff. apply Qle_bool_iff.
Qed.

(** ** Weight decay *)

(** Away from zero the code's decayed gradient is the specification's. *)
Lemma gij_matches_spec_nonzero (l1_decay l2_decay : Q) (batch_size : Z) (p g : Q) :
  ~ (p == 0)%Q ->
  (Trainer.gij l1_decay l2_decay batch_size p g
   == Spec.decayed_gradient l1_decay l2_decay batch_size p g)%Q.
Proof.
  intros Hp. unfold Trainer.gij, Spec.decayed_gradient, Trainer.l1grad,
               Trainer.l2grad, Spec.sign.
  destruct (gt p 0) eqn:E1; [reflexivity|].
  destruct (gt 0 p) eqn:E2; [reflexivity|].
  apply gt_false in E1. apply gt_false in E2.
  exfalso. apply Hp. apply Qle_antisym; assumption.
Qed.

(** C5. At the weight [p = 0] the code takes [-1] for the sign: with an L1
    rate of [1], no L2 decay, a raw gradient of [0] and a batch of one, the
    applied gradient is [-1] where the specification's formula gives [0],
    and plain gradient descent moves the weight from [0] to [0.1]. *)
Theorem decayed_gradient_at_zero_weight :
  let l1 := Trainer.group_l1_decay Sample.l1_trainer Sample.zero_group in
  let l2 := Trainer.group_l2_decay Sample.l1_trainer Sample.zero_group in
  (Trainer.gij l1 l2 1 0 0 == -1)%Q /\
  (Spec.decayed_gradient l1 l2 1 0 0 == 0)%Q /\
  ~ (Trainer.gij l1 l2 1 0 0 == Spec.decayed_gradient l1 l2 1 0 0)%Q /\
  map Qred
      (Trainer.acc_p
         (Trainer.step Sample.l1_trainer (fun x => x) l1 l2 0
            (Trainer.mkAcc 0 0 (ParamGroup.params Sample.zero_group)
               (ParamGroup.grads Sample.zero_group) [] [])))
  = [(1 # 10)%Q].
Proof.
  repeat split; try (intros C; vm_compute in C; discriminate).
Qed.

(** ** Bias groups *)

Lemma last_snoc {A} (l : list A) (x d : A) : last (l ++ [x]) d = x.
Proof. apply last_last. Qed.

Lemma zero_multipliers_undecayed (T : Trainer.t) (pg : ParamGroup.t) :
  ParamGroup.l1_decay_mul pg = Some 0%Q ->
  ParamGroup.l2_decay_mul pg = Some 0%Q ->
  Spec.undecayed T pg.
Proof.
  intros M1 M2.
  assert (H1 : (Trainer.group_l1_decay T pg == 0)%Q).
  { unfold Trainer.group_l1_decay. rewrite M1. simpl. ring. }
  assert (H2 : (Trainer.group_l2_decay T pg == 0)%Q).
  { unfold Trainer.group_l2_decay. rewrite M2. simpl. ring. }
  split; [exact H1|]. split; [exact H2|].
  intros sqrt j a p g. split; [|split].
  - unfold Trainer.gij, Trainer.l1grad, Trainer.l2grad.
    rewrite H1, H2. apply Qmult_comp; [|reflexivity]. ring.
  - unfold Trainer.step.
    repeat match goal with |- context [if ?b then _ else _] => destruct b end;
      simpl; rewrite H1; ring.
  - unfold Trainer.step.
    repeat match goal with |- context [if ?b then _ else _] => destruct b end;
      simpl; rewrite H2; unfold Qdiv; ring.
Qed.

(** C10. In a convolution layer and in a fully-connected layer the last
    parameter group is the bias group, with both decay multipliers [0.0]
    whatever the layer's own multipliers are; hence, for every trainer, the
    gradient applied to a bias weight is just [g / batch_size] and a bias
    weight adds nothing to the L1 and L2 decay losses. *)
Theorem bias_group_is_last_and_undecayed
        (C : ConvLayer.t) (F : FullyConnLayer.t) (T : Trainer.t) (d : ParamGroup.t) :
  let gc := last (ConvLayer.getParamsAndGrads C) d in
  let gf := last (FullyConnLayer.getParamsAndGrads F) d in
  gc = ParamGroup.mk (Vol.w (ConvLayer.biases C)) (Vol.dw (ConvLayer.biases C))
                     (Some 0%Q) (Some 0%Q) /\
  gf = ParamGroup.mk (Vol.w (FullyConnLayer.biases F)) (Vol.dw (FullyConnLayer.biases F))
                     (Some 0%Q) (Some 0%Q) /\
  Spec.undecayed T gc /\ Spec.undecayed T gf.
Proof.
  intros gc gf.
  assert (Hc : gc = ParamGroup.mk (Vol.w (ConvLayer.biases C))
                      (Vol.dw (ConvLayer.biases C)) (Some 0%Q) (Some 0%Q)).
  { subst gc. unfold ConvLayer.getParamsAndGrads. apply last_snoc. }
  assert (Hf : gf = ParamGroup.mk (Vol.w (FullyConnLayer.biases F))
                      (Vol.dw (FullyConnLayer.biases F)) (Some 0%Q) (Some 0%Q)).
  { subst gf. unfold FullyConnLayer.getParamsAndGrads. apply last_snoc. }
  split; [exact Hc|]. split; [exact Hf|].
  split; apply zero_multipliers_undecayed; (rewrite Hc || rewrite Hf); reflexivity.
Qed.

(** ** Predictions *)

Lemma item_last {A} (front : list A) (x : A) (h : World) :
  item (front ++ [x]) (len (front ++ [x]) - 1) h = Ok x h.
Proof.
  unfold item, len. rewrite length_app.
  change (List.length [x]) with 1%nat.
  destruct (Z.ltb_spec (Z.of_nat (List.length front + 1) - 1) 0) as [C|_]; [lia|].
  replace (Z.to_nat (Z.of_nat (List.length front + 1) - 1)) with (List.length front)
    by lia.
  rewrite nth_error_app2 by lia. rewrite Nat.sub_diag. reflexivity.
Qed.

(** The loop of [getPrediction] finds the first index of the greatest
    element of a non-empty buffer. *)
Lemma argmax_loop (p : list Q) :
  0 < len p ->
  let r := for_range 1 (len p)
             (fun i '(maxv, maxi) =>
                if gt (rd 0%Q p i) maxv then (rd 0%Q p i, i) else (maxv, maxi))
             (rd 0%Q p 0, 0) in
  0 <= snd r < len p /\
  fst r = rd 0%Q p (snd r) /\
  (forall j, 0 <= j < len p -> (rd 0%Q p j <= fst r)%Q) /\
  (forall j, 0 <= j < snd r -> (rd 0%Q p j < fst r)%Q).
Proof.
  intros Hp.
  apply (for_range_ind
           (fun i (st : Q * Z) =>
              0 <= snd st < i /\
              fst st = rd 0%Q p (snd st) /\
              (forall j, 0 <= j < i -> (rd 0%Q p j <= fst st)%Q) /\
              (forall j, 0 <= j < snd st -> (rd 0%Q p j < fst st)%Q))).
  - lia.
  - simpl. split; [lia|]. split; [reflexivity|]. split.
    + intros j Hj. replace j with 0 by lia. apply Qle_refl.
    + intros j Hj. lia.
  - intros i [maxv maxi] Hi (Hb & Hv & Hle & Hlt). simpl in *.
    destruct (gt (rd 0%Q p i) maxv) eqn:G; simpl.
    + apply gt_true in G. split; [lia|]. split; [reflexivity|]. split.
      * intros j Hj. destruct (Z.eq_dec j i) as [->|Hne]; [apply Qle_refl|].
        apply Qle_trans with maxv; [apply Hle; lia | now apply Qlt_le_weak].
      * intros j Hj. apply Qle_lt_trans with maxv; [apply Hle; lia | assumption].
    + apply gt_false in G. split; [lia|]. split; [assumption|]. split.
      * intros j Hj. destruct (Z.eq_dec j i) as [->|Hne]; [assumption|].
        apply Hle. lia.
      * assumption.
Qed.

(** C8. When the last layer is not of type softmax, [getPrediction] fails
    with its assertion error and returns nothing; when it is, the result is
    an index of a greatest output activation, and every earlier activation
    is strictly smaller (the first index wins ties). *)
Theorem getPrediction_contract (N : Net.t)
        (front : list Layer.t) (S : Layer.t) (h : World) :
  Net.layers N = front ++ [S] ->
  (Layer.layer_type S <> "softmax"%string ->
   Net.getPrediction N h =
   Throw (AssertionError
            "getPrediction function assumes softmax as last layer of the net!")) /\
  (Layer.layer_type S = "softmax"%string ->
   forall A, Layer.out_act S = Some A -> 0 < len (Vol.w A) ->
   exists maxi,
     Net.getPrediction N h = Ok maxi h /\
     0 <= maxi < len (Vol.w A) /\
     (forall i, 0 <= i < len (Vol.w A) ->
        (rd 0%Q (Vol.w A) i <= rd 0%Q (Vol.w A) maxi)%Q) /\
     (forall i, 0 <= i < maxi ->
        (rd 0%Q (Vol.w A) i < rd 0%Q (Vol.w A) maxi)%Q)).
Proof.
  intros HN. unfold Net.getPrediction. rewrite HN.
  rewrite (bind_ok _ _ _ _ _ (item_last front S h)). split.
  - intros Hty. apply String.eqb_neq in Hty.
    unfold Net.streq. unfold bind. rewrite Hty. reflexivity.
  - intros Hty A HA Hp. apply String.eqb_eq in Hty.
    unfold Net.streq. unfold bind. rewrite Hty. simpl. rewrite HA.
    destruct (argmax_loop (Vol.w A) Hp) as (Hb & Hv & Hle & Hlt).
    eexists. split; [reflexivity|]. rewrite <- Hv.
    split; [exact Hb|]. split; assumption.
Qed.

Lemma getPrediction_witness :
  Net.getPrediction (Net.mk [Sample.relu_layer]) Sample.host =
  Throw (AssertionError
           "getPrediction function assumes softmax as last layer of the net!") /\
  exists maxi,
    Net.getPrediction (Net.mk [Sample.relu_layer; Sample.softmax_layer]) Sample.host
    = Ok maxi Sample.host /\
    0 <= maxi < len (Vol.w Sample.softmax_out) /\
    (forall i, 0 <= i < len (Vol.w Sample.softmax_out) ->
       (rd 0%Q (Vol.w Sample.softmax_out) i <= rd 0%Q (Vol.w Sample.softmax_out) maxi)%Q) /\
    (forall i, 0 <= i < maxi ->
       (rd 0%Q (Vol.w Sample.softmax_out) i < rd 0%Q (Vol.w Sample.softmax_out) maxi)%Q).
Proof.
  split.
  - apply (proj1 (getPrediction_contract (Net.mk [Sample.relu_layer]) []
                    Sample.relu_layer Sample.host eq_refl)).
    intros C. discriminate C.
  - apply (proj2 (getPrediction_contract
                    (Net.mk [Sample.relu_layer; Sample.softmax_layer])
                    [Sample.relu_layer] Sample.softmax_layer Sample.host eq_refl)
                 eq_refl Sample.softmax_out eq_refl).
    reflexivity.
Defined.

(** ** Network construction *)

Lemma streq_false_of_not_in (a : string) (known : list string) (b : string) :
  ~ In a known -> In b known -> Net.streq a b = false.
Proof.
  intros Hn Hb. unfold Net.streq. apply String.eqb_neq. intros ->. contradiction.
Qed.

(** An iteration of [desugar] returns, whatever the definition. *)
Lemma desugar_def_returns (def : Opt.t) (new_defs : list Opt.t) (h : World) :
  exists out h', Net.desugar_def def new_defs h = Ok out h'.
Proof.
  unfold Net.desugar_def.
  match goal with
  | |- exists out h', bind ?m ?k h = _ =>
      assert (M : exists nd h1, m h = Ok nd h1)
  end.
  { destruct (Opt.activation _) as [a|]; [|eexists; eexists; reflexivity].
    repeat match goal with
           | |- context [if ?b then _ else _] => destruct b
           end; eexists; eexists; reflexivity. }
  destruct M as (nd & h1 & M). rewrite (bind_ok _ _ _ _ _ M).
  eexists. eexists. reflexivity.
Qed.

Lemma desugar_returns (defs : list Opt.t) (h : World) :
  exists out h', Net.desugar defs h = Ok out h'.
Proof.
  unfold Net.desugar.
  destruct (for_js_ind (fun _ (_ : list Opt.t) => True) (fun _ => True)
              (len defs)
              (fun i new_defs => Net.desugar_def (rd Net.no_def defs i) new_defs)
              [] h) as (out & h' & E & _).
  - apply len_nonneg.
  - exact I.
  - exact I.
  - intros i st h1 _ _ _.
    destruct (desugar_def_returns (rd Net.no_def defs i) st h1) as (o & h2 & E).
    exists o, h2. auto.
  - exists out, h'. exact E.
Qed.

Lemma type_set_in (o : Opt.t) (x y d : Z) : Opt.type (Opt.set_in o x y d) = Opt.type o.
Proof. reflexivity. Qed.

(** An unrecognised type tag is reported on the console and the definition
    is skipped: the layer list stays as it was. *)
Lemma create_unrecognized (E : ExtLayer.impl) (defs : list Opt.t) (i : Z)
      (layers : list Layer.t) (h : World) :
  i <= 0 \/ (exists prev, item layers (i - 1) h = Ok prev h) ->
  ~ In (Opt.type (rd Net.no_def defs i)) Net.known_types ->
  Net.create E defs i layers h =
  Ok layers (logged h (String.append "ERROR: UNRECOGNIZED LAYER TYPE: "
                                     (Opt.type (rd Net.no_def defs i)))).
Proof.
  intros Hprev Hty. unfold Net.create.
  set (def := rd Net.no_def defs i) in *.
  assert (D : exists def',
             (if 0 <? i
              then prev <- item layers (i - 1) ;;
                   ret (Opt.set_in def (Layer.out_sx prev) (Layer.out_sy prev)
                                   (Layer.out_depth prev))
              else ret def) h = Ok def' h /\ Opt.type def' = Opt.type def).
  { destruct (Z.ltb_spec 0 i) as [Hi|Hi].
    - destruct Hprev as [C|[prev Hp]]; [lia|].
      rewrite (bind_ok _ _ _ _ _ Hp). eexists. split; [reflexivity|].
      apply type_set_in.
    - exists def. split; reflexivity. }
  destruct D as (def' & ED & TD). rewrite (bind_ok _ _ _ _ _ ED).
  rewrite TD.
  rewrite !(streq_false_of_not_in _ Net.known_types _ Hty)
    by (unfold Net.known_types; simpl; tauto).
  reflexivity.
Qed.

(** An unsupported activation is reported on the console; the definition is
    kept and no activation definition follows it. *)
Lemma desugar_def_unsupported (def : Opt.t) (a : string) (new_defs : list Opt.t)
      (h : World) :
  Opt.activation def = Some a ->
  ~ In a Net.known_activations ->
  exists pre def',
    Net.desugar_def def new_defs h =
    Ok (new_defs ++ pre ++ def' ::
        (if Net.defined (Opt.drop_prob def) && negb (Net.streq (Opt.type def) "dropout")
         then [Opt.dropout_literal (Opt.drop_prob def)] else []))
       (logged h (String.append "ERROR unsupported activation " a)) /\
    Opt.type def' = Opt.type def /\
    Forall (fun d => Opt.type d = "fc"%string) pre.
Proof.
  intros Ha Hn. unfold Net.desugar_def.
  set (pre1 := if Net.streq (Opt.type def) "softmax" || Net.streq (Opt.type def) "svm"
               then [Opt.fc_literal (Opt.num_classes def)] else []).
  set (pre2 := if Net.streq (Opt.type def) "regression"
               then [Opt.fc_literal (Opt.num_neurons def)] else []).
  match goal with
  | |- context [new_defs0 <- match Opt.activation ?d with _ => _ end ;; _] =>
      set (def' := d)
  end.
  assert (T' : Opt.type def' = Opt.type def).
  { subst def'. repeat match goal with
                       | |- context [if ?b then _ else _] => destruct b
                       | |- context [match ?o with Some _ => _ | None => _ end] =>
                           destruct o
                       end; reflexivity. }
  assert (A' : Opt.activation def' = Some a).
  { subst def'. rewrite Ha.
    repeat match goal with
           | |- context [if ?b then _ else _] => destruct b
           end; simpl; assumption. }
  assert (P' : Opt.drop_prob def' = Opt.drop_prob def).
  { subst def'. repeat match goal with
                       | |- context [if ?b then _ else _] => destruct b
                       | |- context [match ?o with Some _ => _ | None => _ end] =>
                           destruct o
                       end; reflexivity. }
  exists (pre1 ++ pre2), def'. split; [|split].
  - rewrite A'.
    rewrite !(streq_false_of_not_in _ Net.known_activations _ Hn)
      by (unfold Net.known_activations; simpl; tauto).
    rewrite P'. unfold bind, console_log, ret.
    subst pre1 pre2.
    destruct (Net.streq (Opt.type def) "softmax" || Net.streq (Opt.type def) "svm");
      destruct (Net.streq (Opt.type def) "regression");
      destruct (Net.defined (Opt.drop_prob def) && negb (Net.streq (Opt.type def) "dropout"));
      simpl; rewrite <- ?app_assoc; reflexivity.
  - exact T'.
  - subst pre1 pre2.
    destruct (Net.streq (Opt.type def) "softmax" || Net.streq (Opt.type def) "svm");
      destruct (Net.streq (Opt.type def) "regression"); simpl;
      repeat constructor.
Qed.

(** C6 (as amended). [makeLayers] aborts with an assertion error when there
    are fewer than two definitions and when the first definition is not of
    type input.  An unsupported activation and an unrecognised layer type
    are reported on the console only: desugaring never throws, it keeps the
    definition and inserts no activation definition after it; the creation
    loop skips the unrecognised definition and goes on. *)
Theorem makeLayers_validation (E : ExtLayer.impl) (h : World) :
  (forall defs, len defs < 2 ->
     Net.makeLayers E defs h =
     Throw (AssertionError
              "Error! At least one input layer and one loss layer are required.")) /\
  (forall defs, 2 <= len defs ->
     Opt.type (rd Net.no_def defs 0) <> "input"%string ->
     Net.makeLayers E defs h =
     Throw (AssertionError
              "Error! First layer must be the input layer, to declare size of inputs")) /\
  (forall defs, exists out h', Net.desugar defs h = Ok out h') /\
  (forall def a new_defs,
     Opt.activation def = Some a -> ~ In a Net.known_activations ->
     exists pre def',
       Net.desugar_def def new_defs h =
       Ok (new_defs ++ pre ++ def' ::
           (if Net.defined (Opt.drop_prob def)
               && negb (Net.streq (Opt.type def) "dropout")
            then [Opt.dropout_literal (Opt.drop_prob def)] else []))
          (logged h (String.append "ERROR unsupported activation " a)) /\
       Opt.type def' = Opt.type def /\
       Forall (fun d => Opt.type d = "fc"%string) pre) /\
  (forall defs i layers,
     i <= 0 \/ (exists prev, item layers (i - 1) h = Ok prev h) ->
     ~ In (Opt.type (rd Net.no_def defs i)) Net.known_types ->
     Net.create E defs i layers h =
     Ok layers (logged h (String.append "ERROR: UNRECOGNIZED LAYER TYPE: "
                                        (Opt.type (rd Net.no_def defs i))))).
Proof.
  split; [|split; [|split; [|split]]].
  - intros defs Hlen. unfold Net.makeLayers.
    destruct (Z.leb_spec 2 (len defs)) as [C|_]; [lia|]. reflexivity.
  - intros defs Hlen Hty. unfold Net.makeLayers.
    destruct (Z.leb_spec 2 (len defs)) as [_|C]; [|lia].
    apply String.eqb_neq in Hty. unfold Net.streq. unfold bind, assert, ret.
    rewrite Hty. reflexivity.
  - intros defs. apply desugar_returns.
  - intros def a new_defs. apply desugar_def_unsupported.
  - intros defs i layers. apply create_unrecognized.
Qed.

Lemma makeLayers_validation_witness :
  Net.makeLayers Sample.ext [Sample.input_def] Sample.host =
  Throw (AssertionError
           "Error! At least one input layer and one loss layer are required.") /\
  Net.makeLayers Sample.ext [Sample.softmax_def; Sample.input_def] Sample.host =
  Throw (AssertionError
           "Error! First layer must be the input layer, to declare size of inputs") /\
  (exists pre def',
     Net.desugar_def Sample.swish_def [] Sample.host =
     Ok ([] ++ pre ++ def' ::
         (if Net.defined (Opt.drop_prob Sample.swish_def)
             && negb (Net.streq (Opt.type Sample.swish_def) "dropout")
          then [Opt.dropout_literal (Opt.drop_prob Sample.swish_def)] else []))
        (logged Sample.host (String.append "ERROR unsupported activation " "swish")) /\
     Opt.type def' = Opt.type Sample.swish_def /\
     Forall (fun d => Opt.type d = "fc"%string) pre) /\
  Net.create Sample.ext [Sample.input_def; Sample.bogus_def] 1 [Sample.relu_layer]
             Sample.host =
  Ok [Sample.relu_layer]
     (logged Sample.host
        (String.append "ERROR: UNRECOGNIZED LAYER TYPE: "
           (Opt.type (rd Net.no_def [Sample.input_def; Sample.bogus_def] 1)))).
Proof.
  destruct (makeLayers_validation Sample.ext Sample.host) as (V1 & V2 & _ & V4 & V5).
  split; [|split; [|split]].
  - apply V1. reflexivity.
  - apply V2; [discriminate | intros C; discriminate C].
  - apply V4; [reflexivity|].
    unfold Net.known_activations. simpl.
    intros [C|[C|[C|[C|[]]]]]; discriminate C.
  - apply V5.
    + right. exists Sample.relu_layer. reflexivity.
    + unfold Net.known_types. simpl.
      intros [C|[C|[C|[C|[C|[C|[C|[C|[C|[C|[C|[C|[C|[]]]]]]]]]]]]]]; discriminate C.
Defined.

(** C6 as stated fails: a network is built, with no error raised, from a
    definition list whose last type tag is unknown (the definition is
    dropped), and from one with an unsupported activation (no activation
    layer is created). *)
Lemma makeLayers_does_not_abort :
  (exists N h',
     Net.makeLayers Sample.ext [Sample.input_def; Sample.bogus_def] Sample.host
     = Ok N h' /\
     map Layer.layer_type (Net.layers N) = ["input"%string] /\
     console h' = ["ERROR: UNRECOGNIZED LAYER TYPE: bogus"%string]) /\
  (exists N h',
     Net.makeLayers Sample.ext
       [Sample.input_def; Sample.swish_def; Sample.softmax_def] Sample.host
     = Ok N h' /\
     map Layer.layer_type (Net.layers N)
     = ["input"; "fc"; "fc"; "softmax"]%string /\
     console h' = ["ERROR unsupported activation swish"%string]).
Proof.
  split.
  - eexists. eexists. split; [vm_compute; reflexivity|]. split; reflexivity.
  - eexists. eexists. split; [vm_compute; reflexivity|]. split; reflexivity.
Qed.

(** ** Sums and accumulating loops *)

Lemma toInt32_small (v : Z) : - 2 ^ 31 <= v < 2 ^ 31 -> toInt32 v = v.
Proof.
  intros H. unfold toInt32. rewrite Z.mod_small by lia. lia.
Qed.

Lemma sum_upto_snoc (n : Z) (f : Z -> Q) :
  0 <= n -> Spec.sum_upto (n + 1) f = (Spec.sum_upto n f + f n)%Q.
Proof.
  intros H. unfold Spec.sum_upto.
  replace (Z.to_nat (n + 1)) with (Datatypes.S (Z.to_nat n)) by lia.
  simpl. rewrite Z2Nat.id by assumption. reflexivity.
Qed.

Lemma sum_upto_nil (n : Z) (f : Z -> Q) : n <= 0 -> Spec.sum_upto n f = 0%Q.
Proof.
  intros H. unfold Spec.sum_upto. replace (Z.to_nat n) with O by lia. reflexivity.
Qed.

Lemma sum_upto_ext (n : Z) (f g : Z -> Q) :
  (forall i, 0 <= i < n -> (f i == g i)%Q) ->
  (Spec.sum_upto n f == Spec.sum_upto n g)%Q.
Proof.
  intros H. unfold Spec.sum_upto.
  assert (G : forall m : nat, Z.of_nat m <= Z.max n 0 ->
                (Spec.sum_n m f == Spec.sum_n m g)%Q).
  { induction m as [|m IH]; intros Hm; simpl; [reflexivity|].
    rewrite IH by lia. rewrite (H (Z.of_nat m)) by lia. reflexivity. }
  apply G. lia.
Qed.

(** A loop that adds [G i] to its accumulator at iteration [i] adds their
    sum. *)
Lemma for_sum (n : Z) (body : Z -> Q -> Q) (G : Z -> Q) (a0 : Q) :
  (forall i a, 0 <= i < n -> (body i a == a + G i)%Q) ->
  (for_ n body a0 == a0 + Spec.sum_upto n G)%Q.
Proof.
  intros Hbody. destruct (Z.le_gt_cases 0 n) as [Hn|Hn].
  - apply (for_ind (fun i a => (a == a0 + Spec.sum_upto i G)%Q)); [assumption| |].
    + rewrite sum_upto_nil by lia. ring.
    + intros i a Hi Ha. rewrite Hbody by assumption.
      rewrite sum_upto_snoc by lia. rewrite Ha. ring.
  - rewrite for_nil by lia. rewrite sum_upto_nil by lia. ring.
Qed.

(** ** Convolution: the value computed for one output cell *)

Lemma accumulate_sum (f V : Vol.t) (V_sx V_sy x y : Z) (a0 : Q) :
  (ConvLayer.accumulate f V V_sx V_sy x y a0
   == a0 + Spec.sum_upto (Vol.sy f) (fun fy =>
             Spec.sum_upto (Vol.sx f) (fun fx =>
               Spec.conv_term f V V_sx V_sy x y fy fx)))%Q.
Proof.
  unfold ConvLayer.accumulate. apply for_sum. intros fy a Hfy.
  apply for_sum. intros fx a' Hfx. unfold Spec.conv_term.
  destruct (ConvLayer.inside V_sx V_sy (x + fx) (y + fy)).
  - apply for_sum. intros fd a'' Hfd. reflexivity.
  - ring.
Qed.

(** ** Cells of a tensor *)

Lemma ix_bound (sx sy depth x y d : Z) :
  0 <= x < sx -> 0 <= y < sy -> 0 <= d < depth ->
  0 <= ((sx * y) + x) * depth + d < sx * sy * depth.
Proof.
  intros Hx Hy Hd.
  assert (0 <= sx * y + x <= sx * sy - 1) by nia.
  nia.
Qed.

Lemma ix_injective (sx depth x y d x' y' d' : Z) :
  0 <= x < sx -> 0 <= x' < sx -> 0 <= d < depth -> 0 <= d' < depth ->
  ((sx * y) + x) * depth + d = ((sx * y') + x') * depth + d' ->
  x = x' /\ y = y' /\ d = d'.
Proof.
  intros Hx Hx' Hd Hd' E.
  assert (E1 : sx * y + x = sx * y' + x') by nia.
  assert (E2 : y = y') by nia.
  subst y'. split; [lia|]. split; [reflexivity|]. nia.
Qed.

Lemma set_shaped (A : Vol.t) (sx sy depth x y d : Z) (v : Q) :
  Spec.shaped A sx sy depth -> Spec.shaped (Vol.set A x y d v) sx sy depth.
Proof.
  intros (H1 & H2 & H3 & H4). unfold Spec.shaped, Vol.set. simpl.
  rewrite len_wr. auto.
Qed.

Lemma get_set_same (A : Vol.t) (sx sy depth x y d : Z) (v : Q) :
  Spec.shaped A sx sy depth ->
  0 <= x < sx -> 0 <= y < sy -> 0 <= d < depth ->
  Vol.get (Vol.set A x y d v) x y d = v.
Proof.
  intros (H1 & H2 & H3 & H4) Hx Hy Hd. unfold Vol.get, Vol.set, Vol.ix. simpl.
  apply rd_wr_same. rewrite H1, H3, H4. now apply ix_bound.
Qed.

Lemma get_set_other (A : Vol.t) (sx sy depth x y d x' y' d' : Z) (v : Q) :
  Spec.shaped A sx sy depth ->
  0 <= x < sx -> 0 <= d < depth -> 0 <= x' < sx -> 0 <= d' < depth ->
  (x, y, d) <> (x', y', d') ->
  Vol.get (Vol.set A x y d v) x' y' d' = Vol.get A x' y' d'.
Proof.
  intros (H1 & H2 & H3 & H4) Hx Hd Hx' Hd' Hne.
  unfold Vol.get, Vol.set, Vol.ix. simpl. apply rd_wr_other.
  rewrite H1, H3. intros E.
  destruct (ix_injective sx depth x y d x' y' d' Hx Hx' Hd Hd' E) as (-> & -> & ->).
  now apply Hne.
Qed.

(** ** Convolution: the loops over the output cells *)

Section ConvForward.

Variables (L : ConvLayer.t) (V : Vol.t).

Let osx := ConvLayer.out_sx L.
Let osy := ConvLayer.out_sy L.
Let od := ConvLayer.out_depth L.
Let p0 := toInt32 (- ConvLayer.pad L).
Let s := toInt32 (ConvLayer.stride L).
Let V_sx := toInt32 (Vol.sx V).
Let V_sy := toInt32 (Vol.sy V).

Hypothesis osx_nonneg : 0 <= osx.
Hypothesis osy_nonneg : 0 <= osy.
Hypothesis od_nonneg : 0 <= od.

(** The value the loops store in the output cell [(ax, ay, d)]. *)
Let stored (ax ay d : Z) : Q :=
  (ConvLayer.accumulate (ConvLayer.filter L d) V V_sx V_sy
     (p0 + ax * s) (p0 + ay * s) 0
   + rd 0%Q (Vol.w (ConvLayer.biases L)) d)%Q.

(** The cells written before the loops reach [(axc, ayc, dc)]. *)
Let reached (dc ayc axc ax ay d : Z) : Prop :=
  d < dc \/ (d = dc /\ (ay < ayc \/ (ay = ayc /\ ax < axc))).

Let filled (dc ayc axc : Z) (A : Vol.t) : Prop :=
  Spec.shaped A osx osy od /\
  forall ax ay d, 0 <= ax < osx -> 0 <= ay < osy -> 0 <= d < od ->
    reached dc ayc axc ax ay d -> Vol.get A ax ay d = stored ax ay d.

Lemma conv_row (d ay : Z) (A : Vol.t) :
  0 <= d < od -> 0 <= ay < osy ->
  filled d ay 0 A ->
  filled d (ay + 1) 0
    (snd (for_ osx (fun ax '(x, A) =>
            let a := ConvLayer.accumulate (ConvLayer.filter L d) V V_sx V_sy
                       x (p0 + ay * s) 0%Q in
            let a := (a + rd 0%Q (Vol.w (ConvLayer.biases L)) d)%Q in
            (x + s, Vol.set A ax ay d a)) (p0, A))).
Proof.
  intros Hd Hay HA.
  match goal with
  | |- filled _ _ _ (snd (for_ ?n0 ?b0 ?s0)) =>
      pose proof (for_ind
                    (fun axc (st : Z * Vol.t) =>
                       fst st = p0 + axc * s /\ filled d ay axc (snd st))
                    n0 b0 s0 osx_nonneg) as H
  end.
  destruct H as [_ [Hs Hf]].
  - simpl. split; [lia | exact HA].
  - intros ax [x A1] Hax [Hx [Hsh Hcells]]. simpl in *. split; [lia|].
    split; [now apply set_shaped|].
    intros ax' ay' d' Hax' Hay' Hd' Hr.
    destruct (Z.eq_dec ax' ax) as [->|Nax];
      [destruct (Z.eq_dec ay' ay) as [->|Nay];
       [destruct (Z.eq_dec d' d) as [->|Nd]|]|].
    + rewrite (get_set_same A1 osx osy od) by assumption.
      unfold stored. rewrite Hx. reflexivity.
    + rewrite (get_set_other A1 osx osy od) by (try assumption; congruence).
      apply Hcells; try assumption. unfold reached in *. lia.
    + rewrite (get_set_other A1 osx osy od) by (try assumption; congruence).
      apply Hcells; try assumption. unfold reached in *. lia.
    + rewrite (get_set_other A1 osx osy od) by (try assumption; congruence).
      apply Hcells; try assumption. unfold reached in *. lia.
  - split; [exact Hs|]. intros ax' ay' d' Hax' Hay' Hd' Hr.
    apply Hf; try assumption. unfold reached in *. lia.
Qed.

Lemma conv_slice (d : Z) (A : Vol.t) :
  0 <= d < od ->
  filled d 0 0 A ->
  filled (d + 1) 0 0
    (snd (for_ osy (fun ay '(y, A) =>
            let x := p0 in
            let A' :=
              snd (for_ osx (fun ax '(x, A) =>
                     let a := ConvLayer.accumulate (ConvLayer.filter L d) V V_sx V_sy
                                x y 0%Q in
                     let a := (a + rd 0%Q (Vol.w (ConvLayer.biases L)) d)%Q in
                     (x + s, Vol.set A ax ay d a)) (x, A)) in
            (y + s, A')) (p0, A))).
Proof.
  intros Hd HA.
  match goal with
  | |- filled _ _ _ (snd (for_ ?n0 ?b0 ?s0)) =>
      pose proof (for_ind
                    (fun ayc (st : Z * Vol.t) =>
                       fst st = p0 + ayc * s /\ filled d ayc 0 (snd st))
                    n0 b0 s0 osy_nonneg) as H
  end.
  destruct H as [_ [Hs Hf]].
  - simpl. split; [lia | exact HA].
  - intros ay [y A1] Hay [Hy HA1]. simpl in *. split; [lia|].
    subst y. now apply conv_row.
  - split; [exact Hs|]. intros ax' ay' d' Hax' Hay' Hd' Hr.
    apply Hf; try assumption. unfold reached in *. lia.
Qed.

Lemma conv_loops (A0 : Vol.t) :
  Spec.shaped A0 osx osy od ->
  let A :=
    for_ od (fun d A =>
      let f := ConvLayer.filter L d in
      let y := p0 in
      snd (for_ osy (fun ay '(y, A) =>
        let x := p0 in
        let A' :=
          snd (for_ osx (fun ax '(x, A) =>
            let a := ConvLayer.accumulate f V V_sx V_sy x y 0%Q in
            let a := (a + rd 0%Q (Vol.w (ConvLayer.biases L)) d)%Q in
            (x + s, Vol.set A ax ay d a)) (x, A)) in
        (y + s, A')) (y, A))) A0 in
  Spec.shaped A osx osy od /\
  forall ax ay d, 0 <= ax < osx -> 0 <= ay < osy -> 0 <= d < od ->
    Vol.get A ax ay d = stored ax ay d.
Proof.
  intros H0 A. subst A.
  match goal with
  | |- Spec.shaped (for_ ?n0 ?b0 ?s0) _ _ _ /\ _ =>
      pose proof (for_ind (fun dc A => filled dc 0 0 A) n0 b0 s0 od_nonneg) as H
  end.
  destruct H as [Hs Hf].
  - split; [exact H0|]. intros ax ay d Hax Hay Hd Hr. unfold reached in Hr. lia.
  - intros d A1 Hd HA1. cbv zeta. now apply conv_slice.
  - split; [exact Hs|]. intros ax ay d Hax Hay Hd.
    apply Hf; try assumption. unfold reached. lia.
Qed.

End ConvForward.

Lemma rd_In {A} (d : A) (l : list A) (i : Z) : 0 <= i < len l -> In (rd d l i) l.
Proof.
  unfold rd, len. intros H. destruct (Z.ltb_spec i 0); [lia|].
  apply nth_In. lia.
Qed.

(** Under the layer's shapes, what the inner loops add for one filter
    position is the specification's term. *)
Lemma conv_term_spec (L : ConvLayer.t) (V : Vol.t) (ax ay d fy fx : Z) :
  let f := ConvLayer.filter L d in
  let ox := ax * ConvLayer.stride L - ConvLayer.pad L + fx in
  let oy := ay * ConvLayer.stride L - ConvLayer.pad L + fy in
  Vol.depth f = ConvLayer.in_depth L ->
  (Spec.conv_term f V (Vol.sx V) (Vol.sy V)
     (- ConvLayer.pad L + ax * ConvLayer.stride L)
     (- ConvLayer.pad L + ay * ConvLayer.stride L) fy fx
   == if (0 <=? ox) && (ox <? Vol.sx V) && (0 <=? oy) && (oy <? Vol.sy V)
      then Spec.sum_upto (ConvLayer.in_depth L) (fun fd =>
             Vol.get f fx fy fd * Vol.get V ox oy fd)
      else 0)%Q.
Proof.
  intros f ox oy Hdepth. unfold Spec.conv_term, ConvLayer.inside.
  replace (- ConvLayer.pad L + ax * ConvLayer.stride L + fx) with ox by (subst ox; lia).
  replace (- ConvLayer.pad L + ay * ConvLayer.stride L + fy) with oy by (subst oy; lia).
  rewrite <- Hdepth.
  destruct (0 <=? oy), (oy <? Vol.sy V), (0 <=? ox), (ox <? Vol.sx V);
    simpl; try reflexivity.
Qed.

(** C1. For every convolution layer with the shapes its constructor
    establishes and every input tensor of the declared depth, [forward]
    returns a tensor whose value at each output coordinate [(ax, ay, d)] is
    the bias of [d] plus the sum, over the filter coordinates whose input
    coordinate [(ax*stride - pad + fx, ay*stride - pad + fy)] lies inside the
    input, of the sum over [fd] of filter value times input value; filter
    coordinates that fall outside contribute zero. *)
Theorem conv_forward_computes_spec (L : ConvLayer.t) (V : Vol.t) (is_training : bool)
        (h : World) :
  ConvLayer.wf L ->
  ConvLayer.accepts L V ->
  exists A,
    ConvLayer.forward L V is_training h
    = Ok (ConvLayer.with_acts L (Some V) (Some A), A) h /\
    Spec.shaped A (ConvLayer.out_sx L) (ConvLayer.out_sy L) (ConvLayer.out_depth L) /\
    forall ax ay d,
      0 <= ax < ConvLayer.out_sx L -> 0 <= ay < ConvLayer.out_sy L ->
      0 <= d < ConvLayer.out_depth L ->
      (Vol.get A ax ay d == Spec.conv_output L V ax ay d)%Q.
Proof.
  intros (Hod & Hlen & Hfs & Hb) (HV & HVd & HVx & HVy & Hox & Hoy & Hodb & Hpad & Hst).
  destruct HV as (Vx0 & Vy0 & Vd0 & _).
  assert (I1 : toInt32 (ConvLayer.out_sx L) = ConvLayer.out_sx L)
    by (apply toInt32_small; lia).
  assert (I2 : toInt32 (ConvLayer.out_sy L) = ConvLayer.out_sy L)
    by (apply toInt32_small; lia).
  assert (I3 : toInt32 (ConvLayer.out_depth L) = ConvLayer.out_depth L)
    by (apply toInt32_small; lia).
  assert (I4 : toInt32 (- ConvLayer.pad L) = - ConvLayer.pad L)
    by (apply toInt32_small; lia).
  assert (I5 : toInt32 (ConvLayer.stride L) = ConvLayer.stride L)
    by (apply toInt32_small; lia).
  assert (I6 : toInt32 (Vol.sx V) = Vol.sx V) by (apply toInt32_small; lia).
  assert (I7 : toInt32 (Vol.sy V) = Vol.sy V) by (apply toInt32_small; lia).
  destruct (Vol_new_const_ok (ConvLayer.out_sx L) (ConvLayer.out_sy L)
              (ConvLayer.out_depth L) 0 h) as (A0 & E0 & S1 & S2 & S3 & S4 & _).
  { apply Z.mul_nonneg_nonneg; [apply Z.mul_nonneg_nonneg|]; lia. }
  unfold ConvLayer.forward. rewrite I1, I2, I3.
  rewrite (bind_ok _ _ _ _ _ E0).
  destruct (conv_loops L V (proj1 Hox) (proj1 Hoy) Hod A0) as [Hsh Hval].
  { repeat split; assumption. }
  cbv zeta in Hsh, Hval.
  match type of Hsh with Spec.shaped ?A _ _ _ => exists A end.
  split; [reflexivity|]. split; [exact Hsh|].
  intros ax ay d Hax Hay Hd.
  rewrite (Hval ax ay d Hax Hay Hd).
  rewrite I4, I5, I6, I7. rewrite accumulate_sum.
  assert (Hin : In (ConvLayer.filter L d) (ConvLayer.filters L))
    by (apply rd_In; lia).
  destruct (Hfs _ Hin) as (_ & Fx & Fy & Fd).
  unfold Spec.conv_output. cbv zeta. rewrite Fx, Fy.
  rewrite Qplus_0_l, Qplus_comm. apply Qplus_comp; [reflexivity|].
  apply sum_upto_ext. intros fy Hfy. apply sum_upto_ext. intros fx Hfx.
  apply (conv_term_spec L V ax ay d fy fx). exact Fd.
Qed.

(** ** Max-pooling: the scan of one window *)

Lemma pool_inside_true (V : Vol.t) (ox oy : Z) :
  PoolLayer.inside V ox oy = true <->
  0 <= ox < Vol.sx V /\ 0 <= oy < Vol.sy V.
Proof.
  unfold PoolLayer.inside. rewrite !andb_true_iff.
  rewrite !Z.leb_le, !Z.ltb_lt. lia.
Qed.

Section PoolScan.

Variables (L : PoolLayer.t) (V : Vol.t) (x y d : Z).

Hypothesis sx_nonneg : 0 <= PoolLayer.sx L.
Hypothesis sy_nonneg : 0 <= PoolLayer.sy L.

Let value (fx fy : Z) : Q := Vol.get V (x + fx) (y + fy) d.

(** The state of the scan when it is about to visit offset [(c, r)]. *)
Let scanning (c r : Z) (st : Q * Z * Z) : Prop :=
  (forall fx fy, Spec.in_window L V x y fx fy -> Spec.scanned_before fx fy c r ->
     (value fx fy <= fst (fst st))%Q) /\
  ((fst (fst st) = PoolLayer.sentinel /\ snd (fst st) = -1 /\ snd st = -1) \/
   ((PoolLayer.sentinel < fst (fst st))%Q /\
    exists fx fy,
      Spec.in_window L V x y fx fy /\ Spec.scanned_before fx fy c r /\
      snd (fst st) = x + fx /\ snd st = y + fy /\
      fst (fst st) = value fx fy /\
      forall fx' fy', Spec.in_window L V x y fx' fy' ->
        Spec.scanned_before fx' fy' fx fy -> (value fx' fy' < fst (fst st))%Q)).

Lemma scanning_weaken (c r c' r' : Z) (st : Q * Z * Z) :
  (forall fx fy, Spec.in_window L V x y fx fy ->
     (Spec.scanned_before fx fy c r <-> Spec.scanned_before fx fy c' r')) ->
  scanning c r st -> scanning c' r' st.
Proof.
  intros Heq [Hle Hwin]. split.
  - intros fx fy Hw Hs. apply Hle; [assumption|]. now apply Heq.
  - destruct Hwin as [Hnone | (Hgt & fx & fy & Hw & Hs & Rest)]; [now left|].
    right. split; [assumption|]. exists fx, fy.
    split; [assumption|]. split; [now apply Heq | assumption].
Qed.

Lemma scan_cell (c r : Z) (st : Q * Z * Z) :
  0 <= c < PoolLayer.sx L -> 0 <= r < PoolLayer.sy L ->
  scanning c r st ->
  scanning c (r + 1)
    (let '(a, winx, winy) := st in
     let oy := y + r in
     let ox := x + c in
     if PoolLayer.inside V ox oy then
       let v := Vol.get V ox oy d in
       if gt v a then (v, ox, oy) else (a, winx, winy)
     else (a, winx, winy)).
Proof.
  intros Hc Hr [Hle Hwin]. destruct st as [[a wx] wy]. simpl in *.
  assert (Sentinel : (PoolLayer.sentinel <= a)%Q).
  { destruct Hwin as [(-> & _)|(Hgt & _)]; [apply Qle_refl | now apply Qlt_le_weak]. }
  assert (Step : forall fx fy, Spec.scanned_before fx fy c (r + 1) ->
                   Spec.scanned_before fx fy c r \/ (fx = c /\ fy = r)).
  { unfold Spec.scanned_before. intros fx fy H. lia. }
  assert (Mono : forall fx fy, Spec.scanned_before fx fy c r ->
                   Spec.scanned_before fx fy c (r + 1)).
  { unfold Spec.scanned_before. intros fx fy H. lia. }
  destruct (PoolLayer.inside V (x + c) (y + r)) eqn:In.
  - apply pool_inside_true in In.
    assert (W : Spec.in_window L V x y c r) by (unfold Spec.in_window; lia).
    destruct (gt (Vol.get V (x + c) (y + r) d) a) eqn:G.
    + apply gt_true in G. split; simpl.
      * intros fx fy Hw Hs. destruct (Step fx fy Hs) as [Hb|[-> ->]].
        -- apply Qle_trans with a; [now apply Hle | now apply Qlt_le_weak].
        -- apply Qle_refl.
      * right. split; [now apply Qle_lt_trans with a|].
        exists c, r. split; [assumption|]. split; [unfold Spec.scanned_before; lia|].
        split; [reflexivity|]. split; [reflexivity|]. split; [reflexivity|].
        intros fx' fy' Hw' Hs'. apply Qle_lt_trans with a; [now apply Hle | assumption].
    + apply gt_false in G. split; simpl.
      * intros fx fy Hw Hs. destruct (Step fx fy Hs) as [Hb|[-> ->]].
        -- now apply Hle.
        -- exact G.
      * destruct Hwin as [Hnone | (Hgt & fx & fy & Hw & Hs & Rest)]; [now left|].
        right. split; [assumption|]. exists fx, fy.
        split; [assumption|]. split; [now apply Mono | assumption].
  - assert (NW : ~ Spec.in_window L V x y c r).
    { intros (_ & _ & Hx & Hy).
      assert (T : PoolLayer.inside V (x + c) (y + r) = true)
        by (apply pool_inside_true; lia).
      congruence. }
    split; simpl.
    + intros fx fy Hw Hs. destruct (Step fx fy Hs) as [Hb|[-> ->]].
      * now apply Hle.
      * contradiction.
    + destruct Hwin as [Hnone | (Hgt & fx & fy & Hw & Hs & Rest)]; [now left|].
      right. split; [assumption|]. exists fx, fy.
      split; [assumption|]. split; [now apply Mono | assumption].
Qed.

Lemma scan_column (c : Z) (st : Q * Z * Z) :
  0 <= c < PoolLayer.sx L ->
  scanning c 0 st ->
  scanning (c + 1) 0
    (for_ (PoolLayer.sy L) (fun fy '(a, winx, winy) =>
       let oy := y + fy in
       let ox := x + c in
       if PoolLayer.inside V ox oy then
         let v := Vol.get V ox oy d in
         if gt v a then (v, ox, oy) else (a, winx, winy)
       else (a, winx, winy)) st).
Proof.
  intros Hc H0.
  apply (scanning_weaken c (PoolLayer.sy L)).
  { unfold Spec.in_window, Spec.scanned_before. intros fx fy Hw. lia. }
  apply (for_ind (fun r st => scanning c r st)); [assumption | assumption |].
  intros r [[a wx] wy] Hr Hst.
  exact (scan_cell c r (a, wx, wy) Hc Hr Hst).
Qed.

(** The scan ends either with the sentinel and the coordinate [(-1, -1)],
    no in-range value of the window exceeding the sentinel, or with the
    maximum of the window and the first coordinate that holds it. *)
Lemma scan_result :
  let st := PoolLayer.scan L V x y d in
  (fst (fst st) = PoolLayer.sentinel /\ snd (fst st) = -1 /\ snd st = -1 /\
   forall fx fy, Spec.in_window L V x y fx fy ->
     (Vol.get V (x + fx) (y + fy) d <= PoolLayer.sentinel)%Q) \/
  ((PoolLayer.sentinel < fst (fst st))%Q /\
   Spec.first_max L V x y d (fst (fst st)) (snd (fst st)) (snd st)).
Proof.
  intros st.
  assert (H : scanning (PoolLayer.sx L) 0 st).
  { subst st. unfold PoolLayer.scan.
    apply (for_ind (fun c st => scanning c 0 st)); [assumption | |].
    - split; simpl.
      + unfold Spec.in_window, Spec.scanned_before. intros fx fy Hw Hs. lia.
      + left. auto.
    - intros c st Hc Hst. now apply scan_column. }
  destruct H as [Hle Hwin].
  assert (All : forall fx fy, Spec.in_window L V x y fx fy ->
                  Spec.scanned_before fx fy (PoolLayer.sx L) 0).
  { unfold Spec.in_window, Spec.scanned_before. intros fx fy Hw. lia. }
  destruct Hwin as [(Ha & Hx & Hy) | (Hgt & fx & fy & Hw & Hs & Ex & Ey & Ev & Hfirst)].
  - left. split; [assumption|]. split; [assumption|]. split; [assumption|].
    intros fx fy Hw. rewrite <- Ha. apply Hle; auto.
  - right. split; [assumption|]. exists fx, fy.
    split; [assumption|]. split; [assumption|]. split; [assumption|].
    split; [rewrite Ex, Ey; exact Ev|]. split.
    + intros fx' fy' Hw'. apply Hle; auto.
    + exact Hfirst.
Qed.

End PoolScan.

(** ** Max-pooling: the loops over the output cells *)

Lemma cell_bound (L : PoolLayer.t) (ax ay d : Z) :
  0 <= ax < PoolLayer.out_sx L -> 0 <= ay < PoolLayer.out_sy L ->
  0 <= d < PoolLayer.out_depth L ->
  0 <= PoolLayer.cell L ax ay d
  < PoolLayer.out_sx L * PoolLayer.out_sy L * PoolLayer.out_depth L.
Proof.
  intros Hx Hy Hd. unfold PoolLayer.cell.
  assert (0 <= d * PoolLayer.out_sx L + ax
          <= PoolLayer.out_depth L * PoolLayer.out_sx L - 1) by nia.
  nia.
Qed.

Lemma cell_injective (L : PoolLayer.t) (ax ay d ax' ay' d' : Z) :
  0 <= ax < PoolLayer.out_sx L -> 0 <= ax' < PoolLayer.out_sx L ->
  0 <= ay < PoolLayer.out_sy L -> 0 <= ay' < PoolLayer.out_sy L ->
  PoolLayer.cell L ax ay d = PoolLayer.cell L ax' ay' d' ->
  ax = ax' /\ ay = ay' /\ d = d'.
Proof.
  unfold PoolLayer.cell. intros Hx Hx' Hy Hy' E.
  destruct (ix_injective (PoolLayer.out_sx L) (PoolLayer.out_sy L)
              ax d ay ax' d' ay' Hx Hx' Hy Hy') as (E1 & E2 & E3).
  - rewrite (Z.mul_comm (PoolLayer.out_sx L) d), (Z.mul_comm (PoolLayer.out_sx L) d').
    exact E.
  - auto.
Qed.

Section PoolForward.

Variables (L : PoolLayer.t) (V : Vol.t).

Let osx := PoolLayer.out_sx L.
Let osy := PoolLayer.out_sy L.
Let od := PoolLayer.out_depth L.
Let p0 := - PoolLayer.pad L.
Let s := PoolLayer.stride L.

Hypothesis osx_nonneg : 0 <= osx.
Hypothesis osy_nonneg : 0 <= osy.
Hypothesis od_nonneg : 0 <= od.

(** What the scan finds for the output cell [(ax, ay, d)]. *)
Let found (ax ay d : Z) : Q * Z * Z :=
  PoolLayer.scan L V (p0 + ax * s) (p0 + ay * s) d.

Let reached (dc axc ayc ax ay d : Z) : Prop :=
  d < dc \/ (d = dc /\ (ax < axc \/ (ax = axc /\ ay < ayc))).

Let recorded (dc axc ayc : Z) (st : Z * Vol.t * list Z * list Z) : Prop :=
  let '(n, A, swx, swy) := st in
  n = PoolLayer.cell L axc ayc dc /\
  Spec.shaped A osx osy od /\
  len swx = osx * osy * od /\ len swy = osx * osy * od /\
  forall ax ay d, 0 <= ax < osx -> 0 <= ay < osy -> 0 <= d < od ->
    reached dc axc ayc ax ay d ->
    Vol.get A ax ay d = fst (fst (found ax ay d)) /\
    rd 0 swx (PoolLayer.cell L ax ay d) = snd (fst (found ax ay d)) /\
    rd 0 swy (PoolLayer.cell L ax ay d) = snd (found ax ay d).

Lemma pool_cell (d ax ay : Z) (st : Z * Vol.t * list Z * list Z) :
  0 <= d < od -> 0 <= ax < osx -> 0 <= ay < osy ->
  recorded d ax ay st ->
  recorded d ax (ay + 1)
    (let '(n, A, swx, swy) := st in
     let '(a, winx, winy) := PoolLayer.scan L V (p0 + ax * s) (p0 + ay * s) d in
     (n + 1, Vol.set A ax ay d a, wr swx n winx, wr swy n winy)).
Proof.
  intros Hd Hax Hay. destruct st as [[[n A] swx] swy].
  intros (Hn & Hsh & Hlx & Hly & Hcells).
  pose proof (cell_bound L ax ay d Hax Hay Hd) as Hb. fold osx osy od in Hb.
  fold (found ax ay d). destruct (found ax ay d) as [[a winx] winy] eqn:F.
  split; [subst n; unfold PoolLayer.cell; lia|].
  split; [now apply set_shaped|].
  split; [now rewrite len_wr|]. split; [now rewrite len_wr|].
  intros ax' ay' d' Hax' Hay' Hd' Hr.
  destruct (Z.eq_dec ax' ax) as [->|Nax];
    [destruct (Z.eq_dec ay' ay) as [->|Nay];
     [destruct (Z.eq_dec d' d) as [->|Nd]|]|].
  - rewrite (get_set_same A osx osy od) by assumption.
    rewrite <- Hn. rewrite !rd_wr_same by lia. rewrite F. auto.
  - assert (Old : reached d ax ay ax ay d') by (unfold reached in *; lia).
    rewrite (get_set_other A osx osy od) by (try assumption; congruence).
    rewrite !rd_wr_other
      by (rewrite Hn; intros E;
          apply (cell_injective L ax ay d ax ay d') in E; try assumption; lia).
    now apply Hcells.
  - assert (Old : reached d ax ay ax ay' d') by (unfold reached in *; lia).
    rewrite (get_set_other A osx osy od) by (try assumption; congruence).
    rewrite !rd_wr_other
      by (rewrite Hn; intros E;
          apply (cell_injective L ax ay d ax ay' d') in E; try assumption; lia).
    now apply Hcells.
  - assert (Old : reached d ax ay ax' ay' d') by (unfold reached in *; lia).
    rewrite (get_set_other A osx osy od) by (try assumption; congruence).
    rewrite !rd_wr_other
      by (rewrite Hn; intros E;
          apply (cell_injective L ax ay d ax' ay' d') in E; try assumption; lia).
    now apply Hcells.
Qed.

Lemma recorded_same_cells (dc axc ayc dc' axc' ayc' : Z)
      (st : Z * Vol.t * list Z * list Z) :
  PoolLayer.cell L axc ayc dc = PoolLayer.cell L axc' ayc' dc' ->
  (forall ax ay d, 0 <= ax < osx -> 0 <= ay < osy -> 0 <= d < od ->
     reached dc' axc' ayc' ax ay d -> reached dc axc ayc ax ay d) ->
  recorded dc axc ayc st -> recorded dc' axc' ayc' st.
Proof.
  destruct st as [[[n A] swx] swy]. intros Hc Hr (Hn & Hsh & Hlx & Hly & Hcells).
  split; [congruence|]. split; [assumption|]. split; [assumption|].
  split; [assumption|]. intros ax ay d Hax Hay Hd H. apply Hcells; auto.
Qed.

Lemma pool_column (d ax : Z) (st : Z * Vol.t * list Z * list Z) :
  0 <= d < od -> 0 <= ax < osx ->
  recorded d ax 0 st ->
  recorded d (ax + 1) 0
    (snd (for_ osy (fun ay '(y, (n, A, swx, swy)) =>
            let '(a, winx, winy) := PoolLayer.scan L V (p0 + ax * s) y d in
            (y + s, (n + 1, Vol.set A ax ay d a, wr swx n winx, wr swy n winy)))
            (p0, st))).
Proof.
  intros Hd Hax H0.
  match goal with
  | |- recorded _ _ _ (snd (for_ ?n0 ?b0 ?s0)) =>
      pose proof (for_ind
                    (fun ayc (ys : Z * (Z * Vol.t * list Z * list Z)) =>
                       fst ys = p0 + ayc * s /\ recorded d ax ayc (snd ys))
                    n0 b0 s0 osy_nonneg) as H
  end.
  destruct H as [_ Hf].
  - simpl. split; [lia | exact H0].
  - intros ay [y st1] Hay [Hy Hst]. simpl in Hy, Hst. subst y.
    pose proof (pool_cell d ax ay st1 Hd Hax Hay Hst) as Hc.
    destruct st1 as [[[n A] swx] swy].
    destruct (PoolLayer.scan L V (p0 + ax * s) (p0 + ay * s) d) as [[a winx] winy].
    simpl. split; [lia | exact Hc].
  - apply (recorded_same_cells d ax osy); [unfold PoolLayer.cell; fold osy; lia | | exact Hf].
    intros ax' ay' d' Hax' Hay' Hd' Hr. unfold reached in *. lia.
Qed.

Lemma pool_slice (d : Z) (st : Z * Vol.t * list Z * list Z) :
  0 <= d < od ->
  recorded d 0 0 st ->
  recorded (d + 1) 0 0
    (snd (for_ osx (fun ax '(x, st) =>
            let y := p0 in
            let st' :=
              snd (for_ osy (fun ay '(y, (n, A, swx, swy)) =>
                     let '(a, winx, winy) := PoolLayer.scan L V x y d in
                     (y + s,
                      (n + 1, Vol.set A ax ay d a, wr swx n winx, wr swy n winy)))
                     (y, st)) in
            (x + s, st')) (p0, st))).
Proof.
  intros Hd H0.
  match goal with
  | |- recorded _ _ _ (snd (for_ ?n0 ?b0 ?s0)) =>
      pose proof (for_ind
                    (fun axc (xs : Z * (Z * Vol.t * list Z * list Z)) =>
                       fst xs = p0 + axc * s /\ recorded d axc 0 (snd xs))
                    n0 b0 s0 osx_nonneg) as H
  end.
  destruct H as [_ Hf].
  - simpl. split; [lia | exact H0].
  - intros ax [x st1] Hax [Hx Hst]. simpl in Hx, Hst. subst x.
    simpl. split; [lia|]. now apply pool_column.
  - apply (recorded_same_cells d osx 0);
      [unfold PoolLayer.cell; fold osx osy; lia | | exact Hf].
    intros ax' ay' d' Hax' Hay' Hd' Hr. unfold reached in *. lia.
Qed.

Lemma pool_loops (A0 : Vol.t) :
  Spec.shaped A0 osx osy od ->
  len (PoolLayer.switchx L) = osx * osy * od ->
  len (PoolLayer.switchy L) = osx * osy * od ->
  recorded od 0 0 (PoolLayer.forward_loops L V A0).
Proof.
  intros Hsh Hlx Hly. unfold PoolLayer.forward_loops.
  apply (for_ind (fun dc st => recorded dc 0 0 st)); [exact od_nonneg | |].
  - split; [reflexivity|]. split; [assumption|]. split; [assumption|].
    split; [assumption|]. intros ax ay d Hax Hay Hd Hr. unfold reached in Hr. lia.
  - intros d st Hd Hst. cbv zeta. now apply pool_slice.
Qed.

End PoolForward.

Lemma conv_forward_witness :
  ConvLayer.wf Sample.conv /\
  ConvLayer.accepts Sample.conv Sample.image /\
  exists A,
    ConvLayer.forward Sample.conv Sample.image false Sample.host
    = Ok (ConvLayer.with_acts Sample.conv (Some Sample.image) (Some A), A) Sample.host /\
    Spec.shaped A (ConvLayer.out_sx Sample.conv) (ConvLayer.out_sy Sample.conv)
                (ConvLayer.out_depth Sample.conv) /\
    forall ax ay d,
      0 <= ax < ConvLayer.out_sx Sample.conv -> 0 <= ay < ConvLayer.out_sy Sample.conv ->
      0 <= d < ConvLayer.out_depth Sample.conv ->
      (Vol.get A ax ay d == Spec.conv_output Sample.conv Sample.image ax ay d)%Q.
Proof.
  assert (W : ConvLayer.wf Sample.conv).
  { unfold ConvLayer.wf, Vol.wf. simpl. split; [lia|]. split; [reflexivity|].
    split.
    - intros f [<-|[]]. simpl. repeat split; (lia || reflexivity).
    - repeat split; (lia || reflexivity). }
  assert (C : ConvLayer.accepts Sample.conv Sample.image).
  { unfold ConvLayer.accepts, Vol.wf. simpl. repeat split; (lia || reflexivity). }
  split; [exact W|]. split; [exact C|].
  exact (conv_forward_computes_spec Sample.conv Sample.image false Sample.host W C).
Defined.

(** What [forward] leaves in the output tensor and in the switch arrays:
    for every output cell, the result of scanning its window. *)
Lemma pool_forward_result (L : PoolLayer.t) (V : Vol.t) (is_training : bool)
      (h : World) :
  PoolLayer.wf L ->
  exists A swx swy,
    PoolLayer.forward L V is_training h
    = Ok (PoolLayer.with_state L swx swy (Some V) (Some A), A) h /\
    Spec.shaped A (PoolLayer.out_sx L) (PoolLayer.out_sy L) (PoolLayer.out_depth L) /\
    Vol.dw A = repeat 0%Q (Z.to_nat (PoolLayer.out_sx L * PoolLayer.out_sy L
                                     * PoolLayer.out_depth L)) /\
    len swx = PoolLayer.out_sx L * PoolLayer.out_sy L * PoolLayer.out_depth L /\
    len swy = PoolLayer.out_sx L * PoolLayer.out_sy L * PoolLayer.out_depth L /\
    forall ax ay d,
      0 <= ax < PoolLayer.out_sx L -> 0 <= ay < PoolLayer.out_sy L ->
      0 <= d < PoolLayer.out_depth L ->
      let st := PoolLayer.scan L V (PoolLayer.corner L ax) (PoolLayer.corner L ay) d in
      Vol.get A ax ay d = fst (fst st) /\
      rd 0 swx (PoolLayer.cell L ax ay d) = snd (fst st) /\
      rd 0 swy (PoolLayer.cell L ax ay d) = snd st.
Proof.
  intros (Hsx & Hsy & Hox & Hoy & Hod & Hdepth & Hlx & Hly).
  destruct (Vol_new_const_ok (PoolLayer.out_sx L) (PoolLayer.out_sy L)
              (PoolLayer.out_depth L) 0 h) as (A0 & E0 & S1 & S2 & S3 & S4 & S5 & _).
  { apply Z.mul_nonneg_nonneg; [apply Z.mul_nonneg_nonneg|]; lia. }
  pose proof (pool_loops L V Hox Hoy Hod A0
                (conj S1 (conj S2 (conj S3 S4))) Hlx Hly) as R.
  unfold PoolLayer.forward. rewrite (bind_ok _ _ _ _ _ E0).
  assert (D : Vol.dw (snd (fst (fst (PoolLayer.forward_loops L V A0)))) = Vol.dw A0).
  { unfold PoolLayer.forward_loops.
    apply (for_preserves
             (fun st : Z * Vol.t * list Z * list Z =>
                Vol.dw (snd (fst (fst st))) = Vol.dw A0)); [reflexivity|].
    intros d st _ Hst.
    apply (for_preserves
             (fun xs : Z * (Z * Vol.t * list Z * list Z) =>
                Vol.dw (snd (fst (fst (snd xs)))) = Vol.dw A0)); [exact Hst|].
    intros ax [x st1] _ Hst1. simpl in *.
    apply (for_preserves
             (fun ys : Z * (Z * Vol.t * list Z * list Z) =>
                Vol.dw (snd (fst (fst (snd ys)))) = Vol.dw A0)); [exact Hst1|].
    intros ay [y [[[n A] swx] swy]] _ Hst2. simpl in *.
    destruct (PoolLayer.scan L V x y d) as [[a winx] winy]. simpl. exact Hst2. }
  destruct (PoolLayer.forward_loops L V A0) as [[[n A] swx] swy].
  destruct R as (_ & Hsh & Hl1 & Hl2 & Hcells). simpl in D.
  exists A, swx, swy. split; [reflexivity|]. split; [exact Hsh|].
  split; [congruence|]. split; [exact Hl1|]. split; [exact Hl2|].
  intros ax ay d Hax Hay Hd. unfold PoolLayer.corner.
  replace (ax * PoolLayer.stride L - PoolLayer.pad L)
    with (- PoolLayer.pad L + ax * PoolLayer.stride L) by lia.
  replace (ay * PoolLayer.stride L - PoolLayer.pad L)
    with (- PoolLayer.pad L + ay * PoolLayer.stride L) by lia.
  cbv zeta. apply Hcells; try assumption. lia.
Qed.

(** C2 (as amended). For every pooling layer with the shapes its constructor
    establishes and every input tensor of the declared depth, at each output
    cell whose window holds an in-range value above the initial [-99999]:
    the output value is the maximum of the in-range values of the window at
    that depth, the recorded switch is a coordinate that holds it, and every
    coordinate scanned earlier holds a strictly smaller value (of equal
    values the first scanned one is kept). *)
Theorem pool_forward_first_max (L : PoolLayer.t) (V : Vol.t) (is_training : bool)
        (h : World) :
  PoolLayer.wf L ->
  PoolLayer.accepts L V ->
  exists L' A,
    PoolLayer.forward L V is_training h = Ok (L', A) h /\
    PoolLayer.in_act L' = Some V /\ PoolLayer.out_act L' = Some A /\
    Spec.shaped A (PoolLayer.out_sx L) (PoolLayer.out_sy L) (PoolLayer.out_depth L) /\
    forall ax ay d,
      0 <= ax < PoolLayer.out_sx L -> 0 <= ay < PoolLayer.out_sy L ->
      0 <= d < PoolLayer.out_depth L ->
      (exists fx fy,
         Spec.in_window L V (PoolLayer.corner L ax) (PoolLayer.corner L ay) fx fy /\
         (PoolLayer.sentinel
          < Vol.get V (PoolLayer.corner L ax + fx) (PoolLayer.corner L ay + fy) d)%Q) ->
      Spec.first_max L V (PoolLayer.corner L ax) (PoolLayer.corner L ay) d
        (Vol.get A ax ay d)
        (rd 0 (PoolLayer.switchx L') (PoolLayer.cell L ax ay d))
        (rd 0 (PoolLayer.switchy L') (PoolLayer.cell L ax ay d)).
Proof.
  intros W _.
  destruct (pool_forward_result L V is_training h W)
    as (A & swx & swy & E & Hsh & _ & _ & _ & Hcells).
  exists (PoolLayer.with_state L swx swy (Some V) (Some A)), A.
  split; [exact E|]. split; [reflexivity|]. split; [reflexivity|].
  split; [exact Hsh|].
  intros ax ay d Hax Hay Hd (fx & fy & Hw & Hgt).
  destruct (Hcells ax ay d Hax Hay Hd) as (Ea & Ex & Ey). simpl.
  rewrite Ea, Ex, Ey.
  destruct W as (Hsx & Hsy & _).
  destruct (scan_result L V (PoolLayer.corner L ax) (PoolLayer.corner L ay) d Hsx Hsy)
    as [(_ & _ & _ & Hall) | (_ & Hmax)].
  - exfalso. apply (Qlt_not_le _ _ Hgt). now apply Hall.
  - exact Hmax.
Qed.

(** The other case: where no in-range value of the window exceeds the
    initial [-99999], the output is [-99999] and the switch is [(-1, -1)]. *)
Lemma pool_forward_nothing_above (L : PoolLayer.t) (V : Vol.t) (is_training : bool)
      (h : World) :
  PoolLayer.wf L ->
  exists L' A,
    PoolLayer.forward L V is_training h = Ok (L', A) h /\
    forall ax ay d,
      0 <= ax < PoolLayer.out_sx L -> 0 <= ay < PoolLayer.out_sy L ->
      0 <= d < PoolLayer.out_depth L ->
      (forall fx fy,
         Spec.in_window L V (PoolLayer.corner L ax) (PoolLayer.corner L ay) fx fy ->
         (Vol.get V (PoolLayer.corner L ax + fx) (PoolLayer.corner L ay + fy) d
          <= PoolLayer.sentinel)%Q) ->
      Vol.get A ax ay d = PoolLayer.sentinel /\
      rd 0 (PoolLayer.switchx L') (PoolLayer.cell L ax ay d) = -1 /\
      rd 0 (PoolLayer.switchy L') (PoolLayer.cell L ax ay d) = -1.
Proof.
  intros W.
  destruct (pool_forward_result L V is_training h W)
    as (A & swx & swy & E & _ & _ & _ & _ & Hcells).
  exists (PoolLayer.with_state L swx swy (Some V) (Some A)), A.
  split; [exact E|].
  intros ax ay d Hax Hay Hd Hall.
  destruct (Hcells ax ay d Hax Hay Hd) as (Ea & Ex & Ey). simpl.
  rewrite Ea, Ex, Ey.
  destruct W as (Hsx & Hsy & _).
  destruct (scan_result L V (PoolLayer.corner L ax) (PoolLayer.corner L ay) d Hsx Hsy)
    as [(Ha & Hx & Hy & _) | (Hgt & fx & fy & Hw & Hx & Hy & Hm & _)].
  - auto.
  - exfalso. apply (Qlt_not_le _ _ Hgt).
    rewrite Hm, Hx, Hy. now apply Hall.
Qed.

Lemma pool_forward_witness :
  PoolLayer.wf Sample.pool /\
  PoolLayer.accepts Sample.pool Sample.image /\
  exists L' A,
    PoolLayer.forward Sample.pool Sample.image false Sample.host = Ok (L', A) Sample.host /\
    PoolLayer.in_act L' = Some Sample.image /\ PoolLayer.out_act L' = Some A /\
    Spec.shaped A (PoolLayer.out_sx Sample.pool) (PoolLayer.out_sy Sample.pool)
                (PoolLayer.out_depth Sample.pool) /\
    forall ax ay d,
      0 <= ax < PoolLayer.out_sx Sample.pool -> 0 <= ay < PoolLayer.out_sy Sample.pool ->
      0 <= d < PoolLayer.out_depth Sample.pool ->
      (exists fx fy,
         Spec.in_window Sample.pool Sample.image
           (PoolLayer.corner Sample.pool ax) (PoolLayer.corner Sample.pool ay) fx fy /\
         (PoolLayer.sentinel
          < Vol.get Sample.image (PoolLayer.corner Sample.pool ax + fx)
                    (PoolLayer.corner Sample.pool ay + fy) d)%Q) ->
      Spec.first_max Sample.pool Sample.image
        (PoolLayer.corner Sample.pool ax) (PoolLayer.corner Sample.pool ay) d
        (Vol.get A ax ay d)
        (rd 0 (PoolLayer.switchx L') (PoolLayer.cell Sample.pool ax ay d))
        (rd 0 (PoolLayer.switchy L') (PoolLayer.cell Sample.pool ax ay d)).
Proof.
  assert (W : PoolLayer.wf Sample.pool).
  { unfold PoolLayer.wf. simpl. repeat split; (lia || reflexivity). }
  assert (C : PoolLayer.accepts Sample.pool Sample.image).
  { unfold PoolLayer.accepts, Vol.wf. simpl. repeat split; (lia || reflexivity). }
  split; [exact W|]. split; [exact C|].
  exact (pool_forward_first_max Sample.pool Sample.image false Sample.host W C).
Defined.

(** C2 as stated fails when no value of the window exceeds [-99999]: the only
    value of the window is [-100000], yet the output is [-99999] and the
    recorded switch is [(-1, -1)], which is no coordinate of the window. *)
Lemma pool_forward_below_sentinel :
  PoolLayer.wf Sample.unit_pool /\
  PoolLayer.accepts Sample.unit_pool Sample.cold_input /\
  exists L' A,
    PoolLayer.forward Sample.unit_pool Sample.cold_input false Sample.host
    = Ok (L', A) Sample.host /\
    (Vol.get Sample.cold_input 0 0 0 == -100000)%Q /\
    (Vol.get A 0 0 0 == -99999)%Q /\
    rd 0 (PoolLayer.switchx L') (PoolLayer.cell Sample.unit_pool 0 0 0) = -1 /\
    rd 0 (PoolLayer.switchy L') (PoolLayer.cell Sample.unit_pool 0 0 0) = -1 /\
    ~ Spec.first_max Sample.unit_pool Sample.cold_input
        (PoolLayer.corner Sample.unit_pool 0) (PoolLayer.corner Sample.unit_pool 0) 0
        (Vol.get A 0 0 0)
        (rd 0 (PoolLayer.switchx L') (PoolLayer.cell Sample.unit_pool 0 0 0))
        (rd 0 (PoolLayer.switchy L') (PoolLayer.cell Sample.unit_pool 0 0 0)).
Proof.
  split; [unfold PoolLayer.wf; simpl; repeat split; (lia || reflexivity)|].
  split; [unfold PoolLayer.accepts, Vol.wf; simpl; repeat split; (lia || reflexivity)|].
  eexists. eexists. split; [vm_compute; reflexivity|].
  split; [reflexivity|]. split; [reflexivity|].
  split; [reflexivity|]. split; [reflexivity|].
  intros (fx & fy & (Hfx & _) & Hx & _).
  vm_compute in Hx. vm_compute in Hfx. destruct Hfx as [Hlo Hhi].
  destruct fx; try discriminate Hx; try (apply Hlo; reflexivity).
Qed.

(** ** Max-pooling: routing the gradient back *)

Lemma sum_upto_zero (n : Z) (f : Z -> Q) :
  (forall i, 0 <= i < n -> (f i == 0)%Q) -> (Spec.sum_upto n f == 0)%Q.
Proof.
  intros H. rewrite (sum_upto_ext n f (fun _ => 0%Q)) by assumption.
  unfold Spec.sum_upto. induction (Z.to_nat n) as [|m IH]; simpl; [reflexivity|].
  rewrite IH. ring.
Qed.

Lemma add_grad_framed (V0 V : Vol.t) (wx wy dc : Z) (g : Q) :
  Spec.framed V0 V -> Spec.framed V0 (Vol.add_grad V wx wy dc g).
Proof.
  intros (F1 & F2 & F3 & F4 & F5).
  unfold Spec.framed, Vol.add_grad. simpl. rewrite len_wr. auto.
Qed.

(** Adding [g] at the switch [(wx, wy)] of depth [dc] changes the cell
    [(wx, wy, dc)] and no other; a switch of [(-1, -1)] falls before the
    buffer and changes nothing. *)
Lemma add_grad_effect (V0 V : Vol.t) (wx wy dc : Z) (g : Q) (x y d : Z) :
  Spec.framed V0 V ->
  0 <= dc < Vol.depth V0 ->
  (0 <= wx < Vol.sx V0 /\ 0 <= wy < Vol.sy V0) \/ (wx = -1 /\ wy = -1) ->
  0 <= x < Vol.sx V0 -> 0 <= y < Vol.sy V0 -> 0 <= d < Vol.depth V0 ->
  Vol.get_grad (Vol.add_grad V wx wy dc g) x y d
  = if (wx =? x) && (wy =? y) && (dc =? d)
    then (Vol.get_grad V x y d + g)%Q else Vol.get_grad V x y d.
Proof.
  intros (F1 & F2 & F3 & F4 & F5) Hdc Hsw Hx Hy Hd.
  unfold Vol.get_grad, Vol.add_grad, Vol.ix. simpl. rewrite F1, F3.
  destruct Hsw as [[Hwx Hwy] | [-> ->]].
  - destruct ((wx =? x) && (wy =? y) && (dc =? d)) eqn:B.
    + apply andb_true_iff in B. destruct B as [B B3].
      apply andb_true_iff in B. destruct B as [B1 B2].
      apply Z.eqb_eq in B1, B2, B3. subst x y d.
      apply rd_wr_same. rewrite F5. now apply ix_bound.
    + apply rd_wr_other. intros E.
      destruct (ix_injective (Vol.sx V0) (Vol.depth V0) wx wy dc x y d)
        as (E1 & E2 & E3); try assumption.
      subst. rewrite !Z.eqb_refl in B. discriminate.
  - replace ((-1 =? x) && (-1 =? y) && (dc =? d)) with false.
    + rewrite wr_outside; [reflexivity|]. left. nia.
    + symmetry. destruct (Z.eqb_spec (-1) x); [lia | reflexivity].
Qed.

Section PoolBackward.

Variables (L : PoolLayer.t) (A V0 : Vol.t).

Let osx := PoolLayer.out_sx L.
Let osy := PoolLayer.out_sy L.
Let od := PoolLayer.out_depth L.

Hypothesis osx_nonneg : 0 <= osx.
Hypothesis osy_nonneg : 0 <= osy.
Hypothesis od_nonneg : 0 <= od.
Hypothesis depth_fits : od <= Vol.depth V0.

(** Every recorded switch is a coordinate of the input, or [(-1, -1)]. *)
Hypothesis switches :
  forall ax ay d, 0 <= ax < osx -> 0 <= ay < osy -> 0 <= d < od ->
    (0 <= rd 0 (PoolLayer.switchx L) (PoolLayer.cell L ax ay d) < Vol.sx V0 /\
     0 <= rd 0 (PoolLayer.switchy L) (PoolLayer.cell L ax ay d) < Vol.sy V0) \/
    (rd 0 (PoolLayer.switchx L) (PoolLayer.cell L ax ay d) = -1 /\
     rd 0 (PoolLayer.switchy L) (PoolLayer.cell L ax ay d) = -1).

Let target (x y d : Z) : Prop :=
  0 <= x < Vol.sx V0 /\ 0 <= y < Vol.sy V0 /\ 0 <= d < Vol.depth V0.

(** After [extra] was routed on top of the gradients of [V]. *)
Let grown (V : Vol.t) (extra : Z -> Z -> Z -> Q) (V' : Vol.t) : Prop :=
  Spec.framed V0 V' /\
  forall x y d, target x y d ->
    (Vol.get_grad V' x y d == Vol.get_grad V x y d + extra x y d)%Q.

Lemma back_column (dc ax : Z) (n : Z) (V : Vol.t) :
  0 <= dc < od -> 0 <= ax < osx ->
  n = PoolLayer.cell L ax 0 dc ->
  Spec.framed V0 V ->
  let st := for_ osy (fun ay '(n, V) =>
              let chain_grad := Vol.get_grad A ax ay dc in
              (n + 1, Vol.add_grad V (rd 0 (PoolLayer.switchx L) n)
                        (rd 0 (PoolLayer.switchy L) n) dc chain_grad)) (n, V) in
  fst st = PoolLayer.cell L (ax + 1) 0 dc /\
  grown V (fun x y d =>
             if d =? dc then Spec.sum_upto osy (fun ay => Spec.routed L A x y dc ax ay)
             else 0%Q) (snd st).
Proof.
  intros Hdc Hax Hn HV st. subst st.
  match goal with
  | |- fst (for_ ?n0 ?b0 ?s0) = _ /\ _ =>
      pose proof (for_ind
                    (fun ayc (st : Z * Vol.t) =>
                       fst st = PoolLayer.cell L ax ayc dc /\
                       grown V (fun x y d =>
                                  if d =? dc
                                  then Spec.sum_upto ayc (fun ay =>
                                         Spec.routed L A x y dc ax ay)
                                  else 0%Q) (snd st))
                    n0 b0 s0 osy_nonneg) as H
  end.
  destruct H as [Hn' Hg].
  - simpl. split; [exact Hn|]. split; [exact HV|].
    intros x y d _. destruct (d =? dc); [rewrite sum_upto_nil by lia|]; ring.
  - intros ay [n1 V1] Hay [Hn1 [HF Hval]]. simpl in Hn1, HF, Hval. simpl.
    split; [rewrite Hn1; unfold PoolLayer.cell; lia|].
    assert (Hsw := switches ax ay dc Hax Hay Hdc). rewrite <- Hn1 in Hsw.
    split; [now apply add_grad_framed|].
    + intros x y d (Hx & Hy & Hd).
      pose proof (add_grad_effect V0 V1 (rd 0 (PoolLayer.switchx L) n1)
                    (rd 0 (PoolLayer.switchy L) n1) dc (Vol.get_grad A ax ay dc)
                    x y d HF ltac:(lia) Hsw Hx Hy Hd) as E.
      rewrite E. pose proof (Hval x y d (conj Hx (conj Hy Hd))) as Hv.
      assert (R : Spec.routed L A x y dc ax ay
                  = if (rd 0 (PoolLayer.switchx L) n1 =? x)
                       && (rd 0 (PoolLayer.switchy L) n1 =? y)
                    then Vol.get_grad A ax ay dc else 0%Q)
        by (unfold Spec.routed; rewrite <- Hn1; reflexivity).
      rewrite (Z.eqb_sym dc d).
      destruct (d =? dc).
      * rewrite sum_upto_snoc by lia. rewrite R.
        destruct (rd 0 (PoolLayer.switchx L) n1 =? x);
          destruct (rd 0 (PoolLayer.switchy L) n1 =? y); simpl; rewrite Hv; ring.
      * rewrite andb_false_r. rewrite Hv. ring.
  - split; [rewrite Hn'; unfold PoolLayer.cell; fold osy; lia | exact Hg].
Qed.

Lemma grown_trans (V V1 V2 : Vol.t) (e1 e2 e : Z -> Z -> Z -> Q) :
  grown V e1 V1 -> grown V1 e2 V2 ->
  (forall x y d, target x y d -> (e1 x y d + e2 x y d == e x y d)%Q) ->
  grown V e V2.
Proof.
  intros [F1 H1] [F2 H2] He. split; [exact F2|].
  intros x y d T. rewrite (H2 x y d T), (H1 x y d T), <- (He x y d T). ring.
Qed.

(** All that is routed to the input cell [(x, y, d)]. *)
Let routed_total (x y d : Z) : Q :=
  Spec.sum_upto osx (fun ax => Spec.sum_upto osy (fun ay => Spec.routed L A x y d ax ay)).

Lemma back_slice (dc : Z) (n : Z) (V : Vol.t) :
  0 <= dc < od ->
  n = PoolLayer.cell L 0 0 dc ->
  Spec.framed V0 V ->
  let st := for_ osx (fun ax st =>
              for_ osy (fun ay '(n, V) =>
                let chain_grad := Vol.get_grad A ax ay dc in
                (n + 1, Vol.add_grad V (rd 0 (PoolLayer.switchx L) n)
                          (rd 0 (PoolLayer.switchy L) n) dc chain_grad)) st) (n, V) in
  fst st = PoolLayer.cell L 0 0 (dc + 1) /\
  grown V (fun x y d => if d =? dc then routed_total x y dc else 0%Q) (snd st).
Proof.
  intros Hdc Hn HV st. subst st.
  match goal with
  | |- fst (for_ ?n0 ?b0 ?s0) = _ /\ _ =>
      pose proof (for_ind
                    (fun axc (st : Z * Vol.t) =>
                       fst st = PoolLayer.cell L axc 0 dc /\
                       grown V (fun x y d =>
                                  if d =? dc
                                  then Spec.sum_upto axc (fun ax =>
                                         Spec.sum_upto osy (fun ay =>
                                           Spec.routed L A x y dc ax ay))
                                  else 0%Q) (snd st))
                    n0 b0 s0 osx_nonneg) as H
  end.
  destruct H as [Hn' Hg].
  - simpl. split; [exact Hn|]. split; [exact HV|].
    intros x y d _. destruct (d =? dc); [rewrite sum_upto_nil by lia|]; ring.
  - intros ax [n1 V1] Hax [Hn1 Hg1]. simpl in Hn1, Hg1.
    destruct (back_column dc ax n1 V1 Hdc Hax Hn1 (proj1 Hg1)) as [Hn2 Hg2].
    split; [exact Hn2|].
    apply (grown_trans V V1 _ _ _ _ Hg1 Hg2).
    intros x y d _. destruct (d =? dc); [rewrite sum_upto_snoc by lia|]; ring.
  - split; [rewrite Hn'; unfold PoolLayer.cell; fold osx; lia | exact Hg].
Qed.

Lemma back_loops :
  Spec.framed V0 V0 ->
  grown V0 (fun x y d => if d <? od then routed_total x y d else 0%Q)
        (snd (PoolLayer.backward_loops L A V0)).
Proof.
  intros HV. unfold PoolLayer.backward_loops.
  match goal with
  | |- grown _ _ (snd (for_ ?n0 ?b0 ?s0)) =>
      pose proof (for_ind
                    (fun dc (st : Z * Vol.t) =>
                       fst st = PoolLayer.cell L 0 0 dc /\
                       grown V0 (fun x y d =>
                                   if d <? dc then routed_total x y d else 0%Q)
                             (snd st))
                    n0 b0 s0 od_nonneg) as H
  end.
  destruct H as [_ Hg]; [| |exact Hg].
  - simpl. split; [reflexivity|]. split; [exact HV|].
    intros x y d (_ & _ & Hd). destruct (Z.ltb_spec d 0); [lia | ring].
  - intros dc [n1 V1] Hdc [Hn1 Hg1]. simpl in Hn1, Hg1.
    destruct (back_slice dc n1 V1 Hdc Hn1 (proj1 Hg1)) as [Hn2 Hg2].
    split; [exact Hn2|].
    apply (grown_trans V0 V1 _ _ _ _ Hg1 Hg2).
    intros x y d _.
    destruct (Z.ltb_spec d dc), (Z.eqb_spec d dc), (Z.ltb_spec d (dc + 1));
      try lia; subst; ring.
Qed.

End PoolBackward.

(** The switches [forward] records are coordinates of the input, or
    [(-1, -1)] where the scan met nothing above the initial value. *)
Lemma scan_switch_range (L : PoolLayer.t) (V : Vol.t) (x y d : Z) :
  0 <= PoolLayer.sx L -> 0 <= PoolLayer.sy L ->
  let st := PoolLayer.scan L V x y d in
  (0 <= snd (fst st) < Vol.sx V /\ 0 <= snd st < Vol.sy V) \/
  (snd (fst st) = -1 /\ snd st = -1).
Proof.
  intros Hsx Hsy st.
  destruct (scan_result L V x y d Hsx Hsy)
    as [(_ & Hx & Hy & _) | (_ & fx & fy & Hw & Hx & Hy & _)].
  - right. auto.
  - left. fold st in Hx, Hy. rewrite Hx, Hy.
    destruct Hw as (_ & _ & H1 & H2). auto.
Qed.

(** C3. After [forward], whatever chain gradients [G] the next layer left in
    the output tensor, [backward] returns with the input tensor unchanged
    but for its gradient buffer, which was zeroed and then received, for
    every output cell, that cell's chain gradient at the recorded switch
    coordinate and the same depth: the gradient of each input cell is the
    sum of the chain gradients of the output cells whose switch it is, and
    an input cell that is the switch of no output cell ends with zero. *)
Theorem pool_backward_routes_gradient (L : PoolLayer.t) (V : Vol.t)
        (is_training : bool) (G : list Q) (h : World) :
  PoolLayer.wf L ->
  PoolLayer.accepts L V ->
  len G = PoolLayer.out_sx L * PoolLayer.out_sy L * PoolLayer.out_depth L ->
  exists L1 A,
    PoolLayer.forward L V is_training h = Ok (L1, A) h /\
    let L2 := PoolLayer.with_state L1 (PoolLayer.switchx L1) (PoolLayer.switchy L1)
                (PoolLayer.in_act L1) (Some (Vol.with_dw A G)) in
    exists V',
      PoolLayer.backward L2 h
      = Ok (PoolLayer.with_state L2 (PoolLayer.switchx L2) (PoolLayer.switchy L2)
              (Some V') (PoolLayer.out_act L2)) h /\
      Spec.framed V V' /\
      forall x y d,
        0 <= x < Vol.sx V -> 0 <= y < Vol.sy V -> 0 <= d < Vol.depth V ->
        (Vol.get_grad V' x y d
         == Spec.sum_upto (PoolLayer.out_sx L) (fun ax =>
              Spec.sum_upto (PoolLayer.out_sy L) (fun ay =>
                Spec.routed L2 (Vol.with_dw A G) x y d ax ay)))%Q /\
        ((forall ax ay,
            0 <= ax < PoolLayer.out_sx L -> 0 <= ay < PoolLayer.out_sy L ->
            ~ (rd 0 (PoolLayer.switchx L2) (PoolLayer.cell L2 ax ay d) = x /\
               rd 0 (PoolLayer.switchy L2) (PoolLayer.cell L2 ax ay d) = y)) ->
         (Vol.get_grad V' x y d == 0)%Q).
Proof.
  intros W (HV & HVd) HG.
  destruct (pool_forward_result L V is_training h W)
    as (A & swx & swy & E & Hsh & _ & Hlx & Hly & Hcells).
  destruct W as (Hsx & Hsy & Hox & Hoy & Hod & Hdepth & _ & _).
  destruct HV as (Vx & Vy & Vd & Vw & Vdw).
  exists (PoolLayer.with_state L swx swy (Some V) (Some A)), A.
  split; [exact E|]. cbv zeta.
  set (L2 := PoolLayer.with_state _ _ _ _ (Some (Vol.with_dw A G))).
  set (V0 := Vol.with_dw V (repeat 0%Q (Z.to_nat (len (Vol.w V))))).
  assert (F0 : Spec.framed V0 V0).
  { unfold Spec.framed, V0. simpl. repeat split.
    rewrite len_repeat by apply len_nonneg. exact Vw. }
  assert (Sw : forall ax ay d,
             0 <= ax < PoolLayer.out_sx L2 -> 0 <= ay < PoolLayer.out_sy L2 ->
             0 <= d < PoolLayer.out_depth L2 ->
             (0 <= rd 0 (PoolLayer.switchx L2) (PoolLayer.cell L2 ax ay d) < Vol.sx V0 /\
              0 <= rd 0 (PoolLayer.switchy L2) (PoolLayer.cell L2 ax ay d) < Vol.sy V0) \/
             (rd 0 (PoolLayer.switchx L2) (PoolLayer.cell L2 ax ay d) = -1 /\
              rd 0 (PoolLayer.switchy L2) (PoolLayer.cell L2 ax ay d) = -1)).
  { intros ax ay d Hax Hay Hd.
    destruct (Hcells ax ay d Hax Hay Hd) as (_ & Ex & Ey).
    change (PoolLayer.cell L2 ax ay d) with (PoolLayer.cell L ax ay d).
    change (PoolLayer.switchx L2) with swx. change (PoolLayer.switchy L2) with swy.
    change (Vol.sx V0) with (Vol.sx V). change (Vol.sy V0) with (Vol.sy V).
    rewrite Ex, Ey.
    exact (scan_switch_range L V (PoolLayer.corner L ax) (PoolLayer.corner L ay) d
             Hsx Hsy). }
  destruct (back_loops L2 (Vol.with_dw A G) V0 Hox Hoy Hod
              ltac:(change (PoolLayer.out_depth L <= Vol.depth V); lia) Sw F0)
    as [FV' Hgrad].
  exists (snd (PoolLayer.backward_loops L2 (Vol.with_dw A G) V0)).
  split; [|split].
  - unfold PoolLayer.backward.
    change (PoolLayer.in_act L2) with (Some V). cbv beta iota.
    rewrite (bind_ok _ _ _ _ _ (zeros_ok _ h (len_nonneg (Vol.w V)))).
    reflexivity.
  - exact FV'.
  - intros x y d Hx Hy Hd.
    assert (T : (Vol.get_grad (snd (PoolLayer.backward_loops L2 (Vol.with_dw A G) V0)) x y d
                 == Spec.sum_upto (PoolLayer.out_sx L) (fun ax =>
                      Spec.sum_upto (PoolLayer.out_sy L) (fun ay =>
                        Spec.routed L2 (Vol.with_dw A G) x y d ax ay)))%Q).
    { rewrite (Hgrad x y d (conj Hx (conj Hy Hd))).
      change (PoolLayer.out_depth L2) with (PoolLayer.out_depth L).
      destruct (Z.ltb_spec d (PoolLayer.out_depth L)) as [_|C]; [|lia].
      unfold Vol.get_grad, V0. simpl. rewrite rd_repeat. ring. }
    split; [exact T|].
    intros Hnone. rewrite T. apply sum_upto_zero. intros ax Hax.
    apply sum_upto_zero. intros ay Hay. unfold Spec.routed.
    destruct (Z.eqb_spec (rd 0 (PoolLayer.switchx L2) (PoolLayer.cell L2 ax ay d)) x);
      destruct (Z.eqb_spec (rd 0 (PoolLayer.switchy L2) (PoolLayer.cell L2 ax ay d)) y);
      simpl; try reflexivity.
    exfalso. apply (Hnone ax ay Hax Hay). auto.
Qed.

Lemma pool_backward_witness :
  PoolLayer.wf Sample.pool /\
  PoolLayer.accepts Sample.pool Sample.image /\
  len [10; 20; 30; 40]%Q
  = PoolLayer.out_sx Sample.pool * PoolLayer.out_sy Sample.pool
    * PoolLayer.out_depth Sample.pool /\
  exists L1 A,
    PoolLayer.forward Sample.pool Sample.image false Sample.host = Ok (L1, A) Sample.host /\
    let L2 := PoolLayer.with_state L1 (PoolLayer.switchx L1) (PoolLayer.switchy L1)
                (PoolLayer.in_act L1) (Some (Vol.with_dw A [10; 20; 30; 40]%Q)) in
    exists V',
      PoolLayer.backward L2 Sample.host
      = Ok (PoolLayer.with_state L2 (PoolLayer.switchx L2) (PoolLayer.switchy L2)
              (Some V') (PoolLayer.out_act L2)) Sample.host /\
      Spec.framed Sample.image V' /\
      forall x y d,
        0 <= x < Vol.sx Sample.image -> 0 <= y < Vol.sy Sample.image ->
        0 <= d < Vol.depth Sample.image ->
        (Vol.get_grad V' x y d
         == Spec.sum_upto (PoolLayer.out_sx Sample.pool) (fun ax =>
              Spec.sum_upto (PoolLayer.out_sy Sample.pool) (fun ay =>
                Spec.routed L2 (Vol.with_dw A [10; 20; 30; 40]%Q) x y d ax ay)))%Q /\
        ((forall ax ay,
            0 <= ax < PoolLayer.out_sx Sample.pool ->
            0 <= ay < PoolLayer.out_sy Sample.pool ->
            ~ (rd 0 (PoolLayer.switchx L2) (PoolLayer.cell L2 ax ay d) = x /\
               rd 0 (PoolLayer.switchy L2) (PoolLayer.cell L2 ax ay d) = y)) ->
         (Vol.get_grad V' x y d == 0)%Q).
Proof.
  assert (W : PoolLayer.wf Sample.pool).
  { unfold PoolLayer.wf. simpl. repeat split; (lia || reflexivity). }
  assert (C : PoolLayer.accepts Sample.pool Sample.image).
  { unfold PoolLayer.accepts, Vol.wf. simpl. repeat split; (lia || reflexivity). }
  split; [exact W|]. split; [exact C|]. split; [reflexivity|].
  exact (pool_backward_routes_gradient Sample.pool Sample.image false
           [10; 20; 30; 40]%Q Sample.host W C eq_refl).
Defined.

(** ** Parameter groups of a network *)

(** A property that every returning iteration preserves holds when a
    monadic loop returns, whatever its index list. *)
Lemma fold_js_preserves {S} (P : S -> Prop) (body : Z -> S -> js S) (idx : list Z) :
  (forall i st h1 st' h2, P st -> body i st h1 = Ok st' h2 -> P st') ->
  forall (m : js S) (h : World),
    (forall st h', m h = Ok st h' -> P st) ->
    forall st' h',
      fold_left (fun acc i => bind acc (body i)) idx m h = Ok st' h' -> P st'.
Proof.
  intros Hstep. induction idx as [|i rest IH]; intros m h Hm st' h' H; simpl in H.
  - exact (Hm st' h' H).
  - refine (IH (bind m (body i)) h _ st' h' H).
    intros st h1 Hb. apply bind_inv in Hb. destruct Hb as (a & h0 & Ha & Hk).
    apply (Hstep i a h0 st h1); [|exact Hk]. exact (Hm a h0 Ha).
Qed.

Lemma rd_map {A B} (g : A -> B) (d : A) (l : list A) (i : Z) :
  rd (g d) (map g l) i = g (rd d l i).
Proof.
  unfold rd. destruct (i <? 0); [reflexivity|]. apply map_nth.
Qed.

Lemma len_map {A B} (g : A -> B) (l : list A) : len (map g l) = len l.
Proof. unfold len. now rewrite length_map. Qed.

(** Overwriting an element by one with the same image keeps the image of
    the list. *)
Lemma map_wr_keep {A B} (g : A -> B) (d : A) (l : list A) (i : Z) (v : A) :
  g v = g (rd d l i) -> map g (wr l i v) = map g l.
Proof.
  intros Hv. apply (buffer_ext (g d)).
  - rewrite !len_map. apply len_wr.
  - intros j Hj. rewrite !rd_map. destruct (Z.eq_dec i j) as [->|Hne].
    + rewrite len_map, len_wr in Hj. rewrite rd_wr_same by assumption. exact Hv.
    + rewrite rd_wr_other by assumption. reflexivity.
Qed.

(** A loop that pushes [g i] at iteration [i] appends the images of its
    index range. *)
Lemma for_collect {A} (g : Z -> A) (n : Z) (r0 : list A) :
  for_ n (fun i r => r ++ [g i]) r0 = r0 ++ map g (range 0 n).
Proof.
  destruct (Z.le_gt_cases 0 n) as [Hn|Hn].
  - apply (for_ind (fun i r => r = r0 ++ map g (range 0 i))); [assumption| |].
    + rewrite range_nil by lia. now rewrite app_nil_r.
    + intros i r Hi ->. rewrite range_snoc by lia.
      rewrite map_app, app_assoc. reflexivity.
  - rewrite for_nil by lia. rewrite range_nil by lia. now rewrite app_nil_r.
Qed.

Lemma len_range (n : Z) : 0 <= n -> len (range 0 n) = n.
Proof.
  intros H. unfold len, range. rewrite length_map, length_seq. lia.
Qed.

Lemma rd_range (d : Z) (n i : Z) : 0 <= i < n -> rd d (range 0 n) i = i.
Proof.
  intros H. unfold rd, range. destruct (Z.ltb_spec i 0); [lia|].
  rewrite (nth_indep _ d (0 + Z.of_nat 0)) by (rewrite length_map, length_seq; lia).
  rewrite (map_nth (fun k => 0 + Z.of_nat k) (seq 0 (Z.to_nat (n - 0))) 0%nat).
  rewrite seq_nth by lia. lia.
Qed.

Lemma rd_default {A} (d d' : A) (l : list A) (i : Z) :
  0 <= i < len l -> rd d l i = rd d' l i.
Proof.
  unfold rd, len. intros H. destruct (Z.ltb_spec i 0); [lia|].
  apply nth_indep. lia.
Qed.

(** Copying a list element by element gives the list. *)
Lemma map_rd_range {A} (d : A) (l : list A) : map (rd d l) (range 0 (len l)) = l.
Proof.
  apply (buffer_ext d).
  - rewrite len_map. apply len_range. apply len_nonneg.
  - intros i Hi. rewrite len_map, len_range in Hi by apply len_nonneg.
    rewrite (rd_default d (rd d l 0))
      by (rewrite len_map, len_range by apply len_nonneg; exact Hi).
    rewrite (rd_map (rd d l) 0 (range 0 (len l)) i).
    now rewrite rd_range.
Qed.

Lemma firstn_succ {A} (l : list A) (n : nat) (a : A) :
  nth_error l n = Some a -> firstn (Datatypes.S n) l = firstn n l ++ [a].
Proof.
  revert n. induction l as [|x l IH]; intros [|n] H; simpl in *; try discriminate.
  - inversion H. reflexivity.
  - f_equal. now apply IH.
Qed.

(** [Net.getParamsAndGrads] concatenates the layers' lists in layer order. *)
Lemma Net_getParamsAndGrads_concat (N : Net.t) :
  Net.getParamsAndGrads N = flat_map Layer.getParamsAndGrads (Net.layers N).
Proof.
  unfold Net.getParamsAndGrads.
  assert (G : for_ (len (Net.layers N))
                (fun i response =>
                   match nth_error (Net.layers N) (Z.to_nat i) with
                   | Some l =>
                       let layer_reponse := Layer.getParamsAndGrads l in
                       for_ (len layer_reponse)
                         (fun j response => response ++ [rd Layer.no_group layer_reponse j])
                         response
                   | None => response
                   end) []
              = flat_map Layer.getParamsAndGrads
                  (firstn (Z.to_nat (len (Net.layers N))) (Net.layers N))).
  { apply (for_ind (fun i r =>
                      r = flat_map Layer.getParamsAndGrads
                            (firstn (Z.to_nat i) (Net.layers N)))).
    - apply len_nonneg.
    - reflexivity.
    - intros i r Hi ->.
      destruct (nth_error (Net.layers N) (Z.to_nat i)) as [l|] eqn:E.
      + cbv zeta. rewrite for_collect. rewrite map_rd_range.
        replace (Z.to_nat (i + 1)) with (Datatypes.S (Z.to_nat i)) by lia.
        rewrite (firstn_succ _ _ _ E). rewrite flat_map_app. simpl.
        now rewrite app_nil_r.
      + apply nth_error_None in E. unfold len in Hi. lia. }
  etransitivity; [exact G|].
  unfold len. rewrite Nat2Z.id. now rewrite firstn_all.
Qed.

Lemma Net_parameters_concat (N : Net.t) :
  map ParamGroup.params (Net.getParamsAndGrads N)
  = List.concat (map Layer.parameters (Net.layers N)).
Proof.
  rewrite Net_getParamsAndGrads_concat. unfold Layer.parameters.
  induction (Net.layers N) as [|l ls IH]; simpl; [reflexivity|].
  rewrite map_app. now rewrite IH.
Qed.

(** ** The passes leave the parameters alone *)

(** The parameter buffers of a dot-product layer are the value buffers of
    its filters followed by that of its biases. *)
Lemma dot_product_parameters (od : Z) (fs : list Vol.t) (gr : Z -> list Q)
      (bw bg : list Q) (m1 m2 z1 z2 : option Q) :
  map ParamGroup.params
      (for_ od (fun i response =>
                  response ++ [ParamGroup.mk (Vol.w (rd ConvLayer.no_filter fs i))
                                 (gr i) m1 m2]) []
       ++ [ParamGroup.mk bw bg z1 z2])
  = map (fun i => rd [] (map Vol.w fs) i) (range 0 od) ++ [bw].
Proof.
  rewrite for_collect. simpl. rewrite map_app, map_map. simpl. f_equal.
  apply map_ext. intros i. symmetry. apply (rd_map Vol.w ConvLayer.no_filter).
Qed.

Lemma conv_backward_loops_weights (L : ConvLayer.t) (V A : Vol.t) (g0 : list Q) :
  map Vol.w (fst (fst (ConvLayer.backward_loops L V A g0)))
  = map Vol.w (ConvLayer.filters L).
Proof.
  unfold ConvLayer.backward_loops.
  apply (for_preserves
           (fun st : list Vol.t * list Q * list Q =>
              map Vol.w (fst (fst st)) = map Vol.w (ConvLayer.filters L)));
    [reflexivity|].
  intros d [[fs Vdw] bdw] _ H. simpl in H. cbv zeta.
  match goal with
  | |- context [for_ ?n0 ?b0 ?s0] => destruct (for_ n0 b0 s0) as [y' [[fdw Vdw'] bdw']]
  end.
  simpl. rewrite <- H. apply (map_wr_keep Vol.w ConvLayer.no_filter). reflexivity.
Qed.

Lemma fc_backward_loops_weights (L : FullyConnLayer.t) (V A : Vol.t) (g0 : list Q) :
  map Vol.w (fst (fst (FullyConnLayer.backward_loops L V A g0)))
  = map Vol.w (FullyConnLayer.filters L).
Proof.
  unfold FullyConnLayer.backward_loops.
  apply (for_preserves
           (fun st : list Vol.t * list Q * list Q =>
              map Vol.w (fst (fst st)) = map Vol.w (FullyConnLayer.filters L)));
    [reflexivity|].
  intros i [[fs Vdw] bdw] _ H. simpl in H. cbv zeta.
  match goal with
  | |- context [for_ ?n0 ?b0 ?s0] => destruct (for_ n0 b0 s0) as [Vdw' tdw]
  end.
  simpl. rewrite <- H. apply (map_wr_keep Vol.w ConvLayer.no_filter). reflexivity.
Qed.

Lemma conv_backward_parameters (L L' : ConvLayer.t) (h h' : World) :
  ConvLayer.backward L h = Ok L' h' ->
  Layer.parameters (Layer.Conv L') = Layer.parameters (Layer.Conv L).
Proof.
  unfold ConvLayer.backward. destruct (ConvLayer.in_act L) as [V|]; [|discriminate].
  intros H. apply bind_inv in H. destruct H as (g0 & h1 & _ & H).
  destruct (ConvLayer.out_act L) as [A|].
  - pose proof (conv_backward_loops_weights L V A g0) as W.
    destruct (ConvLayer.backward_loops L V A g0) as [[fs Vdw] bdw]. simpl in W.
    apply ret_inv in H. destruct H as [<- _].
    unfold Layer.parameters, Layer.getParamsAndGrads, ConvLayer.getParamsAndGrads,
      ConvLayer.filter. simpl.
    rewrite !dot_product_parameters. now rewrite W.
  - destruct (ConvLayer.nonempty_output L); [discriminate|].
    apply ret_inv in H. destruct H as [<- _]. reflexivity.
Qed.

Lemma fc_backward_parameters (L L' : FullyConnLayer.t) (h h' : World) :
  FullyConnLayer.backward L h = Ok L' h' ->
  Layer.parameters (Layer.FullyConn L') = Layer.parameters (Layer.FullyConn L).
Proof.
  unfold FullyConnLayer.backward.
  destruct (FullyConnLayer.in_act L) as [V|]; [|discriminate].
  intros H. apply bind_inv in H. destruct H as (g0 & h1 & _ & H).
  destruct (FullyConnLayer.out_act L) as [A|].
  - pose proof (fc_backward_loops_weights L V A g0) as W.
    destruct (FullyConnLayer.backward_loops L V A g0) as [[fs Vdw] bdw]. simpl in W.
    apply ret_inv in H. destruct H as [<- _].
    unfold Layer.parameters, Layer.getParamsAndGrads,
      FullyConnLayer.getParamsAndGrads, FullyConnLayer.filter. simpl.
    rewrite !dot_product_parameters. now rewrite W.
  - destruct (0 <? FullyConnLayer.out_depth L); [discriminate|].
    apply ret_inv in H. destruct H as [<- _]. reflexivity.
Qed.

Lemma layer_forward_parameters (E : ExtLayer.impl) (l l' : Layer.t) (V A : Vol.t)
      (t : bool) (h h' : World) :
  Layer.forward E l V t h = Ok (l', A) h' ->
  Layer.parameters l' = Layer.parameters l.
Proof.
  destruct l as [L|L|L|L]; simpl; intros H;
    apply bind_inv in H; destruct H as (r & h1 & Hf & H);
    apply ret_inv in H; destruct H as [H _]; inversion H; subst; clear H.
  - unfold ConvLayer.forward in Hf. apply bind_inv in Hf.
    destruct Hf as (A0 & h2 & _ & Hf). apply ret_inv in Hf. destruct Hf as [<- _].
    reflexivity.
  - unfold FullyConnLayer.forward in Hf. apply bind_inv in Hf.
    destruct Hf as (A0 & h2 & _ & Hf). apply ret_inv in Hf. destruct Hf as [<- _].
    reflexivity.
  - reflexivity.
  - reflexivity.
Qed.

Lemma layer_backward_parameters (E : ExtLayer.impl) (l l' : Layer.t)
      (y : option ExtLayer.target) (loss : option Q) (h h' : World) :
  Layer.backward E l y h = Ok (l', loss) h' ->
  Layer.parameters l' = Layer.parameters l.
Proof.
  destruct l as [L|L|L|L]; simpl; intros H;
    apply bind_inv in H; destruct H as (r & h1 & Hb & H);
    apply ret_inv in H; destruct H as [H _]; inversion H; subst; clear H.
  - now apply (conv_backward_parameters L r h h1).
  - now apply (fc_backward_parameters L r h h1).
  - reflexivity.
  - reflexivity.
Qed.

Lemma share_parameters (lower upper : Layer.t) :
  Layer.parameters (Net.share lower upper) = Layer.parameters lower.
Proof.
  unfold Net.share. destruct (Layer.in_act upper); [|reflexivity].
  destruct lower; reflexivity.
Qed.

Lemma net_forward_parameters (E : ExtLayer.impl) (N N' : Net.t) (V act : Vol.t)
      (t : option bool) (h h' : World) :
  Net.forward E N V t h = Ok (N', act) h' ->
  map Layer.parameters (Net.layers N') = map Layer.parameters (Net.layers N).
Proof.
  unfold Net.forward. intros H.
  apply bind_inv in H. destruct H as (l0 & h0 & Hitem & H).
  apply item_inv in Hitem. destruct Hitem as (_ & _ & Hl0).
  apply bind_inv in H. destruct H as ([l0' A0] & h1 & Hf & H).
  apply layer_forward_parameters in Hf.
  apply bind_inv in H. destruct H as (st & h2 & Hloop & H).
  apply ret_inv in H. destruct H as [H _]. inversion H; subst; clear H. simpl.
  unfold for_range_js in Hloop.
  refine (fold_js_preserves
            (fun st : list Layer.t * Vol.t =>
               map Layer.parameters (fst st) = map Layer.parameters (Net.layers N))
            _ _ _ _ h1 _ st h2 Hloop).
  - intros i [ls a] h3 st' h4 P Hb. simpl in P.
    apply bind_inv in Hb. destruct Hb as (l & h5 & Hi & Hb).
    apply item_inv in Hi. destruct Hi as (_ & _ & Hl).
    apply bind_inv in Hb. destruct Hb as ([l' A1] & h6 & Hf' & Hb).
    apply layer_forward_parameters in Hf'.
    apply ret_inv in Hb. destruct Hb as [<- _]. simpl.
    rewrite <- P. apply (map_wr_keep Layer.parameters l). now rewrite Hl.
  - intros st0 h3 Hr. apply ret_inv in Hr. destruct Hr as [<- _]. simpl.
    apply (map_wr_keep Layer.parameters l0). now rewrite Hl0.
Qed.

Lemma net_backward_parameters (E : ExtLayer.impl) (N N' : Net.t)
      (y : option ExtLayer.target) (loss : option Q) (h h' : World) :
  Net.backward E N y h = Ok (N', loss) h' ->
  map Layer.parameters (Net.layers N') = map Layer.parameters (Net.layers N).
Proof.
  unfold Net.backward. intros H.
  apply bind_inv in H. destruct H as (last & h0 & Hitem & H).
  apply item_inv in Hitem. destruct Hitem as (_ & _ & Hlast).
  apply bind_inv in H. destruct H as ([last' loss'] & h1 & Hb & H).
  apply layer_backward_parameters in Hb.
  apply bind_inv in H. destruct H as (ls' & h2 & Hloop & H).
  apply ret_inv in H. destruct H as [H _]. inversion H; subst; clear H. simpl.
  unfold for_down_js in Hloop.
  refine (fold_js_preserves
            (fun ls : list Layer.t =>
               map Layer.parameters ls = map Layer.parameters (Net.layers N))
            _ _ _ _ h1 _ ls' h2 Hloop).
  - intros i ls h3 st' h4 P Hstep.
    apply bind_inv in Hstep. destruct Hstep as (l & h5 & Hi & Hstep).
    apply item_inv in Hi. destruct Hi as (_ & _ & Hl).
    apply bind_inv in Hstep. destruct Hstep as (upper & h6 & _ & Hstep).
    apply bind_inv in Hstep. destruct Hstep as ([l' loss1] & h7 & Hb' & Hstep).
    apply layer_backward_parameters in Hb'. rewrite share_parameters in Hb'.
    apply ret_inv in Hstep. destruct Hstep as [<- _]. simpl.
    rewrite <- P. apply (map_wr_keep Layer.parameters l). now rewrite Hl.
  - intros st0 h3 Hr. apply ret_inv in Hr. destruct Hr as [<- _].
    apply (map_wr_keep Layer.parameters last). now rewrite Hlast.
Qed.

(** C7. When the incremented step counter is not a multiple of the batch
    size, a call of [train] whose forward and backward passes return makes no
    parameter update: it returns, the parameter buffers of the network,
    [gsum] and [xsum] are as before, and both decay losses are zero. *)
Theorem train_without_update (E : ExtLayer.impl) (T : Trainer.t) (x : Vol.t)
        (y : option ExtLayer.target) (h h1 h2 : World)
        (N1 N2 : Net.t) (act : Vol.t) (cost_loss : option Q) :
  Z.rem (Trainer.k T + 1) (Trainer.batch_size T) <> 0 ->
  Net.forward E (Trainer.net T) x (Some true) h = Ok (N1, act) h1 ->
  Net.backward E N1 y h1 = Ok (N2, cost_loss) h2 ->
  exists T' r,
    Trainer.train E T x y h = Ok (T', r) h2 /\
    Trainer.net T' = N2 /\
    Trainer.k T' = Trainer.k T + 1 /\
    Trainer.parameters T' = Trainer.parameters T /\
    Trainer.gsum T' = Trainer.gsum T /\
    Trainer.xsum T' = Trainer.xsum T /\
    Trainer.l1_decay_loss r = 0%Q /\
    Trainer.l2_decay_loss r = 0%Q /\
    Trainer.cost_loss r = cost_loss.
Proof.
  intros Hrem Hf Hb.
  assert (B : Trainer.batch_complete (Trainer.k T + 1) (Trainer.batch_size T) = false).
  { unfold Trainer.batch_complete.
    destruct (Z.eqb_spec (Z.rem (Trainer.k T + 1) (Trainer.batch_size T)) 0);
      [contradiction|]. apply andb_false_r. }
  unfold Trainer.train.
  rewrite (bind_ok _ _ _ _ _ Hf). simpl fst.
  rewrite (bind_ok _ _ _ _ _ Hb). simpl fst. simpl snd. rewrite B.
  eexists. eexists. split; [reflexivity|]. simpl.
  repeat split.
  unfold Trainer.parameters. simpl. rewrite !Net_parameters_concat.
  f_equal.
  rewrite (net_backward_parameters E N1 N2 y cost_loss h1 h2 Hb).
  exact (net_forward_parameters E (Trainer.net T) N1 x act (Some true) h h1 Hf).
Qed.

Lemma train_without_update_witness :
  Z.rem (Trainer.k Sample.trainer + 1) (Trainer.batch_size Sample.trainer) <> 0 /\
  exists N1 act h1 N2 cost_loss h2,
    Net.forward Sample.ext (Trainer.net Sample.trainer) Sample.example (Some true)
                Sample.host = Ok (N1, act) h1 /\
    Net.backward Sample.ext N1 None h1 = Ok (N2, cost_loss) h2 /\
    exists T' r,
      Trainer.train Sample.ext Sample.trainer Sample.example None Sample.host
      = Ok (T', r) h2 /\
      Trainer.net T' = N2 /\
      Trainer.k T' = Trainer.k Sample.trainer + 1 /\
      Trainer.parameters T' = Trainer.parameters Sample.trainer /\
      Trainer.gsum T' = Trainer.gsum Sample.trainer /\
      Trainer.xsum T' = Trainer.xsum Sample.trainer /\
      Trainer.l1_decay_loss r = 0%Q /\
      Trainer.l2_decay_loss r = 0%Q /\
      Trainer.cost_loss r = cost_loss.
Proof.
  assert (R : Z.rem (Trainer.k Sample.trainer + 1) (Trainer.batch_size Sample.trainer)
              <> 0) by (intros C; discriminate C).
  split; [exact R|].
  eassert (F : Net.forward Sample.ext (Trainer.net Sample.trainer) Sample.example
                 (Some true) Sample.host = Ok (_, _) _)
    by (vm_compute; reflexivity).
  match type of F with
  | _ = Ok (?N1, _) ?h1 =>
      eassert (B : Net.backward Sample.ext N1 None h1 = Ok (_, _) _)
        by (vm_compute; reflexivity)
  end.
  eexists. eexists. eexists. eexists. eexists. eexists.
  split; [exact F|]. split; [exact B|].
  exact (train_without_update Sample.ext Sample.trainer Sample.example None
           _ _ _ _ _ _ _ R F B).
Defined.

(** ** The constructors establish the shapes the theorems assume *)

Lemma ConvLayer_new_wf (opt : Opt.t) (h h' : World) (L : ConvLayer.t) :
  0 <= Opt.filters opt -> 0 <= Opt.sx opt ->
  0 <= Opt.or_default (Opt.sy opt) (Opt.sx opt) -> 0 <= Opt.in_depth opt ->
  ConvLayer.new opt h = Ok L h' ->
  ConvLayer.wf L.
Proof.
  intros Hf Hsx Hsy Hd H.
  assert (Hsz : 0 <= Opt.sx opt * Opt.or_default (Opt.sy opt) (Opt.sx opt)
                     * Opt.in_depth opt)
    by (apply Z.mul_nonneg_nonneg; [apply Z.mul_nonneg_nonneg|]; assumption).
  destruct (filter_bank_ok _ _ _ _ h Hf Hsz) as (fs & h1 & E1 & _ & Hlen & Hfs).
  destruct (Vol_new_const_ok 1 1 (Opt.filters opt)
              (Opt.or_default (Opt.bias_pref opt) 0%Q) h1)
    as (B & EB & B1 & B2 & B3 & B4 & B5 & _); [lia|].
  unfold ConvLayer.new in H.
  rewrite (bind_ok _ _ _ _ _ E1), (bind_ok _ _ _ _ _ EB) in H.
  apply ret_inv in H. destruct H as [<- _].
  unfold ConvLayer.wf. simpl.
  split; [assumption|]. split; [assumption|]. split.
  - intros f Hin. destruct (Hfs f Hin) as (F1 & F2 & F3 & F4 & F5).
    unfold Vol.wf. rewrite F1, F2, F3. auto 10.
  - unfold Vol.wf. rewrite B1, B2, B3, B5.
    rewrite len_repeat by lia. repeat split; (lia || assumption).
Qed.


(* ================================================================== *)
(** ** Array utilities *)

Lemma for_range_ext {S} (lo hi : Z) (b1 b2 : Z -> S -> S) (s : S) :
  (forall i st, lo <= i < hi -> b1 i st = b2 i st) ->
  for_range lo hi b1 s = for_range lo hi b2 s.
Proof.
  intros H.
  destruct (Z_le_gt_dec lo hi) as [Hle | Hgt].
  - apply (for_range_ind (fun i st => st = for_range lo i b2 s) lo hi b1 s Hle).
    + now rewrite for_range_nil by lia.
    + intros i st Hi ->. rewrite for_range_snoc by lia. now apply H.
  - now rewrite !for_range_nil by lia.
Qed.

Lemma elem_app_left {A} (l1 l2 : list A) (i : Z) :
  0 <= i < len l1 -> Util.elem (l1 ++ l2) i = Util.elem l1 i.
Proof.
  intros Hi. unfold Util.elem, len in *.
  destruct (i <? 0) eqn:B; [reflexivity|].
  apply nth_error_app1. lia.
Qed.

Lemma elem_app_last {A} (l : list A) (a : A) (rest : list A) :
  Util.elem (l ++ a :: rest) (len l) = Some a.
Proof.
  unfold Util.elem, len.
  destruct (Z.of_nat (List.length l) <? 0) eqn:B; [apply Z.ltb_lt in B; lia|].
  rewrite Nat2Z.id, nth_error_app2 by lia.
  now rewrite Nat.sub_diag.
Qed.

(** A loop over the indices of a list that reads only the current element
    is a left fold over the list. *)
Lemma for_elems {A S} (f : A -> S -> S) (l : list A) (s : S) :
  for_ (len l) (fun i st => match Util.elem l i with
                            | Some a => f a st
                            | None => st
                            end) s
  = fold_left (fun st a => f a st) l s.
Proof.
  induction l as [|a l IH] using rev_ind; [reflexivity|].
  rewrite len_app. change (len [a]) with 1.
  unfold for_ in *. rewrite for_range_snoc by apply len_nonneg.
  rewrite elem_app_last, fold_left_app. simpl. f_equal.
  rewrite <- IH. apply for_range_ext.
  intros i st Hi. now rewrite elem_app_left.
Qed.

Section ArrayUtilities.

Context {A : Type}.
Variable eqb : A -> A -> bool.
Hypothesis eqb_spec : forall a b, eqb a b = true <-> a = b.

Lemma arrContains_existsb (arr : list A) (elt : A) :
  Util.arrContains eqb arr elt = existsb (fun a => eqb a elt) arr.
Proof.
  unfold Util.arrContains.
  transitivity
    (fold_left (fun (found : bool) a => if found then true else eqb a elt) arr false).
  { rewrite <- (for_elems (fun a (found : bool) => if found then true else eqb a elt)).
    apply for_range_ext. intros i st _.
    destruct st, (Util.elem arr i); reflexivity. }
  assert (G : forall l b,
             fold_left (fun (found : bool) a => if found then true else eqb a elt) l b
             = b || existsb (fun a => eqb a elt) l).
  { induction l as [|a l IH]; intros b; simpl.
    - now rewrite orb_false_r.
    - rewrite IH. destruct b; reflexivity. }
  apply G.
Qed.

Lemma arrContains_In (arr : list A) (elt : A) :
  Util.arrContains eqb arr elt = true <-> In elt arr.
Proof.
  rewrite arrContains_existsb, existsb_exists. split.
  - intros (a & Ha & E). apply eqb_spec in E. now subst.
  - intros H. exists elt. split; [exact H|]. now apply eqb_spec.
Qed.

Lemma arrUnique_fold (arr : list A) :
  Util.arrUnique eqb arr
  = fold_left (fun b a => if Util.arrContains eqb b a then b else b ++ [a]) arr [].
Proof.
  unfold Util.arrUnique.
  apply (for_elems (fun a b => if Util.arrContains eqb b a then b else b ++ [a])).
Qed.

Lemma unique_fold (l b : list A) :
  NoDup b ->
  let r := fold_left (fun b a => if Util.arrContains eqb b a then b else b ++ [a]) l b in
  NoDup r /\ (forall x, In x r <-> In x b \/ In x l) /\
  (NoDup (b ++ l) -> r = b ++ l).
Proof.
  revert b. induction l as [|a l IH]; intros b Hb; simpl.
  - split; [exact Hb|]. split; [intros x; tauto|]. intros _. now rewrite app_nil_r.
  - destruct (Util.arrContains eqb b a) eqn:C.
    + apply arrContains_In in C.
      destruct (IH b Hb) as (N & I & K). split; [exact N|]. split.
      * intros x. rewrite I. split; [tauto|]. intros [H|[H|H]]; subst; tauto.
      * intros D. exfalso. apply NoDup_remove_2 in D. apply D.
        apply in_or_app. now left.
    + assert (Hn : ~ In a b).
      { intros H. apply arrContains_In in H. congruence. }
      assert (Hb' : NoDup (b ++ [a])).
      { apply NoDup_app; [exact Hb | repeat constructor; intros [] |].
        intros x Hx [E | []]. now subst. }
      destruct (IH (b ++ [a]) Hb') as (N & I & K). split; [exact N|]. split.
      * intros x. rewrite I, in_app_iff. simpl. tauto.
      * intros D. rewrite <- app_assoc in K. simpl in K. now apply K.
Qed.

End ArrayUtilities.

(** X1 -- [arrContains] and [arrUnique].  When [===] on the elements decides
    equality, [arrContains(arr, elt)] is true exactly when [elt] occurs in
    [arr]; [arrUnique(arr)] has no duplicates and exactly the elements of
    [arr]; it returns a duplicate-free list as it is, and applying it twice
    is applying it once. *)
Theorem arrUnique_removes_duplicates {A : Type} (eqb : A -> A -> bool) :
  (forall a b, eqb a b = true <-> a = b) ->
  forall arr : list A,
    (forall elt, Util.arrContains eqb arr elt = true <-> In elt arr) /\
    NoDup (Util.arrUnique eqb arr) /\
    (forall x, In x (Util.arrUnique eqb arr) <-> In x arr) /\
    (NoDup arr -> Util.arrUnique eqb arr = arr) /\
    Util.arrUnique eqb (Util.arrUnique eqb arr) = Util.arrUnique eqb arr.
Proof.
  intros Heq arr.
  destruct (unique_fold eqb Heq arr [] (NoDup_nil A)) as (N & I & K).
  rewrite <- arrUnique_fold in N, I, K. simpl in I, K.
  split; [intros elt; now apply arrContains_In|].
  split; [exact N|]. split; [intros x; rewrite I; tauto|]. split; [exact K|].
  destruct (unique_fold eqb Heq (Util.arrUnique eqb arr) [] (NoDup_nil A))
    as (_ & _ & K').
  rewrite <- arrUnique_fold in K'. now apply K'.
Qed.

Lemma arrUnique_witness :
  Util.arrContains Z.eqb [3; 1; 3; 2; 1] 2 = true /\
  Util.arrUnique Z.eqb [3; 1; 3; 2; 1] = [3; 1; 2] /\
  NoDup (Util.arrUnique Z.eqb [3; 1; 3; 2; 1]) /\
  (forall x, In x (Util.arrUnique Z.eqb [3; 1; 3; 2; 1]) <-> In x [3; 1; 3; 2; 1]).
Proof.
  pose proof (arrUnique_removes_duplicates Z.eqb Z.eqb_eq [3; 1; 3; 2; 1])
    as (_ & N & I & _).
  split; [reflexivity|]. split; [reflexivity|]. split; [exact N | exact I].
Defined.

Lemma maxmin_loop (w : list Q) :
  0 < len w ->
  let r := for_range 1 (len w) (fun i '(maxv, maxi, minv, mini) =>
             let '(maxv, maxi) :=
               if gt (rd 0%Q w i) maxv then (rd 0%Q w i, i) else (maxv, maxi) in
             let '(minv, mini) :=
               if gt minv (rd 0%Q w i) then (rd 0%Q w i, i) else (minv, mini) in
             (maxv, maxi, minv, mini))
             (rd 0%Q w 0, 0, rd 0%Q w 0, 0) in
  let maxv := fst (fst (fst r)) in
  let maxi := snd (fst (fst r)) in
  let minv := snd (fst r) in
  let mini := snd r in
  (0 <= maxi < len w /\ maxv = rd 0%Q w maxi /\
   (forall j, 0 <= j < len w -> (rd 0%Q w j <= maxv)%Q) /\
   (forall j, 0 <= j < maxi -> (rd 0%Q w j < maxv)%Q)) /\
  (0 <= mini < len w /\ minv = rd 0%Q w mini /\
   (forall j, 0 <= j < len w -> (minv <= rd 0%Q w j)%Q) /\
   (forall j, 0 <= j < mini -> (minv < rd 0%Q w j)%Q)).
Proof.
  intros Hn.
  set (P := fun (n : Z) (st : Q * Z * Q * Z) =>
    let maxv := fst (fst (fst st)) in
    let maxi := snd (fst (fst st)) in
    let minv := snd (fst st) in
    let mini := snd st in
    (0 <= maxi < n /\ maxv = rd 0%Q w maxi /\
     (forall j, 0 <= j < n -> (rd 0%Q w j <= maxv)%Q) /\
     (forall j, 0 <= j < maxi -> (rd 0%Q w j < maxv)%Q)) /\
    (0 <= mini < n /\ minv = rd 0%Q w mini /\
     (forall j, 0 <= j < n -> (minv <= rd 0%Q w j)%Q) /\
     (forall j, 0 <= j < mini -> (minv < rd 0%Q w j)%Q))).
  cbv zeta.
  match goal with |- context [for_range 1 (len w) ?b ?s] =>
    apply (for_range_ind P 1 (len w) b s)
  end; [lia | |].
  - unfold P; simpl. split.
    + split; [lia|]. split; [reflexivity|]. split.
      * intros j Hj. assert (j = 0) by lia. subst. apply Qle_refl.
      * intros j Hj. lia.
    + split; [lia|]. split; [reflexivity|]. split.
      * intros j Hj. assert (j = 0) by lia. subst. apply Qle_refl.
      * intros j Hj. lia.
  - intros i [[[maxv maxi] minv] mini] Hi
           ((Hmi & Hmv & Hmax & Hfirst) & (Hni & Hnv & Hmin & Hlast)).
    simpl in Hmi, Hmv, Hmax, Hfirst, Hni, Hnv, Hmin, Hlast.
    unfold P.
    destruct (gt (rd 0%Q w i) maxv) eqn:G1; destruct (gt minv (rd 0%Q w i)) eqn:G2;
      simpl; (split; [split; [lia|]; split; [try reflexivity; try assumption|]; split
                     | split; [lia|]; split; [try reflexivity; try assumption|]; split]).
    all: try (apply gt_true in G1); try (apply gt_false in G1);
         try (apply gt_true in G2); try (apply gt_false in G2).
    all: intros j Hj.
    all: try (destruct (Z.eq_dec j i) as [-> | Hne];
              [first [apply Qle_refl | assumption | now apply Qlt_le_weak]
              | first [ apply Qle_trans with maxv; [apply Hmax; lia | now apply Qlt_le_weak]
                      | apply Qle_trans with minv; [now apply Qlt_le_weak | apply Hmin; lia]
                      | apply Hmax; lia | apply Hmin; lia ]]).
    all: try (apply Qle_lt_trans with maxv; [apply Hmax; lia | assumption]).
    all: try (apply Qlt_le_trans with minv; [assumption | apply Hmin; lia]).
    all: try (apply Hfirst; lia).
    all: try (apply Hlast; lia).
Qed.

(** X2 -- [maxmin].  An empty list gives the empty object.  For a
    non-empty list the result holds the largest and the smallest value, each
    with the index of its first occurrence (both comparisons are strict),
    and [dv] is their difference, which is never negative. *)
Theorem maxmin_first_extremes (w : list Q) :
  (len w = 0 -> Util.maxmin w = None) /\
  (0 < len w ->
   exists r, Util.maxmin w = Some r /\
     (0 <= Util.maxi r < len w /\ Util.maxv r = rd 0%Q w (Util.maxi r) /\
      (forall j, 0 <= j < len w -> (rd 0%Q w j <= Util.maxv r)%Q) /\
      (forall j, 0 <= j < Util.maxi r -> (rd 0%Q w j < Util.maxv r)%Q)) /\
     (0 <= Util.mini r < len w /\ Util.minv r = rd 0%Q w (Util.mini r) /\
      (forall j, 0 <= j < len w -> (Util.minv r <= rd 0%Q w j)%Q) /\
      (forall j, 0 <= j < Util.mini r -> (Util.minv r < rd 0%Q w j)%Q)) /\
     Util.dv r = (Util.maxv r - Util.minv r)%Q /\
     (0 <= Util.dv r)%Q).
Proof.
  split.
  - intros E. unfold Util.maxmin. now rewrite E.
  - intros Hn. pose proof (maxmin_loop w Hn) as H. cbv zeta in H.
    unfold Util.maxmin.
    destruct (len w =? 0) eqn:B; [apply Z.eqb_eq in B; lia|].
    match type of H with context [for_range 1 (len w) ?b ?s] =>
      destruct (for_range 1 (len w) b s) as [[[maxv maxi] minv] mini]
    end.
    simpl in H. destruct H as (Hmax & Hmin).
    eexists. split; [reflexivity|]. simpl.
    split; [exact Hmax|]. split; [exact Hmin|]. split; [reflexivity|].
    destruct Hmax as (Hi & Hv & Hall & _). destruct Hmin as (Hmi & Hv' & _).
    unfold Qminus. rewrite <- Qle_minus_iff. rewrite Hv'. apply Hall.
    exact Hmi.
Qed.

Lemma maxmin_witness :
  Util.maxmin [] = None /\
  exists r, Util.maxmin [2; 5; 1; 5; 1]%Q = Some r /\
    Util.maxi r = 1 /\ Util.mini r = 2 /\
    (forall j, 0 <= j < 5 -> (rd 0%Q [2; 5; 1; 5; 1]%Q j <= Util.maxv r)%Q).
Proof.
  split.
  - apply (proj1 (maxmin_first_extremes [])). reflexivity.
  - destruct (proj2 (maxmin_first_extremes [2; 5; 1; 5; 1]%Q)) as (r & E & M & _).
    + reflexivity.
    + exists r. split; [exact E|].
      assert (R : Some r = Util.maxmin [2; 5; 1; 5; 1]%Q) by (symmetry; exact E).
      vm_compute in R. injection R as ->. simpl.
      split; [reflexivity|]. split; [reflexivity|].
      destruct M as (_ & _ & Hall & _). exact Hall.
Defined.

Lemma getopt_fold {A} (opt : string -> option A) (fs : list string) (d : A) :
  Util.getopt opt (Util.Several fs) d
  = fold_left (fun ret f => match opt f with Some v => v | None => ret end) fs d.
Proof.
  unfold Util.getopt.
  apply (for_elems (fun f ret => match opt f with Some v => v | None => ret end)).
Qed.

(** X3 -- [getopt].  With a list of field names the value of the last
    listed field that [opt] defines is returned, and the default when [opt]
    defines none of them; a one-name list behaves as the name alone. *)
Theorem getopt_last_defined_wins {A} (opt : string -> option A) (d : A) :
  (forall f, Util.getopt opt (Util.Several [f]) d = Util.getopt opt (Util.Single f) d) /\
  (forall fs, (forall f, In f fs -> opt f = None) ->
     Util.getopt opt (Util.Several fs) d = d) /\
  (forall pre f v post,
     opt f = Some v -> (forall g, In g post -> opt g = None) ->
     Util.getopt opt (Util.Several (pre ++ f :: post)) d = v).
Proof.
  assert (N : forall fs r, (forall f, In f fs -> opt f = None) ->
            fold_left (fun ret f => match opt f with Some v => v | None => ret end) fs r
            = r).
  { induction fs as [|f fs IH]; intros r H; simpl; [reflexivity|].
    rewrite (H f) by now left. apply IH. intros g Hg. apply H. now right. }
  split; [intros f; reflexivity|]. split.
  - intros fs H. rewrite getopt_fold. now apply N.
  - intros pre f v post Hf Hpost. rewrite getopt_fold, fold_left_app. simpl.
    rewrite Hf. now apply N.
Qed.

Lemma getopt_witness :
  let opt := fun f : string =>
    if String.eqb f "sx" then Some 5 else if String.eqb f "filters" then Some 8 else None in
  Util.getopt opt (Util.Several ["pad"; "stride"]%string) 1 = 1 /\
  Util.getopt opt (Util.Several (["filters"%string] ++ "sx"%string :: ["pad"%string])%list) 1 = 5.
Proof.
  intros opt.
  destruct (getopt_last_defined_wins opt 1) as (_ & H0 & H1).
  split.
  - apply H0. intros f [<- | [<- | []]]; reflexivity.
  - apply H1; [reflexivity|]. intros g [<- | []]. reflexivity.
Defined.

(* ================================================================== *)
(** ** Tensors: constructors, cell accessors, bulk updates *)

Lemma for_update {A} (d : A) (f : Z -> A -> A) (n : Z) (l : list A) :
  len l = n ->
  len (for_ n (fun i b => wr b i (f i (rd d b i))) l) = n /\
  forall j, 0 <= j < n ->
    rd d (for_ n (fun i b => wr b i (f i (rd d b i))) l) j = f j (rd d l j).
Proof.
  intros Hl.
  assert (Hn : 0 <= n) by (rewrite <- Hl; apply len_nonneg).
  pose (P := fun (i : Z) (b : list A) =>
               len b = n /\
               (forall j, 0 <= j < i -> rd d b j = f j (rd d l j)) /\
               (forall j, i <= j < n -> rd d b j = rd d l j)).
  assert (H : P n (for_ n (fun i b => wr b i (f i (rd d b i))) l)).
  { apply for_ind; [exact Hn | |].
    - split; [exact Hl|]. split; [intros j Hj; lia | reflexivity].
    - intros i b Hi (Hb & Hdone & Hrest). split; [now rewrite len_wr|]. split.
      + intros j Hj. destruct (Z.eq_dec j i) as [-> | Hne].
        * rewrite rd_wr_same by lia. now rewrite Hrest by lia.
        * rewrite rd_wr_other by lia. apply Hdone. lia.
      + intros j Hj. rewrite rd_wr_other by lia. apply Hrest. lia. }
  destruct H as (H1 & H2 & _). split; [exact H1 | exact H2].
Qed.

Lemma wf_shaped (V : Vol.t) :
  Vol.wf V -> Spec.shaped V (Vol.sx V) (Vol.sy V) (Vol.depth V).
Proof. intros (_ & _ & _ & Hw & _). repeat split; auto. Qed.

Lemma wf_framed (V : Vol.t) : Vol.wf V -> Spec.framed V V.
Proof. intros (_ & _ & _ & _ & Hdw). repeat split; auto. Qed.

(** X4 -- the [Vol] constructor with a fill value.  For non-negative
    sizes it never throws and builds a tensor that satisfies the data-model
    invariant, reads the fill value at every cell and has a zero gradient
    at every cell; when the product of the sizes is negative it throws a
    [RangeError]. *)
Theorem Vol_constructor_invariant (sx sy depth : Z) (c : Q) (h : World) :
  (0 <= sx -> 0 <= sy -> 0 <= depth ->
   exists V, Vol.new_const sx sy depth c h = Ok V h /\ Vol.wf V /\
     Vol.sx V = sx /\ Vol.sy V = sy /\ Vol.depth V = depth /\
     forall x y d, 0 <= x < sx -> 0 <= y < sy -> 0 <= d < depth ->
       Vol.get V x y d = c /\ Vol.get_grad V x y d = 0%Q) /\
  (sx * sy * depth < 0 -> Vol.new_const sx sy depth c h = Throw RangeError).
Proof.
  split.
  - intros Hx Hy Hd.
    assert (Hn : 0 <= sx * sy * depth)
      by (apply Z.mul_nonneg_nonneg; [apply Z.mul_nonneg_nonneg|]; lia).
    destruct (Vol_new_const_ok sx sy depth c h Hn)
      as (V & E & S1 & S2 & S3 & S4 & S5 & S6).
    exists V. split; [exact E|]. split.
    { unfold Vol.wf. rewrite S1, S2, S3, S5, S4.
      rewrite len_repeat by exact Hn. repeat split; auto. }
    split; [exact S1|]. split; [exact S2|]. split; [exact S3|].
    intros x y d Hx' Hy' Hd'. unfold Vol.get, Vol.get_grad, Vol.ix.
    rewrite S1, S3, S5. split.
    + apply S6. now apply ix_bound.
    + apply rd_repeat.
  - intros Hneg. unfold Vol.new_const, zeros, zeros_of, bind.
    destruct (sx * sy * depth <? 0) eqn:B; [reflexivity|].
    apply Z.ltb_ge in B. lia.
Qed.

Lemma Vol_constructor_witness :
  (exists V, Vol.new_const 2 3 4 (1 # 2) Sample.host = Ok V Sample.host /\ Vol.wf V /\
     Vol.get V 1 2 3 = (1 # 2)%Q /\ Vol.get_grad V 1 2 3 = 0%Q) /\
  Vol.new_const 2 (-3) 4 (1 # 2) Sample.host = Throw RangeError.
Proof.
  split.
  - destruct (proj1 (Vol_constructor_invariant 2 3 4 (1 # 2) Sample.host))
      as (V & E & W & _ & _ & _ & C); [lia | lia | lia |].
    exists V. split; [exact E|]. split; [exact W|]. apply C; lia.
  - apply (proj2 (Vol_constructor_invariant 2 (-3) 4 (1 # 2) Sample.host)). lia.
Defined.

(** X5 -- the [Vol] constructor with a list.  It never throws and builds a
    [1 x 1 x length] tensor whose values are the list, in order, and whose
    gradient is zero. *)
Theorem Vol_from_array (l : list Q) (h : World) :
  exists V, Vol.new_array l h = Ok V h /\
    Vol.sx V = 1 /\ Vol.sy V = 1 /\ Vol.depth V = len l /\
    Vol.w V = l /\ Vol.dw V = repeat 0%Q (List.length l) /\
    Vol.wf V /\
    forall i, 0 <= i < len l -> Vol.get V 0 0 i = rd 0%Q l i.
Proof.
  pose proof (len_nonneg l) as Hn.
  unfold Vol.new_array.
  rewrite (bind_ok _ _ _ _ _ (zeros_ok (len l) h Hn)).
  rewrite (bind_ok _ _ _ _ _ (zeros_ok (len l) h Hn)).
  destruct (for_fill 0%Q (fun i => rd 0%Q l i) (len l)
              (repeat 0%Q (Z.to_nat (len l))) (len_repeat _ _ Hn)) as (Hlen & Hval).
  assert (Hw : for_ (len l) (fun i w => wr w i (rd 0%Q l i))
                 (repeat 0%Q (Z.to_nat (len l))) = l).
  { apply (buffer_ext 0%Q); [exact Hlen|]. intros i Hi. apply Hval. lia. }
  eexists. split; [reflexivity|]. simpl. rewrite Hw.
  split; [reflexivity|]. split; [reflexivity|]. split; [reflexivity|].
  split; [reflexivity|]. split; [unfold len; now rewrite Nat2Z.id|]. split.
  - unfold Vol.wf. cbn [Vol.sx Vol.sy Vol.depth Vol.w Vol.dw].
    rewrite len_repeat by exact Hn. repeat split; lia.
  - intros i Hi. unfold Vol.get, Vol.ix. simpl. f_equal; lia.
Qed.

(** X6 -- cell accessors.  On a tensor that satisfies the invariant and
    at a coordinate inside it: [get] after [set] reads the value written and
    [get] after [add] reads the old value plus the increment; every other
    cell reads as before; the gradient buffer is untouched, and the invariant
    is kept.  The same holds of [get_grad], [set_grad] and [add_grad] on the
    gradient buffer, which leave the values untouched. *)
Theorem Vol_cell_accessors (V : Vol.t) (x y d : Z) (v : Q) :
  Vol.wf V -> 0 <= x < Vol.sx V -> 0 <= y < Vol.sy V -> 0 <= d < Vol.depth V ->
  (Vol.wf (Vol.set V x y d v) /\ Vol.wf (Vol.add V x y d v) /\
   Vol.get (Vol.set V x y d v) x y d = v /\
   Vol.get (Vol.add V x y d v) x y d = (Vol.get V x y d + v)%Q /\
   Vol.dw (Vol.set V x y d v) = Vol.dw V /\ Vol.dw (Vol.add V x y d v) = Vol.dw V /\
   forall x' y' d',
     0 <= x' < Vol.sx V -> 0 <= y' < Vol.sy V -> 0 <= d' < Vol.depth V ->
     (x', y', d') <> (x, y, d) ->
     Vol.get (Vol.set V x y d v) x' y' d' = Vol.get V x' y' d' /\
     Vol.get (Vol.add V x y d v) x' y' d' = Vol.get V x' y' d') /\
  (Vol.wf (Vol.set_grad V x y d v) /\ Vol.wf (Vol.add_grad V x y d v) /\
   Vol.get_grad (Vol.set_grad V x y d v) x y d = v /\
   Vol.get_grad (Vol.add_grad V x y d v) x y d = (Vol.get_grad V x y d + v)%Q /\
   Vol.w (Vol.set_grad V x y d v) = Vol.w V /\ Vol.w (Vol.add_grad V x y d v) = Vol.w V /\
   forall x' y' d',
     0 <= x' < Vol.sx V -> 0 <= y' < Vol.sy V -> 0 <= d' < Vol.depth V ->
     (x', y', d') <> (x, y, d) ->
     Vol.get_grad (Vol.set_grad V x y d v) x' y' d' = Vol.get_grad V x' y' d' /\
     Vol.get_grad (Vol.add_grad V x y d v) x' y' d' = Vol.get_grad V x' y' d').
Proof.
  intros W Hx Hy Hd.
  pose proof W as (Hsx & Hsy & Hdp & Hw & Hdw).
  pose proof (ix_bound (Vol.sx V) (Vol.sy V) (Vol.depth V) x y d Hx Hy Hd) as Hix.
  assert (Hother : forall x' y' d',
            0 <= x' < Vol.sx V -> 0 <= d' < Vol.depth V ->
            (x', y', d') <> (x, y, d) -> Vol.ix V x y d <> Vol.ix V x' y' d').
  { intros x' y' d' Hx' Hd' Hne E. unfold Vol.ix in E.
    destruct (ix_injective (Vol.sx V) (Vol.depth V) x y d x' y' d')
      as (E1 & E2 & E3); try assumption.
    apply Hne. congruence. }
  split.
  - split; [unfold Vol.wf, Vol.set; simpl; rewrite len_wr; tauto|].
    split; [unfold Vol.wf, Vol.add; simpl; rewrite len_wr; tauto|].
    split; [unfold Vol.get, Vol.set, Vol.ix; simpl; apply rd_wr_same; lia|].
    split; [unfold Vol.get, Vol.add, Vol.ix; simpl; apply rd_wr_same; lia|].
    split; [reflexivity|]. split; [reflexivity|].
    intros x' y' d' Hx' Hy' Hd' Hne.
    unfold Vol.get, Vol.set, Vol.add. simpl.
    change (Vol.ix (Vol.mk (Vol.sx V) (Vol.sy V) (Vol.depth V)
                      (wr (Vol.w V) (Vol.ix V x y d) v) (Vol.dw V)) x' y' d')
      with (Vol.ix V x' y' d').
    change (Vol.ix (Vol.mk (Vol.sx V) (Vol.sy V) (Vol.depth V)
                      (wr (Vol.w V) (Vol.ix V x y d)
                          (rd 0%Q (Vol.w V) (Vol.ix V x y d) + v)%Q) (Vol.dw V)) x' y' d')
      with (Vol.ix V x' y' d').
    split; apply rd_wr_other; now apply Hother.
  - split; [unfold Vol.wf, Vol.set_grad; simpl; rewrite len_wr; tauto|].
    split; [unfold Vol.wf, Vol.add_grad; simpl; rewrite len_wr; tauto|].
    split; [unfold Vol.get_grad, Vol.set_grad, Vol.ix; simpl; apply rd_wr_same; lia|].
    split; [unfold Vol.get_grad, Vol.add_grad, Vol.ix; simpl; apply rd_wr_same; lia|].
    split; [reflexivity|]. split; [reflexivity|].
    intros x' y' d' Hx' Hy' Hd' Hne.
    unfold Vol.get_grad, Vol.set_grad, Vol.add_grad. simpl.
    change (Vol.ix (Vol.mk (Vol.sx V) (Vol.sy V) (Vol.depth V) (Vol.w V)
                      (wr (Vol.dw V) (Vol.ix V x y d) v)) x' y' d')
      with (Vol.ix V x' y' d').
    change (Vol.ix (Vol.mk (Vol.sx V) (Vol.sy V) (Vol.depth V) (Vol.w V)
                      (wr (Vol.dw V) (Vol.ix V x y d)
                          (rd 0%Q (Vol.dw V) (Vol.ix V x y d) + v)%Q)) x' y' d')
      with (Vol.ix V x' y' d').
    split; apply rd_wr_other; now apply Hother.
Qed.

Lemma Vol_cell_accessors_witness :
  Vol.get (Vol.set Sample.image 1 2 0 (7 # 2)) 1 2 0 = (7 # 2)%Q /\
  Vol.get (Vol.add Sample.image 1 2 0 (7 # 2)) 1 2 0
  = (Vol.get Sample.image 1 2 0 + (7 # 2))%Q /\
  Vol.get_grad (Vol.add_grad Sample.image 1 2 0 (7 # 2)) 1 2 0
  = (Vol.get_grad Sample.image 1 2 0 + (7 # 2))%Q.
Proof.
  assert (W : Vol.wf Sample.image) by (vm_compute; repeat split; discriminate).
  destruct (Vol_cell_accessors Sample.image 1 2 0 (7 # 2) W)
    as ((_ & _ & G1 & G2 & _) & (_ & _ & _ & G3 & _)); simpl; try lia.
  split; [exact G1|]. split; [exact G2 | exact G3].
Defined.

(** X7 -- [clone] and [cloneAndZero].  On a tensor that satisfies the
    invariant neither throws; both keep the dimensions and return a tensor
    with a zero gradient buffer.  [clone] copies the values and does not
    copy the gradient; [cloneAndZero] has zero values. *)
Theorem Vol_clone_copies_values (V : Vol.t) (h : World) :
  Vol.wf V ->
  let n := Vol.sx V * Vol.sy V * Vol.depth V in
  (exists C, Vol.clone V h = Ok C h /\ Vol.wf C /\
     Vol.sx C = Vol.sx V /\ Vol.sy C = Vol.sy V /\ Vol.depth C = Vol.depth V /\
     Vol.w C = Vol.w V /\ Vol.dw C = repeat 0%Q (Z.to_nat n)) /\
  (exists C, Vol.cloneAndZero V h = Ok C h /\ Vol.wf C /\
     Vol.sx C = Vol.sx V /\ Vol.sy C = Vol.sy V /\ Vol.depth C = Vol.depth V /\
     Vol.w C = repeat 0%Q (Z.to_nat n) /\ Vol.dw C = repeat 0%Q (Z.to_nat n)).
Proof.
  intros (Hsx & Hsy & Hdp & Hw & Hdw) n. subst n.
  assert (Hn : 0 <= Vol.sx V * Vol.sy V * Vol.depth V)
    by (rewrite <- Hw; apply len_nonneg).
  destruct (Vol_new_const_ok (Vol.sx V) (Vol.sy V) (Vol.depth V) 0 h Hn)
    as (C0 & E & S1 & S2 & S3 & S4 & S5 & S6).
  split.
  - unfold Vol.clone. rewrite (bind_ok _ _ _ _ _ E).
    destruct (for_fill 0%Q (fun i => rd 0%Q (Vol.w V) i) (len (Vol.w V)) (Vol.w C0))
      as (Hlen & Hval); [congruence|].
    assert (Hc : for_ (len (Vol.w V)) (fun i w' => wr w' i (rd 0%Q (Vol.w V) i)) (Vol.w C0)
                 = Vol.w V).
    { apply (buffer_ext 0%Q); [exact Hlen|]. intros i Hi. apply Hval. lia. }
    eexists. split; [reflexivity|].
    cbn [Vol.sx Vol.sy Vol.depth Vol.w Vol.dw]. rewrite Hc, S1, S2, S3, S5.
    split.
    { unfold Vol.wf. cbn [Vol.sx Vol.sy Vol.depth Vol.w Vol.dw].
      rewrite len_repeat by exact Hn. repeat split; auto. }
    repeat split; reflexivity.
  - unfold Vol.cloneAndZero. exists C0. split; [exact E|].
    split.
    { unfold Vol.wf. rewrite S1, S2, S3, S5.
      rewrite len_repeat by exact Hn. repeat split; auto. }
    split; [exact S1|]. split; [exact S2|]. split; [exact S3|]. split; [|exact S5].
    apply (buffer_ext 0%Q).
    + rewrite len_repeat by exact Hn. exact S4.
    + intros i Hi. rewrite rd_repeat. apply S6. lia.
Qed.

Lemma Vol_clone_witness :
  Vol.wf (Vol.mk 2 1 2 [1; 2; 3; 4]%Q [5; 6; 7; 8]%Q) /\
  exists C, Vol.clone (Vol.mk 2 1 2 [1; 2; 3; 4]%Q [5; 6; 7; 8]%Q) Sample.host
            = Ok C Sample.host /\
    Vol.w C = [1; 2; 3; 4]%Q /\ Vol.dw C = [0; 0; 0; 0]%Q.
Proof.
  assert (W : Vol.wf (Vol.mk 2 1 2 [1; 2; 3; 4]%Q [5; 6; 7; 8]%Q))
    by (vm_compute; repeat split; discriminate).
  split; [exact W|].
  destruct (proj1 (Vol_clone_copies_values _ Sample.host W))
    as (C & E & _ & _ & _ & _ & Hw & Hd).
  exists C. split; [exact E|]. split; [exact Hw | exact Hd].
Defined.



(* ================================================================== *)
(** ** Fully-connected layer *)

(** X9 -- [FullyConnLayer.forward].  On a layer with the constructor's
    shapes and an input with [num_inputs] values, the call does not throw,
    stores the input and the output in the layer, and output [i] is the bias
    [i] plus the dot product of the input values with the weights of filter
    [i]; the output is a [1 x 1 x out_depth] tensor with a zero gradient. *)
Theorem fc_forward_dot_products (L : FullyConnLayer.t) (V : Vol.t)
        (is_training : bool) (h : World) :
  FullyConnLayer.wf L ->
  len (Vol.w V) = FullyConnLayer.num_inputs L ->
  exists A,
    FullyConnLayer.forward L V is_training h
    = Ok (FullyConnLayer.with_acts L (Some V) (Some A), A) h /\
    Spec.shaped A 1 1 (FullyConnLayer.out_depth L) /\
    Vol.dw A = repeat 0%Q (Z.to_nat (FullyConnLayer.out_depth L)) /\
    forall i, 0 <= i < FullyConnLayer.out_depth L ->
      (Vol.get A 0 0 i
       == rd 0%Q (Vol.w (FullyConnLayer.biases L)) i
          + Spec.sum_upto (FullyConnLayer.num_inputs L) (fun d =>
              rd 0%Q (Vol.w V) d * rd 0%Q (Vol.w (FullyConnLayer.filter L i)) d))%Q.
Proof.
  intros (Hod & _) _.
  destruct (Vol_new_const_ok 1 1 (FullyConnLayer.out_depth L) 0 h)
    as (A0 & E & S1 & S2 & S3 & S4 & S5 & _); [lia|].
  replace (1 * 1 * FullyConnLayer.out_depth L) with (FullyConnLayer.out_depth L)
    in S4, S5 by lia.
  unfold FullyConnLayer.forward. rewrite (bind_ok _ _ _ _ _ E). cbv zeta.
  match goal with |- context [for_ (FullyConnLayer.out_depth L) ?b (Vol.w A0)] =>
    set (Aw := for_ (FullyConnLayer.out_depth L) b (Vol.w A0))
  end.
  destruct (for_fill 0%Q
              (fun i => (for_ (FullyConnLayer.num_inputs L)
                           (fun d a => (a + rd 0%Q (Vol.w V) d
                                            * rd 0%Q (Vol.w (FullyConnLayer.filter L i)) d)%Q)
                           0%Q
                         + rd 0%Q (Vol.w (FullyConnLayer.biases L)) i)%Q)
              (FullyConnLayer.out_depth L) (Vol.w A0) S4) as (Hlen & Hval).
  fold Aw in Hlen, Hval.
  eexists. split; [reflexivity|].
  split; [unfold Spec.shaped; cbn [Vol.sx Vol.sy Vol.depth Vol.w]; repeat split; auto; lia|].
  split; [exact S5|].
  intros i Hi. unfold Vol.get, Vol.ix. cbn [Vol.sx Vol.sy Vol.depth Vol.w].
  rewrite S1, S3.
  replace ((1 * 0 + 0) * FullyConnLayer.out_depth L + i) with i by lia.
  rewrite (Hval i Hi).
  rewrite (for_sum (FullyConnLayer.num_inputs L) _
             (fun d => (rd 0%Q (Vol.w V) d
                        * rd 0%Q (Vol.w (FullyConnLayer.filter L i)) d)%Q) 0%Q).
  - ring.
  - intros d a _. reflexivity.
Qed.

Lemma fc_forward_witness :
  FullyConnLayer.wf Sample.fc_layer /\
  len (Vol.w Sample.example) = FullyConnLayer.num_inputs Sample.fc_layer /\
  exists A,
    FullyConnLayer.forward Sample.fc_layer Sample.example false Sample.host
    = Ok (FullyConnLayer.with_acts Sample.fc_layer (Some Sample.example) (Some A), A)
         Sample.host /\
    (Vol.get A 0 0 1 == 7)%Q.
Proof.
  assert (W : FullyConnLayer.wf Sample.fc_layer).
  { unfold FullyConnLayer.wf, Vol.wf. simpl.
    repeat split; try discriminate; try reflexivity;
      destruct H as [<- | [<- | []]]; simpl; try discriminate; reflexivity. }
  split; [exact W|]. split; [reflexivity|].
  destruct (fc_forward_dot_products Sample.fc_layer Sample.example false Sample.host W
              eq_refl) as (A & E & _ & _ & Hv).
  exists A. split; [exact E|].
  rewrite (Hv 1) by (simpl; lia). vm_compute. reflexivity.
Defined.

(** Two buffers updated index by index in one loop are each updated as in
    a loop of their own. *)
Lemma for_update_pair {A B} (da : A) (db : B) (f : Z -> A -> A) (g : Z -> B -> B)
      (n : Z) (a0 : list A) (b0 : list B) :
  for_ n (fun d '(a, b) => (wr a d (f d (rd da a d)), wr b d (g d (rd db b d)))) (a0, b0)
  = (for_ n (fun d a => wr a d (f d (rd da a d))) a0,
     for_ n (fun d b => wr b d (g d (rd db b d))) b0).
Proof.
  destruct (Z_le_gt_dec 0 n) as [Hn | Hn].
  - unfold for_.
    apply (for_range_ind
             (fun i st =>
                st = (for_range 0 i (fun d a => wr a d (f d (rd da a d))) a0,
                      for_range 0 i (fun d b => wr b d (g d (rd db b d))) b0))
             0 n _ _ Hn).
    + now rewrite !for_range_nil by lia.
    + intros i [a b] Hi E. injection E as -> ->.
      now rewrite !for_range_snoc by lia.
  - now rewrite !for_nil by lia.
Qed.

Section FullyConnBackward.

Variables (L : FullyConnLayer.t) (V A : Vol.t) (Vdw0 : list Q).

Let od := FullyConnLayer.out_depth L.
Let ni := FullyConnLayer.num_inputs L.

Hypothesis od_nonneg : 0 <= od.
Hypothesis filters_len : len (FullyConnLayer.filters L) = od.
Hypothesis filters_dw :
  forall k, 0 <= k < od -> len (Vol.dw (FullyConnLayer.filter L k)) = ni.
Hypothesis biases_len : len (Vol.dw (FullyConnLayer.biases L)) = od.
Hypothesis Vdw0_len : len Vdw0 = ni.
Hypothesis Vdw0_zero : forall d, rd 0%Q Vdw0 d = 0%Q.

(** What [backward] leaves in filter [k]. *)
Let updated (k : Z) (f : Vol.t) : Prop :=
  Vol.sx f = Vol.sx (FullyConnLayer.filter L k) /\
  Vol.sy f = Vol.sy (FullyConnLayer.filter L k) /\
  Vol.depth f = Vol.depth (FullyConnLayer.filter L k) /\
  Vol.w f = Vol.w (FullyConnLayer.filter L k) /\
  len (Vol.dw f) = ni /\
  forall d, 0 <= d < ni ->
    rd 0%Q (Vol.dw f) d
    = (rd 0%Q (Vol.dw (FullyConnLayer.filter L k)) d
       + rd 0%Q (Vol.w V) d * rd 0%Q (Vol.dw A) k)%Q.

Let inv (i : Z) (st : list Vol.t * list Q * list Q) : Prop :=
  let '(fs, Vdw, bdw) := st in
  len fs = od /\ len Vdw = ni /\ len bdw = od /\
  (forall k, 0 <= k < i -> updated k (rd ConvLayer.no_filter fs k)) /\
  (forall k, i <= k < od ->
     rd ConvLayer.no_filter fs k = FullyConnLayer.filter L k) /\
  (forall d, 0 <= d < ni ->
     (rd 0%Q Vdw d
      == Spec.sum_upto i (fun k =>
           rd 0%Q (Vol.w (FullyConnLayer.filter L k)) d * rd 0%Q (Vol.dw A) k))%Q) /\
  (forall k, 0 <= k < i ->
     rd 0%Q bdw k
     = (rd 0%Q (Vol.dw (FullyConnLayer.biases L)) k + rd 0%Q (Vol.dw A) k)%Q) /\
  (forall k, i <= k < od ->
     rd 0%Q bdw k = rd 0%Q (Vol.dw (FullyConnLayer.biases L)) k).

Lemma fc_backward_loops_inv :
  inv od (FullyConnLayer.backward_loops L V A Vdw0).
Proof.
  unfold FullyConnLayer.backward_loops. fold od ni.
  apply for_ind; [exact od_nonneg | |].
  - unfold inv. split; [exact filters_len|]. split; [exact Vdw0_len|].
    split; [exact biases_len|]. split; [intros k Hk; lia|].
    split; [reflexivity|]. split.
    { intros d _. rewrite Vdw0_zero, sum_upto_nil by lia. reflexivity. }
    split; [intros k Hk; lia | reflexivity].
  - intros i [[fs Vdw] bdw] Hi (Hfs & HV & Hb & Hdone & Hrest & Hsum & Hbd & Hbr).
    cbv beta iota zeta.
    rewrite (for_update_pair 0%Q 0%Q
               (fun d v => (v + rd 0%Q (Vol.w (rd ConvLayer.no_filter fs i)) d
                                * rd 0%Q (Vol.dw A) i)%Q)
               (fun d v => (v + rd 0%Q (Vol.w V) d * rd 0%Q (Vol.dw A) i)%Q)).
    cbv beta iota.
    rewrite (Hrest i) by lia.
    destruct (for_update 0%Q
                (fun d v => (v + rd 0%Q (Vol.w (FullyConnLayer.filter L i)) d
                                 * rd 0%Q (Vol.dw A) i)%Q) ni Vdw HV) as (LV & RV).
    destruct (for_update 0%Q
                (fun d v => (v + rd 0%Q (Vol.w V) d * rd 0%Q (Vol.dw A) i)%Q) ni
                (Vol.dw (FullyConnLayer.filter L i)) (filters_dw i Hi)) as (LT & RT).
    unfold inv.
    split; [now rewrite len_wr|]. split; [exact LV|].
    split; [now rewrite len_wr|]. split.
    { intros k Hk. destruct (Z.eq_dec k i) as [-> | Hne].
      - rewrite rd_wr_same by lia. unfold updated, Vol.with_dw.
        cbn [Vol.sx Vol.sy Vol.depth Vol.w Vol.dw].
        repeat split; try reflexivity; [exact LT | exact RT].
      - rewrite rd_wr_other by lia. apply Hdone. lia. }
    split.
    { intros k Hk. rewrite rd_wr_other by lia. apply Hrest. lia. }
    split.
    { intros d Hd. rewrite (RV d Hd), sum_upto_snoc by lia.
      rewrite (Hsum d Hd). reflexivity. }
    split.
    { intros k Hk. destruct (Z.eq_dec k i) as [-> | Hne].
      - rewrite rd_wr_same by lia. now rewrite Hbr by lia.
      - rewrite rd_wr_other by lia. apply Hbd. lia. }
    intros k Hk. rewrite rd_wr_other by lia. apply Hbr. lia.
Qed.

End FullyConnBackward.

(** X10 -- [FullyConnLayer.backward].  After a forward pass on an input
    with [num_inputs] values, and with the gradient [G] of the output in
    place, [backward] does not throw; it replaces the input gradient by
    [sum_i filter_i.w[d] * G[i]], adds [V.w[d] * G[i]] to the gradient of
    filter [i] and [G[i]] to the gradient of bias [i] (the parameter
    gradients accumulate), and changes no weight, bias or input value. *)
Theorem fc_backward_gradients (L : FullyConnLayer.t) (V A : Vol.t) (h : World) :
  FullyConnLayer.wf L ->
  FullyConnLayer.in_act L = Some V ->
  FullyConnLayer.out_act L = Some A ->
  len (Vol.w V) = FullyConnLayer.num_inputs L ->
  len (Vol.dw A) = FullyConnLayer.out_depth L ->
  exists L' g,
    FullyConnLayer.backward L h = Ok L' h /\
    FullyConnLayer.in_act L' = Some (Vol.with_dw V g) /\
    FullyConnLayer.out_act L' = Some A /\
    len g = len (Vol.w V) /\
    (forall d, 0 <= d < FullyConnLayer.num_inputs L ->
       (rd 0%Q g d
        == Spec.sum_upto (FullyConnLayer.out_depth L) (fun i =>
             rd 0%Q (Vol.w (FullyConnLayer.filter L i)) d * rd 0%Q (Vol.dw A) i))%Q) /\
    len (FullyConnLayer.filters L') = FullyConnLayer.out_depth L /\
    (forall i, 0 <= i < FullyConnLayer.out_depth L ->
       Vol.w (FullyConnLayer.filter L' i) = Vol.w (FullyConnLayer.filter L i) /\
       (forall d, 0 <= d < FullyConnLayer.num_inputs L ->
          rd 0%Q (Vol.dw (FullyConnLayer.filter L' i)) d
          = (rd 0%Q (Vol.dw (FullyConnLayer.filter L i)) d
             + rd 0%Q (Vol.w V) d * rd 0%Q (Vol.dw A) i)%Q) /\
       rd 0%Q (Vol.dw (FullyConnLayer.biases L')) i
       = (rd 0%Q (Vol.dw (FullyConnLayer.biases L)) i + rd 0%Q (Vol.dw A) i)%Q) /\
    Vol.w (FullyConnLayer.biases L') = Vol.w (FullyConnLayer.biases L).
Proof.
  intros (Hod & Hni & Hfl & Hf & Hb & Hb1 & Hb2 & Hb3) Hin Hout HV HA.
  pose proof (len_nonneg (Vol.w V)) as HVn.
  assert (Hfdw : forall k, 0 <= k < FullyConnLayer.out_depth L ->
            len (Vol.dw (FullyConnLayer.filter L k)) = FullyConnLayer.num_inputs L).
  { intros k Hk.
    destruct (Hf (FullyConnLayer.filter L k)) as (W & E1 & E2 & E3).
    { apply rd_In. lia. }
    destruct W as (_ & _ & _ & _ & Wdw). rewrite Wdw, E1, E2, E3. lia. }
  assert (Hbdw : len (Vol.dw (FullyConnLayer.biases L)) = FullyConnLayer.out_depth L).
  { destruct Hb as (_ & _ & _ & _ & Wdw). rewrite Wdw, Hb1, Hb2, Hb3. lia. }
  pose proof (fc_backward_loops_inv L V A (repeat 0%Q (Z.to_nat (len (Vol.w V))))
                Hod Hfl Hfdw Hbdw) as I.
  rewrite len_repeat in I by exact HVn.
  specialize (I HV (fun d => rd_repeat 0%Q _ d)).
  unfold FullyConnLayer.backward. rewrite Hin.
  rewrite (bind_ok _ _ _ _ _ (zeros_ok _ h HVn)). rewrite Hout.
  destruct (FullyConnLayer.backward_loops L V A (repeat 0%Q (Z.to_nat (len (Vol.w V)))))
    as [[fs Vdw] bdw].
  destruct I as (Ifs & IV & Ib & Idone & _ & Isum & Ibd & _).
  eexists. exists Vdw. split; [reflexivity|].
  cbn [FullyConnLayer.in_act FullyConnLayer.out_act FullyConnLayer.with_params
       FullyConnLayer.filters FullyConnLayer.biases FullyConnLayer.filter
       Vol.with_dw Vol.w Vol.dw].
  split; [reflexivity|]. split; [exact Hout|]. split; [congruence|].
  split; [exact Isum|]. split; [exact Ifs|]. split; [|reflexivity].
  intros i Hi. destruct (Idone i Hi) as (_ & _ & _ & Ew & _ & Edw).
  unfold FullyConnLayer.filter at 1 3.
  cbn [FullyConnLayer.filters FullyConnLayer.with_params].
  split; [exact Ew|]. split; [exact Edw|]. apply Ibd. exact Hi.
Qed.

Lemma fc_backward_witness :
  let A := Vol.mk 1 1 2 [0; 0]%Q [1; 10]%Q in
  let L := FullyConnLayer.with_acts Sample.fc_layer (Some Sample.example) (Some A) in
  exists L' g,
    FullyConnLayer.backward L Sample.host = Ok L' Sample.host /\
    FullyConnLayer.in_act L' = Some (Vol.with_dw Sample.example g) /\
    (rd 0%Q g 0 == 31)%Q /\ (rd 0%Q g 1 == 42)%Q.
Proof.
  intros A L.
  assert (W : FullyConnLayer.wf L).
  { unfold FullyConnLayer.wf, Vol.wf. simpl.
    repeat split; try discriminate; try reflexivity;
      destruct H as [<- | [<- | []]]; simpl; try discriminate; reflexivity. }
  destruct (fc_backward_gradients L Sample.example A Sample.host W eq_refl eq_refl
              eq_refl eq_refl) as (L' & g & E & Ein & _ & _ & Hg & _).
  exists L', g. split; [exact E|]. split; [exact Ein|]. split.
  - rewrite (Hg 0) by (simpl; lia). vm_compute. reflexivity.
  - rewrite (Hg 1) by (simpl; lia). vm_compute. reflexivity.
Defined.

(* ================================================================== *)
(** ** Constructors of the core layers *)

(** X11 -- the [ConvLayer] constructor.  For non-negative filter count,
    filter sizes and input depth it does not throw and prints nothing; the
    layer has the constructor's shapes ([out_depth] filters of size
    [sx x sy x in_depth], a [1 x 1 x out_depth] bias tensor), the documented
    defaults (stride 1, padding 0, L1 multiplier 0, L2 multiplier 1, bias 0)
    and no activations yet, so that calling [backward] before any [forward]
    throws a [TypeError].  A negative filter count makes it throw a
    [RangeError]. *)
Theorem ConvLayer_constructor (opt : Opt.t) (h : World) :
  (0 <= Opt.filters opt -> 0 <= Opt.sx opt ->
   0 <= Opt.or_default (Opt.sy opt) (Opt.sx opt) -> 0 <= Opt.in_depth opt ->
   exists L h', ConvLayer.new opt h = Ok L h' /\ ConvLayer.wf L /\
     console h' = console h /\
     ConvLayer.out_depth L = Opt.filters opt /\
     ConvLayer.sx L = Opt.sx opt /\
     ConvLayer.sy L = Opt.or_default (Opt.sy opt) (Opt.sx opt) /\
     ConvLayer.in_sx L = Opt.in_sx opt /\ ConvLayer.in_sy L = Opt.in_sy opt /\
     ConvLayer.in_depth L = Opt.in_depth opt /\
     ConvLayer.stride L = Opt.or_default (Opt.stride opt) 1 /\
     ConvLayer.pad L = Opt.or_default (Opt.pad opt) 0 /\
     ConvLayer.l1_decay_mul L = Opt.or_default (Opt.l1_decay_mul opt) 0%Q /\
     ConvLayer.l2_decay_mul L = Opt.or_default (Opt.l2_decay_mul opt) 1%Q /\
     (forall i, 0 <= i < Opt.filters opt ->
        rd 0%Q (Vol.w (ConvLayer.biases L)) i = Opt.or_default (Opt.bias_pref opt) 0%Q /\
        rd 0%Q (Vol.dw (ConvLayer.biases L)) i = 0%Q) /\
     ConvLayer.in_act L = None /\ ConvLayer.out_act L = None /\
     (forall h2, ConvLayer.backward L h2 = Throw TypeError)) /\
  (Opt.filters opt < 0 -> ConvLayer.new opt h = Throw RangeError).
Proof.
  split.
  - intros Hf Hsx Hsy Hd.
    assert (Hsz : 0 <= Opt.sx opt * Opt.or_default (Opt.sy opt) (Opt.sx opt)
                       * Opt.in_depth opt)
      by (apply Z.mul_nonneg_nonneg; [apply Z.mul_nonneg_nonneg|]; assumption).
    destruct (filter_bank_ok _ _ _ _ h Hf Hsz) as (fs & h1 & E1 & Hc & Hlen & Hfs).
    destruct (Vol_new_const_ok 1 1 (Opt.filters opt)
                (Opt.or_default (Opt.bias_pref opt) 0%Q) h1)
      as (B & EB & B1 & B2 & B3 & B4 & B5 & B6); [lia|].
    assert (E : ConvLayer.new opt h
                = Ok (ConvLayer.mk (Opt.filters opt) (Opt.sx opt) (Opt.in_depth opt)
                        (Opt.in_sx opt) (Opt.in_sy opt)
                        (Opt.or_default (Opt.sy opt) (Opt.sx opt))
                        (Opt.or_default (Opt.stride opt) 1)
                        (Opt.or_default (Opt.pad opt) 0)
                        (Opt.or_default (Opt.l1_decay_mul opt) 0%Q)
                        (Opt.or_default (Opt.l2_decay_mul opt) 1%Q)
                        (ConvLayer.out_size (Opt.in_sx opt)
                           (Opt.or_default (Opt.pad opt) 0) (Opt.sx opt)
                           (Opt.or_default (Opt.stride opt) 1))
                        (ConvLayer.out_size (Opt.in_sy opt)
                           (Opt.or_default (Opt.pad opt) 0)
                           (Opt.or_default (Opt.sy opt) (Opt.sx opt))
                           (Opt.or_default (Opt.stride opt) 1))
                        fs B None None) h1).
    { unfold ConvLayer.new.
      rewrite (bind_ok _ _ _ _ _ E1), (bind_ok _ _ _ _ _ EB). reflexivity. }
    eexists. exists h1. split; [exact E|].
    split; [exact (ConvLayer_new_wf opt h h1 _ Hf Hsx Hsy Hd E)|].
    split; [exact Hc|].
    cbn [ConvLayer.out_depth ConvLayer.sx ConvLayer.sy ConvLayer.in_sx ConvLayer.in_sy
         ConvLayer.in_depth ConvLayer.stride ConvLayer.pad ConvLayer.l1_decay_mul
         ConvLayer.l2_decay_mul ConvLayer.biases ConvLayer.in_act ConvLayer.out_act].
    repeat (split; [reflexivity|]).
    split; [|split; [reflexivity|split; [reflexivity|reflexivity]]].
    intros i Hi. split; [apply B6; lia | rewrite B5; apply rd_repeat].
  - intros Hneg. unfold ConvLayer.new.
    rewrite for_js_nil by lia.
    unfold bind at 1. unfold ret at 1.
    unfold Vol.new_const, zeros, zeros_of, bind.
    destruct (1 * 1 * Opt.filters opt <? 0) eqn:B; [reflexivity|].
    apply Z.ltb_ge in B. lia.
Qed.

Lemma ConvLayer_constructor_witness :
  (exists L h', ConvLayer.new Sample.trimmed_opt Sample.host = Ok L h' /\
     ConvLayer.wf L /\ ConvLayer.stride L = 2 /\ ConvLayer.pad L = 0 /\
     ConvLayer.backward L h' = Throw TypeError) /\
  ConvLayer.new (Opt.mk "conv" (-1) 2 1 5 5 None None None None None None None None
                   None None None None None None) Sample.host = Throw RangeError.
Proof.
  split.
  - destruct (proj1 (ConvLayer_constructor Sample.trimmed_opt Sample.host))
      as (L & h' & E & W & _ & _ & _ & _ & _ & _ & _ & S & P & _ & _ & _ & _ & _ & B);
      try (simpl; lia).
    exists L, h'. split; [exact E|]. split; [exact W|]. split; [exact S|].
    split; [exact P | apply B].
  - apply (proj2 (ConvLayer_constructor _ Sample.host)). simpl. lia.
Defined.

(** X12 -- the [FullyConnLayer] constructor.  For a non-negative neuron
    count and input size it does not throw and prints nothing; the layer has
    [out_depth] filters of size [1 x 1 x num_inputs], with [num_inputs] the
    product of the input sizes, a [1 x 1 x out_depth] bias tensor filled
    with the bias preference (0 by default), a [1 x 1] output, and no
    activations yet, so that [backward] before any [forward] throws a
    [TypeError].  [num_neurons] takes precedence over [filters]. *)
Theorem FullyConnLayer_constructor (opt : Opt.t) (h : World) :
  let od := Opt.or_default (Opt.num_neurons opt) (Opt.filters opt) in
  let ni := Opt.in_sx opt * Opt.in_sy opt * Opt.in_depth opt in
  (0 <= od -> 0 <= ni ->
   exists L h', FullyConnLayer.new opt h = Ok L h' /\ FullyConnLayer.wf L /\
     console h' = console h /\
     FullyConnLayer.out_depth L = od /\ FullyConnLayer.num_inputs L = ni /\
     FullyConnLayer.out_sx L = 1 /\ FullyConnLayer.out_sy L = 1 /\
     FullyConnLayer.l1_decay_mul L = Opt.or_default (Opt.l1_decay_mul opt) 0%Q /\
     FullyConnLayer.l2_decay_mul L = Opt.or_default (Opt.l2_decay_mul opt) 1%Q /\
     (forall i, 0 <= i < od ->
        rd 0%Q (Vol.w (FullyConnLayer.biases L)) i
        = Opt.or_default (Opt.bias_pref opt) 0%Q /\
        rd 0%Q (Vol.dw (FullyConnLayer.biases L)) i = 0%Q) /\
     FullyConnLayer.in_act L = None /\ FullyConnLayer.out_act L = None /\
     (forall h2, FullyConnLayer.backward L h2 = Throw TypeError)) /\
  (od < 0 -> FullyConnLayer.new opt h = Throw RangeError).
Proof.
  intros od ni. split.
  - intros Hod Hni.
    assert (Hsz : 0 <= 1 * 1 * ni) by lia.
    destruct (filter_bank_ok od 1 1 ni h Hod Hsz) as (fs & h1 & E1 & Hc & Hlen & Hfs).
    destruct (Vol_new_const_ok 1 1 od (Opt.or_default (Opt.bias_pref opt) 0%Q) h1)
      as (B & EB & B1 & B2 & B3 & B4 & B5 & B6); [lia|].
    assert (E : FullyConnLayer.new opt h
                = Ok (FullyConnLayer.mk od
                        (Opt.or_default (Opt.l1_decay_mul opt) 0%Q)
                        (Opt.or_default (Opt.l2_decay_mul opt) 1%Q)
                        ni 1 1 fs B None None) h1).
    { unfold FullyConnLayer.new. fold od ni.
      rewrite (bind_ok _ _ _ _ _ E1), (bind_ok _ _ _ _ _ EB). reflexivity. }
    eexists. exists h1. split; [exact E|].
    split.
    { unfold FullyConnLayer.wf.
      cbn [FullyConnLayer.out_depth FullyConnLayer.num_inputs FullyConnLayer.filters
           FullyConnLayer.biases].
      split; [exact Hod|]. split; [exact Hni|]. split; [exact Hlen|]. split.
      - intros f Hin. destruct (Hfs f Hin) as (F1 & F2 & F3 & F4 & F5).
        unfold Vol.wf. rewrite F1, F2, F3. repeat split; auto; lia.
      - unfold Vol.wf. rewrite B1, B2, B3, B5.
        rewrite len_repeat by lia. repeat split; (lia || assumption). }
    split; [exact Hc|].
    cbn [FullyConnLayer.out_depth FullyConnLayer.num_inputs FullyConnLayer.out_sx
         FullyConnLayer.out_sy FullyConnLayer.l1_decay_mul FullyConnLayer.l2_decay_mul
         FullyConnLayer.biases FullyConnLayer.in_act FullyConnLayer.out_act].
    repeat (split; [reflexivity|]).
    split; [|split; [reflexivity|split; [reflexivity|reflexivity]]].
    intros i Hi. split; [apply B6; lia | rewrite B5; apply rd_repeat].
  - intros Hneg. unfold FullyConnLayer.new. fold od.
    rewrite for_js_nil by lia.
    unfold bind at 1. unfold ret at 1.
    unfold Vol.new_const, zeros, zeros_of, bind.
    destruct (1 * 1 * od <? 0) eqn:B; [reflexivity|].
    apply Z.ltb_ge in B. lia.
Qed.

Lemma FullyConnLayer_constructor_witness :
  let opt := Opt.set_in (Opt.fc_literal (Some 3)) 2 2 5 in
  exists L h', FullyConnLayer.new opt Sample.host = Ok L h' /\
    FullyConnLayer.wf L /\ FullyConnLayer.out_depth L = 3 /\
    FullyConnLayer.num_inputs L = 20 /\
    FullyConnLayer.backward L h' = Throw TypeError.
Proof.
  intros opt.
  destruct (proj1 (FullyConnLayer_constructor opt Sample.host))
    as (L & h' & E & W & _ & D & N & _ & _ & _ & _ & _ & _ & _ & B);
    try (simpl; lia).
  exists L, h'. split; [exact E|]. split; [exact W|]. split; [exact D|].
  split; [exact N | apply B].
Defined.



(* ================================================================== *)
(** ** Parameter groups *)

Lemma rd_app_left {A} (d : A) (l1 l2 : list A) (i : Z) :
  0 <= i < len l1 -> rd d (l1 ++ l2) i = rd d l1 i.
Proof.
  intros Hi. unfold rd, len in *. destruct (i <? 0); [reflexivity|].
  apply app_nth1. lia.
Qed.

Lemma rd_app_right {A} (d : A) (l1 l2 : list A) (i : Z) :
  len l1 <= i -> rd d (l1 ++ l2) i = rd d l2 (i - len l1).
Proof.
  intros Hi. pose proof (len_nonneg l1) as Hn. unfold rd, len in *.
  destruct (Z.ltb_spec i 0); [lia|].
  destruct (Z.ltb_spec (i - Z.of_nat (List.length l1)) 0); [lia|].
  rewrite app_nth2 by lia. f_equal. lia.
Qed.

Lemma collected_groups (g : Z -> ParamGroup.t) (b : ParamGroup.t) (n : Z) :
  len (for_ n (fun i r => r ++ [g i]) [] ++ [b]) = Z.max 0 n + 1 /\
  (forall i, 0 <= i < n ->
     rd Layer.no_group (for_ n (fun i r => r ++ [g i]) [] ++ [b]) i = g i) /\
  rd Layer.no_group (for_ n (fun i r => r ++ [g i]) [] ++ [b]) (Z.max 0 n) = b.
Proof.
  rewrite for_collect. simpl.
  assert (L : len (map g (range 0 n)) = Z.max 0 n).
  { rewrite len_map. destruct (Z_le_gt_dec 0 n).
    - rewrite len_range by lia. lia.
    - rewrite range_nil by lia. unfold len. simpl. lia. }
  split; [rewrite len_app, L; reflexivity|]. split.
  - intros i Hi. rewrite rd_app_left by (rewrite L; lia).
    rewrite (rd_default Layer.no_group (g 0)) by (rewrite L; lia).
    rewrite rd_map. f_equal. apply rd_range. lia.
  - rewrite rd_app_right by (rewrite L; lia). rewrite L, Z.sub_diag. reflexivity.
Qed.

(** X14 -- [getParamsAndGrads] of the dot-product layers.  The list has one
    group per filter, in filter order, and then the bias group: group [i]
    holds the weights and the gradient of filter [i] with the layer's two
    decay multipliers, and the group at index [out_depth] holds the biases. *)
Theorem dot_product_groups (C : ConvLayer.t) (F : FullyConnLayer.t) :
  (len (ConvLayer.getParamsAndGrads C) = Z.max 0 (ConvLayer.out_depth C) + 1 /\
   (forall i, 0 <= i < ConvLayer.out_depth C ->
      rd Layer.no_group (ConvLayer.getParamsAndGrads C) i
      = ParamGroup.mk (Vol.w (ConvLayer.filter C i)) (Vol.dw (ConvLayer.filter C i))
                      (Some (ConvLayer.l1_decay_mul C))
                      (Some (ConvLayer.l2_decay_mul C))) /\
   ParamGroup.params
     (rd Layer.no_group (ConvLayer.getParamsAndGrads C) (Z.max 0 (ConvLayer.out_depth C)))
   = Vol.w (ConvLayer.biases C)) /\
  (len (FullyConnLayer.getParamsAndGrads F)
   = Z.max 0 (FullyConnLayer.out_depth F) + 1 /\
   (forall i, 0 <= i < FullyConnLayer.out_depth F ->
      rd Layer.no_group (FullyConnLayer.getParamsAndGrads F) i
      = ParamGroup.mk (Vol.w (FullyConnLayer.filter F i))
                      (Vol.dw (FullyConnLayer.filter F i))
                      (Some (FullyConnLayer.l1_decay_mul F))
                      (Some (FullyConnLayer.l2_decay_mul F))) /\
   ParamGroup.params
     (rd Layer.no_group (FullyConnLayer.getParamsAndGrads F)
         (Z.max 0 (FullyConnLayer.out_depth F)))
   = Vol.w (FullyConnLayer.biases F)).
Proof.
  split.
  - unfold ConvLayer.getParamsAndGrads. cbv zeta.
    destruct (collected_groups
                (fun i => ParamGroup.mk (Vol.w (ConvLayer.filter C i))
                            (Vol.dw (ConvLayer.filter C i))
                            (Some (ConvLayer.l1_decay_mul C))
                            (Some (ConvLayer.l2_decay_mul C)))
                (ParamGroup.mk (Vol.w (ConvLayer.biases C)) (Vol.dw (ConvLayer.biases C))
                               (Some 0%Q) (Some 0%Q))
                (ConvLayer.out_depth C)) as (H1 & H2 & H3).
    split; [exact H1|]. split; [exact H2|]. now rewrite H3.
  - unfold FullyConnLayer.getParamsAndGrads. cbv zeta.
    destruct (collected_groups
                (fun i => ParamGroup.mk (Vol.w (FullyConnLayer.filter F i))
                            (Vol.dw (FullyConnLayer.filter F i))
                            (Some (FullyConnLayer.l1_decay_mul F))
                            (Some (FullyConnLayer.l2_decay_mul F)))
                (ParamGroup.mk (Vol.w (FullyConnLayer.biases F))
                               (Vol.dw (FullyConnLayer.biases F))
                               (Some 0%Q) (Some 0%Q))
                (FullyConnLayer.out_depth F)) as (H1 & H2 & H3).
    split; [exact H1|]. split; [exact H2|]. now rewrite H3.
Qed.

(** X15 -- [Net.getParamsAndGrads].  The list of the network is the
    concatenation of the lists of its layers, in layer order: the groups of
    a layer come after those of all layers before it and before those of all
    layers after it; pooling layers and the layers outside the core
    contribute none. *)
Theorem net_groups_in_layer_order (before after : list Layer.t) (l : Layer.t) :
  Net.getParamsAndGrads (Net.mk (before ++ l :: after))
  = Net.getParamsAndGrads (Net.mk before) ++ Layer.getParamsAndGrads l
    ++ Net.getParamsAndGrads (Net.mk after) /\
  (forall P, Net.getParamsAndGrads (Net.mk (before ++ Layer.Pool P :: after))
             = Net.getParamsAndGrads (Net.mk (before ++ after))) /\
  (forall X, Net.getParamsAndGrads (Net.mk (before ++ Layer.Ext X :: after))
             = Net.getParamsAndGrads (Net.mk (before ++ after))).
Proof.
  rewrite !Net_getParamsAndGrads_concat. cbn [Net.layers].
  split; [now rewrite flat_map_app|].
  split; intros; rewrite !Net_getParamsAndGrads_concat; cbn [Net.layers];
    now rewrite !flat_map_app.
Qed.

(* ================================================================== *)
(** ** The network's forward pass *)

Lemma fold_bind {S} (body : Z -> S -> js S) (idx : list Z) (m : js S) (h : World) :
  fold_left (fun acc i => bind acc (body i)) idx m h
  = bind m (fun s => fold_left (fun acc i => bind acc (body i)) idx (ret s)) h.
Proof.
  revert m h. induction idx as [|i idx IH]; intros m h; simpl.
  - unfold bind, ret. destruct (m h); reflexivity.
  - rewrite IH. unfold bind at 1 2 4. destruct (m h) as [a h1|e]; [|reflexivity].
    rewrite (IH (bind (ret a) (body i)) h1). unfold bind at 3. unfold ret at 1.
    unfold bind at 1. reflexivity.
Qed.

Lemma range_cons (lo hi : Z) : lo < hi -> range lo hi = lo :: range (lo + 1) hi.
Proof.
  intros H. unfold range.
  replace (Z.to_nat (hi - lo)) with (Datatypes.S (Z.to_nat (hi - (lo + 1)))) by lia.
  cbn [seq map]. f_equal; [simpl; lia|].
  rewrite <- seq_shift, map_map. apply map_ext. intros k. lia.
Qed.

Lemma item_app_mid {A} (pre : list A) (a : A) (rest : list A) (h : World) :
  item (pre ++ a :: rest) (len pre) h = Ok a h.
Proof.
  unfold item, len. destruct (Z.ltb_spec (Z.of_nat (List.length pre)) 0); [lia|].
  rewrite Nat2Z.id, nth_error_app2 by lia. now rewrite Nat.sub_diag.
Qed.

Lemma wr_app_mid {A} (pre : list A) (a b : A) (rest : list A) :
  wr (pre ++ a :: rest) (len pre) b = pre ++ b :: rest.
Proof.
  assert (U : upd (pre ++ a :: rest) (List.length pre) b = pre ++ b :: rest).
  { induction pre as [|p pre IH]; simpl; [reflexivity|]. now rewrite IH. }
  unfold wr, len. destruct (Z.ltb_spec (Z.of_nat (List.length pre)) 0); [lia|].
  now rewrite Nat2Z.id.
Qed.

Lemma bind_assoc {A B C} (m : js A) (f : A -> js B) (g : B -> js C) (h : World) :
  bind (bind m f) g h = bind m (fun a => bind (f a) g) h.
Proof. unfold bind. destruct (m h); reflexivity. Qed.

Lemma forward_loop_chain (E : ExtLayer.impl) (t : bool) (rest pre : list Layer.t)
      (act : Vol.t) (h : World) :
  for_range_js (len pre) (len pre + len rest)
    (fun i '(ls, act) =>
       l <- item ls i ;;
       r <- Layer.forward E l act t ;;
       ret (wr ls i (fst r), snd r))
    (pre ++ rest, act) h
  = bind (Spec.forward_chain E rest act t)
         (fun rr => ret (pre ++ fst rr, snd rr)) h.
Proof.
  revert pre act h. induction rest as [|l rest IH]; intros pre act h.
  - unfold for_range_js. rewrite range_nil by (change (len (@nil Layer.t)) with 0; lia).
    reflexivity.
  - assert (Hl : len (l :: rest) = 1 + len rest)
      by (unfold len; simpl List.length; lia).
    pose proof (len_nonneg rest) as Hr.
    unfold for_range_js. rewrite range_cons by lia.
    cbn [fold_left]. rewrite fold_bind.
    change (bind (ret (pre ++ l :: rest, act)) ?k) with (k (pre ++ l :: rest, act)).
    cbv beta iota.
    rewrite bind_assoc, (bind_ok _ _ _ _ _ (item_app_mid pre l rest h)).
    rewrite bind_assoc.
    cbn [Spec.forward_chain]. rewrite (bind_assoc (Layer.forward E l act t)).
    destruct (Layer.forward E l act t h) as [[l' A] h1|e] eqn:EF.
    + rewrite !(bind_ok _ _ _ _ _ EF). cbn [fst snd]. rewrite wr_app_mid.
      change (bind (ret (pre ++ l' :: rest, A)) ?k) with (k (pre ++ l' :: rest, A)).
      cbv beta.
      replace (pre ++ l' :: rest) with ((pre ++ [l']) ++ rest)
        by (now rewrite <- app_assoc).
      replace (len pre + 1) with (len (pre ++ [l']))
        by (rewrite len_app; reflexivity).
      replace (len pre + len (l :: rest)) with (len (pre ++ [l']) + len rest)
        by (rewrite len_app, Hl; change (len [l']) with 1; lia).
      pose proof (IH (pre ++ [l']) A h1) as R. unfold for_range_js in R.
      rewrite R. rewrite bind_assoc.
      destruct (Spec.forward_chain E rest A t h1) as [[ls' A'] h2|e] eqn:EC.
      * rewrite !(bind_ok _ _ _ _ _ EC). unfold bind, ret. cbn [fst snd].
        now rewrite <- app_assoc.
      * now rewrite !(bind_throw _ _ _ _ EC).
    + now rewrite !(bind_throw _ _ _ _ EF).
Qed.

(** X16 -- [Net.forward].  On a network without layers it throws a
    [TypeError].  Otherwise it is the chain of the layers' forward passes in
    layer order: every layer receives the output of the layer before it and
    the same training flag ([false] when the flag is omitted), the layers
    are replaced by the ones the passes leave, and the output of the last
    layer is returned; an exception of a layer ends the pass. *)
Theorem net_forward_is_layer_chain (E : ExtLayer.impl) (N : Net.t) (V : Vol.t)
        (is_training : option bool) (h : World) :
  (Net.layers N = [] -> Net.forward E N V is_training h = Throw TypeError) /\
  (Net.layers N <> [] ->
   Net.forward E N V is_training h
   = bind (Spec.forward_chain E (Net.layers N) V (Opt.or_default is_training false))
          (fun r => ret (Net.mk (fst r), snd r)) h).
Proof.
  split.
  - intros EL. unfold Net.forward. rewrite EL. reflexivity.
  - intros Hne. destruct (Net.layers N) as [|l0 rest] eqn:EL; [congruence|].
    unfold Net.forward. rewrite EL. cbv zeta.
    assert (I0 : item (l0 :: rest) 0 h = Ok l0 h) by reflexivity.
    rewrite (bind_ok _ _ _ _ _ I0).
    cbn [Spec.forward_chain]. rewrite (bind_assoc (Layer.forward E l0 V _)).
    destruct (Layer.forward E l0 V (Opt.or_default is_training false) h)
      as [[l' A] h1|e] eqn:EF.
    + rewrite !(bind_ok _ _ _ _ _ EF). cbn [fst snd].
      change (wr (l0 :: rest) 0 l') with ([l'] ++ rest).
      pose proof (forward_loop_chain E (Opt.or_default is_training false) rest [l'] A h1)
        as R.
      change (len [l']) with 1 in R.
      replace (len (l0 :: rest)) with (1 + len rest)
        by (unfold len; simpl List.length; lia).
      rewrite (bind_assoc (Spec.forward_chain E rest A _)).
      destruct (Spec.forward_chain E rest A (Opt.or_default is_training false) h1)
        as [[ls' A'] h2|e] eqn:EC.
      * rewrite (bind_ok _ _ _ _ _ EC) in R. rewrite (bind_ok _ _ _ _ _ R).
        rewrite (bind_ok _ _ _ _ _ EC). reflexivity.
      * rewrite (bind_throw _ _ _ _ EC) in R. rewrite (bind_throw _ _ _ _ R).
        now rewrite (bind_throw _ _ _ _ EC).
    + now rewrite !(bind_throw _ _ _ _ EF).
Qed.

Lemma net_forward_chain_witness :
  Net.layers Sample.net <> [] /\
  Net.forward Sample.ext Sample.net Sample.example None Sample.host
  = bind (Spec.forward_chain Sample.ext (Net.layers Sample.net) Sample.example false)
         (fun r => ret (Net.mk (fst r), snd r)) Sample.host.
Proof.
  assert (Hne : Net.layers Sample.net <> []) by discriminate.
  split; [exact Hne|].
  exact (proj2 (net_forward_is_layer_chain Sample.ext Sample.net Sample.example None
                  Sample.host) Hne).
Defined.

(* ================================================================== *)
(** ** The shapes [makeLayers] wires *)

(** What holds before a loop and is kept by every iteration that returns
    holds after the loop, if the loop returns. *)
Lemma for_js_inv {S} (P : Z -> S -> Prop) (n : Z) (body : Z -> S -> js S) (s : S) :
  P 0 s ->
  (forall i st h1 st' h2,
     0 <= i < n -> P i st -> body i st h1 = Ok st' h2 -> P (i + 1) st') ->
  forall m, 0 <= m <= n ->
  forall st' h h', for_js m body s h = Ok st' h' -> P m st'.
Proof.
  intros H0 Hstep m [Hm Hmn]. revert Hmn. pattern m.
  apply natlike_ind; [| |exact Hm].
  - intros _ st' h h' H. rewrite for_js_nil in H by lia.
    apply ret_inv in H. destruct H as [<- _]. exact H0.
  - intros k Hk IH Hkn st' h h' H. unfold Z.succ in *.
    rewrite for_js_snoc in H by exact Hk.
    apply bind_inv in H. destruct H as (st & h1 & H1 & H2).
    apply (Hstep k st h1 st' h'); [lia | | exact H2].
    apply (IH ltac:(lia) st h h1 H1).
Qed.

Lemma item_inv_nth {A} (l : list A) (i : Z) (a : A) (h h' : World) :
  item l i h = Ok a h' -> h' = h /\ 0 <= i /\ nth_error l (Z.to_nat i) = Some a.
Proof.
  unfold item. intros H. destruct (Z.ltb_spec i 0) as [Hlt | Hge]; [discriminate|].
  destruct (nth_error l (Z.to_nat i)) as [b|]; [|discriminate].
  apply ret_inv in H. destruct H as [-> ->]. auto.
Qed.

Lemma ConvLayer_new_inputs (opt : Opt.t) (h h' : World) (L : ConvLayer.t) :
  ConvLayer.new opt h = Ok L h' ->
  ConvLayer.in_sx L = Opt.in_sx opt /\ ConvLayer.in_sy L = Opt.in_sy opt /\
  ConvLayer.in_depth L = Opt.in_depth opt.
Proof.
  unfold ConvLayer.new. intros H.
  apply bind_inv in H. destruct H as (fs & h1 & _ & H).
  apply bind_inv in H. destruct H as (b & h2 & _ & H).
  apply ret_inv in H. destruct H as [<- _]. auto.
Qed.

Lemma FullyConnLayer_new_inputs (opt : Opt.t) (h h' : World) (L : FullyConnLayer.t) :
  FullyConnLayer.new opt h = Ok L h' ->
  FullyConnLayer.num_inputs L = Opt.in_sx opt * Opt.in_sy opt * Opt.in_depth opt.
Proof.
  unfold FullyConnLayer.new. intros H.
  apply bind_inv in H. destruct H as (fs & h1 & _ & H).
  apply bind_inv in H. destruct H as (b & h2 & _ & H).
  apply ret_inv in H. destruct H as [<- _]. reflexivity.
Qed.

Lemma PoolLayer_new_inputs (opt : Opt.t) (h h' : World) (L : PoolLayer.t) :
  PoolLayer.new opt h = Ok L h' ->
  PoolLayer.in_sx L = Opt.in_sx opt /\ PoolLayer.in_sy L = Opt.in_sy opt /\
  PoolLayer.in_depth L = Opt.in_depth opt /\ PoolLayer.out_depth L = Opt.in_depth opt.
Proof.
  unfold PoolLayer.new. intros H.
  apply bind_inv in H. destruct H as (fs & h1 & _ & H).
  apply bind_inv in H. destruct H as (b & h2 & _ & H).
  apply ret_inv in H. destruct H as [<- _]. auto.
Qed.

Lemma wired_snoc (ls : list Layer.t) (l : Layer.t) :
  Spec.wired ls ->
  (forall k prev, nth_error ls k = Some prev -> Datatypes.S k = List.length ls ->
     Spec.fed_by prev l) ->
  Spec.wired (ls ++ [l]).
Proof.
  intros W H k prev x Hp Hx.
  destruct (Nat.lt_ge_cases (Datatypes.S k) (List.length ls)) as [Hlt | Hge].
  - rewrite nth_error_app1 in Hp, Hx by lia. exact (W k prev x Hp Hx).
  - assert (Hk : (Datatypes.S k < List.length (ls ++ [l]))%nat)
      by (apply nth_error_Some; congruence).
    rewrite length_app in Hk. simpl in Hk.
    assert (Hs : Datatypes.S k = List.length ls) by lia.
    rewrite nth_error_app1 in Hp by lia.
    rewrite nth_error_app2 in Hx by lia.
    replace (Datatypes.S k - List.length ls)%nat with 0%nat in Hx by lia.
    injection Hx as <-. exact (H k prev Hp Hs).
Qed.

Section Wiring.

Variable E : ExtLayer.impl.

Lemma create_wires (defs : list Opt.t) (i : Z) (ls ls' : list Layer.t) (h h' : World) :
  0 <= i ->
  len ls <= i -> Spec.wired ls ->
  Net.create E defs i ls h = Ok ls' h' ->
  len ls' <= i + 1 /\ Spec.wired ls'.
Proof.
  intros Hi Hlen W H. unfold Net.create in H.
  apply bind_inv in H. destruct H as (def & h1 & Hdef & H).
  assert (Hprev : forall k prev, nth_error ls k = Some prev ->
            Datatypes.S k = List.length ls ->
            Opt.in_sx def = Layer.out_sx prev /\ Opt.in_sy def = Layer.out_sy prev /\
            Opt.in_depth def = Layer.out_depth prev).
  { intros k prev Hk Hs. destruct (0 <? i) eqn:B.
    - apply bind_inv in Hdef. destruct Hdef as (p & h2 & Hit & Hr).
      apply item_inv_nth in Hit. destruct Hit as (_ & Hi1 & Hn).
      apply ret_inv in Hr. destruct Hr as [<- _].
      assert (Hb : (Z.to_nat (i - 1) < List.length ls)%nat)
        by (apply nth_error_Some; congruence).
      unfold len in Hlen.
      assert (Z.to_nat (i - 1) = k) by lia. subst k.
      rewrite Hn in Hk. injection Hk as ->. simpl. auto.
    - apply Z.ltb_ge in B. unfold len in Hlen. lia. }
  clear Hdef.
  assert (Ext : forall ls0 h0 h0', Net.push_ext E def ls h0 = Ok ls0 h0' ->
                  len ls0 <= i + 1 /\ Spec.wired ls0).
  { intros ls0 h0 h0' Hp. unfold Net.push_ext in Hp.
    apply bind_inv in Hp. destruct Hp as (X & h2 & _ & Hr).
    apply ret_inv in Hr. destruct Hr as [<- _].
    split; [rewrite len_app; change (len [Layer.Ext X]) with 1; lia|].
    apply wired_snoc; [exact W|]. intros; exact I. }
  repeat match type of H with
         | (if ?b then _ else _) _ = _ => destruct b
         end;
    try (eapply Ext; exact H).
  - apply bind_inv in H. destruct H as (L & h2 & HN & Hr).
    apply ret_inv in Hr. destruct Hr as [<- _].
    split; [rewrite len_app; change (len [Layer.FullyConn L]) with 1; lia|].
    apply wired_snoc; [exact W|]. intros k prev Hk Hs.
    destruct (Hprev k prev Hk Hs) as (E1 & E2 & E3).
    simpl. rewrite (FullyConnLayer_new_inputs _ _ _ _ HN). congruence.
  - apply bind_inv in H. destruct H as (L & h2 & HN & Hr).
    apply ret_inv in Hr. destruct Hr as [<- _].
    split; [rewrite len_app; change (len [Layer.Conv L]) with 1; lia|].
    apply wired_snoc; [exact W|]. intros k prev Hk Hs.
    destruct (Hprev k prev Hk Hs) as (E1 & E2 & E3).
    destruct (ConvLayer_new_inputs _ _ _ _ HN) as (F1 & F2 & F3).
    simpl. repeat split; congruence.
  - apply bind_inv in H. destruct H as (L & h2 & HN & Hr).
    apply ret_inv in Hr. destruct Hr as [<- _].
    split; [rewrite len_app; change (len [Layer.Pool L]) with 1; lia|].
    apply wired_snoc; [exact W|]. intros k prev Hk Hs.
    destruct (Hprev k prev Hk Hs) as (E1 & E2 & E3).
    destruct (PoolLayer_new_inputs _ _ _ _ HN) as (F1 & F2 & F3 & F4).
    simpl. repeat split; congruence.
  - apply bind_inv in H. destruct H as (u & h2 & _ & Hr).
    apply ret_inv in Hr. destruct Hr as [<- _].
    split; [lia | exact W].
Qed.

End Wiring.

(** X17 -- the shapes [makeLayers] wires.  In a network [makeLayers]
    returns, every convolution, fully-connected and pooling layer was built
    for the output shape of the layer before it: its [in_sx], [in_sy] and
    [in_depth] (for a fully-connected layer, [num_inputs], their product)
    are the [out_sx], [out_sy] and [out_depth] of its predecessor, whatever
    the definition said; a pooling layer keeps the depth of its predecessor. *)
Theorem makeLayers_wires_shapes (E : ExtLayer.impl) (defs : list Opt.t)
        (N : Net.t) (h h' : World) :
  Net.makeLayers E defs h = Ok N h' ->
  forall (i : nat) (prev l : Layer.t),
    nth_error (Net.layers N) i = Some prev ->
    nth_error (Net.layers N) (Datatypes.S i) = Some l ->
    Spec.fed_by prev l.
Proof.
  intros H. unfold Net.makeLayers in H.
  apply bind_inv in H. destruct H as (u1 & h1 & _ & H).
  apply bind_inv in H. destruct H as (u2 & h2 & _ & H).
  apply bind_inv in H. destruct H as (ds & h3 & _ & H).
  apply bind_inv in H. destruct H as (ls & h4 & HL & H).
  apply ret_inv in H. destruct H as [<- _]. cbn [Net.layers].
  assert (P : len ls <= len ds /\ Spec.wired ls).
  { apply (for_js_inv (fun i st => len st <= i /\ Spec.wired st) (len ds)
             (Net.create E ds) [])
      with (m := len ds) (h := h3) (h' := h4).
    - split; [reflexivity|]. intros k prev l Hk. destruct k; discriminate.
    - intros i st h5 st' h6 Hi (Hlen & W) HC.
      apply (create_wires E ds i st st' h5 h6); (lia || assumption).
    - pose proof (len_nonneg ds). lia.
    - exact HL. }
  exact (proj2 P).
Qed.

Lemma makeLayers_wires_witness :
  exists N h',
    Net.makeLayers Sample.ext [Sample.input_def; Sample.swish_def; Sample.softmax_def]
                   Sample.host = Ok N h' /\
    forall (i : nat) (prev l : Layer.t),
      nth_error (Net.layers N) i = Some prev ->
      nth_error (Net.layers N) (Datatypes.S i) = Some l ->
      Spec.fed_by prev l.
Proof.
  eassert (EM : Net.makeLayers Sample.ext
                  [Sample.input_def; Sample.swish_def; Sample.softmax_def] Sample.host
                = Ok _ _) by (vm_compute; reflexivity).
  eexists. eexists. split; [exact EM|].
  exact (makeLayers_wires_shapes _ _ _ _ _ EM).
Defined.

(* ================================================================== *)
(** ** The trainer's update *)

(** Whatever the method, an iteration of the loop over [j] writes one
    weight and resets one gradient. *)
Lemma step_shape (T : Trainer.t) (sqrt : Q -> Q) (l1 l2 : Q) (j : Z) (a : Trainer.acc) :
  len (Trainer.acc_p (Trainer.step T sqrt l1 l2 j a)) = len (Trainer.acc_p a) /\
  Trainer.acc_g (Trainer.step T sqrt l1 l2 j a) = wr (Trainer.acc_g a) j 0%Q.
Proof.
  unfold Trainer.step.
  destruct (Net.streq (Trainer.method T) "adagrad");
    [|destruct (Net.streq (Trainer.method T) "windowgrad");
      [|destruct (Net.streq (Trainer.method T) "adadelta");
        [|destruct (Net.streq (Trainer.method T) "nesterov");
          [|destruct (gt (Trainer.momentum T) 0)]]]];
    cbn [Trainer.acc_p Trainer.acc_g]; rewrite len_wr; split; reflexivity.
Qed.

Lemma steps_reset (T : Trainer.t) (sqrt : Q -> Q) (l1 l2 : Q) (a0 : Trainer.acc) :
  let a := for_ (len (Trainer.acc_p a0)) (Trainer.step T sqrt l1 l2) a0 in
  len (Trainer.acc_p a) = len (Trainer.acc_p a0) /\
  len (Trainer.acc_g a) = len (Trainer.acc_g a0) /\
  forall j, 0 <= j < len (Trainer.acc_p a0) -> rd 0%Q (Trainer.acc_g a) j = 0%Q.
Proof.
  cbv zeta.
  pose (P := fun (i : Z) (a : Trainer.acc) =>
               len (Trainer.acc_p a) = len (Trainer.acc_p a0) /\
               len (Trainer.acc_g a) = len (Trainer.acc_g a0) /\
               forall j, 0 <= j < i -> rd 0%Q (Trainer.acc_g a) j = 0%Q).
  apply (for_ind P); [apply len_nonneg | |].
  - split; [reflexivity|]. split; [reflexivity|]. intros j Hj. lia.
  - intros i a Hi (Hp & Hg & Hz).
    destruct (step_shape T sqrt l1 l2 i a) as (Sp & Sg).
    split; [congruence|]. rewrite Sg. split; [now rewrite len_wr|].
    intros j Hj. destruct (Z.eq_dec j i) as [-> | Hne].
    + destruct (Z_lt_ge_dec i (len (Trainer.acc_g a))) as [Hin | Hout].
      * apply rd_wr_same. lia.
      * rewrite wr_outside by lia. unfold rd.
        destruct (i <? 0); [reflexivity|]. apply nth_overflow. unfold len in Hout. lia.
    + rewrite rd_wr_other by lia. apply Hz. lia.
Qed.

Lemma accumulator_inv (s : list (list Q)) (i : Z) (read : bool) (b : list Q)
      (h h' : World) :
  Trainer.accumulator s i read h = Ok b h' -> h' = h /\ wr s i b = s.
Proof.
  unfold Trainer.accumulator.
  destruct (nth_error s (Z.to_nat i)) as [c|] eqn:En.
  - intros H. apply ret_inv in H. destruct H as [<- <-]. split; [reflexivity|].
    unfold wr. destruct (i <? 0); [reflexivity|].
    revert En. generalize (Z.to_nat i). clear.
    induction s as [|x s IH]; intros [|n] En; simpl in *; try discriminate.
    + now injection En as ->.
    + now rewrite IH.
  - destruct read; [discriminate|].
    intros H. apply ret_inv in H. destruct H as [<- <-]. split; [reflexivity|].
    unfold wr. destruct (i <? 0); [reflexivity|].
    apply nth_error_None in En. revert En. generalize (Z.to_nat i). clear.
    induction s as [|x s IH]; intros [|n] En; simpl in *; try reflexivity; try lia.
    rewrite IH by lia. reflexivity.
Qed.

(** X18 -- the update loop resets the gradients.  Whatever the method,
    when the loop over the parameter groups returns, it has left the host as
    it was, every group has its multipliers and the lengths of its buffers
    as before, and every gradient entry that has a weight is [0], so that
    the next batch accumulates anew. *)
Theorem update_resets_gradients (T : Trainer.t) (sqrt : Q -> Q)
        (pglist : list ParamGroup.t) (gs xs : list (list Q))
        (u : Trainer.upd_state) (h h' : World) :
  for_js (len pglist) (Trainer.update_group T sqrt) (Trainer.mkUpd 0 0 pglist gs xs) h
  = Ok u h' ->
  h' = h /\
  len (Trainer.u_pglist u) = len pglist /\
  forall i, 0 <= i < len pglist ->
    let pg := rd Layer.no_group pglist i in
    let pg' := rd Layer.no_group (Trainer.u_pglist u) i in
    len (ParamGroup.params pg') = len (ParamGroup.params pg) /\
    len (ParamGroup.grads pg') = len (ParamGroup.grads pg) /\
    ParamGroup.l1_decay_mul pg' = ParamGroup.l1_decay_mul pg /\
    ParamGroup.l2_decay_mul pg' = ParamGroup.l2_decay_mul pg /\
    forall j, 0 <= j < len (ParamGroup.params pg) -> j < len (ParamGroup.grads pg) ->
      rd 0%Q (ParamGroup.grads pg') j = 0%Q.
Proof.
  intros H.
  pose (P := fun (n : Z) (st : Trainer.upd_state * World) =>
    snd st = h /\
    len (Trainer.u_pglist (fst st)) = len pglist /\
    (forall i, n <= i < len pglist ->
       rd Layer.no_group (Trainer.u_pglist (fst st)) i = rd Layer.no_group pglist i) /\
    forall i, 0 <= i < n ->
      let pg := rd Layer.no_group pglist i in
      let pg' := rd Layer.no_group (Trainer.u_pglist (fst st)) i in
      len (ParamGroup.params pg') = len (ParamGroup.params pg) /\
      len (ParamGroup.grads pg') = len (ParamGroup.grads pg) /\
      ParamGroup.l1_decay_mul pg' = ParamGroup.l1_decay_mul pg /\
      ParamGroup.l2_decay_mul pg' = ParamGroup.l2_decay_mul pg /\
      forall j, 0 <= j < len (ParamGroup.params pg) ->
        rd 0%Q (ParamGroup.grads pg') j = 0%Q).
  assert (G : forall m, 0 <= m <= len pglist ->
            forall st h1, for_js m (Trainer.update_group T sqrt)
                            (Trainer.mkUpd 0 0 pglist gs xs) h = Ok st h1 ->
            P m (st, h1)).
  { intros m [Hm Hmn]. revert Hmn. pattern m. apply natlike_ind; [| |exact Hm].
    - intros _ st h1 H0. rewrite for_js_nil in H0 by lia.
      apply ret_inv in H0. destruct H0 as [<- <-].
      split; [reflexivity|]. split; [reflexivity|]. split; [reflexivity|].
      intros i Hi. lia.
    - intros k Hk IH Hkn st h1 H1. unfold Z.succ in *.
      rewrite for_js_snoc in H1 by exact Hk.
      apply bind_inv in H1. destruct H1 as (st0 & h0 & H0 & H1).
      destruct (IH ltac:(lia) st0 h0 H0) as (Ih & Il & Irest & Idone).
      cbn [fst snd] in Ih, Il, Irest, Idone. subst h0.
      unfold Trainer.update_group in H1.
      apply bind_inv in H1. destruct H1 as (gsumi & h2 & Hg & H1).
      apply bind_inv in H1. destruct H1 as (xsumi & h3 & Hx & H1).
      apply accumulator_inv in Hg. destruct Hg as [-> _].
      apply accumulator_inv in Hx. destruct Hx as [-> _].
      apply ret_inv in H1. destruct H1 as [<- <-].
      unfold P. cbn [fst snd Trainer.u_pglist].
      split; [reflexivity|]. split; [now rewrite len_wr|]. split.
      + intros i Hi. rewrite rd_wr_other by lia. apply Irest. lia.
      + intros i Hi. destruct (Z.eq_dec i k) as [-> | Hne].
        * rewrite rd_wr_same by lia. cbn [ParamGroup.params ParamGroup.grads
            ParamGroup.l1_decay_mul ParamGroup.l2_decay_mul].
          rewrite (Irest k) by lia.
          match goal with |- context [for_ ?n ?b ?a0] =>
            pose proof (steps_reset T sqrt
                          (Trainer.group_l1_decay T (rd Layer.no_group pglist k))
                          (Trainer.group_l2_decay T (rd Layer.no_group pglist k)) a0) as R
          end.
          cbv zeta in R. cbn [Trainer.acc_p Trainer.acc_g] in R.
          destruct R as (R1 & R2 & R3).
          split; [exact R1|]. split; [exact R2|]. split; [reflexivity|].
          split; [reflexivity | exact R3].
        * rewrite rd_wr_other by lia. apply Idone. lia. }
  pose proof (len_nonneg pglist) as Hn.
  destruct (G (len pglist) ltac:(lia) u h' H) as (Gh & Gl & _ & Gd).
  cbn [fst snd] in Gh, Gl, Gd. split; [exact Gh|]. split; [exact Gl|].
  intros i Hi. destruct (Gd i Hi) as (D1 & D2 & D3 & D4 & D5).
  cbv zeta. split; [exact D1|]. split; [exact D2|]. split; [exact D3|].
  split; [exact D4|]. intros j Hj _. now apply D5.
Qed.

Lemma update_resets_witness :
  let pglist := [ParamGroup.mk [1; 2]%Q [3; 4]%Q (Some 1%Q) (Some 1%Q)] in
  exists u,
    for_js (len pglist) (Trainer.update_group Sample.l1_trainer (fun x => x))
           (Trainer.mkUpd 0 0 pglist [] []) Sample.host = Ok u Sample.host /\
    rd 0%Q (ParamGroup.grads (rd Layer.no_group (Trainer.u_pglist u) 0)) 0 = 0%Q /\
    rd 0%Q (ParamGroup.grads (rd Layer.no_group (Trainer.u_pglist u) 0)) 1 = 0%Q.
Proof.
  intros pglist.
  eassert (E : for_js (len pglist) (Trainer.update_group Sample.l1_trainer (fun x => x))
                 (Trainer.mkUpd 0 0 pglist [] []) Sample.host = Ok _ _)
    by (vm_compute; reflexivity).
  destruct (update_resets_gradients _ _ _ _ _ _ _ _ E) as (_ & _ & Hz).
  eexists. split; [exact E|].
  destruct (Hz 0) as (_ & _ & _ & _ & Hg); [vm_compute; split; [discriminate|reflexivity]|].
  split; apply Hg; vm_compute; try split; try discriminate; reflexivity.
Defined.

Lemma accumulator_ok (s : list (list Q)) (i : Z) (read : bool) (h : World) :
  read = false \/ (exists b, nth_error s (Z.to_nat i) = Some b) ->
  exists b, Trainer.accumulator s i read h = Ok b h /\
            (forall c, nth_error s (Z.to_nat i) = Some c -> b = c).
Proof.
  intros H. unfold Trainer.accumulator.
  destruct (nth_error s (Z.to_nat i)) as [c|] eqn:En.
  - exists c. split; [reflexivity|]. intros c' E. now injection E.
  - destruct H as [-> | (b & Hb)]; [|discriminate].
    exists []. split; [reflexivity|]. intros c E. discriminate.
Qed.

Section SgdGroup.

Variables (T : Trainer.t) (sqrt : Q -> Q) (l1 l2 : Q).
Variables (p0 g0 gs0 xs0 : list Q) (L2 L1 : Q).

Hypothesis method_sgd : Trainer.method T = "sgd"%string.
Hypothesis grads_len : len g0 = len p0.
Hypothesis gsum_len : gt (Trainer.momentum T) 0 = true -> len gs0 = len p0.

Let G (j : Z) : Q :=
  Trainer.gij l1 l2 (Trainer.batch_size T) (rd 0%Q p0 j) (rd 0%Q g0 j).

Let dx (j : Z) : Q :=
  if gt (Trainer.momentum T) 0
  then (Trainer.momentum T * rd 0%Q gs0 j - Trainer.learning_rate T * G j)%Q
  else (- Trainer.learning_rate T * G j)%Q.

Let inv (n : Z) (a : Trainer.acc) : Prop :=
  len (Trainer.acc_p a) = len p0 /\ len (Trainer.acc_g a) = len p0 /\
  (forall k, 0 <= k < n ->
     rd 0%Q (Trainer.acc_p a) k = (rd 0%Q p0 k + dx k)%Q /\
     rd 0%Q (Trainer.acc_g a) k = 0%Q) /\
  (forall k, n <= k < len p0 ->
     rd 0%Q (Trainer.acc_p a) k = rd 0%Q p0 k /\
     rd 0%Q (Trainer.acc_g a) k = rd 0%Q g0 k) /\
  Trainer.acc_xsumi a = xs0 /\
  (if gt (Trainer.momentum T) 0
   then len (Trainer.acc_gsumi a) = len p0 /\
        (forall k, 0 <= k < n -> rd 0%Q (Trainer.acc_gsumi a) k = dx k) /\
        (forall k, n <= k < len p0 -> rd 0%Q (Trainer.acc_gsumi a) k = rd 0%Q gs0 k)
   else Trainer.acc_gsumi a = gs0) /\
  (Trainer.acc_l2_decay_loss a
   == L2 + Spec.sum_upto n (fun k => l2 * rd 0%Q p0 k * rd 0%Q p0 k / 2))%Q /\
  (Trainer.acc_l1_decay_loss a
   == L1 + Spec.sum_upto n (fun k => l1 * Qabs (rd 0%Q p0 k)))%Q.

Lemma sgd_steps :
  inv (len p0) (for_ (len p0) (Trainer.step T sqrt l1 l2)
                     (Trainer.mkAcc L2 L1 p0 g0 gs0 xs0)).
Proof.
  apply for_ind; [apply len_nonneg | |].
  - unfold inv. cbn [Trainer.acc_p Trainer.acc_g Trainer.acc_gsumi Trainer.acc_xsumi
                     Trainer.acc_l2_decay_loss Trainer.acc_l1_decay_loss].
    split; [reflexivity|]. split; [exact grads_len|].
    split; [intros k Hk; lia|]. split; [intros k Hk; split; reflexivity|].
    split; [reflexivity|]. split.
    { destruct (gt (Trainer.momentum T) 0) eqn:M; [|reflexivity].
      split; [now apply gsum_len|]. split; [intros k Hk; lia | reflexivity]. }
    rewrite !sum_upto_nil by lia. split; ring.
  - intros i a Hi (Hp & Hg & Hdone & Hrest & Hx & Hgs & H2 & H1).
    destruct (Hrest i ltac:(lia)) as (Rp & Rg).
    unfold Trainer.step. rewrite method_sgd.
    change (Net.streq "sgd" "adagrad") with false.
    change (Net.streq "sgd" "windowgrad") with false.
    change (Net.streq "sgd" "adadelta") with false.
    change (Net.streq "sgd" "nesterov") with false.
    cbv beta iota zeta. rewrite Rp, Rg.
    unfold inv, dx. destruct (gt (Trainer.momentum T) 0) eqn:M;
      cbn [Trainer.acc_p Trainer.acc_g Trainer.acc_gsumi Trainer.acc_xsumi
           Trainer.acc_l2_decay_loss Trainer.acc_l1_decay_loss].
    + destruct Hgs as (Gl & Gd & Gr). rewrite (Gr i ltac:(lia)).
      split; [now rewrite len_wr|]. split; [now rewrite len_wr|]. split.
      { intros k Hk. destruct (Z.eq_dec k i) as [-> | Hne].
        - rewrite !rd_wr_same by lia. split; reflexivity.
        - rewrite !rd_wr_other by lia. apply Hdone. lia. }
      split.
      { intros k Hk. rewrite !rd_wr_other by lia. apply Hrest. lia. }
      split; [exact Hx|]. split.
      { split; [now rewrite len_wr|]. split.
        - intros k Hk. destruct (Z.eq_dec k i) as [-> | Hne].
          + rewrite rd_wr_same by lia. reflexivity.
          + rewrite rd_wr_other by lia. apply Gd. lia.
        - intros k Hk. rewrite rd_wr_other by lia. apply Gr. lia. }
      rewrite !sum_upto_snoc by lia. rewrite H2, H1. split; ring.
    + split; [now rewrite len_wr|]. split; [now rewrite len_wr|]. split.
      { intros k Hk. destruct (Z.eq_dec k i) as [-> | Hne].
        - rewrite !rd_wr_same by lia. split; reflexivity.
        - rewrite !rd_wr_other by lia. apply Hdone. lia. }
      split.
      { intros k Hk. rewrite !rd_wr_other by lia. apply Hrest. lia. }
      split; [exact Hx|]. split; [exact Hgs|].
      rewrite !sum_upto_snoc by lia. rewrite H2, H1. split; ring.
Qed.

End SgdGroup.

Lemma nth_error_rd {A} (d : A) (l : list A) (i : Z) :
  0 <= i < len l -> nth_error l (Z.to_nat i) = Some (rd d l i).
Proof.
  intros Hi. unfold rd, len in *. destruct (Z.ltb_spec i 0); [lia|].
  apply nth_error_nth'. lia.
Qed.

(** X19 -- the update of one parameter group by stochastic gradient
    descent (method ['sgd']).  For a group whose gradient buffer is as long
    as its weight buffer the update does not throw and touches this group
    only.  Every gradient entry is reset to [0].  Without momentum every
    weight moves by [- learning_rate * gij] and the accumulators are left as
    they were; with momentum (and an accumulator as long as the weights) every
    weight moves by [dx = momentum * gsum[j] - learning_rate * gij] and [dx]
    is stored in the accumulator.  [gij] is the source's batch gradient of
    the weight and gradient as they were before the update, and the two
    decay losses grow by the sums of [l2_decay*p*p/2] and [l1_decay*|p|]
    over the weights as they were. *)
Theorem sgd_group_update (T : Trainer.t) (sqrt : Q -> Q) (i : Z)
        (u : Trainer.upd_state) (h : World) :
  let pg := rd Layer.no_group (Trainer.u_pglist u) i in
  let p := ParamGroup.params pg in
  let g := ParamGroup.grads pg in
  let gsumi := rd [] (Trainer.u_gsum u) i in
  let l1 := Trainer.group_l1_decay T pg in
  let l2 := Trainer.group_l2_decay T pg in
  let gij := fun j => Trainer.gij l1 l2 (Trainer.batch_size T) (rd 0%Q p j) (rd 0%Q g j) in
  Trainer.method T = "sgd"%string ->
  0 <= i < len (Trainer.u_pglist u) ->
  len g = len p ->
  (gt (Trainer.momentum T) 0 = true ->
   i < len (Trainer.u_gsum u) /\ len gsumi = len p) ->
  exists u',
    Trainer.update_group T sqrt i u h = Ok u' h /\
    len (Trainer.u_pglist u') = len (Trainer.u_pglist u) /\
    (forall k, k <> i ->
       rd Layer.no_group (Trainer.u_pglist u') k
       = rd Layer.no_group (Trainer.u_pglist u) k) /\
    Trainer.u_xsum u' = Trainer.u_xsum u /\
    (gt (Trainer.momentum T) 0 = false -> Trainer.u_gsum u' = Trainer.u_gsum u) /\
    (forall j, 0 <= j < len p ->
       let pg' := rd Layer.no_group (Trainer.u_pglist u') i in
       rd 0%Q (ParamGroup.grads pg') j = 0%Q /\
       (gt (Trainer.momentum T) 0 = false ->
        rd 0%Q (ParamGroup.params pg') j
        = (rd 0%Q p j + - Trainer.learning_rate T * gij j)%Q) /\
       (gt (Trainer.momentum T) 0 = true ->
        rd 0%Q (ParamGroup.params pg') j
        = (rd 0%Q p j
           + (Trainer.momentum T * rd 0%Q gsumi j - Trainer.learning_rate T * gij j))%Q /\
        rd 0%Q (rd [] (Trainer.u_gsum u') i) j
        = (Trainer.momentum T * rd 0%Q gsumi j - Trainer.learning_rate T * gij j)%Q)) /\
    (Trainer.u_l2_decay_loss u'
     == Trainer.u_l2_decay_loss u
        + Spec.sum_upto (len p) (fun j => l2 * rd 0%Q p j * rd 0%Q p j / 2))%Q /\
    (Trainer.u_l1_decay_loss u'
     == Trainer.u_l1_decay_loss u
        + Spec.sum_upto (len p) (fun j => l1 * Qabs (rd 0%Q p j)))%Q.
Proof.
  intros pg p g gsumi l1 l2 gij Hm Hi Hg Hmom.
  assert (Rg : Trainer.reads_gsum T = gt (Trainer.momentum T) 0).
  { unfold Trainer.reads_gsum. rewrite Hm. reflexivity. }
  assert (Rx : Trainer.reads_xsum T = false).
  { unfold Trainer.reads_xsum. rewrite Hm. reflexivity. }
  destruct (accumulator_ok (Trainer.u_gsum u) i
              (Trainer.reads_gsum T && (0 <? len p)) h) as (b & Eb & Hb).
  { rewrite Rg. destruct (gt (Trainer.momentum T) 0) eqn:M; [right | now left].
    destruct (Hmom eq_refl) as (Hlt & _).
    exists gsumi. apply nth_error_rd. lia. }
  destruct (accumulator_ok (Trainer.u_xsum u) i
              (Trainer.reads_xsum T && (0 <? len p)) h) as (c & Ec & _).
  { rewrite Rx. now left. }
  destruct (accumulator_inv _ _ _ _ _ _ Eb) as (_ & Wb).
  destruct (accumulator_inv _ _ _ _ _ _ Ec) as (_ & Wc).
  assert (Hbl : gt (Trainer.momentum T) 0 = true -> b = gsumi /\ len b = len p).
  { intros M. destruct (Hmom M) as (Hlt & Hl).
    assert (b = gsumi) by (apply Hb; apply nth_error_rd; lia).
    subst b. now split. }
  pose proof (sgd_steps T sqrt l1 l2 p g b c (Trainer.u_l2_decay_loss u)
                (Trainer.u_l1_decay_loss u) Hm Hg (fun M => proj2 (Hbl M)))
    as (Sp & Sg & Sdone & _ & Sx & Sgs & S2 & S1).
  unfold Trainer.update_group. fold pg. fold p g l1 l2.
  rewrite (bind_ok _ _ _ _ _ Eb), (bind_ok _ _ _ _ _ Ec).
  eexists. split; [reflexivity|].
  cbn [Trainer.u_pglist Trainer.u_gsum Trainer.u_xsum Trainer.u_l2_decay_loss
       Trainer.u_l1_decay_loss].
  split; [now rewrite len_wr|].
  split; [intros k Hk; now rewrite rd_wr_other by lia|].
  split; [rewrite Sx; exact Wc|].
  split.
  { intros M. rewrite M in Sgs. rewrite Sgs. exact Wb. }
  split; [|split; [exact S2 | exact S1]].
  intros j Hj. cbv zeta. rewrite rd_wr_same by lia.
  cbn [ParamGroup.params ParamGroup.grads].
  destruct (Sdone j Hj) as (Dp & Dg). split; [exact Dg|]. split.
  - intros M. rewrite Dp, M. reflexivity.
  - intros M. destruct (Hbl M) as (-> & Hl). destruct (Hmom M) as (Hlt & _).
    rewrite M in Dp, Sgs. split; [exact Dp|].
    rewrite rd_wr_same by lia. destruct Sgs as (_ & Gd & _). now apply Gd.
Qed.

Lemma sgd_group_update_witness :
  let u := Trainer.mkUpd 0 0 [ParamGroup.mk [1; 2]%Q [3; 4]%Q (Some 1%Q) (Some 1%Q)]
                         [] [] in
  exists u',
    Trainer.update_group Sample.l1_trainer (fun x => x) 0 u Sample.host
    = Ok u' Sample.host /\
    Trainer.u_gsum u' = Trainer.u_gsum u /\
    (rd 0%Q (ParamGroup.params (rd Layer.no_group (Trainer.u_pglist u') 0)) 0
     == 3 # 5)%Q.
Proof.
  intros u.
  destruct (sgd_group_update Sample.l1_trainer (fun x => x) 0 u Sample.host)
    as (u' & E & _ & _ & _ & Hgs & Hj & _).
  - reflexivity.
  - vm_compute. split; [discriminate | reflexivity].
  - reflexivity.
  - intros M. vm_compute in M. discriminate.
  - exists u'. split; [exact E|]. split; [apply Hgs; reflexivity|].
    destruct (Hj 0) as (_ & Hp & _); [vm_compute; split; [discriminate | reflexivity]|].
    rewrite Hp by reflexivity. vm_compute. reflexivity.
Defined.


(** X20 -- the lazy allocation of the accumulators.  When [gsum] is not
    empty, or the method is plain ['sgd'] without momentum, nothing is
    allocated.  Otherwise, on the first update, [gsum] receives one zero buffer
    per parameter group, as long as the group's weights, and [xsum]
    receives the same buffers for ['adadelta'] and empty lists for every other
    method; the call does not throw. *)
Theorem allocate_is_lazy (T : Trainer.t) (pglist : list ParamGroup.t) (h : World) :
  let needed := negb (Net.streq (Trainer.method T) "sgd") || gt (Trainer.momentum T) 0 in
  let zeroed := fun pg : ParamGroup.t =>
                  repeat 0%Q (List.length (ParamGroup.params pg)) in
  (len (Trainer.gsum T) <> 0 \/ needed = false ->
   Trainer.allocate T pglist h = Ok (Trainer.gsum T, Trainer.xsum T) h) /\
  (Trainer.gsum T = [] -> needed = true ->
   Trainer.allocate T pglist h
   = Ok (map zeroed pglist,
         Trainer.xsum T
         ++ map (fun pg => if Net.streq (Trainer.method T) "adadelta"
                           then zeroed pg else []) pglist) h).
Proof.
  intros needed zeroed. split.
  - intros H. unfold Trainer.allocate. fold needed.
    destruct (len (Trainer.gsum T) =? 0) eqn:B; [|reflexivity].
    apply Z.eqb_eq in B. destruct H as [H | ->]; [congruence | reflexivity].
  - intros Hg Hn. unfold Trainer.allocate. fold needed. rewrite Hg, Hn.
    change (len (@nil (list Q)) =? 0) with true. cbn [andb].
    pose (P := fun (i : Z) (st : list (list Q) * list (list Q)) =>
                 st = (map zeroed (firstn (Z.to_nat i) pglist),
                       Trainer.xsum T
                       ++ map (fun pg => if Net.streq (Trainer.method T) "adadelta"
                                         then zeroed pg else [])
                              (firstn (Z.to_nat i) pglist))).
    match goal with |- for_js ?n ?b ?s h = _ =>
      destruct (for_js_ind P (fun h1 => h1 = h) n b s h) as (st & h' & E & HP & ->)
    end.
    + apply len_nonneg.
    + unfold P. simpl. now rewrite app_nil_r.
    + reflexivity.
    + intros i [gs xs] h1 Hi HP ->. unfold P in HP. injection HP as -> ->.
      pose proof (nth_error_rd Layer.no_group pglist i Hi) as Hnth.
      set (pg := rd Layer.no_group pglist i) in *.
      assert (Z0 : zeros (len (ParamGroup.params pg)) h = Ok (zeroed pg) h).
      { rewrite zeros_ok by apply len_nonneg. unfold zeroed, len.
        now rewrite Nat2Z.id. }
      rewrite (bind_ok _ _ _ _ _ Z0).
      assert (F : firstn (Z.to_nat (i + 1)) pglist
                  = firstn (Z.to_nat i) pglist ++ [pg]).
      { replace (Z.to_nat (i + 1)) with (Datatypes.S (Z.to_nat i)) by lia.
        now apply firstn_succ. }
      destruct (Net.streq (Trainer.method T) "adadelta") eqn:A.
      * rewrite (bind_ok _ _ _ _ _ Z0).
        eexists. eexists. split; [reflexivity|]. split; [|reflexivity].
        unfold P. rewrite F, !map_app, app_assoc. reflexivity.
      * eexists. eexists. split; [reflexivity|]. split; [|reflexivity].
        unfold P. rewrite F, !map_app, app_assoc. reflexivity.
    + rewrite E. unfold P in HP. rewrite HP. unfold len.
      rewrite Nat2Z.id, firstn_all. reflexivity.
Qed.

Lemma allocate_witness :
  let T := Trainer.new (Net.mk [])
             (Trainer.mkOptions None None None None (Some "adadelta"%string) None None None) in
  let pglist := [ParamGroup.mk [1; 2]%Q [3; 4]%Q None None; Sample.zero_group] in
  Trainer.allocate Sample.l1_trainer pglist Sample.host = Ok ([], []) Sample.host /\
  Trainer.allocate T pglist Sample.host
  = Ok ([[0; 0]%Q; [0%Q]], [[0; 0]%Q; [0%Q]]) Sample.host.
Proof.
  intros T pglist. split.
  - apply (proj1 (allocate_is_lazy Sample.l1_trainer pglist Sample.host)).
    right. reflexivity.
  - apply (proj2 (allocate_is_lazy T pglist Sample.host)); reflexivity.
Defined.

(** X21 -- the bookkeeping of [train].  Whenever [train] returns, the
    iteration counter has grown by one and none of the trainer's options has
    changed; [softmax_loss] repeats [cost_loss], and [loss] is their sum with
    the two decay losses.  With a batch size of [0] the remainder [k % 0]
    is never [0]: no update is made, the accumulators stay as they were and
    both decay losses are [0]. *)
Theorem train_bookkeeping (E : ExtLayer.impl) (T T' : Trainer.t) (x : Vol.t)
        (y : option ExtLayer.target) (r : Trainer.stats) (h h' : World) :
  Trainer.train E T x y h = Ok (T', r) h' ->
  Trainer.k T' = Trainer.k T + 1 /\
  Trainer.learning_rate T' = Trainer.learning_rate T /\
  Trainer.l1_decay T' = Trainer.l1_decay T /\
  Trainer.l2_decay T' = Trainer.l2_decay T /\
  Trainer.batch_size T' = Trainer.batch_size T /\
  Trainer.method T' = Trainer.method T /\
  Trainer.momentum T' = Trainer.momentum T /\
  Trainer.ro T' = Trainer.ro T /\
  Trainer.eps T' = Trainer.eps T /\
  Trainer.softmax_loss r = Trainer.cost_loss r /\
  Trainer.loss r
  = Trainer.add_loss (Trainer.cost_loss r) (Trainer.l1_decay_loss r)
                     (Trainer.l2_decay_loss r) /\
  (Trainer.batch_size T = 0 ->
   Trainer.gsum T' = Trainer.gsum T /\ Trainer.xsum T' = Trainer.xsum T /\
   Trainer.l1_decay_loss r = 0%Q /\ Trainer.l2_decay_loss r = 0%Q).
Proof.
  intros H. unfold Trainer.train in H.
  apply bind_inv in H. destruct H as (f & h1 & _ & H).
  apply bind_inv in H. destruct H as (b & h2 & _ & H).
  cbv zeta in H.
  destruct (Trainer.batch_complete (Trainer.k T + 1) (Trainer.batch_size T)) eqn:B.
  - apply bind_inv in H. destruct H as (s & h3 & _ & H).
    apply bind_inv in H. destruct H as (q & h4 & _ & H).
    apply bind_inv in H. destruct H as (u & h5 & _ & H).
    apply ret_inv in H. destruct H as [H _]. injection H as <- <-.
    cbn. do 11 (split; [reflexivity|]).
    intros Z0. unfold Trainer.batch_complete in B. rewrite Z0 in B. discriminate.
  - apply ret_inv in H. destruct H as [H _]. injection H as <- <-.
    cbn. do 11 (split; [reflexivity|]). intros _. repeat split; reflexivity.
Qed.

Lemma train_bookkeeping_witness :
  exists T' r h',
    Trainer.train Sample.ext Sample.trainer Sample.example None Sample.host
    = Ok (T', r) h' /\
    Trainer.k T' = Trainer.k Sample.trainer + 1 /\
    Trainer.batch_size T' = Trainer.batch_size Sample.trainer /\
    Trainer.softmax_loss r = Trainer.cost_loss r.
Proof.
  eassert (E : Trainer.train Sample.ext Sample.trainer Sample.example None Sample.host
               = Ok (_, _) _) by (vm_compute; reflexivity).
  destruct (train_bookkeeping _ _ _ _ _ _ _ _ E)
    as (K & _ & _ & _ & B & _ & _ & _ & _ & S & _).
  eexists. eexists. eexists. split; [exact E|]. split; [exact K|].
  split; [exact B | exact S].
Defined.

(* ================================================================== *)
(** ** Max-pooling: a second forward pass *)

Lemma ix_surjective (sx sy depth j : Z) :
  0 <= sx -> 0 <= sy -> 0 <= depth ->
  0 <= j < sx * sy * depth ->
  exists x y d,
    0 <= x < sx /\ 0 <= y < sy /\ 0 <= d < depth /\ j = ((sx * y) + x) * depth + d.
Proof.
  intros Hx Hy Hd Hj.
  assert (Dp : 0 < depth) by nia.
  assert (Xp : 0 < sx) by nia.
  pose proof (Z.div_mod j depth ltac:(lia)) as E1.
  pose proof (Z.mod_pos_bound j depth Dp) as B1.
  assert (Q0 : 0 <= j / depth) by (apply Z.div_pos; lia).
  assert (Q1 : j / depth < sx * sy)
    by (apply Z.div_lt_upper_bound; [lia | nia]).
  pose proof (Z.div_mod (j / depth) sx ltac:(lia)) as E2.
  pose proof (Z.mod_pos_bound (j / depth) sx Xp) as B2.
  assert (Y0 : 0 <= j / depth / sx) by (apply Z.div_pos; lia).
  assert (Y1 : j / depth / sx < sy)
    by (apply Z.div_lt_upper_bound; [lia | nia]).
  exists ((j / depth) mod sx), (j / depth / sx), (j mod depth).
  repeat split; (lia || nia).
Qed.

(** Two pooling layers of the same configuration compute the same output
    and the same switches, whatever their switches held before. *)
Lemma pool_forward_determined (L L' : PoolLayer.t) (V : Vol.t) (t t' : bool)
      (h : World) :
  PoolLayer.wf L -> PoolLayer.wf L' ->
  PoolLayer.sx L' = PoolLayer.sx L -> PoolLayer.sy L' = PoolLayer.sy L ->
  PoolLayer.stride L' = PoolLayer.stride L -> PoolLayer.pad L' = PoolLayer.pad L ->
  PoolLayer.out_sx L' = PoolLayer.out_sx L -> PoolLayer.out_sy L' = PoolLayer.out_sy L ->
  PoolLayer.out_depth L' = PoolLayer.out_depth L ->
  exists A swx swy,
    PoolLayer.forward L V t h
    = Ok (PoolLayer.with_state L swx swy (Some V) (Some A), A) h /\
    PoolLayer.forward L' V t' h
    = Ok (PoolLayer.with_state L' swx swy (Some V) (Some A), A) h.
Proof.
  intros W W' Esx Esy Est Epad Eox Eoy Eod.
  pose proof W as (Hsx & Hsy & Hox & Hoy & Hod & Hdepth & Hlx & Hly).
  destruct (pool_forward_result L V t h W)
    as (A & swx & swy & E & SA & DA & Lx & Ly & Hcells).
  destruct (pool_forward_result L' V t' h W')
    as (A' & swx' & swy' & E' & SA' & DA' & Lx' & Ly' & Hcells').
  rewrite Eox, Eoy, Eod in SA', DA', Lx', Ly', Hcells'.
  assert (Hscan : forall ax ay d,
            PoolLayer.scan L' V (PoolLayer.corner L' ax) (PoolLayer.corner L' ay) d
            = PoolLayer.scan L V (PoolLayer.corner L ax) (PoolLayer.corner L ay) d).
  { intros ax ay d. unfold PoolLayer.scan, PoolLayer.corner.
    now rewrite Esx, Esy, Est, Epad. }
  exists A, swx, swy. split; [exact E|]. rewrite E'.
  assert (EA : A' = A).
  { destruct SA as (S1 & S2 & S3 & S4). destruct SA' as (S1' & S2' & S3' & S4').
    assert (Ew : Vol.w A' = Vol.w A).
    { apply (buffer_ext 0%Q); [congruence|]. intros j Hj. rewrite S4' in Hj.
      destruct (ix_surjective _ _ _ j Hox Hoy Hod Hj)
        as (ax & ay & d & Hax & Hay & Hd & ->).
      destruct (Hcells ax ay d Hax Hay Hd) as (G & _).
      destruct (Hcells' ax ay d Hax Hay Hd) as (G' & _).
      rewrite Hscan in G'.
      unfold Vol.get, Vol.ix in G, G'. rewrite S1, S3 in G. rewrite S1', S3' in G'.
      rewrite G, G'. reflexivity. }
    destruct A as [a1 a2 a3 a4 a5], A' as [b1 b2 b3 b4 b5]. simpl in *. congruence. }
  assert (Esw : swx' = swx /\ swy' = swy).
  { split.
    - apply (buffer_ext 0); [congruence|]. intros j Hj. rewrite Lx' in Hj.
      destruct (ix_surjective (PoolLayer.out_sx L) (PoolLayer.out_depth L)
                  (PoolLayer.out_sy L) j Hox Hod Hoy ltac:(lia))
        as (ax & d & ay & Hax & Hd & Hay & ->).
      destruct (Hcells ax ay d Hax Hay Hd) as (_ & G & _).
      destruct (Hcells' ax ay d Hax Hay Hd) as (_ & G' & _).
      rewrite Hscan in G'.
      unfold PoolLayer.cell in G, G'. rewrite Eox, Eoy in G'.
      replace ((PoolLayer.out_sx L * d + ax) * PoolLayer.out_sy L + ay)
        with ((d * PoolLayer.out_sx L + ax) * PoolLayer.out_sy L + ay) by lia.
      rewrite G, G'. reflexivity.
    - apply (buffer_ext 0); [congruence|]. intros j Hj. rewrite Ly' in Hj.
      destruct (ix_surjective (PoolLayer.out_sx L) (PoolLayer.out_depth L)
                  (PoolLayer.out_sy L) j Hox Hod Hoy ltac:(lia))
        as (ax & d & ay & Hax & Hd & Hay & ->).
      destruct (Hcells ax ay d Hax Hay Hd) as (_ & _ & G).
      destruct (Hcells' ax ay d Hax Hay Hd) as (_ & _ & G').
      rewrite Hscan in G'.
      unfold PoolLayer.cell in G, G'. rewrite Eox, Eoy in G'.
      replace ((PoolLayer.out_sx L * d + ax) * PoolLayer.out_sy L + ay)
        with ((d * PoolLayer.out_sx L + ax) * PoolLayer.out_sy L + ay) by lia.
      rewrite G, G'. reflexivity. }
  destruct Esw as (-> & ->). rewrite EA. reflexivity.
Qed.

(** X22 -- a second forward pass of the pooling layer.  The switches are
    recomputed from the input on every pass, whatever they held before: after
    one forward pass, a second pass on the same input, with either value of
    the training flag, returns the same output and leaves the layer exactly
    as the first pass left it. *)
Theorem pool_forward_idempotent (L : PoolLayer.t) (V : Vol.t)
        (is_training is_training' : bool) (h : World) :
  PoolLayer.wf L ->
  exists L1 A,
    PoolLayer.forward L V is_training h = Ok (L1, A) h /\
    PoolLayer.forward L1 V is_training' h = Ok (L1, A) h.
Proof.
  intros W. pose proof W as (Hsx & Hsy & Hox & Hoy & Hod & Hdepth & Hlx & Hly).
  destruct (pool_forward_result L V is_training h W)
    as (A & swx & swy & E & SA & DA & Lx & Ly & Hcells).
  set (L1 := PoolLayer.with_state L swx swy (Some V) (Some A)) in *.
  assert (W1 : PoolLayer.wf L1) by (unfold PoolLayer.wf, L1; simpl; tauto).
  destruct (pool_forward_determined L L1 V is_training is_training' h W W1
              eq_refl eq_refl eq_refl eq_refl eq_refl eq_refl eq_refl)
    as (A2 & swx2 & swy2 & E2 & E1).
  rewrite E in E2. injection E2 as <- <- <-.
  exists L1, A. split; [exact E | exact E1].
Qed.

Lemma pool_forward_idempotent_witness :
  PoolLayer.wf Sample.pool /\
  exists L1 A,
    PoolLayer.forward Sample.pool Sample.image true Sample.host = Ok (L1, A) Sample.host /\
    PoolLayer.forward L1 Sample.image false Sample.host = Ok (L1, A) Sample.host.
Proof.
  assert (W : PoolLayer.wf Sample.pool) by (vm_compute; repeat split; discriminate).
  split; [exact W|].
  exact (pool_forward_idempotent Sample.pool Sample.image true false Sample.host W).
Defined.

(* ================================================================== *)
(** ** Saving and loading layers *)

(** The tensor [fromJSON] rebuilds from [toJSON]: the values of [V] with a
    zero gradient. *)
Lemma Vol_fromJSON_restores (V V0 : Vol.t) (h : World) :
  Vol.wf V ->
  Vol.fromJSON V0 (Vol.toJSON V) h
  = Ok (Vol.with_dw V (repeat 0%Q (Z.to_nat (Vol.sx V * Vol.sy V * Vol.depth V)))) h.
Proof.
  intros (Hsx & Hsy & Hd & Hw & Hdw).
  assert (Hn : 0 <= Vol.sx V * Vol.sy V * Vol.depth V)
    by (rewrite <- Hw; apply len_nonneg).
  unfold Vol.fromJSON, Vol.toJSON.
  cbn [Vol.json_sx Vol.json_sy Vol.json_depth Vol.json_w].
  rewrite (bind_ok _ _ _ _ _ (zeros_ok _ h Hn)).
  rewrite (bind_ok _ _ _ _ _ (zeros_ok _ h Hn)).
  destruct (for_fill 0%Q (fun i => rd 0%Q (Vol.w V) i)
              (Vol.sx V * Vol.sy V * Vol.depth V)
              (repeat 0%Q (Z.to_nat (Vol.sx V * Vol.sy V * Vol.depth V)))
              (len_repeat _ _ Hn)) as (Hlen & Hval).
  assert (E : for_ (Vol.sx V * Vol.sy V * Vol.depth V)
                (fun i w => wr w i (rd 0%Q (Vol.w V) i))
                (repeat 0%Q (Z.to_nat (Vol.sx V * Vol.sy V * Vol.depth V)))
              = Vol.w V).
  { apply (buffer_ext 0%Q); [congruence|]. intros i Hi. apply Hval. lia. }
  unfold ret, Vol.with_dw. now rewrite E.
Qed.

(** The list [toJSON] builds from the filters. *)
Lemma filters_toJSON (fs : list Vol.t) :
  for_ (len fs) (fun i js => js ++ [Vol.toJSON (rd ConvLayer.no_filter fs i)]) []
  = map Vol.toJSON fs.
Proof.
  rewrite (for_collect (fun i => Vol.toJSON (rd ConvLayer.no_filter fs i))). simpl.
  rewrite <- (map_rd_range ConvLayer.no_filter fs) at 2.
  now rewrite map_map.
Qed.

(** The loop of [fromJSON] over the filters that [toJSON] saved. *)
Lemma filters_fromJSON (fs : list Vol.t) (h : World) :
  (forall f, In f fs -> Vol.wf f) ->
  for_js (len (map Vol.toJSON fs))
    (fun i acc =>
       v <- Vol.new_const 0 0 0 0 ;;
       v <- Vol.fromJSON v (rd ConvLayer.no_json (map Vol.toJSON fs) i) ;;
       ret (acc ++ [v])) [] h
  = Ok (map (fun V => Vol.with_dw V
                        (repeat 0%Q (Z.to_nat (Vol.sx V * Vol.sy V * Vol.depth V)))) fs) h.
Proof.
  intros Hwf. rewrite len_map.
  set (restore := fun V => Vol.with_dw V
                    (repeat 0%Q (Z.to_nat (Vol.sx V * Vol.sy V * Vol.depth V)))).
  pose (P := fun (i : Z) (acc : list Vol.t) =>
               acc = map restore (firstn (Z.to_nat i) fs)).
  match goal with |- for_js ?n ?b ?s h = _ =>
    destruct (for_js_ind P (fun h1 => h1 = h) n b s h) as (st & h' & E & HP & ->)
  end.
  - apply len_nonneg.
  - reflexivity.
  - reflexivity.
  - intros i acc h1 Hi HP ->. unfold P in HP. subst acc.
    pose proof (nth_error_rd ConvLayer.no_filter fs i Hi) as Hnth.
    assert (N0 : Vol.new_const 0 0 0 0 h = Ok (Vol.mk 0 0 0 [] []) h) by reflexivity.
    rewrite (bind_ok _ _ _ _ _ N0).
    change ConvLayer.no_json with (Vol.toJSON ConvLayer.no_filter).
    rewrite rd_map.
    rewrite (bind_ok _ _ _ _ _
               (Vol_fromJSON_restores (rd ConvLayer.no_filter fs i) _ h
                  (Hwf _ (rd_In _ _ _ Hi)))).
    eexists. eexists. split; [reflexivity|]. split; [|reflexivity].
    unfold P. replace (Z.to_nat (i + 1)) with (Datatypes.S (Z.to_nat i)) by lia.
    rewrite (firstn_succ _ _ _ Hnth), map_app. reflexivity.
  - rewrite E. unfold P in HP. rewrite HP. unfold len.
    now rewrite Nat2Z.id, firstn_all.
Qed.

Lemma restored_filter (fs : list Vol.t) (d : Z) :
  rd ConvLayer.no_filter
     (map (fun V => Vol.with_dw V
                      (repeat 0%Q (Z.to_nat (Vol.sx V * Vol.sy V * Vol.depth V)))) fs) d
  = Vol.with_dw (rd ConvLayer.no_filter fs d)
      (repeat 0%Q (Z.to_nat (Vol.sx (rd ConvLayer.no_filter fs d)
                             * Vol.sy (rd ConvLayer.no_filter fs d)
                             * Vol.depth (rd ConvLayer.no_filter fs d)))).
Proof.
  change ConvLayer.no_filter
    with ((fun V => Vol.with_dw V
                      (repeat 0%Q (Z.to_nat (Vol.sx V * Vol.sy V * Vol.depth V))))
            ConvLayer.no_filter) at 1.
  now rewrite rd_map.
Qed.

(** X23 -- saving and loading a convolution layer.  [fromJSON] applied to
    what [toJSON] built from a layer with the constructor's shapes does not
    throw and restores the type tag, the sizes, stride, padding, both decay
    multipliers, and every filter and the biases with their values and a
    zero gradient; [in_sx], [in_sy] and the activations are not saved and
    stay those of the receiving layer.  The loaded layer computes the same
    forward output as the saved one. *)
Theorem ConvLayer_json_roundtrip (L L0 : ConvLayer.t) (h : World) :
  ConvLayer.wf L ->
  let restore := fun V => Vol.with_dw V
                   (repeat 0%Q (Z.to_nat (Vol.sx V * Vol.sy V * Vol.depth V))) in
  let L' := ConvLayer.mk (ConvLayer.out_depth L) (ConvLayer.sx L) (ConvLayer.in_depth L)
              (ConvLayer.in_sx L0) (ConvLayer.in_sy L0) (ConvLayer.sy L)
              (ConvLayer.stride L) (ConvLayer.pad L) (ConvLayer.l1_decay_mul L)
              (ConvLayer.l2_decay_mul L) (ConvLayer.out_sx L) (ConvLayer.out_sy L)
              (map restore (ConvLayer.filters L)) (restore (ConvLayer.biases L))
              (ConvLayer.in_act L0) (ConvLayer.out_act L0) in
  ConvLayer.fromJSON L0 (ConvLayer.toJSON L) h = Ok (L', "conv"%string) h /\
  forall V t h1 L1 A h2,
    ConvLayer.forward L V t h1 = Ok (L1, A) h2 ->
    ConvLayer.forward L' V t h1 = Ok (ConvLayer.with_acts L' (Some V) (Some A), A) h2.
Proof.
  intros (Hod & Hlen & Hfs & Hb & _) restore L'. split.
  - unfold ConvLayer.fromJSON, ConvLayer.toJSON.
    cbn [ConvLayer.json_filters ConvLayer.json_biases ConvLayer.json_out_depth
         ConvLayer.json_sx ConvLayer.json_sy ConvLayer.json_stride
         ConvLayer.json_in_depth ConvLayer.json_out_sx ConvLayer.json_out_sy
         ConvLayer.json_layer_type ConvLayer.json_l1_decay_mul
         ConvLayer.json_l2_decay_mul ConvLayer.json_pad].
    rewrite filters_toJSON.
    rewrite (bind_ok _ _ _ _ _
               (filters_fromJSON (ConvLayer.filters L) h (fun f Hf => proj1 (Hfs f Hf)))).
    assert (N0 : Vol.new_const 0 0 0 0 h = Ok (Vol.mk 0 0 0 [] []) h) by reflexivity.
    rewrite (bind_ok _ _ _ _ _ N0).
    rewrite (bind_ok _ _ _ _ _ (Vol_fromJSON_restores (ConvLayer.biases L) _ h Hb)).
    reflexivity.
  - intros V t h1 L1 A h2 H. unfold ConvLayer.forward in *.
    apply bind_inv in H. destruct H as (A0 & h3 & E0 & H).
    apply ret_inv in H. destruct H as [H <-]. injection H as _ <-.
    change (ConvLayer.out_sx L') with (ConvLayer.out_sx L).
    change (ConvLayer.out_sy L') with (ConvLayer.out_sy L).
    change (ConvLayer.out_depth L') with (ConvLayer.out_depth L).
    rewrite (bind_ok _ _ _ _ _ E0). unfold ret. f_equal.
    assert (EA : forall (B : Vol.t),
      for_ (ConvLayer.out_depth L) (fun d A =>
        let f := ConvLayer.filter L' d in
        let y := toInt32 (- ConvLayer.pad L') in
        snd (for_ (ConvLayer.out_sy L) (fun ay '(y, A) =>
          let x := toInt32 (- ConvLayer.pad L') in
          let A' :=
            snd (for_ (ConvLayer.out_sx L) (fun ax '(x, A) =>
              let a := ConvLayer.accumulate f V (toInt32 (Vol.sx V))
                         (toInt32 (Vol.sy V)) x y 0%Q in
              let a := (a + rd 0%Q (Vol.w (ConvLayer.biases L')) d)%Q in
              (x + toInt32 (ConvLayer.stride L'), Vol.set A ax ay d a)) (x, A)) in
          (y + toInt32 (ConvLayer.stride L'), A')) (y, A))) B
      = for_ (ConvLayer.out_depth L) (fun d A =>
        let f := ConvLayer.filter L d in
        let y := toInt32 (- ConvLayer.pad L) in
        snd (for_ (ConvLayer.out_sy L) (fun ay '(y, A) =>
          let x := toInt32 (- ConvLayer.pad L) in
          let A' :=
            snd (for_ (ConvLayer.out_sx L) (fun ax '(x, A) =>
              let a := ConvLayer.accumulate f V (toInt32 (Vol.sx V))
                         (toInt32 (Vol.sy V)) x y 0%Q in
              let a := (a + rd 0%Q (Vol.w (ConvLayer.biases L)) d)%Q in
              (x + toInt32 (ConvLayer.stride L), Vol.set A ax ay d a)) (x, A)) in
          (y + toInt32 (ConvLayer.stride L), A')) (y, A))) B).
    { intros B. unfold for_. apply for_range_ext. intros d st _. cbv beta.
      change (ConvLayer.filter L' d)
        with (rd ConvLayer.no_filter (map restore (ConvLayer.filters L)) d).
      unfold restore. rewrite restored_filter. reflexivity. }
    cbv zeta. cbv zeta in EA. rewrite EA. reflexivity.
Qed.

Lemma ConvLayer_json_witness :
  ConvLayer.wf Sample.conv /\
  exists L' A,
    ConvLayer.fromJSON (ConvLayer.mk 0 0 0 7 7 0 0 0 0 0 0 0 [] (Vol.mk 0 0 0 [] [])
                          None None)
                       (ConvLayer.toJSON Sample.conv) Sample.host
    = Ok (L', "conv"%string) Sample.host /\
    ConvLayer.in_sx L' = 7 /\
    map Vol.w (ConvLayer.filters L') = map Vol.w (ConvLayer.filters Sample.conv) /\
    ConvLayer.forward L' Sample.image false Sample.host
    = Ok (ConvLayer.with_acts L' (Some Sample.image) (Some A), A) Sample.host /\
    exists L1, ConvLayer.forward Sample.conv Sample.image false Sample.host
               = Ok (L1, A) Sample.host.
Proof.
  assert (W : ConvLayer.wf Sample.conv).
  { unfold ConvLayer.wf, Vol.wf. simpl.
    repeat split; try discriminate; try reflexivity;
      destruct H as [<- | []]; simpl; try discriminate; reflexivity. }
  split; [exact W|].
  destruct (ConvLayer_json_roundtrip Sample.conv
              (ConvLayer.mk 0 0 0 7 7 0 0 0 0 0 0 0 [] (Vol.mk 0 0 0 [] []) None None)
              Sample.host W) as (E & F).
  eassert (EF : ConvLayer.forward Sample.conv Sample.image false Sample.host
                = Ok (_, _) _) by (vm_compute; reflexivity).
  eexists. eexists. split; [exact E|]. split; [reflexivity|]. split; [reflexivity|].
  split; [exact (F _ _ _ _ _ _ EF)|]. eexists. exact EF.
Defined.

(** X24 -- saving and loading a fully-connected layer.  [fromJSON] applied
    to what [toJSON] built from a layer with the constructor's shapes does
    not throw and restores the type tag, [out_depth], [num_inputs], the
    output sizes, both decay multipliers, and every filter and the biases
    with their values and a zero gradient; the activations are not saved.
    The loaded layer computes the same forward output as the saved one. *)
Theorem FullyConnLayer_json_roundtrip (L L0 : FullyConnLayer.t) (h : World) :
  FullyConnLayer.wf L ->
  let restore := fun V => Vol.with_dw V
                   (repeat 0%Q (Z.to_nat (Vol.sx V * Vol.sy V * Vol.depth V))) in
  let L' := FullyConnLayer.mk (FullyConnLayer.out_depth L)
              (FullyConnLayer.l1_decay_mul L) (FullyConnLayer.l2_decay_mul L)
              (FullyConnLayer.num_inputs L) (FullyConnLayer.out_sx L)
              (FullyConnLayer.out_sy L)
              (map restore (FullyConnLayer.filters L))
              (restore (FullyConnLayer.biases L))
              (FullyConnLayer.in_act L0) (FullyConnLayer.out_act L0) in
  FullyConnLayer.fromJSON L0 (FullyConnLayer.toJSON L) h = Ok (L', "fc"%string) h /\
  forall V t h1 L1 A h2,
    FullyConnLayer.forward L V t h1 = Ok (L1, A) h2 ->
    FullyConnLayer.forward L' V t h1
    = Ok (FullyConnLayer.with_acts L' (Some V) (Some A), A) h2.
Proof.
  intros (Hod & Hni & Hlen & Hfs & Hb & _) restore L'. split.
  - unfold FullyConnLayer.fromJSON, FullyConnLayer.toJSON.
    cbn [FullyConnLayer.json_filters FullyConnLayer.json_biases
         FullyConnLayer.json_out_depth FullyConnLayer.json_out_sx
         FullyConnLayer.json_out_sy FullyConnLayer.json_layer_type
         FullyConnLayer.json_num_inputs FullyConnLayer.json_l1_decay_mul
         FullyConnLayer.json_l2_decay_mul].
    rewrite filters_toJSON.
    rewrite (bind_ok _ _ _ _ _
               (filters_fromJSON (FullyConnLayer.filters L) h
                  (fun f Hf => proj1 (Hfs f Hf)))).
    assert (N0 : Vol.new_const 0 0 0 0 h = Ok (Vol.mk 0 0 0 [] []) h) by reflexivity.
    rewrite (bind_ok _ _ _ _ _ N0).
    rewrite (bind_ok _ _ _ _ _ (Vol_fromJSON_restores (FullyConnLayer.biases L) _ h Hb)).
    reflexivity.
  - intros V t h1 L1 A h2 H. unfold FullyConnLayer.forward in *.
    apply bind_inv in H. destruct H as (A0 & h3 & E0 & H).
    apply ret_inv in H. destruct H as [H <-]. injection H as _ <-.
    change (FullyConnLayer.out_depth L') with (FullyConnLayer.out_depth L).
    rewrite (bind_ok _ _ _ _ _ E0). unfold ret. f_equal.
    assert (EA : forall B : list Q,
      for_ (FullyConnLayer.out_depth L) (fun i Aw =>
        let wi := Vol.w (FullyConnLayer.filter L' i) in
        let a := for_ (FullyConnLayer.num_inputs L')
                   (fun d a => (a + rd 0%Q (Vol.w V) d * rd 0%Q wi d)%Q) 0%Q in
        let a := (a + rd 0%Q (Vol.w (FullyConnLayer.biases L')) i)%Q in
        wr Aw i a) B
      = for_ (FullyConnLayer.out_depth L) (fun i Aw =>
        let wi := Vol.w (FullyConnLayer.filter L i) in
        let a := for_ (FullyConnLayer.num_inputs L)
                   (fun d a => (a + rd 0%Q (Vol.w V) d * rd 0%Q wi d)%Q) 0%Q in
        let a := (a + rd 0%Q (Vol.w (FullyConnLayer.biases L)) i)%Q in
        wr Aw i a) B).
    { intros B. unfold for_ at 1 3. apply for_range_ext. intros d st _. cbv beta.
      change (FullyConnLayer.filter L' d)
        with (rd ConvLayer.no_filter (map restore (FullyConnLayer.filters L)) d).
      unfold restore. rewrite restored_filter. reflexivity. }
    cbv zeta. cbv zeta in EA. rewrite EA. reflexivity.
Qed.

Lemma FullyConnLayer_json_witness :
  FullyConnLayer.wf Sample.fc_layer /\
  exists L' A,
    FullyConnLayer.fromJSON Sample.fc_layer (FullyConnLayer.toJSON Sample.fc_layer)
                            Sample.host
    = Ok (L', "fc"%string) Sample.host /\
    map Vol.w (FullyConnLayer.filters L')
    = map Vol.w (FullyConnLayer.filters Sample.fc_layer) /\
    FullyConnLayer.forward L' Sample.example false Sample.host
    = Ok (FullyConnLayer.with_acts L' (Some Sample.example) (Some A), A) Sample.host /\
    exists L1, FullyConnLayer.forward Sample.fc_layer Sample.example false Sample.host
               = Ok (L1, A) Sample.host.
Proof.
  assert (W : FullyConnLayer.wf Sample.fc_layer).
  { unfold FullyConnLayer.wf, Vol.wf. simpl.
    repeat split; try discriminate; try reflexivity;
      destruct H as [<- | [<- | []]]; simpl; try discriminate; reflexivity. }
  split; [exact W|].
  destruct (FullyConnLayer_json_roundtrip Sample.fc_layer Sample.fc_layer
              Sample.host W) as (E & F).
  eassert (EF : FullyConnLayer.forward Sample.fc_layer Sample.example false Sample.host
                = Ok (_, _) _) by (vm_compute; reflexivity).
  eexists. eexists. split; [exact E|]. split; [reflexivity|].
  split; [exact (F _ _ _ _ _ _ EF)|]. eexists. exact EF.
Defined.

(** X25 -- saving and loading a pooling layer.  [fromJSON] applied to what
    [toJSON] built from a layer with the constructor's shapes does not throw
    and restores the type tag, the window sizes, stride, padding and output
    sizes, and allocates fresh zero switches of the right length; [in_sx],
    [in_sy] and the activations are not saved and stay those of the
    receiving layer.  The loaded layer computes the same forward output and
    switches as the saved one. *)
Theorem PoolLayer_json_roundtrip (L L0 : PoolLayer.t) (h : World) :
  PoolLayer.wf L ->
  let n := PoolLayer.out_sx L * PoolLayer.out_sy L * PoolLayer.out_depth L in
  let L' := PoolLayer.mk (PoolLayer.sx L) (PoolLayer.in_depth L) (PoolLayer.in_sx L0)
              (PoolLayer.in_sy L0) (PoolLayer.sy L) (PoolLayer.stride L)
              (PoolLayer.pad L) (PoolLayer.out_depth L) (PoolLayer.out_sx L)
              (PoolLayer.out_sy L) (repeat 0 (Z.to_nat n)) (repeat 0 (Z.to_nat n))
              (PoolLayer.in_act L0) (PoolLayer.out_act L0) in
  PoolLayer.fromJSON L0 (PoolLayer.toJSON L) h = Ok (L', "pool"%string) h /\
  forall V t h1,
    exists A swx swy,
      PoolLayer.forward L V t h1
      = Ok (PoolLayer.with_state L swx swy (Some V) (Some A), A) h1 /\
      PoolLayer.forward L' V t h1
      = Ok (PoolLayer.with_state L' swx swy (Some V) (Some A), A) h1.
Proof.
  intros W n L'. pose proof W as (Hsx & Hsy & Hox & Hoy & Hod & Hdepth & Hlx & Hly).
  assert (Hn : 0 <= n)
    by (apply Z.mul_nonneg_nonneg; [apply Z.mul_nonneg_nonneg|]; lia).
  split.
  - unfold PoolLayer.fromJSON, PoolLayer.toJSON.
    cbn [PoolLayer.json_out_sx PoolLayer.json_out_sy PoolLayer.json_out_depth
         PoolLayer.json_sx PoolLayer.json_sy PoolLayer.json_stride
         PoolLayer.json_in_depth PoolLayer.json_layer_type PoolLayer.json_pad].
    fold n.
    rewrite (bind_ok _ _ _ _ _ (zeros_of_ok 0 n h Hn)).
    rewrite (bind_ok _ _ _ _ _ (zeros_of_ok 0 n h Hn)). reflexivity.
  - intros V t h1.
    assert (W' : PoolLayer.wf L').
    { unfold PoolLayer.wf, L'. simpl. rewrite !len_repeat by exact Hn.
      repeat split; auto. }
    exact (pool_forward_determined L L' V t t h1 W W'
             eq_refl eq_refl eq_refl eq_refl eq_refl eq_refl eq_refl).
Qed.

Lemma PoolLayer_json_witness :
  PoolLayer.wf Sample.pool /\
  exists L',
    PoolLayer.fromJSON Sample.unit_pool (PoolLayer.toJSON Sample.pool) Sample.host
    = Ok (L', "pool"%string) Sample.host /\
    PoolLayer.in_sx L' = 1 /\ PoolLayer.out_sx L' = 2 /\
    exists A swx swy,
      PoolLayer.forward Sample.pool Sample.image false Sample.host
      = Ok (PoolLayer.with_state Sample.pool swx swy (Some Sample.image) (Some A), A)
           Sample.host /\
      PoolLayer.forward L' Sample.image false Sample.host
      = Ok (PoolLayer.with_state L' swx swy (Some Sample.image) (Some A), A) Sample.host.
Proof.
  assert (W : PoolLayer.wf Sample.pool) by (vm_compute; repeat split; discriminate).
  split; [exact W|].
  destruct (PoolLayer_json_roundtrip Sample.pool Sample.unit_pool Sample.host W)
    as (E & F).
  eexists. split; [exact E|]. split; [reflexivity|]. split; [reflexivity|].
  exact (F Sample.image false Sample.host).
Defined.

(* ================================================================== *)
(** ** Convolution: the backward pass *)

Lemma adds_refl (b : list Q) : Spec.adds b b (fun _ => 0%Q).
Proof. split; [reflexivity|]. intros j _. ring. Qed.

Lemma adds_trans (b0 b1 b2 : list Q) (F G : Z -> Q) :
  Spec.adds b0 b1 F -> Spec.adds b1 b2 G ->
  Spec.adds b0 b2 (fun j => (F j + G j)%Q).
Proof.
  intros (L1 & H1) (L2 & H2). split; [congruence|].
  intros j Hj. rewrite H2 by (rewrite L1; exact Hj). rewrite H1 by exact Hj. ring.
Qed.

Lemma adds_ext (b b' : list Q) (F F' : Z -> Q) :
  Spec.adds b b' F -> (forall j, 0 <= j < len b -> (F j == F' j)%Q) ->
  Spec.adds b b' F'.
Proof.
  intros (L1 & H1) E. split; [exact L1|].
  intros j Hj. rewrite H1 by exact Hj. rewrite (E j Hj). reflexivity.
Qed.

(** [b[k] += v]: a write outside the buffer is dropped, and no index of the
    buffer is [k] then. *)
Lemma adds_wr (b : list Q) (k : Z) (v : Q) :
  Spec.adds b (wr b k (rd 0%Q b k + v)%Q) (fun j => if j =? k then v else 0%Q).
Proof.
  split; [apply len_wr|]. intros j Hj.
  destruct (Z.eqb_spec j k) as [-> | Hne].
  - rewrite rd_wr_same by exact Hj. reflexivity.
  - rewrite rd_wr_other by congruence. ring.
Qed.

(** A loop whose iteration [i] adds [T i j] at index [j] of a buffer of
    its state adds the sum of the [T i j]. *)
Lemma loop_adds {S} (proj : S -> list Q) (Inv : Z -> S -> Prop) (n : Z)
      (body : Z -> S -> S) (T : Z -> Z -> Q) (s0 : S) :
  0 <= n -> Inv 0 s0 ->
  (forall i s, 0 <= i < n -> Inv i s ->
     Inv (i + 1) (body i s) /\ Spec.adds (proj s) (proj (body i s)) (T i)) ->
  Inv n (for_ n body s0) /\
  Spec.adds (proj s0) (proj (for_ n body s0))
            (fun j => Spec.sum_upto n (fun i => T i j)).
Proof.
  intros Hn H0 Hstep.
  apply (for_ind (fun i s => Inv i s /\
                             Spec.adds (proj s0) (proj s)
                               (fun j => Spec.sum_upto i (fun k => T k j)))); [exact Hn | |].
  - split; [exact H0|]. apply (adds_ext _ _ _ _ (adds_refl _)).
    intros j _. now rewrite sum_upto_nil by lia.
  - intros i s Hi (HI & HA). destruct (Hstep i s Hi HI) as (HI' & HA').
    split; [exact HI'|]. apply (adds_ext _ _ _ _ (adds_trans _ _ _ _ _ HA HA')).
    intros j _. cbv beta. now rewrite sum_upto_snoc by lia.
Qed.

Lemma loop_adds_any {S} (proj : S -> list Q) (n : Z)
      (body : Z -> S -> S) (T : Z -> Z -> Q) (s0 : S) :
  (forall i s, 0 <= i < n -> Spec.adds (proj s) (proj (body i s)) (T i)) ->
  Spec.adds (proj s0) (proj (for_ n body s0))
            (fun j => Spec.sum_upto n (fun i => T i j)).
Proof.
  intros Hstep. destruct (Z_le_gt_dec 0 n) as [Hn | Hn].
  - apply (loop_adds proj (fun _ _ => True) n body T s0 Hn I).
    intros i s Hi _. split; [exact I | now apply Hstep].
  - rewrite for_nil by lia. apply (adds_ext _ _ _ _ (adds_refl _)).
    intros j _. now rewrite sum_upto_nil by lia.
Qed.

Lemma sum_indicator (n k : Z) (g : Z -> Q) :
  0 <= k < n ->
  (Spec.sum_upto n (fun i => if i =? k then g i else 0%Q) == g k)%Q.
Proof.
  intros Hk.
  assert (G : forall m, 0 <= m ->
            (Spec.sum_upto m (fun i => if i =? k then g i else 0%Q)
             == if k <? m then g k else 0%Q)%Q).
  { intros m Hm. pattern m. apply natlike_ind; [| |exact Hm].
    - rewrite sum_upto_nil by lia. destruct (Z.ltb_spec k 0); [lia | reflexivity].
    - intros i Hi IH. unfold Z.succ. rewrite sum_upto_snoc by lia. rewrite IH.
      destruct (Z.eqb_spec i k) as [-> | Hne].
      + destruct (Z.ltb_spec k k); [lia|].
        destruct (Z.ltb_spec k (k + 1)); [ring | lia].
      + destruct (Z.ltb_spec k i), (Z.ltb_spec k (i + 1)); try lia; ring. }
  rewrite G by lia. destruct (Z.ltb_spec k n); [reflexivity | lia].
Qed.

Lemma sum_if_const (n : Z) (c : bool) (g : Z -> Q) :
  (Spec.sum_upto n (fun i => if c then g i else 0%Q)
   == if c then Spec.sum_upto n g else 0%Q)%Q.
Proof.
  destruct c; [reflexivity|]. apply sum_upto_zero. intros; reflexivity.
Qed.

Section ConvBackward.

Variables (L : ConvLayer.t) (V A : Vol.t).

Let osx := ConvLayer.out_sx L.
Let osy := ConvLayer.out_sy L.
Let od := ConvLayer.out_depth L.
Let p0 := toInt32 (- ConvLayer.pad L).
Let s := toInt32 (ConvLayer.stride L).
Let V_sx := toInt32 (Vol.sx V).
Let V_sy := toInt32 (Vol.sy V).

Hypothesis osx_nonneg : 0 <= osx.
Hypothesis osy_nonneg : 0 <= osy.
Hypothesis od_nonneg : 0 <= od.
Hypothesis filters_len : len (ConvLayer.filters L) = od.

(** What the three inner loops add at index [j] of [f.dw] and of [V.dw]
    when the corner of the filter is at [(x, y)] and the chain gradient is
    [c]. *)
Let into_filter (f : Vol.t) (x y : Z) (c : Q) (j : Z) : Q :=
  Spec.sum_upto (Vol.sy f) (fun fy =>
    Spec.sum_upto (Vol.sx f) (fun fx =>
      if ConvLayer.inside V_sx V_sy (x + fx) (y + fy)
      then Spec.sum_upto (Vol.depth f) (fun fd =>
             if j =? ((Vol.sx f * fy) + fx) * Vol.depth f + fd
             then (rd 0%Q (Vol.w V)
                      (((V_sx * (y + fy)) + (x + fx)) * Vol.depth V + fd) * c)%Q
             else 0%Q)
      else 0%Q)).

Let into_input (f : Vol.t) (x y : Z) (c : Q) (j : Z) : Q :=
  Spec.sum_upto (Vol.sy f) (fun fy =>
    Spec.sum_upto (Vol.sx f) (fun fx =>
      if ConvLayer.inside V_sx V_sy (x + fx) (y + fy)
      then Spec.sum_upto (Vol.depth f) (fun fd =>
             if j =? ((V_sx * (y + fy)) + (x + fx)) * Vol.depth V + fd
             then (rd 0%Q (Vol.w f) (((Vol.sx f * fy) + fx) * Vol.depth f + fd) * c)%Q
             else 0%Q)
      else 0%Q)).

Lemma scatter_adds (f : Vol.t) (x y : Z) (c : Q) (g : list Q * list Q) :
  Spec.adds (fst g) (fst (ConvLayer.scatter f V V_sx V_sy x y c g))
            (into_filter f x y c) /\
  Spec.adds (snd g) (snd (ConvLayer.scatter f V V_sx V_sy x y c g))
            (into_input f x y c).
Proof.
  unfold ConvLayer.scatter, into_filter, into_input. split.
  - apply (loop_adds_any fst). intros fy g1 _. cbv beta zeta.
    apply (loop_adds_any fst). intros fx g2 _. cbv beta zeta.
    destruct (ConvLayer.inside V_sx V_sy (x + fx) (y + fy)); [|apply adds_refl].
    apply (loop_adds_any fst). intros fd [fdw Vdw] _. cbn [fst].
    apply adds_wr.
  - apply (loop_adds_any snd). intros fy g1 _. cbv beta zeta.
    apply (loop_adds_any snd). intros fx g2 _. cbv beta zeta.
    destruct (ConvLayer.inside V_sx V_sy (x + fx) (y + fy)); [|apply adds_refl].
    apply (loop_adds_any snd). intros fd [fdw Vdw] _. cbn [snd].
    apply adds_wr.
Qed.

(** The loop over [ax] for the filter [f] of depth [d] and the output row
    [ay], whose windows have their corner at height [y]. *)
Let row (f : Vol.t) (d ay y : Z) (st : Z * (list Q * list Q * list Q))
  : Z * (list Q * list Q * list Q) :=
  for_ osx (fun ax '(x, (fdw, Vdw, bdw)) =>
    let chain_grad := Vol.get_grad A ax ay d in
    let '(fdw', Vdw') := ConvLayer.scatter f V V_sx V_sy x y chain_grad (fdw, Vdw) in
    let bdw' := wr bdw d (rd 0%Q bdw d + chain_grad)%Q in
    (x + s, (fdw', Vdw', bdw'))) st.

Lemma conv_back_row (f : Vol.t) (d ay y : Z) (st : list Q * list Q * list Q) :
  let r := row f d ay y (p0, st) in
  Spec.adds (fst (fst st)) (fst (fst (snd r)))
    (fun j => Spec.sum_upto osx (fun ax =>
                into_filter f (p0 + ax * s) y (Vol.get_grad A ax ay d) j)) /\
  Spec.adds (snd (fst st)) (snd (fst (snd r)))
    (fun j => Spec.sum_upto osx (fun ax =>
                into_input f (p0 + ax * s) y (Vol.get_grad A ax ay d) j)) /\
  Spec.adds (snd st) (snd (snd r))
    (fun j => Spec.sum_upto osx (fun ax =>
                if j =? d then Vol.get_grad A ax ay d else 0%Q)).
Proof.
  cbv zeta. unfold row.
  set (Inv := fun (i : Z) (q : Z * (list Q * list Q * list Q)) => fst q = p0 + i * s).
  assert (Step : forall i q, 0 <= i < osx -> Inv i q ->
    let q' := (fun ax '(x, (fdw, Vdw, bdw)) =>
      let chain_grad := Vol.get_grad A ax ay d in
      let '(fdw', Vdw') := ConvLayer.scatter f V V_sx V_sy x y chain_grad (fdw, Vdw) in
      let bdw' := wr bdw d (rd 0%Q bdw d + chain_grad)%Q in
      (x + s, (fdw', Vdw', bdw'))) i q in
    Inv (i + 1) q' /\
    Spec.adds (fst (fst (snd q))) (fst (fst (snd q')))
      (into_filter f (p0 + i * s) y (Vol.get_grad A i ay d)) /\
    Spec.adds (snd (fst (snd q))) (snd (fst (snd q')))
      (into_input f (p0 + i * s) y (Vol.get_grad A i ay d)) /\
    Spec.adds (snd (snd q)) (snd (snd q'))
      (fun j => if j =? d then Vol.get_grad A i ay d else 0%Q)).
  { intros i [x [[fdw Vdw] bdw]] Hi HI. unfold Inv in HI. cbn [fst] in HI. subst x.
    cbv zeta beta iota.
    destruct (scatter_adds f (p0 + i * s) y (Vol.get_grad A i ay d) (fdw, Vdw))
      as (S1 & S2).
    destruct (ConvLayer.scatter f V V_sx V_sy (p0 + i * s) y (Vol.get_grad A i ay d)
                (fdw, Vdw)) as [fdw' Vdw'].
    cbn [fst snd] in *. split; [unfold Inv; cbn [fst]; lia|].
    split; [exact S1|]. split; [exact S2|]. apply adds_wr. }
  split; [|split].
  - apply (loop_adds (fun q => fst (fst (snd q))) Inv osx _ _ (p0, st) osx_nonneg).
    + unfold Inv. cbn [fst]. lia.
    + intros i q Hi HI. destruct (Step i q Hi HI) as (I1 & A1 & _). split; assumption.
  - apply (loop_adds (fun q => snd (fst (snd q))) Inv osx _ _ (p0, st) osx_nonneg).
    + unfold Inv. cbn [fst]. lia.
    + intros i q Hi HI. destruct (Step i q Hi HI) as (I1 & _ & A2 & _).
      split; assumption.
  - apply (loop_adds (fun q => snd (snd q)) Inv osx _ _ (p0, st) osx_nonneg).
    + unfold Inv. cbn [fst]. lia.
    + intros i q Hi HI. destruct (Step i q Hi HI) as (I1 & _ & _ & A3).
      split; assumption.
Qed.

(** The loop over [ay] for the filter [f] of depth [d]. *)
Let plane (f : Vol.t) (d : Z) (st : Z * (list Q * list Q * list Q))
  : Z * (list Q * list Q * list Q) :=
  for_ osy (fun ay '(y, st) =>
    let '(_, st') := row f d ay y (p0, st) in (y + s, st')) st.

Lemma conv_back_plane (f : Vol.t) (d : Z) (st : list Q * list Q * list Q) :
  let r := plane f d (p0, st) in
  Spec.adds (fst (fst st)) (fst (fst (snd r)))
    (fun j => Spec.sum_upto osy (fun ay => Spec.sum_upto osx (fun ax =>
                into_filter f (p0 + ax * s) (p0 + ay * s) (Vol.get_grad A ax ay d) j))) /\
  Spec.adds (snd (fst st)) (snd (fst (snd r)))
    (fun j => Spec.sum_upto osy (fun ay => Spec.sum_upto osx (fun ax =>
                into_input f (p0 + ax * s) (p0 + ay * s) (Vol.get_grad A ax ay d) j))) /\
  Spec.adds (snd st) (snd (snd r))
    (fun j => Spec.sum_upto osy (fun ay => Spec.sum_upto osx (fun ax =>
                if j =? d then Vol.get_grad A ax ay d else 0%Q))).
Proof.
  cbv zeta. unfold plane.
  set (Inv := fun (i : Z) (q : Z * (list Q * list Q * list Q)) => fst q = p0 + i * s).
  assert (Step : forall i q, 0 <= i < osy -> Inv i q ->
    let q' := (fun ay '(y, st) =>
                 let '(_, st') := row f d ay y (p0, st) in (y + s, st')) i q in
    Inv (i + 1) q' /\
    Spec.adds (fst (fst (snd q))) (fst (fst (snd q')))
      (fun j => Spec.sum_upto osx (fun ax =>
         into_filter f (p0 + ax * s) (p0 + i * s) (Vol.get_grad A ax i d) j)) /\
    Spec.adds (snd (fst (snd q))) (snd (fst (snd q')))
      (fun j => Spec.sum_upto osx (fun ax =>
         into_input f (p0 + ax * s) (p0 + i * s) (Vol.get_grad A ax i d) j)) /\
    Spec.adds (snd (snd q)) (snd (snd q'))
      (fun j => Spec.sum_upto osx (fun ax =>
         if j =? d then Vol.get_grad A ax i d else 0%Q))).
  { intros i [y st1] Hi HI. unfold Inv in HI. cbn [fst] in HI. subst y.
    cbv zeta beta iota.
    pose proof (conv_back_row f d i (p0 + i * s) st1) as R. cbv zeta in R.
    destruct (row f d i (p0 + i * s) (p0, st1)) as [x' st'].
    cbn [fst snd] in *. split; [unfold Inv; cbn [fst]; lia | exact R]. }
  split; [|split].
  - apply (loop_adds (fun q => fst (fst (snd q))) Inv osy _ _ (p0, st) osy_nonneg).
    + unfold Inv. cbn [fst]. lia.
    + intros i q Hi HI. destruct (Step i q Hi HI) as (I1 & A1 & _). split; assumption.
  - apply (loop_adds (fun q => snd (fst (snd q))) Inv osy _ _ (p0, st) osy_nonneg).
    + unfold Inv. cbn [fst]. lia.
    + intros i q Hi HI. destruct (Step i q Hi HI) as (I1 & _ & A2 & _).
      split; assumption.
  - apply (loop_adds (fun q => snd (snd q)) Inv osy _ _ (p0, st) osy_nonneg).
    + unfold Inv. cbn [fst]. lia.
    + intros i q Hi HI. destruct (Step i q Hi HI) as (I1 & _ & _ & A3).
      split; assumption.
Qed.

(** The state of the loop over [d] before iteration [i]: the filters
    already visited kept their sizes and weights, the others are untouched. *)
Let visited (i : Z) (st : list Vol.t * list Q * list Q) : Prop :=
  len (fst (fst st)) = od /\
  (forall k, 0 <= k < i ->
     Vol.with_dw (rd ConvLayer.no_filter (fst (fst st)) k) []
     = Vol.with_dw (ConvLayer.filter L k) []) /\
  (forall k, i <= k < od ->
     rd ConvLayer.no_filter (fst (fst st)) k = ConvLayer.filter L k).

Let depth_body (d : Z) (st : list Vol.t * list Q * list Q)
  : list Vol.t * list Q * list Q :=
  let '(fs, Vdw, bdw) := st in
  let f := rd ConvLayer.no_filter fs d in
  let '(_, (fdw, Vdw, bdw)) := plane f d (p0, (Vol.dw f, Vdw, bdw)) in
  (wr fs d (Vol.with_dw f fdw), Vdw, bdw).

Lemma conv_back_depth (d : Z) (st : list Vol.t * list Q * list Q) :
  0 <= d < od -> visited d st ->
  visited (d + 1) (depth_body d st) /\
  Spec.adds (snd (fst st)) (snd (fst (depth_body d st)))
    (fun j => Spec.sum_upto osy (fun ay => Spec.sum_upto osx (fun ax =>
       into_input (ConvLayer.filter L d) (p0 + ax * s) (p0 + ay * s)
                  (Vol.get_grad A ax ay d) j))) /\
  Spec.adds (snd st) (snd (depth_body d st))
    (fun j => Spec.sum_upto osy (fun ay => Spec.sum_upto osx (fun ax =>
       if j =? d then Vol.get_grad A ax ay d else 0%Q))) /\
  forall k, 0 <= k < od ->
    Spec.adds (Vol.dw (rd ConvLayer.no_filter (fst (fst st)) k))
              (Vol.dw (rd ConvLayer.no_filter (fst (fst (depth_body d st))) k))
      (fun j => if d =? k
                then Spec.sum_upto osy (fun ay => Spec.sum_upto osx (fun ax =>
                       into_filter (ConvLayer.filter L k) (p0 + ax * s) (p0 + ay * s)
                                   (Vol.get_grad A ax ay k) j))
                else 0%Q).
Proof.
  destruct st as [[fs Vdw] bdw]. intros Hd (Hlen & Hdone & Hrest).
  cbn [fst snd] in Hlen, Hdone, Hrest.
  unfold depth_body. rewrite (Hrest d) by lia.
  pose proof (conv_back_plane (ConvLayer.filter L d) d
                (Vol.dw (ConvLayer.filter L d), Vdw, bdw)) as R.
  cbv zeta in R.
  destruct (plane (ConvLayer.filter L d) d
              (p0, (Vol.dw (ConvLayer.filter L d), Vdw, bdw)))
    as [y' [[fdw Vdw'] bdw']].
  cbn [fst snd] in *. destruct R as (R1 & R2 & R3).
  split; [|split; [exact R2 | split; [exact R3|]]].
  - unfold visited. cbn [fst snd]. split; [now rewrite len_wr|]. split.
    + intros k Hk. destruct (Z.eq_dec k d) as [-> | Hne].
      * rewrite rd_wr_same by lia. reflexivity.
      * rewrite rd_wr_other by lia. apply Hdone. lia.
    + intros k Hk. rewrite rd_wr_other by lia. apply Hrest. lia.
  - intros k Hk. destruct (Z.eqb_spec d k) as [<- | Hne].
    + rewrite rd_wr_same by lia. rewrite (Hrest d) by lia. exact R1.
    + rewrite rd_wr_other by lia. apply adds_refl.
Qed.

Lemma conv_back_loops (Vdw0 : list Q) :
  let r := ConvLayer.backward_loops L V A Vdw0 in
  visited od r /\
  Spec.adds Vdw0 (snd (fst r))
    (fun j => Spec.sum_upto od (fun d =>
       Spec.sum_upto osy (fun ay => Spec.sum_upto osx (fun ax =>
         into_input (ConvLayer.filter L d) (p0 + ax * s) (p0 + ay * s)
                    (Vol.get_grad A ax ay d) j)))) /\
  Spec.adds (Vol.dw (ConvLayer.biases L)) (snd r)
    (fun j => Spec.sum_upto od (fun d =>
       Spec.sum_upto osy (fun ay => Spec.sum_upto osx (fun ax =>
         if j =? d then Vol.get_grad A ax ay d else 0%Q)))) /\
  forall k, 0 <= k < od ->
    Spec.adds (Vol.dw (ConvLayer.filter L k))
              (Vol.dw (rd ConvLayer.no_filter (fst (fst r)) k))
      (fun j => Spec.sum_upto od (fun d =>
         if d =? k
         then Spec.sum_upto osy (fun ay => Spec.sum_upto osx (fun ax =>
                into_filter (ConvLayer.filter L k) (p0 + ax * s) (p0 + ay * s)
                            (Vol.get_grad A ax ay k) j))
         else 0%Q)).
Proof.
  cbv zeta.
  assert (E : ConvLayer.backward_loops L V A Vdw0
              = for_ od depth_body (ConvLayer.filters L, Vdw0, Vol.dw (ConvLayer.biases L))).
  { unfold ConvLayer.backward_loops. fold od. unfold for_ at 1 4.
    apply for_range_ext. intros d [[fs Vdw] bdw] _. reflexivity. }
  rewrite E.
  assert (V0 : visited 0 (ConvLayer.filters L, Vdw0, Vol.dw (ConvLayer.biases L))).
  { unfold visited. cbn [fst snd]. split; [exact filters_len|].
    split; [intros k Hk; lia | reflexivity]. }
  destruct (loop_adds (fun st => snd (fst st)) visited od depth_body
              (fun d j => Spec.sum_upto osy (fun ay => Spec.sum_upto osx (fun ax =>
                 into_input (ConvLayer.filter L d) (p0 + ax * s) (p0 + ay * s)
                            (Vol.get_grad A ax ay d) j)))
              _ od_nonneg V0) as (HVis & HAdd).
  { intros i st Hi HI. destruct (conv_back_depth i st Hi HI) as (I1 & A1 & _).
    split; assumption. }
  split; [exact HVis|]. split; [exact HAdd|]. split.
  - apply (loop_adds (fun st => snd st) visited od depth_body _ _ od_nonneg V0).
    intros i st Hi HI. destruct (conv_back_depth i st Hi HI) as (I1 & _ & A2 & _).
    split; assumption.
  - intros k Hk.
    apply (loop_adds (fun st => Vol.dw (rd ConvLayer.no_filter (fst (fst st)) k))
                     visited od depth_body _ _ od_nonneg V0).
    intros i st Hi HI. destruct (conv_back_depth i st Hi HI) as (I1 & _ & _ & A3).
    split; [exact I1 | exact (A3 k Hk)].
Qed.

End ConvBackward.


Lemma sum_pick (n k : Z) (F : Z -> Q) (v : Q) :
  0 <= k < n ->
  (forall i, 0 <= i < n -> (F i == if i =? k then v else 0%Q)%Q) ->
  (Spec.sum_upto n F == v)%Q.
Proof.
  intros Hk H. rewrite (sum_upto_ext n F (fun i => if i =? k then v else 0%Q) H).
  apply (sum_indicator n k (fun _ => v) Hk).
Qed.

(** Of the writes of the three inner loops into [f.dw], exactly one falls
    on the index of the filter cell [(fx0, fy0, fd0)]. *)
Lemma into_filter_collapse (sxf syf df V_sx V_sy x y : Z) (t : Z -> Z -> Z -> Q)
      (fx0 fy0 fd0 : Z) :
  0 <= fx0 < sxf -> 0 <= fy0 < syf -> 0 <= fd0 < df ->
  (Spec.sum_upto syf (fun fy =>
     Spec.sum_upto sxf (fun fx =>
       if ConvLayer.inside V_sx V_sy (x + fx) (y + fy)
       then Spec.sum_upto df (fun fd =>
              if ((sxf * fy0) + fx0) * df + fd0 =? ((sxf * fy) + fx) * df + fd
              then t fy fx fd else 0%Q)
       else 0%Q))
   == if ConvLayer.inside V_sx V_sy (x + fx0) (y + fy0) then t fy0 fx0 fd0 else 0%Q)%Q.
Proof.
  intros Hx Hy Hd.
  assert (Miss : forall fy fx, 0 <= fx < sxf -> (fy, fx) <> (fy0, fx0) ->
            ((if ConvLayer.inside V_sx V_sy (x + fx) (y + fy)
              then Spec.sum_upto df (fun fd =>
                     if ((sxf * fy0) + fx0) * df + fd0 =? ((sxf * fy) + fx) * df + fd
                     then t fy fx fd else 0%Q)
              else 0%Q) == 0)%Q).
  { intros fy fx Hfx Hne.
    destruct (ConvLayer.inside V_sx V_sy (x + fx) (y + fy)); [|reflexivity].
    apply sum_upto_zero. intros fd Hfd.
    destruct (Z.eqb_spec (((sxf * fy0) + fx0) * df + fd0) (((sxf * fy) + fx) * df + fd))
      as [E | _]; [|reflexivity].
    destruct (ix_injective sxf df fx0 fy0 fd0 fx fy fd) as (E1 & E2 & E3);
      try assumption.
    exfalso. apply Hne. congruence. }
  apply (sum_pick syf fy0); [exact Hy|]. intros fy Hfy.
  destruct (Z.eqb_spec fy fy0) as [-> | Hney].
  - apply (sum_pick sxf fx0); [exact Hx|]. intros fx Hfx.
    destruct (Z.eqb_spec fx fx0) as [-> | Hnex].
    + destruct (ConvLayer.inside V_sx V_sy (x + fx0) (y + fy0)); [|reflexivity].
      apply (sum_pick df fd0); [exact Hd|]. intros fd Hfd.
      destruct (Z.eqb_spec fd fd0) as [-> | Hned].
      * now rewrite Z.eqb_refl.
      * destruct (Z.eqb_spec (((sxf * fy0) + fx0) * df + fd0)
                             (((sxf * fy0) + fx0) * df + fd)); [lia | reflexivity].
    + apply Miss; [exact Hfx | congruence].
  - apply sum_upto_zero. intros fx Hfx. apply Miss; [exact Hfx | congruence].
Qed.

(** Of the writes into [V.dw] for one filter position, the one at depth
    [fd0] falls on the input cell [(ox, oy, fd0)] exactly when the position
    is mapped to [(ox, oy)]. *)
Lemma into_input_collapse (V_sx V_sy dV X Y ox oy fd0 : Z) (t : Z -> Q) :
  0 <= ox < V_sx -> 0 <= oy < V_sy -> 0 <= fd0 < dV ->
  ((if ConvLayer.inside V_sx V_sy X Y
    then Spec.sum_upto dV (fun fd =>
           if ((V_sx * oy) + ox) * dV + fd0 =? ((V_sx * Y) + X) * dV + fd
           then t fd else 0%Q)
    else 0%Q)
   == if (X =? ox) && (Y =? oy) then t fd0 else 0%Q)%Q.
Proof.
  intros Hx Hy Hd. unfold ConvLayer.inside.
  destruct (Z.leb_spec 0 Y), (Z.ltb_spec Y V_sy), (Z.leb_spec 0 X), (Z.ltb_spec X V_sx);
    cbn [andb];
    try (destruct (Z.eqb_spec X ox), (Z.eqb_spec Y oy); cbn [andb];
         try reflexivity; exfalso; lia).
  destruct (Z.eqb_spec X ox) as [-> | Hnx], (Z.eqb_spec Y oy) as [-> | Hny]; cbn [andb].
  - apply (sum_pick dV fd0); [exact Hd|]. intros fd Hfd.
    destruct (Z.eqb_spec fd fd0) as [-> | Hned].
    + now rewrite Z.eqb_refl.
    + destruct (Z.eqb_spec (((V_sx * oy) + ox) * dV + fd0)
                           (((V_sx * oy) + ox) * dV + fd)); [lia | reflexivity].
  - apply sum_upto_zero. intros fd Hfd.
    destruct (Z.eqb_spec (((V_sx * oy) + ox) * dV + fd0) (((V_sx * Y) + ox) * dV + fd))
      as [E | _]; [|reflexivity].
    destruct (ix_injective V_sx dV ox oy fd0 ox Y fd) as (E1 & E2 & E3);
      try assumption. congruence.
  - apply sum_upto_zero. intros fd Hfd.
    destruct (Z.eqb_spec (((V_sx * oy) + ox) * dV + fd0) (((V_sx * oy) + X) * dV + fd))
      as [E | _]; [|reflexivity].
    destruct (ix_injective V_sx dV ox oy fd0 X oy fd) as (E1 & E2 & E3);
      try assumption; try lia; try congruence.
  - apply sum_upto_zero. intros fd Hfd.
    destruct (Z.eqb_spec (((V_sx * oy) + ox) * dV + fd0) (((V_sx * Y) + X) * dV + fd))
      as [E | _]; [|reflexivity].
    destruct (ix_injective V_sx dV ox oy fd0 X Y fd) as (E1 & E2 & E3);
      try assumption; try lia; try congruence.
Qed.


(** X26 -- [ConvLayer.backward].  After a forward pass on an input the
    layer accepts, and with the gradient of the output in place, [backward]
    does not throw and changes no weight, bias or input value.  It replaces
    the input gradient: [V.dw[ox,oy,fd]] is the sum, over the filters [d], the
    output cells [(ax, ay)] and the filter positions [(fx, fy)] that the cell
    maps to [(ox, oy)], of [f_d.w[fx,fy,fd] * A.dw[ax,ay,d]].  It adds to the
    gradient of every filter cell [f_d.dw[fx,fy,fd]] the sum over the output
    cells whose mapped coordinate is inside the input of
    [V.w[ox,oy,fd] * A.dw[ax,ay,d]], and to [biases.dw[d]] the sum of
    [A.dw[ax,ay,d]] over the output cells (the parameter gradients
    accumulate). *)
Theorem conv_backward_gradients (L : ConvLayer.t) (V A : Vol.t) (h : World) :
  ConvLayer.wf L -> ConvLayer.accepts L V ->
  ConvLayer.in_act L = Some V -> ConvLayer.out_act L = Some A ->
  Spec.shaped A (ConvLayer.out_sx L) (ConvLayer.out_sy L) (ConvLayer.out_depth L) ->
  len (Vol.dw A) = ConvLayer.out_sx L * ConvLayer.out_sy L * ConvLayer.out_depth L ->
  exists L' g,
    ConvLayer.backward L h = Ok L' h /\
    ConvLayer.in_act L' = Some (Vol.with_dw V g) /\
    ConvLayer.out_act L' = Some A /\
    len g = len (Vol.w V) /\
    (forall ox oy fd,
       0 <= ox < Vol.sx V -> 0 <= oy < Vol.sy V -> 0 <= fd < Vol.depth V ->
       (Vol.get_grad (Vol.with_dw V g) ox oy fd
        == Spec.sum_upto (ConvLayer.out_depth L) (fun d =>
           Spec.sum_upto (ConvLayer.out_sy L) (fun ay =>
           Spec.sum_upto (ConvLayer.out_sx L) (fun ax =>
           Spec.sum_upto (ConvLayer.sy L) (fun fy =>
           Spec.sum_upto (ConvLayer.sx L) (fun fx =>
             if (ax * ConvLayer.stride L - ConvLayer.pad L + fx =? ox)
                && (ay * ConvLayer.stride L - ConvLayer.pad L + fy =? oy)
             then Vol.get (ConvLayer.filter L d) fx fy fd * Vol.get_grad A ax ay d
             else 0))))))%Q) /\
    len (ConvLayer.filters L') = ConvLayer.out_depth L /\
    (forall d, 0 <= d < ConvLayer.out_depth L ->
       Vol.with_dw (ConvLayer.filter L' d) [] = Vol.with_dw (ConvLayer.filter L d) [] /\
       (forall fx fy fd,
          0 <= fx < ConvLayer.sx L -> 0 <= fy < ConvLayer.sy L ->
          0 <= fd < ConvLayer.in_depth L ->
          (Vol.get_grad (ConvLayer.filter L' d) fx fy fd
           == Vol.get_grad (ConvLayer.filter L d) fx fy fd
              + Spec.sum_upto (ConvLayer.out_sy L) (fun ay =>
                Spec.sum_upto (ConvLayer.out_sx L) (fun ax =>
                  if ConvLayer.inside (Vol.sx V) (Vol.sy V)
                       (ax * ConvLayer.stride L - ConvLayer.pad L + fx)
                       (ay * ConvLayer.stride L - ConvLayer.pad L + fy)
                  then Vol.get V (ax * ConvLayer.stride L - ConvLayer.pad L + fx)
                                 (ay * ConvLayer.stride L - ConvLayer.pad L + fy) fd
                       * Vol.get_grad A ax ay d
                  else 0)))%Q) /\
       (Vol.get_grad (ConvLayer.biases L') 0 0 d
        == Vol.get_grad (ConvLayer.biases L) 0 0 d
           + Spec.sum_upto (ConvLayer.out_sy L) (fun ay =>
             Spec.sum_upto (ConvLayer.out_sx L) (fun ax => Vol.get_grad A ax ay d)))%Q) /\
    Vol.w (ConvLayer.biases L') = Vol.w (ConvLayer.biases L).
Proof.
  intros (Hod & Hfl & Hf & Hb & Hb1 & Hb2 & Hb3)
         (WV & HdV & Hsxs & Hsys & Hosx & Hosy & Hodl & Hpad & Hstr) Hin Hout SA HdA.
  pose proof WV as (Vsx0 & Vsy0 & Vd0 & VLw & VLdw).
  assert (T1 : toInt32 (Vol.sx V) = Vol.sx V) by (apply toInt32_small; lia).
  assert (T2 : toInt32 (Vol.sy V) = Vol.sy V) by (apply toInt32_small; lia).
  assert (T3 : toInt32 (- ConvLayer.pad L) = - ConvLayer.pad L)
    by (apply toInt32_small; lia).
  assert (T4 : toInt32 (ConvLayer.stride L) = ConvLayer.stride L)
    by (apply toInt32_small; lia).
  assert (Fdims : forall d, 0 <= d < ConvLayer.out_depth L ->
            Vol.wf (ConvLayer.filter L d) /\
            Vol.sx (ConvLayer.filter L d) = ConvLayer.sx L /\
            Vol.sy (ConvLayer.filter L d) = ConvLayer.sy L /\
            Vol.depth (ConvLayer.filter L d) = ConvLayer.in_depth L).
  { intros d Hd. apply Hf. apply rd_In. lia. }
  pose proof (len_nonneg (Vol.w V)) as HVn.
  pose proof (conv_back_loops L V A ltac:(lia) ltac:(lia) Hod Hfl
                (repeat 0%Q (Z.to_nat (len (Vol.w V))))) as R.
  cbv zeta in R. rewrite T1, T2, T3, T4 in R.
  unfold ConvLayer.backward. rewrite Hin.
  rewrite (bind_ok _ _ _ _ _ (zeros_ok _ h HVn)). rewrite Hout.
  destruct (ConvLayer.backward_loops L V A (repeat 0%Q (Z.to_nat (len (Vol.w V)))))
    as [[fs Vdw] bdw].
  cbn [fst snd] in R. destruct R as ((Rlen & Rframe & _) & RV & Rb & Rf).
  eexists. exists Vdw. split; [reflexivity|].
  cbn [ConvLayer.in_act ConvLayer.out_act ConvLayer.with_params ConvLayer.filters
       ConvLayer.biases].
  split; [reflexivity|]. split; [exact Hout|].
  split; [destruct RV as (RVl & _); rewrite RVl; now apply len_repeat|].
  split; [|split; [exact Rlen | split; [|reflexivity]]].
  - (* the input gradient *)
    intros ox oy fd Hox Hoy Hfd.
    unfold Vol.get_grad, Vol.with_dw, Vol.ix. cbn [Vol.sx Vol.sy Vol.depth Vol.dw].
    destruct RV as (_ & RVv). rewrite RVv.
    2:{ rewrite len_repeat by exact HVn. rewrite VLw. now apply ix_bound. }
    rewrite rd_repeat, Qplus_0_l.
    apply sum_upto_ext. intros d Hd. destruct (Fdims d Hd) as (_ & F1 & F2 & F3).
    rewrite F1, F2, F3.
    apply sum_upto_ext. intros ay Hay. apply sum_upto_ext. intros ax Hax.
    apply sum_upto_ext. intros fy Hfy. apply sum_upto_ext. intros fx Hfx.
    rewrite HdV.
    rewrite (into_input_collapse (Vol.sx V) (Vol.sy V) (ConvLayer.in_depth L)
               (- ConvLayer.pad L + ax * ConvLayer.stride L + fx)
               (- ConvLayer.pad L + ay * ConvLayer.stride L + fy) ox oy fd
               (fun fd0 =>
                  (rd 0%Q (Vol.w (ConvLayer.filter L d))
                      (((ConvLayer.sx L * fy) + fx) * ConvLayer.in_depth L + fd0)
                   * rd 0%Q (Vol.dw A) (Vol.ix A ax ay d))%Q))
      by (assumption || lia).
    replace (ax * ConvLayer.stride L - ConvLayer.pad L + fx)
      with (- ConvLayer.pad L + ax * ConvLayer.stride L + fx) by lia.
    replace (ay * ConvLayer.stride L - ConvLayer.pad L + fy)
      with (- ConvLayer.pad L + ay * ConvLayer.stride L + fy) by lia.
    unfold Vol.get, Vol.ix. rewrite F1, F3. reflexivity.
  - intros d Hd. destruct (Fdims d Hd) as (Wf & F1 & F2 & F3).
    pose proof (Rframe d Hd) as Fr.
    match goal with
    | |- context [ConvLayer.filter ?X d] =>
        lazymatch X with
        | L => fail
        | _ => change (ConvLayer.filter X d) with (rd ConvLayer.no_filter fs d)
        end
    end.
    split; [exact Fr|]. split.
    + (* the gradient of filter [d] *)
      intros fx fy fd Hfx Hfy Hfd.
      assert (Ex : Vol.sx (rd ConvLayer.no_filter fs d) = ConvLayer.sx L)
        by (rewrite <- F1; exact (f_equal Vol.sx Fr)).
      assert (Ed : Vol.depth (rd ConvLayer.no_filter fs d) = ConvLayer.in_depth L)
        by (rewrite <- F3; exact (f_equal Vol.depth Fr)).
      unfold Vol.get_grad, Vol.ix. rewrite Ex, Ed, F1, F3.
      destruct (Rf d Hd) as (_ & Rv). rewrite Rv.
      2:{ destruct Wf as (_ & _ & _ & _ & Wdw). rewrite Wdw, F1, F2, F3.
          now apply ix_bound. }
      apply Qplus_comp; [reflexivity|].
      rewrite (sum_indicator (ConvLayer.out_depth L) d _ Hd).
      rewrite F1, F2, F3.
      apply sum_upto_ext. intros ay Hay. apply sum_upto_ext. intros ax Hax.
      rewrite (into_filter_collapse (ConvLayer.sx L) (ConvLayer.sy L)
                 (ConvLayer.in_depth L) (Vol.sx V) (Vol.sy V)
                 (- ConvLayer.pad L + ax * ConvLayer.stride L)
                 (- ConvLayer.pad L + ay * ConvLayer.stride L)
                 (fun fy0 fx0 fd0 =>
                    (rd 0%Q (Vol.w V)
                        (((Vol.sx V * (- ConvLayer.pad L + ay * ConvLayer.stride L + fy0))
                          + (- ConvLayer.pad L + ax * ConvLayer.stride L + fx0))
                         * Vol.depth V + fd0)
                     * rd 0%Q (Vol.dw A) (Vol.ix A ax ay d))%Q)
                 fx fy fd Hfx Hfy Hfd).
      replace (ax * ConvLayer.stride L - ConvLayer.pad L + fx)
        with (- ConvLayer.pad L + ax * ConvLayer.stride L + fx) by lia.
      replace (ay * ConvLayer.stride L - ConvLayer.pad L + fy)
        with (- ConvLayer.pad L + ay * ConvLayer.stride L + fy) by lia.
      reflexivity.
    + (* the gradient of bias [d] *)
      unfold Vol.get_grad, Vol.with_dw, Vol.ix. cbn [Vol.sx Vol.sy Vol.depth Vol.dw].
      rewrite Hb1, Hb3.
      replace ((1 * 0 + 0) * ConvLayer.out_depth L + d) with d by lia.
      destruct Rb as (_ & Rv). rewrite Rv.
      2:{ destruct Hb as (_ & _ & _ & _ & Wdw). rewrite Wdw, Hb1, Hb2, Hb3. lia. }
      apply Qplus_comp; [reflexivity|].
      apply (sum_pick (ConvLayer.out_depth L) d); [exact Hd|]. intros d' Hd'.
      destruct (Z.eqb_spec d' d) as [-> | Hne].
      * rewrite Z.eqb_refl. reflexivity.
      * destruct (Z.eqb_spec d d') as [E | _]; [congruence|].
        apply sum_upto_zero. intros ay _. apply sum_upto_zero. intros ax _. reflexivity.
Qed.

Lemma conv_backward_witness :
  let A := Vol.mk 4 4 1 (repeat 0%Q 16)
             [1; 2; 3; 4; 5; 6; 7; 8; 9; 10; 11; 12; 13; 14; 15; 16]%Q in
  let L := ConvLayer.with_acts Sample.conv (Some Sample.image) (Some A) in
  ConvLayer.wf L /\ ConvLayer.accepts L Sample.image /\
  exists L' g,
    ConvLayer.backward L Sample.host = Ok L' Sample.host /\
    ConvLayer.in_act L' = Some (Vol.with_dw Sample.image g) /\
    len g = len (Vol.w Sample.image) /\
    (Vol.get_grad (ConvLayer.biases L') 0 0 0 == 136)%Q.
Proof.
  intros A L.
  assert (W : ConvLayer.wf L).
  { unfold ConvLayer.wf, Vol.wf. simpl. split; [lia|]. split; [reflexivity|].
    split.
    - intros f [<-|[]]. simpl. repeat split; (lia || reflexivity).
    - repeat split; (lia || reflexivity). }
  assert (C : ConvLayer.accepts L Sample.image).
  { unfold ConvLayer.accepts, Vol.wf. simpl. repeat split; (lia || reflexivity). }
  split; [exact W|]. split; [exact C|].
  destruct (conv_backward_gradients L Sample.image A Sample.host W C eq_refl eq_refl)
    as (L' & g & E & Ein & _ & Hg & _ & _ & Hd & _).
  - unfold Spec.shaped. simpl. repeat split; reflexivity.
  - reflexivity.
  - exists L', g. split; [exact E|]. split; [exact Ein|]. split; [exact Hg|].
    destruct (Hd 0) as (_ & _ & Hb); [simpl; lia|].
    rewrite Hb. vm_compute. reflexivity.
Defined.

(* ================================================================== *)
(** ** The trainer's adaptive update rules *)

Section AdaptiveGroup.

Variables (T : Trainer.t) (sqrt : Q -> Q) (l1 l2 : Q).
Variables (p0 g0 gs0 xs0 : list Q) (L2 L1 : Q).

Hypothesis grads_len : len g0 = len p0.
Hypothesis gsum_len : len gs0 = len p0.
Hypothesis xsum_len : Net.streq (Trainer.method T) "adadelta" = true -> len xs0 = len p0.

Let a0 : Trainer.acc := Trainer.mkAcc L2 L1 p0 g0 gs0 xs0.




End AdaptiveGroup.




(* ================================================================== *)
(** ** Desugaring: loss layers and their fully connected layer *)

Section DesugarLoss.

Let loss_fed (out : list Opt.t) : Prop :=
  forall k, 0 <= k < len out ->
    let d := rd Net.no_def out k in
    (Opt.type d = "softmax"%string \/ Opt.type d = "svm"%string ->
     1 <= k /\ rd Net.no_def out (k - 1) = Opt.fc_literal (Opt.num_classes d)) /\
    (Opt.type d = "regression"%string ->
     1 <= k /\ rd Net.no_def out (k - 1) = Opt.fc_literal (Opt.num_neurons d)).

Lemma fed_snoc (out : list Opt.t) (d : Opt.t) :
  loss_fed out ->
  (Opt.type d = "softmax"%string \/ Opt.type d = "svm"%string ->
   1 <= len out /\
   rd Net.no_def out (len out - 1) = Opt.fc_literal (Opt.num_classes d)) ->
  (Opt.type d = "regression"%string ->
   1 <= len out /\
   rd Net.no_def out (len out - 1) = Opt.fc_literal (Opt.num_neurons d)) ->
  loss_fed (out ++ [d]).
Proof.
  intros Hout Hc Hr k Hk. rewrite len_app in Hk. change (len [d]) with 1 in Hk.
  destruct (Z.eq_dec k (len out)) as [-> | Hne].
  - cbv zeta. rewrite rd_app_right by lia. rewrite Z.sub_diag.
    change (rd Net.no_def [d] 0) with d.
    split; intros Ht.
    + destruct (Hc Ht) as (H1 & H2). split; [lia|].
      rewrite rd_app_left by lia. exact H2.
    + destruct (Hr Ht) as (H1 & H2). split; [lia|].
      rewrite rd_app_left by lia. exact H2.
  - cbv zeta. rewrite (rd_app_left _ out [d] k) by lia.
    destruct (Hout k ltac:(lia)) as (Ac & Ar).
    split; intros Ht.
    + destruct (Ac Ht) as (H1 & H2). split; [lia|].
      rewrite rd_app_left by lia. exact H2.
    + destruct (Ar Ht) as (H1 & H2). split; [lia|].
      rewrite rd_app_left by lia. exact H2.
Qed.

Lemma fed_snoc_plain (out : list Opt.t) (d : Opt.t) :
  loss_fed out ->
  Opt.type d <> "softmax"%string -> Opt.type d <> "svm"%string ->
  Opt.type d <> "regression"%string ->
  loss_fed (out ++ [d]).
Proof.
  intros Hout H1 H2 H3. apply fed_snoc; [exact Hout | |];
    intros Ht; exfalso; tauto.
Qed.

Lemma desugar_def_fed (def : Opt.t) (new_defs : list Opt.t) (h : World) :
  loss_fed new_defs ->
  exists out h', Net.desugar_def def new_defs h = Ok out h' /\ loss_fed out.
Proof.
  intros H0. unfold Net.desugar_def.
  set (nd1 := if Net.streq (Opt.type def) "softmax" || Net.streq (Opt.type def) "svm"
              then new_defs ++ [Opt.fc_literal (Opt.num_classes def)] else new_defs).
  set (nd2 := if Net.streq (Opt.type def) "regression"
              then nd1 ++ [Opt.fc_literal (Opt.num_neurons def)] else nd1).
  set (def' := if (Net.streq (Opt.type def) "fc" || Net.streq (Opt.type def) "conv")
                  && negb (Net.defined (Opt.bias_pref def))
               then _ else def).
  assert (F1 : loss_fed nd1).
  { subst nd1. destruct (_ || _); [|exact H0].
    apply fed_snoc_plain; [exact H0 | | |]; discriminate. }
  assert (T1 : Opt.type def = "softmax"%string \/ Opt.type def = "svm"%string ->
               1 <= len nd1 /\
               rd Net.no_def nd1 (len nd1 - 1) = Opt.fc_literal (Opt.num_classes def)).
  { intros Ht. subst nd1. unfold Net.streq.
    replace (String.eqb (Opt.type def) "softmax" || String.eqb (Opt.type def) "svm")
      with true
      by (destruct Ht as [-> | ->]; reflexivity).
    pose proof (len_nonneg new_defs). rewrite len_app. change (len [_]) with 1.
    split; [lia|]. rewrite rd_app_right by lia.
    replace (len new_defs + 1 - 1 - len new_defs) with 0 by lia. reflexivity. }
  assert (F2 : loss_fed nd2).
  { subst nd2. destruct (Net.streq (Opt.type def) "regression"); [|exact F1].
    apply fed_snoc_plain; [exact F1 | | |]; discriminate. }
  assert (T2 : Opt.type def = "softmax"%string \/ Opt.type def = "svm"%string ->
               1 <= len nd2 /\
               rd Net.no_def nd2 (len nd2 - 1) = Opt.fc_literal (Opt.num_classes def)).
  { intros Ht. subst nd2. unfold Net.streq.
    replace (String.eqb (Opt.type def) "regression") with false
      by (destruct Ht as [-> | ->]; reflexivity).
    exact (T1 Ht). }
  assert (T3 : Opt.type def = "regression"%string ->
               1 <= len nd2 /\
               rd Net.no_def nd2 (len nd2 - 1) = Opt.fc_literal (Opt.num_neurons def)).
  { intros Ht. subst nd2. unfold Net.streq. rewrite Ht.
    change (String.eqb "regression" "regression") with true. cbv iota.
    pose proof (len_nonneg nd1). rewrite len_app. change (len [_]) with 1.
    split; [lia|]. rewrite rd_app_right by lia.
    replace (len nd1 + 1 - 1 - len nd1) with 0 by lia. reflexivity. }
  assert (D : Opt.type def' = Opt.type def /\
              Opt.num_classes def' = Opt.num_classes def /\
              Opt.num_neurons def' = Opt.num_neurons def).
  { subst def'. destruct (_ && _); [|auto].
    destruct (Opt.activation def) as [a|]; [destruct (Net.streq a "relu")|]; auto. }
  destruct D as (Dt & Dc & Dn).
  assert (F3 : loss_fed (nd2 ++ [def'])).
  { apply fed_snoc; [exact F2 | |]; rewrite Dt.
    - rewrite Dc. exact T2.
    - rewrite Dn. exact T3. }
  clearbody nd1 nd2 def'.
  match goal with
  | |- exists out h', bind ?m ?k h = _ /\ _ =>
      assert (M : exists nd h1, m h = Ok nd h1 /\ loss_fed nd)
  end.
  { destruct (Opt.activation def') as [a|]; [|eexists; eexists; split; [reflexivity | exact F3]].
    repeat match goal with
           | |- context [if ?b then _ else _] => destruct b
           end; eexists; eexists;
      (split; [reflexivity|]);
      try exact F3; (apply fed_snoc_plain; [exact F3 | | |]; discriminate). }
  destruct M as (nd & h1 & M & F4). rewrite (bind_ok _ _ _ _ _ M).
  eexists. eexists. split; [reflexivity|].
  destruct (_ && _); [|exact F4].
  apply fed_snoc_plain; [exact F4 | | |]; discriminate.
Qed.

(** X28 -- [desugar] gives every loss layer its fully connected layer.
    Desugaring a list of layer definitions returns, and in the list it
    returns every definition of type ['softmax'] or ['svm'] stands directly
    after the definition [{type:'fc', num_neurons: num_classes}] made from
    its own [num_classes], and every definition of type ['regression']
    directly after [{type:'fc', num_neurons: num_neurons}] made from its own
    [num_neurons]: no activation or dropout definition comes between. *)
Theorem desugar_feeds_loss_layers (defs : list Opt.t) (h : World) :
  exists out h',
    Net.desugar defs h = Ok out h' /\
    forall k, 0 <= k < len out ->
      let d := rd Net.no_def out k in
      (Opt.type d = "softmax"%string \/ Opt.type d = "svm"%string ->
       1 <= k /\ rd Net.no_def out (k - 1) = Opt.fc_literal (Opt.num_classes d)) /\
      (Opt.type d = "regression"%string ->
       1 <= k /\ rd Net.no_def out (k - 1) = Opt.fc_literal (Opt.num_neurons d)).
Proof.
  unfold Net.desugar.
  destruct (for_js_ind (fun _ out => loss_fed out) (fun _ => True)
              (len defs)
              (fun i new_defs => Net.desugar_def (rd Net.no_def defs i) new_defs)
              [] h) as (out & h' & E & F & _).
  - apply len_nonneg.
  - intros k Hk. change (len (@nil Opt.t)) with 0 in Hk. lia.
  - exact I.
  - intros i st h1 _ F _.
    destruct (desugar_def_fed (rd Net.no_def defs i) st h1 F) as (o & h2 & E & F').
    exists o, h2. auto.
  - exists out, h'. split; [exact E | exact F].
Qed.

End DesugarLoss.


(* ================================================================== *)
(** ** The network's backward pass *)

Lemma backward_below_snoc (E : ExtLayer.impl) (pre : list Layer.t) (l : Layer.t)
      (above : list Layer.t) (h : World) :
  Spec.backward_below E (pre ++ [l]) above h
  = bind (upper <- item above 0 ;;
          b <- Layer.backward E (Net.share l upper) None ;;
          ret (fst b :: above))
         (fun above' => Spec.backward_below E pre above') h.
Proof.
  revert h. induction pre as [|x pre IH]; intros h.
  - cbn [app Spec.backward_below].
    change (bind (ret above) ?k) with (k above). cbv beta.
    unfold bind, ret.
    destruct (item above 0 h) as [u h1|e]; [|reflexivity].
    destruct (Layer.backward E (Net.share l u) None h1) as [b h2|e]; reflexivity.
  - cbn [app Spec.backward_below].
    unfold bind at 1. rewrite IH. unfold bind, ret.
    destruct (item above 0 h) as [u h1|e]; [|reflexivity].
    destruct (Layer.backward E (Net.share l u) None h1) as [b h2|e]; reflexivity.
Qed.

Lemma backward_loop_chain (E : ExtLayer.impl) (pre above : list Layer.t) (h : World) :
  for_down_js (len pre - 1)
    (fun i ls =>
       l <- item ls i ;;
       upper <- item ls (i + 1) ;;
       b <- Layer.backward E (Net.share l upper) None ;;
       ret (wr ls i (fst b)))
    (pre ++ above) h
  = Spec.backward_below E pre above h.
Proof.
  revert above h. induction pre as [|l pre IH] using rev_ind; intros above h.
  - reflexivity.
  - pose proof (len_nonneg pre) as Hp.
    rewrite backward_below_snoc. unfold for_down_js.
    rewrite len_app. change (len [l]) with 1.
    replace (len pre + 1 - 1 + 1) with (len pre + 1) by lia.
    rewrite range_snoc by lia. rewrite rev_app_distr. cbn [rev app fold_left].
    rewrite fold_bind.
    change (bind (ret ((pre ++ [l]) ++ above)) ?k) with (k ((pre ++ [l]) ++ above)).
    cbv beta. rewrite <- app_assoc. cbn [app].
    rewrite bind_assoc, (bind_ok _ _ _ _ _ (item_app_mid pre l above h)).
    rewrite !bind_assoc.
    assert (U : item (pre ++ l :: above) (len pre + 1) h = item above 0 h).
    { unfold item, len. destruct (Z.ltb_spec (Z.of_nat (List.length pre) + 1) 0); [lia|].
      replace (Z.to_nat (Z.of_nat (List.length pre) + 1))
        with (List.length pre + 1)%nat by lia.
      rewrite nth_error_app2 by lia.
      replace (List.length pre + 1 - List.length pre)%nat with 1%nat by lia.
      reflexivity. }
    destruct (item above 0 h) as [u h1|e] eqn:EU.
    2:{ now rewrite (bind_throw _ _ _ _ U), (bind_throw _ _ _ _ EU). }
    rewrite (bind_ok _ _ _ _ _ U), (bind_ok _ _ _ _ _ EU).
    rewrite !bind_assoc.
    destruct (Layer.backward E (Net.share l u) None h1) as [b h2|e] eqn:EB.
    2:{ now rewrite !(bind_throw _ _ _ _ EB). }
    rewrite !(bind_ok _ _ _ _ _ EB).
    rewrite wr_app_mid.
    change (bind (ret ?x) ?k h2) with (k x h2). cbv beta.
    pose proof (IH (fst b :: above) h2) as R. unfold for_down_js in R.
    replace (len pre - 1 + 1) with (len pre) in R by lia. exact R.
Qed.

Lemma removelast_snoc {A} (l : list A) :
  l <> [] -> exists a, l = removelast l ++ [a] /\ len l = len (removelast l) + 1.
Proof.
  intros Hne. destruct (exists_last Hne) as (pre & a & ->).
  exists a. rewrite removelast_last, len_app. split; reflexivity.
Qed.

(** X29 -- [Net.backward].  It runs the layers' backward passes from the
    last layer to the first: the last layer is handed the target [y], what
    it returns is the loss the network returns, every other layer is called
    without argument after the layer above it, and the layers are replaced by
    the ones the passes leave; an exception of a layer ends the pass.  On a
    network without layers it throws a [TypeError]. *)
Theorem net_backward_is_layer_chain (E : ExtLayer.impl) (N : Net.t)
        (y : option ExtLayer.target) (h : World) :
  Net.backward E N y h
  = bind (Spec.backward_chain E (Net.layers N) y)
         (fun r => ret (Net.mk (fst r), snd r)) h /\
  (Net.layers N = [] -> Net.backward E N y h = Throw TypeError).
Proof.
  split.
  2:{ intros EL. unfold Net.backward. rewrite EL. reflexivity. }
  unfold Net.backward, Spec.backward_chain. cbv zeta.
  rewrite bind_assoc.
  destruct (item (Net.layers N) (len (Net.layers N) - 1) h) as [last h0|e] eqn:EI.
  2:{ now rewrite !(bind_throw _ _ _ _ EI). }
  rewrite !(bind_ok _ _ _ _ _ EI). rewrite bind_assoc.
  destruct (Layer.backward E last y h0) as [r h1|e] eqn:EB.
  2:{ now rewrite !(bind_throw _ _ _ _ EB). }
  rewrite !(bind_ok _ _ _ _ _ EB). rewrite bind_assoc.
  assert (Hne : Net.layers N <> []).
  { intros EL. rewrite EL in EI. discriminate. }
  destruct (removelast_snoc (Net.layers N) Hne) as (a & EL & Hlen).
  set (pre := removelast (Net.layers N)) in *.
  rewrite Hlen. replace (len pre + 1 - 2) with (len pre - 1) by lia.
  replace (len pre + 1 - 1) with (len pre) by lia.
  rewrite EL at 1. rewrite wr_app_mid.
  pose proof (backward_loop_chain E pre [fst r] h1) as R.
  destruct (Spec.backward_below E pre [fst r] h1) as [ls h2|e] eqn:EC.
  - rewrite (bind_ok _ _ _ _ _ R), (bind_ok _ _ _ _ _ EC). reflexivity.
  - now rewrite (bind_throw _ _ _ _ R), (bind_throw _ _ _ _ EC).
Qed.

Lemma net_backward_chain_witness :
  Net.layers (Net.mk []) = [] /\
  Net.backward Sample.ext (Net.mk []) None Sample.host = Throw TypeError.
Proof.
  split; [reflexivity|].
  exact (proj2 (net_backward_is_layer_chain Sample.ext (Net.mk []) None Sample.host)
               eq_refl).
Defined.
